(** * SylvaWebsite: the interaction module [js/main.js]

    A shallow embedding of the client-side module of the landing page:
    the scroll-linked visual effects ([updateHeroFade],
    [updateOrbPositions] and their [requestTick] throttles), the mobile
    menu ([toggleMenu]), the waitlist form submit handler
    ([initWaitlistForm]) and the rotating lifecycle panel
    ([initLifecyclePanel]); then the dark mode transitions
    ([updateSectionThemes]), the navbar scroll effect ([updateNavbar]),
    the listeners of the mobile menu, the section highlighting
    ([highlightNavigation]), the reveal observer of
    [initScrollAnimations], the smooth scrolling of the anchors
    ([initSmoothScrolling]) and the staggered card reveals of
    [initHighlightEffects].

    Conventions.
    - A JavaScript Number is a value of [num]: a finite rational or one of
      the IEEE special values +Infinity, -Infinity, NaN.  Finite results
      are exact (binary rounding is not modelled) and zero has one sign
      (every zero divisor that the module can build, a height or a height
      times a positive constant, is +0).
    - Closures that the module hands to [setTimeout], [setInterval] and
      [requestAnimationFrame] are constructors of an inductive type of
      actions; the variables a closure captures are its arguments.
    - Timers count down in milliseconds; callbacks due at the same
      millisecond run in registration order. *)

From Stdlib Require Import ZArith QArith Lqa Lia Ascii.
From stdpp Require Import base list strings.

(** ** JavaScript numbers *)

Module JSNum.

Local Open Scope Q_scope.

Inductive num : Type :=
| Fin (q : Q)
| PInf
| NInf
| NaN.

Definition Qltb (a b : Q) : bool := negb (Qle_bool b a).

Definition is_finite (x : num) : bool :=
  match x with Fin _ => true | _ => false end.

(** An infinity or NaN. *)
Definition special (x : num) : Prop := is_finite x = false.

Definition of_Z (z : Z) : num := Fin (inject_Z z).
Definition of_nat (n : nat) : num := of_Z (Z.of_nat n).

Definition neg (x : num) : num :=
  match x with
  | Fin q => Fin (- q)
  | PInf => NInf
  | NInf => PInf
  | NaN => NaN
  end.

Definition add (x y : num) : num :=
  match x, y with
  | NaN, _ | _, NaN => NaN
  | Fin a, Fin b => Fin (a + b)
  | PInf, NInf | NInf, PInf => NaN
  | PInf, _ | _, PInf => PInf
  | NInf, _ | _, NInf => NInf
  end.

Definition sub (x y : num) : num := add x (neg y).

(** Sign of a finite value, as the comparison of 0 with it: [Lt] for a
    positive value, [Gt] for a negative one, [Eq] for zero. *)
Definition sgn (q : Q) : comparison := (0 ?= q)%Q.

Definition inf_of (c : comparison) : num :=
  match c with
  | Lt => PInf
  | Gt => NInf
  | Eq => NaN
  end.

Definition flip (c : comparison) : comparison := CompOpp c.

Definition mul (x y : num) : num :=
  match x, y with
  | NaN, _ | _, NaN => NaN
  | Fin a, Fin b => Fin (a * b)
  | Fin a, PInf | PInf, Fin a => inf_of (sgn a)
  | Fin a, NInf | NInf, Fin a => inf_of (flip (sgn a))
  | PInf, PInf | NInf, NInf => PInf
  | PInf, NInf | NInf, PInf => NInf
  end.

(** [x / y].  A finite value over zero is an infinity of the sign of the
    dividend, and 0/0 is NaN. *)
Definition div (x y : num) : num :=
  match x, y with
  | NaN, _ | _, NaN => NaN
  | Fin a, Fin b =>
      if Qeq_bool b 0 then inf_of (sgn a) else Fin (a / b)
  | Fin _, (PInf | NInf) => Fin 0
  | PInf, Fin b => if Qltb b 0 then NInf else PInf
  | NInf, Fin b => if Qltb b 0 then PInf else NInf
  | (PInf | NInf), (PInf | NInf) => NaN
  end.

(** [Math.max] and [Math.min]: NaN when an argument is NaN. *)
Definition max (x y : num) : num :=
  match x, y with
  | NaN, _ | _, NaN => NaN
  | PInf, _ | _, PInf => PInf
  | NInf, z | z, NInf => z
  | Fin a, Fin b => if Qle_bool a b then Fin b else Fin a
  end.

Definition min (x y : num) : num :=
  match x, y with
  | NaN, _ | _, NaN => NaN
  | NInf, _ | _, NInf => NInf
  | PInf, z | z, PInf => z
  | Fin a, Fin b => if Qle_bool a b then Fin a else Fin b
  end.

(** [x < y] and [x > y]: false when an operand is NaN. *)
Definition lt (x y : num) : bool :=
  match x, y with
  | NaN, _ | _, NaN => false
  | Fin a, Fin b => Qltb a b
  | NInf, NInf | PInf, _ => false
  | NInf, _ => true
  | Fin _, PInf => true
  | Fin _, NInf => false
  end.

Definition gt (x y : num) : bool := lt y x.

(** [Math.pow(x, 3)]. *)
Definition pow3 (x : num) : num := mul x (mul x x).

(** A value of the closed interval [0, 1]; no special value is one. *)
Definition in_unit (x : num) : Prop :=
  match x with
  | Fin q => 0 <= q <= 1
  | _ => False
  end.

End JSNum.

(** ** Scroll-linked effects *)

Module ScrollFx.
Import JSNum.

Local Open Scope Q_scope.

(** The style properties [updateHeroFade] writes on the hero element. *)
Record HeroStyle : Type := {
  hero_opacity : num;
  hero_translateY : num;
  hero_scale : num
}.

(** [updateHeroFade], as a function of [window.scrollY] and
    [header.offsetHeight]. *)
Definition updateHeroFade (scrollY headerHeight : num) : HeroStyle :=
  let fadeStart := Fin 50 in
  let fadeEnd := mul headerHeight (Fin 0.8) in
  let fadeProgress :=
    max (Fin 0)
      (min (Fin 1) (div (sub scrollY fadeStart) (sub fadeEnd fadeStart))) in
  let easedFade := sub (Fin 1) (pow3 (sub (Fin 1) fadeProgress)) in
  let translateAmount := Fin 40 in
  let scaleAmount := Fin 0.02 in
  {| hero_opacity := sub (Fin 1) easedFade;
     hero_translateY := mul (neg easedFade) translateAmount;
     hero_scale := sub (Fin 1) (mul easedFade scaleAmount) |}.

(** The style properties [updateOrbPositions] writes on one orb. *)
Record OrbStyle : Type := {
  orb_x : num;
  orb_y : num;
  orb_opacity : num
}.

Section Orbs.

(** [Math.sin] on finite arguments and [Math.PI] come from the host; the
    language fixes [Math.sin] on the special values. *)
Variable sin_fin : Q -> Q.
Variable PI : Q.

Definition sin (x : num) : num :=
  match x with
  | Fin q => Fin (sin_fin q)
  | _ => NaN
  end.

(** [scrollProgress] of [updateOrbPositions]. *)
Definition scrollProgress (rect_top sectionHeight : num) : num :=
  div (neg rect_top) sectionHeight.

(** The body of the [orbs.forEach] callback of [updateOrbPositions] for
    the orb at [index]. *)
Definition orbStyle (rect_top sectionHeight : num) (isMobile : bool)
    (index : nat) : OrbStyle :=
  let scrollIntoSection := neg rect_top in
  let scrollProgress := scrollProgress rect_top sectionHeight in
  let idx := of_nat index in
  let startY :=
    add (mul sectionHeight (Fin 0.7))
        (mul idx (if isMobile then Fin 60 else Fin 80)) in
  let speed :=
    if isMobile then add (Fin 0.6) (mul idx (Fin 0.1))
    else add (Fin 0.8) (mul idx (Fin 0.15)) in
  let orbY := sub startY (mul scrollIntoSection speed) in
  let baseX :=
    add (mul (sub (of_nat (index mod 4)) (Fin 1.5))
             (if isMobile then Fin 150 else Fin 200))
        (mul idx (if isMobile then Fin 20 else Fin 30)) in
  let wobble :=
    mul (sin (add (mul (mul scrollProgress (Fin PI)) (Fin 2)) idx))
        (if isMobile then Fin 12 else Fin 20) in
  let orbX := add baseX wobble in
  let factor := if isMobile then Fin 0.75 else Fin 0.85 in
  let opacity := factor in
  let opacity :=
    if gt orbY (mul sectionHeight (Fin 0.8)) then
      mul (max (Fin 0)
             (sub (Fin 1)
                (div (sub orbY (mul sectionHeight (Fin 0.8)))
                     (mul sectionHeight (Fin 0.3)))))
          factor
    else opacity in
  let opacity :=
    if lt orbY (mul sectionHeight (Fin 0.1)) then
      mul (max (Fin 0) (div orbY (mul sectionHeight (Fin 0.1)))) factor
    else opacity in
  {| orb_x := orbX; orb_y := orbY; orb_opacity := opacity |}.

(** [updateOrbPositions]: the styles written on the [norbs] orbs, from
    [whatIsSection.getBoundingClientRect().top],
    [whatIsSection.offsetHeight] and [window.innerWidth]. *)
Definition updateOrbPositions (rect_top : num) (sectionHeight innerWidth : Z)
    (norbs : nat) : list OrbStyle :=
  let isMobile := (innerWidth <=? 768)%Z in
  map (orbStyle rect_top (of_Z sectionHeight) isMobile) (seq 0 norbs).

End Orbs.

(** *** The [requestTick] throttle

    [initHeroFade] and [initOrbParallax] each own a [ticking] flag and
    pass their recompute function to [requestAnimationFrame].  [Env] is
    what the recompute reads from the window (scroll position,
    geometry), [View] what it writes. *)

Section Throttle.

Context {Env View : Type}.
Variable recompute : Env -> View.

(** The callbacks this controller can have in the browser's list of
    animation frame callbacks. *)
Inductive callback : Type := Update.

Record ctl : Type := {
  env : Env;
  ticking : bool;
  frame_queue : list callback;
  view : option View;
  runs : nat
}.

(** The recompute function ([updateHeroFade], [updateOrbPositions]): it
    writes the styles and clears the flag. *)
Definition update (s : ctl) : ctl :=
  {| env := env s; ticking := false; frame_queue := frame_queue s;
     view := Some (recompute (env s)); runs := S (runs s) |}.

Definition requestAnimationFrame (cb : callback) (s : ctl) : ctl :=
  {| env := env s; ticking := ticking s;
     frame_queue := frame_queue s ++ [cb];
     view := view s; runs := runs s |}.

Definition requestTick (s : ctl) : ctl :=
  if negb (ticking s) then
    let s := requestAnimationFrame Update s in
    {| env := env s; ticking := true; frame_queue := frame_queue s;
       view := view s; runs := runs s |}
  else s.

Definition run_callback (s : ctl) (cb : callback) : ctl :=
  match cb with Update => update s end.

Inductive event : Type :=
| Scroll (e : Env)   (* the window scrolls to [e]; the listener runs *)
| Frame.             (* the browser runs the animation frame callbacks *)

Definition step (s : ctl) (ev : event) : ctl :=
  match ev with
  | Scroll e =>
      requestTick
        {| env := e; ticking := ticking s; frame_queue := frame_queue s;
           view := view s; runs := runs s |}
  | Frame =>
      fold_left run_callback (frame_queue s)
        {| env := env s; ticking := ticking s; frame_queue := [];
           view := view s; runs := runs s |}
  end.

Definition exec (s : ctl) (evs : list event) : ctl := fold_left step evs s.

(** The controller when the listener is attached. *)
Definition attached (e : Env) (v : option View) : ctl :=
  {| env := e; ticking := false; frame_queue := []; view := v; runs := 0 |}.

Definition is_frame (ev : event) : bool :=
  match ev with Frame => true | Scroll _ => false end.

Definition frames (evs : list event) : nat := length (filter is_frame evs).

(** The flag mirrors the callback list: one pending callback while
    [ticking], none otherwise. *)
Definition coalesced (s : ctl) : Prop :=
  frame_queue s = if ticking s then [Update] else [].

End Throttle.

(** [initHeroFade]: nothing is installed without the hero or the header,
    under reduced motion, or on a small viewport. *)
Definition initHeroFade (hero header : bool) (prefersReducedMotion : bool)
    (innerWidth : Z) (scrollY headerHeight : num)
  : option (@ctl (num * num) HeroStyle) :=
  if negb hero || negb header then None
  else if prefersReducedMotion || (innerWidth <=? 768)%Z then None
  else Some (attached (scrollY, headerHeight) None).

(** What [updateOrbPositions] reads: the top of the section rectangle,
    the section height and the window width. *)
Definition OrbEnv : Type := num * Z * Z.

Definition orbRecompute (sin_fin : Q -> Q) (PI : Q) (norbs : nat)
    (e : OrbEnv) : list OrbStyle :=
  let '(rect_top, sectionHeight, innerWidth) := e in
  updateOrbPositions sin_fin PI rect_top sectionHeight innerWidth norbs.

(** [initOrbParallax]: nothing is installed under reduced motion, on a
    small viewport, without the section or without orbs; otherwise the
    listener is attached and [updateOrbPositions] is called once. *)
Definition initOrbParallax (sin_fin : Q -> Q) (PI : Q)
    (prefersReducedMotion : bool) (whatIsSection : bool) (norbs : nat)
    (e : OrbEnv) : option (@ctl OrbEnv (list OrbStyle)) :=
  if prefersReducedMotion || (snd e <=? 768)%Z then None
  else if negb whatIsSection || (norbs =? 0)%nat then None
  else Some (update (orbRecompute sin_fin PI norbs) (attached e None)).

End ScrollFx.

(** ** Timers

    [setTimeout], [setInterval] and [clearInterval] over a page state
    [browser D A]: [D] is the part of the document and of the closure
    variables a component owns, [A] the type of its timer callbacks. *)

Module Timers.

Section Timers.

Context {D A : Type}.

Record timer : Type := {
  tid : nat;
  remaining : N;            (* milliseconds until the callback is due *)
  period : option N;        (* [Some p] for an interval of [p] ms *)
  act : A
}.

Record browser : Type := {
  dom : D;
  timers : list timer;
  next_tid : nat
}.

Definition with_dom (d : D) (b : browser) : browser :=
  {| dom := d; timers := timers b; next_tid := next_tid b |}.

Definition map_dom (f : D -> D) (b : browser) : browser :=
  with_dom (f (dom b)) b.

(** A callback never runs in the task that registers it: a delay of 0
    is due at the next millisecond. *)
Definition register (a : A) (delay : N) (p : option N) (b : browser)
  : browser * nat :=
  let id := next_tid b in
  ({| dom := dom b;
      timers := timers b ++
        [{| tid := id; remaining := N.max 1 delay; period := p; act := a |}];
      next_tid := S id |}, id).

Definition setTimeout (a : A) (delay : N) (b : browser) : browser * nat :=
  register a delay None b.

Definition setInterval (a : A) (delay : N) (b : browser) : browser * nat :=
  register a delay (Some delay) b.

Definition clearTimer (id : nat) (b : browser) : browser :=
  {| dom := dom b;
     timers := filter (fun t => tid t ≠ id) (timers b);
     next_tid := next_tid b |}.

Definition countdown (t : timer) : timer :=
  {| tid := tid t; remaining := N.pred (remaining t);
     period := period t; act := act t |}.

Definition is_due (t : timer) : Prop := remaining t = 0%N.

#[global] Instance is_due_dec (t : timer) : Decision (is_due t) :=
  N.eq_dec (remaining t) 0%N.

(** A due timeout leaves the list; a due interval is armed again. *)
Definition rearm (t : timer) : option timer :=
  if decide (is_due t) then
    match period t with
    | Some p =>
        Some {| tid := tid t; remaining := N.max 1 p;
                period := period t; act := act t |}
    | None => None
    end
  else Some t.

Variable run : A -> browser -> browser.

Definition run_all (due : list timer) (b : browser) : browser :=
  fold_left (fun b t => run (act t) b) due b.

(** One millisecond passes: the callbacks that become due run in
    registration order.  (No timer callback of the module clears a
    timer, so a due callback is never cancelled by an earlier one.) *)
Definition tick_ms (b : browser) : browser :=
  let ts := countdown <$> timers b in
  run_all (filter is_due ts)
    {| dom := dom b; timers := omap rearm ts; next_tid := next_tid b |}.

Definition elapse (ms : N) (b : browser) : browser :=
  N.iter ms tick_ms b.

End Timers.

Arguments timer : clear implicits.
Arguments browser : clear implicits.

End Timers.

(** ** Class lists and markup strings *)

Module Dom.

(** [classList.add], [classList.remove] and [classList.toggle(c, force)]
    on the ordered token list of an element. *)
Definition class_add (c : string) (l : list string) : list string :=
  if bool_decide (c ∈ l) then l else l ++ [c].

Definition class_remove (c : string) (l : list string) : list string :=
  filter (fun x => x ≠ c) l.

Definition class_toggle (c : string) (force : bool) (l : list string)
  : list string :=
  if force then class_add c l else class_remove c l.

(** The string JavaScript gives a boolean passed to [setAttribute]. *)
Definition string_of_bool (b : bool) : string :=
  if b then "true" else "false".

(** The double quote character of the markup literals. *)
Definition dq : string := String "034"%char EmptyString.

End Dom.

(** ** Mobile menu *)

Module Menu.
Import Timers Dom.

Inductive focus_target : Type :=
| MenuToggle
| NavItem (i : nat).

(** The callbacks [toggleMenu] passes to [setTimeout]. *)
Inductive action : Type :=
| FocusFirstNavItem
| FocusMenuToggle.

Record state : Type := {
  (* closure variables of [initMobileMenu] *)
  isMenuOpen : bool;
  scrollbarWidth : Z;
  (* [menuToggle] *)
  aria_expanded : option string;
  toggle_classes : list string;
  (* [navOverlay], [navLinks], [document.documentElement] *)
  overlay_classes : list string;
  navlinks_classes : list string;
  html_classes : list string;
  (* [--scrollbar-width] on [document.body], in px *)
  body_scrollbar_width : option Z;
  activeElement : option focus_target;
  (* read only *)
  navItems : nat;
  innerWidth : Z;
  clientWidth : Z
}.

Definition page : Type := browser state action.

Definition getScrollbarWidth (d : state) : Z :=
  (innerWidth d - clientWidth d)%Z.

(** The synchronous part of [toggleMenu] on the document. *)
Definition toggle_dom (d : state) : state :=
  let isMenuOpen' := negb (isMenuOpen d) in
  {| isMenuOpen := isMenuOpen';
     scrollbarWidth :=
       if isMenuOpen' then getScrollbarWidth d else scrollbarWidth d;
     aria_expanded := Some (string_of_bool isMenuOpen');
     toggle_classes := class_toggle "active" isMenuOpen' (toggle_classes d);
     overlay_classes := class_toggle "active" isMenuOpen' (overlay_classes d);
     navlinks_classes :=
       class_toggle "active" isMenuOpen' (navlinks_classes d);
     html_classes :=
       if isMenuOpen' then class_add "menu-open" (html_classes d)
       else class_remove "menu-open" (html_classes d);
     body_scrollbar_width :=
       if isMenuOpen' then Some (getScrollbarWidth d)
       else body_scrollbar_width d;
     activeElement := activeElement d;
     navItems := navItems d;
     innerWidth := innerWidth d;
     clientWidth := clientWidth d |}.

Definition toggleMenu (b : page) : page :=
  let b := map_dom toggle_dom b in
  if isMenuOpen (dom b) then fst (setTimeout FocusFirstNavItem 50 b)
  else fst (setTimeout FocusMenuToggle 50 b).

Definition closeMenu (b : page) : page :=
  if isMenuOpen (dom b) then toggleMenu b else b.

Definition set_focus (f : option focus_target) (d : state) : state :=
  {| isMenuOpen := isMenuOpen d; scrollbarWidth := scrollbarWidth d;
     aria_expanded := aria_expanded d; toggle_classes := toggle_classes d;
     overlay_classes := overlay_classes d;
     navlinks_classes := navlinks_classes d;
     html_classes := html_classes d;
     body_scrollbar_width := body_scrollbar_width d;
     activeElement := f; navItems := navItems d;
     innerWidth := innerWidth d; clientWidth := clientWidth d |}.

Definition run (a : action) (b : page) : page :=
  match a with
  | FocusFirstNavItem =>
      if (0 <? navItems (dom b))%nat
      then map_dom (set_focus (Some (NavItem 0))) b else b
  | FocusMenuToggle => map_dom (set_focus (Some MenuToggle)) b
  end.

(** What the toggle mirrors the menu state into: the ARIA attribute and
    the classes of the four elements. *)
Record mirror : Type := {
  m_aria_expanded : option string;
  m_toggle : list string;
  m_overlay : list string;
  m_navlinks : list string;
  m_html : list string
}.

Definition mirror_of (d : state) : mirror :=
  {| m_aria_expanded := aria_expanded d;
     m_toggle := toggle_classes d;
     m_overlay := overlay_classes d;
     m_navlinks := navlinks_classes d;
     m_html := html_classes d |}.

(** The closed-menu state: the flag is false and the document mirrors
    it, as [toggleMenu] leaves it when it closes the menu. *)
Definition closed (d : state) : Prop :=
  isMenuOpen d = false ∧
  aria_expanded d = Some "false" ∧
  ("active" ∉ toggle_classes d) ∧
  ("active" ∉ overlay_classes d) ∧
  ("active" ∉ navlinks_classes d) ∧
  ("menu-open" ∉ html_classes d).

(** [initMobileMenu]: without the toggle, the overlay or the link list
    nothing is installed; the menu starts closed. *)
Definition initMobileMenu (menuToggle navOverlay navLinks : bool)
    (d : state) : option page :=
  if negb menuToggle || negb navOverlay || negb navLinks then None
  else Some {| dom := {| isMenuOpen := false; scrollbarWidth := 0%Z;
                         aria_expanded := aria_expanded d;
                         toggle_classes := toggle_classes d;
                         overlay_classes := overlay_classes d;
                         navlinks_classes := navlinks_classes d;
                         html_classes := html_classes d;
                         body_scrollbar_width := body_scrollbar_width d;
                         activeElement := activeElement d;
                         navItems := navItems d;
                         innerWidth := innerWidth d;
                         clientWidth := clientWidth d |};
               timers := []; next_tid := 1 |}.

(** A page with the menu closed. *)
Definition demo_closed : page :=
  {| dom := {| isMenuOpen := false; scrollbarWidth := 0%Z;
               aria_expanded := Some "false";
               toggle_classes := ["menu-toggle"];
               overlay_classes := ["nav-overlay"];
               navlinks_classes := ["nav-links"];
               html_classes := ["js"];
               body_scrollbar_width := None;
               activeElement := None; navItems := 5;
               innerWidth := 390%Z; clientWidth := 390%Z |};
     timers := []; next_tid := 1 |}.

End Menu.

(** ** Waitlist form *)

Module Waitlist.
Import Timers Dom.

Record Button : Type := {
  disabled : bool;
  innerHTML : string;
  classList : list string
}.

(** A form control: [reset()] gives it its default value back. *)
Record Field : Type := {
  name : string;
  defaultValue : string;
  value : string
}.

(** A message [div] appended to the form; [node] is its identity. *)
Record Element : Type := {
  node : nat;
  className : string;
  html : string
}.

Record Response : Type := {
  ok : bool;
  status : Z;
  body : string
}.

(** How the promise of [fetch] settles. *)
Inductive fetch_result : Type :=
| Resolved (r : Response)
| Rejected (reason : string).

(** The callbacks the submit handler passes to [setTimeout], with the
    variables they capture. *)
Inductive action : Type :=
| RemoveSuccessMessage (successMessage : nat)
| ResetButtonAfterSuccess (originalButtonText : string)
| ResetAfterError (errorMessage : nat) (originalButtonText : string).

Record state : Type := {
  fields : list Field;
  (* [this.querySelector('button[type="submit"]')] *)
  submitButton : option Button;
  (* elements appended to the form, and the next fresh node *)
  children : list Element;
  next_node : nat;
  (* bodies passed to [fetch], lines passed to [console.error] *)
  requests : list (list (string * string));
  console : list string
}.

Definition page : Type := browser state action.

Inductive outcome (T : Type) : Type :=
| Returned (x : T)
| TypeError.            (* a property of [null] is read *)
Arguments Returned {T} x.
Arguments TypeError {T}.

(** The handler suspended at [await fetch(...)]: the variables the rest
    of the handler reads. *)
Record pending : Type := {
  originalButtonText : string
}.

Definition spinner_html : string :=
  "<i class=" +:+ dq +:+ "fas fa-spinner fa-spin" +:+ dq +:+
  "></i> Sending...".
Definition check_html : string :=
  "<i class=" +:+ dq +:+ "fas fa-check" +:+ dq +:+ "></i> Thank You!".
Definition error_html : string :=
  "<i class=" +:+ dq +:+ "fas fa-exclamation-circle" +:+ dq +:+
  "></i> Error".
Definition success_text : string :=
  "Thank you for joining the waitlist! We'll be in touch soon.".
Definition error_text : string :=
  "Oops! Something went wrong. Please try again or email us directly.".

Definition with_button (f : Button -> Button) (d : state) : state :=
  {| fields := fields d;
     submitButton := f <$> submitButton d;
     children := children d; next_node := next_node d;
     requests := requests d; console := console d |}.

(** [form.reset()]. *)
Definition reset (d : state) : state :=
  {| fields :=
       map (fun f => {| name := name f; defaultValue := defaultValue f;
                        value := defaultValue f |}) (fields d);
     submitButton := submitButton d;
     children := children d; next_node := next_node d;
     requests := requests d; console := console d |}.

(** [document.createElement] followed by [this.appendChild]. *)
Definition appendMessage (cls text : string) (d : state) : state * nat :=
  let n := next_node d in
  ({| fields := fields d; submitButton := submitButton d;
      children := children d ++
        [{| node := n; className := cls; html := text |}];
      next_node := S n;
      requests := requests d; console := console d |}, n).

(** [message.remove()]. *)
Definition removeMessage (n : nat) (d : state) : state :=
  {| fields := fields d; submitButton := submitButton d;
     children := filter (fun e => node e ≠ n) (children d);
     next_node := next_node d;
     requests := requests d; console := console d |}.

Definition fetch (formData : list (string * string)) (d : state) : state :=
  {| fields := fields d; submitButton := submitButton d;
     children := children d; next_node := next_node d;
     requests := requests d ++ [formData]; console := console d |}.

Definition console_error (line : string) (d : state) : state :=
  {| fields := fields d; submitButton := submitButton d;
     children := children d; next_node := next_node d;
     requests := requests d; console := console d ++ [line] |}.

(** The submit handler up to [await fetch(...)]. *)
Definition submit_begin (b : page) : outcome (page * pending) :=
  let d := dom b in
  let formData := map (fun f => (name f, value f)) (fields d) in
  match submitButton d with
  | None => TypeError
  | Some submitButton =>
      let originalButtonText := innerHTML submitButton in
      let d :=
        with_button (fun btn =>
          {| disabled := true; innerHTML := spinner_html;
             classList := classList btn |}) d in
      Returned (with_dom (fetch formData d) b,
                {| originalButtonText := originalButtonText |})
  end.

(** The [catch] block. *)
Definition on_error (error : string) (p : pending) (b : page) : page :=
  let d := console_error ("Form submission error: " +:+ error) (dom b) in
  let d :=
    with_button (fun btn =>
      {| disabled := disabled btn; innerHTML := error_html;
         classList := class_add "error" (classList btn) |}) d in
  let '(d, errorMessage) := appendMessage "form-error" error_text d in
  fst (setTimeout (ResetAfterError errorMessage (originalButtonText p)) 5000
         (with_dom d b)).

(** The [if (response.ok)] branch. *)
Definition on_success (p : pending) (b : page) : page :=
  let d :=
    with_button (fun btn =>
      {| disabled := disabled btn; innerHTML := check_html;
         classList := class_add "success" (classList btn) |}) (dom b) in
  let d := reset d in
  let '(d, successMessage) := appendMessage "form-success" success_text d in
  let b := fst (setTimeout (RemoveSuccessMessage successMessage) 5000
                  (with_dom d b)) in
  fst (setTimeout (ResetButtonAfterSuccess (originalButtonText p)) 3000 b).

(** The handler from the moment the promise of [fetch] settles. *)
Definition submit_resume (r : fetch_result) (p : pending) (b : page) : page :=
  match r with
  | Resolved response =>
      if ok response then on_success p b
      else on_error "Error: Form submission failed" p b
  | Rejected reason => on_error reason p b
  end.

(** The timer callbacks: they write to the document only. *)
Definition run_dom (a : action) (d : state) : state :=
  match a with
  | RemoveSuccessMessage n => removeMessage n d
  | ResetButtonAfterSuccess text =>
      with_button (fun btn =>
        {| disabled := false; innerHTML := text;
           classList := class_remove "success" (classList btn) |}) d
  | ResetAfterError n text =>
      with_button (fun btn =>
        {| disabled := false; innerHTML := text;
           classList := class_remove "error" (classList btn) |})
        (removeMessage n d)
  end.

Definition run (a : action) (b : page) : page := map_dom (run_dom a) b.

(** The page with the handler attached, the submissions waiting for the
    network, and the user.  A click on a disabled submit button submits
    nothing; the network answers the waiting submissions in any order. *)
Record session : Type := {
  pg : page;
  inflight : list pending;
  uncaught : nat              (* handler runs that ended in a TypeError *)
}.

Inductive event : Type :=
| Click
| Settle (i : nat) (r : fetch_result)   (* the [i]-th waiting one *)
| Elapse (ms : N).

Definition button_disabled (d : state) : bool :=
  match submitButton d with
  | Some btn => disabled btn
  | None => false
  end.

Definition dispatch_submit (s : session) : session :=
  match submit_begin (pg s) with
  | Returned (b, p) =>
      {| pg := b; inflight := inflight s ++ [p]; uncaught := uncaught s |}
  | TypeError =>
      {| pg := pg s; inflight := inflight s; uncaught := S (uncaught s) |}
  end.

Definition step (s : session) (ev : event) : session :=
  match ev with
  | Click =>
      match submitButton (dom (pg s)) with
      | Some btn => if disabled btn then s else dispatch_submit s
      | None => s
      end
  | Settle i r =>
      match inflight s !! i with
      | Some p =>
          {| pg := submit_resume r p (pg s); inflight := delete i (inflight s);
             uncaught := uncaught s |}
      | None => s
      end
  | Elapse ms =>
      {| pg := elapse run ms (pg s); inflight := inflight s;
         uncaught := uncaught s |}
  end.

Definition exec (s : session) (evs : list event) : session :=
  fold_left step evs s.

(** The page after [initWaitlistForm(form)]: the listener is attached,
    no timer is pending. *)
Definition initWaitlistForm (form : state) : session :=
  {| pg := {| dom := form; timers := []; next_tid := 1 |};
     inflight := []; uncaught := 0 |}.

(** *** The situations of the page

    Predicates on the page between the events of a submission.  Times
    are in milliseconds. *)

(** A settled request that takes the success branch. *)
Definition succeeded (r : fetch_result) : bool :=
  match r with
  | Resolved response => ok response
  | Rejected _ => false
  end.

(** The message elements the handler creates on page [b]. *)
Definition success_message (b : page) : Element :=
  {| node := next_node (dom b); className := "form-success";
     html := success_text |}.

Definition error_message (b : page) : Element :=
  {| node := next_node (dom b); className := "form-error";
     html := error_text |}.

(** The button while the request is pending, while a result is shown,
    and once it is reset ([kind] is the result class). *)
Definition waiting_button (cl : list string) : Button :=
  {| disabled := true; innerHTML := spinner_html; classList := cl |}.

Definition thanks_button (cl : list string) : Button :=
  {| disabled := true; innerHTML := check_html;
     classList := class_add "success" cl |}.

Definition sorry_button (cl : list string) : Button :=
  {| disabled := true; innerHTML := error_html;
     classList := class_add "error" cl |}.

Definition restored_button (kind : string) (orig : string)
    (cl : list string) : Button :=
  {| disabled := false; innerHTML := orig;
     classList := class_remove kind (class_add kind cl) |}.

Definition removal_only (bound : nat) (t : timer action) : Prop :=
  period t = None /\ (1 <= remaining t)%N /\
  exists i, act t = RemoveSuccessMessage i /\ i < bound.

(** No pending callback writes to the button: the only ones left remove
    messages of earlier submissions. *)
Definition quiet (b : page) : Prop :=
  Forall (removal_only (next_node (dom b))) (timers b).

Definition success_timer (n : nat) (orig : string) (j : N)
    (t : timer action) : Prop :=
  period t = None /\ (1 <= remaining t)%N /\
  match act t with
  | RemoveSuccessMessage i => i <= n /\ (i = n -> remaining t = j)
  | ResetButtonAfterSuccess o => o = orig /\ (remaining t + 2000 = j)%N
  | ResetAfterError _ _ => False
  end.

(** The page [j] milliseconds before the success message [m] is
    removed; the button is reset 2000 ms before that. *)
Record after_success (m : Element) (orig : string) (cl : list string)
    (j : N) (b : page) : Prop := {
  as_timers : Forall (success_timer (node m) orig j) (timers b);
  as_thanks : (2000 < j)%N ->
    submitButton (dom b) = Some (thanks_button cl) /\
    Exists (fun t => act t = ResetButtonAfterSuccess orig) (timers b);
  as_restored : (j <= 2000)%N ->
    submitButton (dom b) = Some (restored_button "success" orig cl);
  as_shown : (0 < j)%N ->
    m ∈ children (dom b) /\
    Exists (fun t => act t = RemoveSuccessMessage (node m)) (timers b);
  as_removed : j = 0%N ->
    Forall (fun e => node e ≠ node m) (children (dom b))
}.

Definition failure_timer (n : nat) (orig : string) (j : N)
    (t : timer action) : Prop :=
  period t = None /\ (1 <= remaining t)%N /\
  match act t with
  | RemoveSuccessMessage i => i < n
  | ResetButtonAfterSuccess _ => False
  | ResetAfterError i o => i = n /\ o = orig /\ remaining t = j
  end.

(** The page [j] milliseconds before the error message [m] is removed
    and the button reset. *)
Record after_failure (m : Element) (orig : string) (cl : list string)
    (j : N) (b : page) : Prop := {
  af_timers : Forall (failure_timer (node m) orig j) (timers b);
  af_shown : (0 < j)%N ->
    submitButton (dom b) = Some (sorry_button cl) /\
    m ∈ children (dom b) /\
    Exists (fun t => act t = ResetAfterError (node m) orig) (timers b);
  af_done : j = 0%N ->
    submitButton (dom b) = Some (restored_button "error" orig cl) /\
    Forall (fun e => node e ≠ node m) (children (dom b))
}.

Definition resets_button (a : action) : bool :=
  match a with
  | RemoveSuccessMessage _ => false
  | ResetButtonAfterSuccess _ | ResetAfterError _ _ => true
  end.

(** A submission is waiting for the network, or its result is shown and
    the callback that resets the button is pending. *)
Definition busy (s : session) : Prop :=
  inflight s ≠ [] \/
  Exists (fun t => resets_button (act t) = true) (timers (pg s)).

(** The four situations of the page with its handler. *)
Inductive session_inv (s : session) : Prop :=
| inv_idle :
    inflight s = [] -> quiet (pg s) -> session_inv s
| inv_waiting p cl :
    inflight s = [p] -> quiet (pg s) ->
    submitButton (dom (pg s)) = Some (waiting_button cl) -> session_inv s
| inv_thanks m orig cl j :
    inflight s = [] -> (2000 < j)%N -> node m < next_node (dom (pg s)) ->
    after_success m orig cl j (pg s) -> session_inv s
| inv_sorry m orig cl j :
    inflight s = [] -> (0 < j)%N -> node m < next_node (dom (pg s)) ->
    after_failure m orig cl j (pg s) -> session_inv s.

(** A form whose submit control is an [input], not a
    [button[type="submit"]]. *)
Definition form_without_button : state :=
  {| fields := [{| name := "email"; defaultValue := "";
                   value := "ada@example.org" |}];
     submitButton := None; children := []; next_node := 0;
     requests := []; console := [] |}.

(** A form with one field and its submit button. *)
Definition demo_button : Button :=
  {| disabled := false; innerHTML := "Join the waitlist";
     classList := ["btn"; "btn-primary"] |}.

Definition demo_form : state :=
  {| fields := [{| name := "email"; defaultValue := "";
                   value := "ada@example.org" |}];
     submitButton := Some demo_button; children := []; next_node := 0;
     requests := []; console := [] |}.

Definition demo_page : page := pg (initWaitlistForm demo_form).

End Waitlist.

(** ** Lifecycle panel *)

Module Lifecycle.
Import Timers Dom.

Record phase : Type := {
  name : string;
  icon : string;
  title : string;
  description : string
}.

Definition phases : list phase := [
  {| name := "seed";
     icon := "fas fa-seedling";
     title := "Seed";
     description := "30 days, observation only, owner approval required" |};
  {| name := "operational";
     icon := "fas fa-play-circle";
     title := "Operational";
     description := "90+ days, accuracy ≥75%, full primitive access" |};
  {| name := "vetted";
     icon := "fas fa-check-circle";
     title := "Vetted";
     description := "180+ days, accuracy ≥85%, voting and mentorship" |};
  {| name := "prestige";
     icon := "fas fa-crown";
     title := "Prestige";
     description := "365+ days, cross-domain influence, 4x rewards" |}
].

(** The callbacks passed to [setInterval] and [setTimeout]. *)
Inductive action : Type :=
| NextPhase
| UpdateContent (phaseIndex : nat) (animate : bool)
| FadeIn.

Record state : Type := {
  (* closure variables of [initLifecyclePanel] *)
  currentPhase : nat;
  autoRotateInterval : option nat;
  (* [display]: two style properties and the [data-phase] attribute *)
  display_opacity : string;
  display_transform : string;
  data_phase : option string;
  (* [icon], [title], [description] *)
  icon_html : string;
  title_text : string;
  description_text : string;
  (* for each indicator, whether it has the class [active] *)
  indicators : list bool
}.

Definition page : Type := browser state action.

Definition set_currentPhase (i : nat) (d : state) : state :=
  {| currentPhase := i; autoRotateInterval := autoRotateInterval d;
     display_opacity := display_opacity d;
     display_transform := display_transform d;
     data_phase := data_phase d; icon_html := icon_html d;
     title_text := title_text d; description_text := description_text d;
     indicators := indicators d |}.

Definition set_autoRotateInterval (id : option nat) (d : state) : state :=
  {| currentPhase := currentPhase d; autoRotateInterval := id;
     display_opacity := display_opacity d;
     display_transform := display_transform d;
     data_phase := data_phase d; icon_html := icon_html d;
     title_text := title_text d; description_text := description_text d;
     indicators := indicators d |}.

Definition set_display_style (opacity transform : string) (d : state)
  : state :=
  {| currentPhase := currentPhase d;
     autoRotateInterval := autoRotateInterval d;
     display_opacity := opacity; display_transform := transform;
     data_phase := data_phase d; icon_html := icon_html d;
     title_text := title_text d; description_text := description_text d;
     indicators := indicators d |}.

(** The content update of [updateDisplay]. *)
Definition set_content (phaseIndex : nat) (ph : phase) (d : state) : state :=
  {| currentPhase := currentPhase d;
     autoRotateInterval := autoRotateInterval d;
     display_opacity := display_opacity d;
     display_transform := display_transform d;
     data_phase := Some (name ph);
     icon_html := "<i class=" +:+ dq +:+ icon ph +:+ dq +:+ "></i>";
     title_text := title ph;
     description_text := description ph;
     indicators :=
       imap (fun index _ => (index =? phaseIndex)%nat) (indicators d) |}.

Definition updateDisplay (phaseIndex : nat) (animate : bool) (b : page)
  : page :=
  let b :=
    if animate then map_dom (set_display_style "0.5" "scale(0.98)") b
    else b in
  fst (setTimeout (UpdateContent phaseIndex animate)
         (if animate then 400 else 0) b).

Definition nextPhase (b : page) : page :=
  let b :=
    map_dom (fun d =>
      set_currentPhase ((currentPhase d + 1) mod length phases) d) b in
  updateDisplay (currentPhase (dom b)) true b.

Definition startAutoRotate (b : page) : page :=
  let '(b, id) := setInterval NextPhase 4000 b in
  map_dom (set_autoRotateInterval (Some id)) b.

Definition stopAutoRotate (b : page) : page :=
  match autoRotateInterval (dom b) with
  | Some id => clearTimer id b
  | None => b
  end.

Definition resetAutoRotate (b : page) : page :=
  startAutoRotate (stopAutoRotate b).

Definition goToPhase (phaseIndex : nat) (b : page) : page :=
  if bool_decide (phaseIndex ≠ currentPhase (dom b)) then
    let b := map_dom (set_currentPhase phaseIndex) b in
    let b := updateDisplay (currentPhase (dom b)) true b in
    resetAutoRotate b
  else b.

(** The timer callbacks.  [phases[phaseIndex]] is [undefined] out of
    range: the callback then stops at its first statement, before it
    writes anything. *)
Definition run (a : action) (b : page) : page :=
  match a with
  | NextPhase => nextPhase b
  | UpdateContent phaseIndex animate =>
      match phases !! phaseIndex with
      | Some ph =>
          let b := map_dom (set_content phaseIndex ph) b in
          if animate then fst (setTimeout FadeIn 50 b) else b
      | None => b
      end
  | FadeIn => map_dom (set_display_style "1" "scale(1)") b
  end.

Inductive event : Type :=
| Elapse (ms : N)
| MouseEnter                    (* the pointer enters [display] *)
| MouseLeave
| ClickIndicator (index : nat).

Definition step (b : page) (ev : event) : page :=
  match ev with
  | Elapse ms => elapse run ms b
  | MouseEnter => stopAutoRotate b
  | MouseLeave => startAutoRotate b
  | ClickIndicator index =>
      if (index <? length (indicators (dom b)))%nat then goToPhase index b
      else b
  end.

Definition exec (b : page) (evs : list event) : page := fold_left step evs b.

(** [initLifecyclePanel] on a document whose panel holds [d]: nothing
    is installed when an element is missing or there is no indicator. *)
Definition initLifecyclePanel (display icon title description : bool)
    (d : state) : option page :=
  if negb display || negb icon || negb title || negb description
     || (length (indicators d) =? 0)%nat
  then None
  else
    let b :=
      {| dom := set_autoRotateInterval None (set_currentPhase 0 d);
         timers := []; next_tid := 1 |} in
    let b := updateDisplay 0 false b in
    Some (startAutoRotate b).

(** The title the panel shows for a phase index. *)
Definition title_of (i : nat) : string :=
  match phases !! i with
  | Some ph => title ph
  | None => ""
  end.

#[global] Instance action_eq_dec : EqDecision action.
Proof. solve_decision. Defined.

(** The pending callbacks that advance the panel. *)
Definition is_rotor (t : timer action) : Prop := act t = NextPhase.

#[global] Instance is_rotor_dec (t : timer action) : Decision (is_rotor t) :=
  action_eq_dec (act t) NextPhase.

Definition rotors (b : page) : list (timer action) :=
  filter is_rotor (timers b).

(** The auto-rotate interval is running, its next callback due in [r]
    milliseconds, and it is the only pending callback that advances the
    panel. *)
Definition rotating (r : N) (b : page) : Prop :=
  exists t0,
    rotors b = [t0] /\ remaining t0 = r /\ period t0 = Some 4000%N /\
    autoRotateInterval (dom b) = Some (tid t0).

(** No pending callback advances the panel. *)
Definition paused (b : page) : Prop := rotors b = [].

(** The panel [c] milliseconds into its cycle of four intervals. *)
Definition spinning (c : N) (b : page) : Prop :=
  (c < 16000)%N /\
  currentPhase (dom b) = N.to_nat (c / 4000) /\
  rotating (4000 - c mod 4000) b.

Local Open Scope N_scope.

(** The phase the display shows [t] ms after the start: the content
    follows the phase by the 400 ms of the fade. *)
Definition shown_phase (t : N) : nat :=
  N.to_nat (((t - 400) / 4000) mod 4).

(** The pending callbacks of an untouched panel [t] ms after the start:
    the first content update is due at 1 ms; after each step of the
    interval the content update is due at 400 ms into the interval and
    the fade-in at 450 ms. *)
Definition display_timer (t : N) (tm : timer action) : Prop :=
  1 <= remaining tm /\
  match act tm with
  | NextPhase => True
  | UpdateContent i a =>
      period tm = None /\
      ((t = 0 /\ i = 0%nat /\ a = false /\ remaining tm = 1) \/
       (4000 <= t /\ i = N.to_nat ((t / 4000) mod 4) /\ a = true /\
        remaining tm + t mod 4000 = 400))
  | FadeIn => period tm = None /\ 4000 <= t /\ remaining tm + t mod 4000 = 450
  end.

Definition is_update (tm : timer action) : Prop :=
  exists i a, act tm = UpdateContent i a.

(** The display [t] ms after the start of an untouched panel. *)
Record displaying (t : N) (b : page) : Prop := {
  dp_timers : Forall (display_timer t) (timers b);
  dp_title : 1 <= t -> title_text (dom b) = title_of (shown_phase t);
  dp_pending : t = 0 \/ (4000 <= t /\ t mod 4000 < 400) ->
    Exists is_update (timers b)
}.

Local Close Scope N_scope.

(** Sequences of time passing and of the pointer entering and leaving
    the display in turn, starting [inside] it or not, and where such a
    sequence ends. *)
Fixpoint hover_ok (inside : bool) (evs : list event) : bool :=
  match evs with
  | [] => true
  | Elapse _ :: evs => hover_ok inside evs
  | MouseEnter :: evs => negb inside && hover_ok true evs
  | MouseLeave :: evs => inside && hover_ok false evs
  | ClickIndicator _ :: _ => false
  end.

Fixpoint ends_inside (inside : bool) (evs : list event) : bool :=
  match evs with
  | [] => inside
  | Elapse _ :: evs => ends_inside inside evs
  | MouseEnter :: evs => ends_inside true evs
  | MouseLeave :: evs => ends_inside false evs
  | ClickIndicator _ :: evs => ends_inside inside evs
  end.

Definition hover_state (inside : bool) (b : page) : Prop :=
  (currentPhase (dom b) < 4)%nat /\
  if inside then paused b else exists c, spinning c b.

(** A panel with four indicators, as the markup has it before the
    script runs. *)
Definition demo_panel : state :=
  {| currentPhase := 0; autoRotateInterval := None;
     display_opacity := ""; display_transform := "";
     data_phase := None; icon_html := ""; title_text := "";
     description_text := "";
     indicators := [true; false; false; false] |}.

End Lifecycle.

(** ** Relations on JavaScript numbers *)

Module JSNumRel.
Import JSNum.

Local Open Scope Q_scope.

(** [x] is the finite value [v]. *)
Definition fin_eq (x : num) (v : Q) : Prop :=
  match x with
  | Fin q => q == v
  | _ => False
  end.

(** [x] and [y] are finite and [x <= y]. *)
Definition fin_le (x y : num) : Prop :=
  match x, y with
  | Fin a, Fin b => a <= b
  | _, _ => False
  end.

(** [x] is a finite value of the closed interval [[lo, hi]]. *)
Definition fin_between (lo hi : Q) (x : num) : Prop :=
  match x with
  | Fin q => lo <= q <= hi
  | _ => False
  end.

End JSNumRel.

(** ** Dark mode transitions *)

Module Themes.
Import JSNum Dom.

Local Open Scope Q_scope.

(** What [updateSectionThemes] does to a dark-mode section: add the
    class and set [--dark-opacity], or remove both. *)
Inductive theme_write : Type :=
| SetDark (easedProgress : num)
| ClearDark.

(** The body of the [sections.forEach] callback for a section of
    [darkModeSections], from [window.innerHeight] and the section's
    bounding rectangle. *)
Definition sectionTheme (windowHeight sectionTop sectionHeight : num)
  : theme_write :=
  let enterStart := mul windowHeight (Fin 0.8) in
  let enterEnd := mul windowHeight (Fin 0.45) in
  let exitStart := mul (neg sectionHeight) (Fin 0.65) in
  let exitEnd := mul (neg sectionHeight) (Fin 0.9) in
  let enterProgress :=
    sub (Fin 1)
      (max (Fin 0)
         (min (Fin 1)
            (div (sub sectionTop enterEnd) (sub enterStart enterEnd)))) in
  let exitProgress :=
    if lt sectionTop (Fin 0) then
      max (Fin 0)
        (min (Fin 1) (div (sub sectionTop exitEnd) (sub exitStart exitEnd)))
    else Fin 1 in
  let rawProgress := min enterProgress exitProgress in
  let easedProgress :=
    mul (mul (mul rawProgress rawProgress) rawProgress)
        (add (mul rawProgress (sub (mul rawProgress (Fin 6)) (Fin 15)))
             (Fin 10)) in
  if gt easedProgress (Fin 0.02) then SetDark easedProgress else ClearDark.

Record section : Type := {
  id : string;
  rect_top : num;
  rect_height : num;
  classList : list string;
  dark_opacity : option num       (* the [--dark-opacity] property *)
}.

Definition darkModeSections : list string := ["vision"].

Definition apply_theme (w : theme_write) (s : section) : section :=
  match w with
  | SetDark p =>
      {| id := id s; rect_top := rect_top s; rect_height := rect_height s;
         classList := class_add "dark-mode" (classList s);
         dark_opacity := Some p |}
  | ClearDark =>
      {| id := id s; rect_top := rect_top s; rect_height := rect_height s;
         classList := class_remove "dark-mode" (classList s);
         dark_opacity := None |}
  end.

(** [updateSectionThemes] on the sections of the page. *)
Definition updateSectionThemes (windowHeight : num) (sections : list section)
  : list section :=
  (fun s =>
     if bool_decide (id s ∈ darkModeSections) then
       apply_theme (sectionTheme windowHeight (rect_top s) (rect_height s)) s
     else s) <$> sections.

End Themes.

(** ** Navbar scroll effect *)

From Stdlib Require Import Qabs.

Module Navbar.
Import JSNum Dom.

Local Open Scope Q_scope.

Record state : Type := {
  (* the window *)
  pageYOffset : Q;
  innerWidth : Z;
  (* closure variables of the navbar block of [initScrollAnimations] *)
  scrollTimeout : option nat;
  lastScrollY : Q;
  (* handles of the [updateNavbar] callbacks the browser holds *)
  frame_callbacks : list nat;
  next_handle : nat;
  (* the navbar element *)
  classList : list string;
  transition : option string;
  (* how many times [updateNavbar] has run *)
  updates : nat
}.

Definition isMobile (s : state) : bool := (innerWidth s <=? 768)%Z.

Definition scrollThreshold (s : state) : Q := if isMobile s then 20 else 8.

Definition mobile_transition : string :=
  "padding 0.6s cubic-bezier(0.22, 1, 0.36, 1), background-color 0.5s ease, border-color 0.5s ease".

Definition updateNavbar (s : state) : state :=
  let currentScroll := pageYOffset s in
  let scrollThreshold := scrollThreshold s in
  {| pageYOffset := pageYOffset s; innerWidth := innerWidth s;
     scrollTimeout := scrollTimeout s;
     lastScrollY := currentScroll;
     frame_callbacks := frame_callbacks s; next_handle := next_handle s;
     classList :=
       class_toggle "scrolled" (Qltb scrollThreshold currentScroll)
         (classList s);
     transition :=
       if isMobile s && Qltb 5 (Qabs (currentScroll - lastScrollY s))
       then Some mobile_transition else transition s;
     updates := S (updates s) |}.

Definition cancelAnimationFrame (h : nat) (s : state) : state :=
  {| pageYOffset := pageYOffset s; innerWidth := innerWidth s;
     scrollTimeout := scrollTimeout s; lastScrollY := lastScrollY s;
     frame_callbacks := filter (fun h' => h' ≠ h) (frame_callbacks s);
     next_handle := next_handle s;
     classList := classList s; transition := transition s;
     updates := updates s |}.

(** The scroll listener: cancel the pending callback, request a new
    one. *)
Definition on_scroll (s : state) : state :=
  let s :=
    match scrollTimeout s with
    | Some h => cancelAnimationFrame h s
    | None => s
    end in
  let h := next_handle s in
  {| pageYOffset := pageYOffset s; innerWidth := innerWidth s;
     scrollTimeout := Some h; lastScrollY := lastScrollY s;
     frame_callbacks := frame_callbacks s ++ [h];
     next_handle := S h;
     classList := classList s; transition := transition s;
     updates := updates s |}.

Inductive event : Type :=
| Scroll (y : Q)      (* the window scrolls to [y]; the listener runs *)
| Resize (w : Z)
| Frame.              (* the browser runs the animation frame callbacks *)

Definition step (s : state) (ev : event) : state :=
  match ev with
  | Scroll y =>
      on_scroll
        {| pageYOffset := y; innerWidth := innerWidth s;
           scrollTimeout := scrollTimeout s; lastScrollY := lastScrollY s;
           frame_callbacks := frame_callbacks s;
           next_handle := next_handle s;
           classList := classList s; transition := transition s;
           updates := updates s |}
  | Resize w =>
      {| pageYOffset := pageYOffset s; innerWidth := w;
         scrollTimeout := scrollTimeout s; lastScrollY := lastScrollY s;
         frame_callbacks := frame_callbacks s;
         next_handle := next_handle s;
         classList := classList s; transition := transition s;
         updates := updates s |}
  | Frame =>
      fold_left (fun s _ => updateNavbar s) (frame_callbacks s)
        {| pageYOffset := pageYOffset s; innerWidth := innerWidth s;
           scrollTimeout := scrollTimeout s; lastScrollY := lastScrollY s;
           frame_callbacks := []; next_handle := next_handle s;
           classList := classList s; transition := transition s;
           updates := updates s |}
  end.

Definition exec (s : state) (evs : list event) : state := fold_left step evs s.

(** The navbar block when the listener is attached; handles start at 1. *)
Definition attached (y : Q) (w : Z) (classes : list string) : state :=
  {| pageYOffset := y; innerWidth := w; scrollTimeout := None;
     lastScrollY := 0; frame_callbacks := []; next_handle := 1;
     classList := classes; transition := None; updates := 0 |}.

Definition is_frame (ev : event) : bool :=
  match ev with Frame => true | _ => false end.

(** At most the callback requested last is pending. *)
Definition one_pending (s : state) : Prop :=
  frame_callbacks s = [] \/
  exists h, frame_callbacks s = [h] /\ scrollTimeout s = Some h.

End Navbar.

(** ** Mobile menu: the listeners of [initMobileMenu] *)

Module MenuEvents.
Import Timers Dom Menu.

(** The callbacks passed to [setTimeout]: the two of [toggleMenu] and
    the one of the resize listener. *)
Inductive action : Type :=
| Focus (a : Menu.action)
| ResizeCheck.

Record state : Type := {
  menu : Menu.state;
  resizeTimer : option nat
}.

Definition page : Type := browser state action.

Definition map_menu (f : Menu.state -> Menu.state) (b : page) : page :=
  map_dom (fun d => {| menu := f (menu d); resizeTimer := resizeTimer d |}) b.

Definition isOpen (b : page) : bool := isMenuOpen (menu (dom b)).

Definition toggleMenu (b : page) : page :=
  let b := map_menu toggle_dom b in
  if isOpen b then fst (setTimeout (Focus FocusFirstNavItem) 50 b)
  else fst (setTimeout (Focus FocusMenuToggle) 50 b).

Definition closeMenu (b : page) : page :=
  if isOpen b then toggleMenu b else b.

Definition set_scrollbar (w : Z) (d : Menu.state) : Menu.state :=
  {| isMenuOpen := isMenuOpen d; scrollbarWidth := w;
     aria_expanded := aria_expanded d; toggle_classes := toggle_classes d;
     overlay_classes := overlay_classes d;
     navlinks_classes := navlinks_classes d;
     html_classes := html_classes d;
     body_scrollbar_width := Some w;
     activeElement := activeElement d; navItems := navItems d;
     innerWidth := innerWidth d; clientWidth := clientWidth d |}.

(** The callback of the resize listener. *)
Definition resizeCheck (b : page) : page :=
  let b :=
    if (768 <? innerWidth (menu (dom b)))%Z && isOpen b
    then closeMenu b else b in
  if isOpen b then
    let newScrollbarWidth := getScrollbarWidth (menu (dom b)) in
    if negb (newScrollbarWidth =? scrollbarWidth (menu (dom b)))%Z
    then map_menu (set_scrollbar newScrollbarWidth) b
    else b
  else b.

Definition run (a : action) (b : page) : page :=
  match a with
  | Focus FocusFirstNavItem =>
      if (0 <? navItems (menu (dom b)))%nat
      then map_menu (set_focus (Some (NavItem 0))) b else b
  | Focus FocusMenuToggle => map_menu (set_focus (Some MenuToggle)) b
  | ResizeCheck => resizeCheck b
  end.

(** The elements that carry a click listener of the menu, and the
    others. *)
Inductive element : Type :=
| ToggleEl
| OverlayEl
| NavLinksEl
| NavItemEl (i : nat)
| OtherEl.

Definition is_toggle (e : element) : bool :=
  match e with ToggleEl => true | _ => false end.

Definition is_overlay (e : element) : bool :=
  match e with OverlayEl => true | _ => false end.

Definition is_navlinks (e : element) : bool :=
  match e with NavLinksEl => true | _ => false end.

Definition is_navitem (e : element) : bool :=
  match e with NavItemEl _ => true | _ => false end.

(** A click bubbles from its target through the ancestors [path] to the
    document.  [target_is_overlay] is [e.target === navOverlay];
    [in_navlinks] and [in_toggle] are [navLinks.contains(e.target)] and
    [menuToggle.contains(e.target)]. *)
Fixpoint bubble (target_is_overlay in_navlinks in_toggle : bool)
    (path : list element) (b : page) : page :=
  match path with
  | [] =>
      (* the listener of the document *)
      if isOpen b && negb in_navlinks && negb in_toggle
      then closeMenu b else b
  | ToggleEl :: _ =>
      (* stopPropagation: the ancestors do not see the click *)
      toggleMenu b
  | OverlayEl :: path =>
      bubble target_is_overlay in_navlinks in_toggle path
        (if target_is_overlay then closeMenu b else b)
  | NavItemEl _ :: path =>
      bubble target_is_overlay in_navlinks in_toggle path (closeMenu b)
  | _ :: path => bubble target_is_overlay in_navlinks in_toggle path b
  end.

(** [path]: the target of the click, then its ancestors up to the
    root. *)
Definition click (path : list element) (b : page) : page :=
  bubble (from_option is_overlay false (head path))
    (existsb is_navlinks path) (existsb is_toggle path) path b.

Inductive key : Type :=
| Escape
| Tab (shiftKey : bool)
| OtherKey.

#[global] Instance focus_target_eq_dec : EqDecision focus_target.
Proof. solve_decision. Defined.

(** [document.activeElement === f] for a possibly undefined [f]. *)
Definition is_active (f : option focus_target) (b : page) : bool :=
  match f, activeElement (menu (dom b)) with
  | Some x, Some y => bool_decide (x = y)
  | _, _ => false
  end.

Definition focus (f : option focus_target) (b : page) : page :=
  match f with
  | Some x => map_menu (set_focus (Some x)) b
  | None => b
  end.

(** The keydown listener of [navLinks]; [focusable] is what
    [navLinks.querySelectorAll] finds. *)
Definition on_keydown (k : key) (focusable : list focus_target) (b : page)
  : page :=
  if negb (isOpen b) then b
  else
    match k with
    | Escape => closeMenu b
    | OtherKey => b
    | Tab shiftKey =>
        let firstFocusable := head focusable in
        let lastFocusable := last focusable in
        if shiftKey then
          if is_active firstFocusable b then focus lastFocusable b else b
        else
          if is_active lastFocusable b then focus firstFocusable b else b
    end.

Definition set_window (w cw : Z) (d : Menu.state) : Menu.state :=
  {| isMenuOpen := isMenuOpen d; scrollbarWidth := scrollbarWidth d;
     aria_expanded := aria_expanded d; toggle_classes := toggle_classes d;
     overlay_classes := overlay_classes d;
     navlinks_classes := navlinks_classes d;
     html_classes := html_classes d;
     body_scrollbar_width := body_scrollbar_width d;
     activeElement := activeElement d; navItems := navItems d;
     innerWidth := w; clientWidth := cw |}.

(** The resize listener: the pending check is dropped, a new one is due
    in 100 ms. *)
Definition on_resize (b : page) : page :=
  let b :=
    match resizeTimer (dom b) with
    | Some id => clearTimer id b
    | None => b
    end in
  let '(b, id) := setTimeout ResizeCheck 100 b in
  map_dom (fun d => {| menu := menu d; resizeTimer := Some id |}) b.

Definition on_load (hash : string) (b : page) : page :=
  if bool_decide (hash = "") then b else closeMenu b.

Inductive event : Type :=
| Click (path : list element)
| KeyDown (k : key) (focusable : list focus_target)
                                  (* a keydown that reaches [navLinks] *)
| Resize (innerWidth clientWidth : Z)
| Load (hash : string)            (* [window.location.hash] at the load *)
| Elapse (ms : N).

Definition step (b : page) (ev : event) : page :=
  match ev with
  | Click path => click path b
  | KeyDown k focusable => on_keydown k focusable b
  | Resize w cw => on_resize (map_menu (set_window w cw) b)
  | Load hash => on_load hash b
  | Elapse ms => elapse run ms b
  end.

Definition exec (b : page) (evs : list event) : page := fold_left step evs b.

(** [initMobileMenu] with all its listeners. *)
Definition initMobileMenu (menuToggle navOverlay navLinks : bool)
    (d : Menu.state) : option page :=
  match Menu.initMobileMenu menuToggle navOverlay navLinks d with
  | Some b =>
      Some {| dom := {| menu := dom b; resizeTimer := None |};
              timers := []; next_tid := 1 |}
  | None => None
  end.

(** The document mirrors the flag [isMenuOpen]. *)
Definition mirrors (d : Menu.state) : Prop :=
  aria_expanded d = Some (string_of_bool (isMenuOpen d)) ∧
  ("active" ∈ toggle_classes d <-> isMenuOpen d = true) ∧
  ("active" ∈ overlay_classes d <-> isMenuOpen d = true) ∧
  ("active" ∈ navlinks_classes d <-> isMenuOpen d = true) ∧
  ("menu-open" ∈ html_classes d <-> isMenuOpen d = true).

(** A click that reaches the menu toggle. *)
Definition reaches_toggle (ev : event) : bool :=
  match ev with
  | Click path => existsb is_toggle path
  | _ => false
  end.

(** The events that close an open menu at once: a click on the toggle,
    on the overlay itself, on a navigation item, or outside the link
    list, the Escape key, and the load of a page with a hash. *)
Definition closes (ev : event) : bool :=
  match ev with
  | Click (ToggleEl :: _) => true
  | Click path =>
      negb (existsb is_toggle path) &&
      (from_option is_overlay false (head path) ||
       existsb is_navitem path ||
       negb (existsb is_navlinks path))
  | KeyDown Escape _ => true
  | Load hash => negb (bool_decide (hash = ""))
  | _ => false
  end.

Definition is_resize_check (t : timer action) : bool :=
  match act t with ResizeCheck => true | _ => false end.

(** A property of the menu record that [toggleMenu] keeps and that does
    not depend on the focus, the window or the scrollbar width. *)
Definition menu_stable (P : Menu.state -> Prop) : Prop :=
  (forall d, P d -> P (toggle_dom d)) /\
  (forall d f, P d -> P (set_focus f d)) /\
  (forall d w, P d -> P (set_scrollbar w d)) /\
  (forall d w cw, P d -> P (set_window w cw d)).

(** The menu is closed and the callback that returns the focus to the
    toggle is the last timer, due in [r] ms. *)
Definition focus_return (r : N) (b : page) : Prop :=
  isOpen b = false /\
  exists ts id,
    timers b = ts ++ [{| tid := id; remaining := r; period := None;
                         act := Focus FocusMenuToggle |}].

(** While the menu is open the custom property holds the stored
    scrollbar width. *)
Definition scrollbar_ok (d : Menu.state) : Prop :=
  isMenuOpen d = true -> body_scrollbar_width d = Some (scrollbarWidth d).

Definition window_is (w cw : Z) (b : page) : Prop :=
  innerWidth (menu (dom b)) = w /\ clientWidth (menu (dom b)) = cw.

(** A resize check is due in [r] ms. *)
Definition check_pending (w cw : Z) (r : N) (b : page) : Prop :=
  window_is w cw b /\ scrollbar_ok (menu (dom b)) /\
  exists t, t ∈ timers b /\ act t = ResizeCheck /\ remaining t = r.

(** What the resize check leaves. *)
Definition checked (w cw : Z) (b : page) : Prop :=
  window_is w cw b /\
  ((768 < w)%Z -> isOpen b = false) /\
  (isOpen b = true ->
     scrollbarWidth (menu (dom b)) = (w - cw)%Z /\
     body_scrollbar_width (menu (dom b)) = Some (w - cw)%Z).

(** The pending resize checks are the one [resizeTimer] names. *)
Definition resize_inv (b : page) : Prop :=
  Forall (fun t => is_resize_check t = true ->
                   resizeTimer (dom b) = Some (tid t)) (timers b) /\
  (length (filter is_resize_check (timers b)) <= 1)%nat.

(** The page of [Menu.demo_closed] with the listeners attached. *)
Definition demo_page : page :=
  {| dom := {| menu := dom Menu.demo_closed; resizeTimer := None |};
     timers := []; next_tid := 1 |}.

End MenuEvents.

(** ** Section highlighting in the navigation *)

Module Highlight.
Import Dom.

Record section : Type := {
  offsetTop : Z;
  offsetHeight : Z;
  id : string
}.

(** A navigation link: [getAttribute('href')] is [null] without the
    attribute. *)
Record link : Type := {
  href : option string;
  classList : list string
}.

(** [window.scrollY >= sectionTop - 200]. *)
Definition reached (scrollY : Q) (s : section) : bool :=
  Qle_bool (inject_Z (offsetTop s - 200)) scrollY.

(** The value of [current] after the loop over the sections. *)
Definition current (scrollY : Q) (sections : list section) : string :=
  fold_left (fun current s => if reached scrollY s then id s else current)
    sections "".

Definition highlight_link (current : string) (l : link) : link :=
  let classes := class_remove "active" (classList l) in
  {| href := href l;
     classList :=
       if bool_decide (href l = Some ("#" +:+ current))
       then class_add "active" classes else classes |}.

Definition highlightNavigation (scrollY : Q) (sections : list section)
    (links : list link) : list link :=
  highlight_link (current scrollY sections) <$> links.

(** [initSectionHighlighting]: without sections or without links no
    listener is attached; otherwise the links are highlighted once. *)
Definition initSectionHighlighting (scrollY : Q) (sections : list section)
    (links : list link) : option (list link) :=
  if (length sections =? 0)%nat || (length links =? 0)%nat then None
  else Some (highlightNavigation scrollY sections links).

(** The scroll listener. *)
Definition on_scroll (sections : list section) (links : list link)
    (scrollY : Q) : list link :=
  highlightNavigation scrollY sections links.

(** The last section in document order that the scroll position has
    reached. *)
Definition last_reached (scrollY : Q) (sections : list section)
  : option section :=
  last (filter (fun s => reached scrollY s = true) sections).

End Highlight.

(** ** Reveal on scroll: the observer of [initScrollAnimations] *)

Module Reveal.
Import Dom.

(** The class lists of the elements of the page, by position, and the
    targets of the observer. *)
Record state : Type := {
  elements : list (list string);
  observed : list nat
}.

Definition classList_add (i : nat) (c : string) (st : state) : state :=
  {| elements := alter (class_add c) i (elements st);
     observed := observed st |}.

Definition observe (i : nat) (st : state) : state :=
  {| elements := elements st;
     observed :=
       if bool_decide (i ∈ observed st) then observed st
       else observed st ++ [i] |}.

Definition unobserve (i : nat) (st : state) : state :=
  {| elements := elements st;
     observed := filter (fun j => j ≠ i) (observed st) |}.

Record entry : Type := {
  target : nat;
  isIntersecting : bool
}.

(** The callback of the observer. *)
Definition on_entry (st : state) (e : entry) : state :=
  if isIntersecting e then
    unobserve (target e) (classList_add (target e) "animate-in" st)
  else st.

Definition callback (entries : list entry) (st : state) : state :=
  fold_left on_entry entries st.

Definition init_element (prefersReducedMotion : bool) (st : state)
    (element : nat) : state :=
  let st := classList_add element "reveal" st in
  if prefersReducedMotion then classList_add element "animate-in" st
  else observe element st.

(** The observer part of [initScrollAnimations]; [animatedElements]
    lists the matches of the two queries, an element of both twice. *)
Definition initScrollAnimations (prefersReducedMotion : bool)
    (animatedElements : list nat) (elements : list (list string)) : state :=
  fold_left (init_element prefersReducedMotion) animatedElements
    {| elements := elements; observed := [] |}.

(** The observer reports batches of entries. *)
Definition deliver (batches : list (list entry)) (st : state) : state :=
  fold_left (fun st entries => callback entries st) batches st.

Definition has_class (c : string) (i : nat) (st : state) : Prop :=
  exists cl, elements st !! i = Some cl /\ c ∈ cl.

Definition hits (i : nat) (e : entry) : bool :=
  isIntersecting e && (target e =? i)%nat.

(** Some entry of the batches reports element [i] as intersecting. *)
Definition intersected (i : nat) (batches : list (list entry)) : bool :=
  existsb (existsb (hits i)) batches.

End Reveal.

(** ** Lifecycle panel: clicks on the indicators *)

Module LifecycleExtra.
Import Timers Dom Lifecycle.

(** The phase index and every pending content update name one of the
    four phases; the panel has [n] indicators. *)
Definition in_bounds (n : nat) (b : page) : Prop :=
  (currentPhase (dom b) < 4)%nat /\
  length (indicators (dom b)) = n /\
  Forall (fun t => forall i a, act t = UpdateContent i a -> (i < 4)%nat)
    (timers b).

(** Timer ids are fresh: every pending timer, and the stored interval
    id, is older than the next id. *)
Definition fresh (b : page) : Prop :=
  Forall (fun t => (tid t < next_tid b)%nat) (timers b) /\
  (forall id, autoRotateInterval (dom b) = Some id -> (id < next_tid b)%nat).

(** The content update of a click on indicator [i] is due in [r] ms:
    no callback registered before it advances the panel, and after it
    come only fade-ins and intervals due later. *)
Definition update_pending (n i : nat) (r : N) (b : page) : Prop :=
  length (indicators (dom b)) = n /\
  exists ts1 t ts2,
    timers b = ts1 ++ t :: ts2 /\
    act t = UpdateContent i true /\ remaining t = r /\
    Forall (fun t' => act t' ≠ NextPhase) ts1 /\
    Forall (fun t' => act t' = FadeIn \/
                      (act t' = NextPhase /\ (r < remaining t')%N)) ts2.

(** One interval advances the panel, its next callback due in [r] ms,
    whatever id [autoRotateInterval] holds: [stopAutoRotate] need not
    reach it. *)
Definition stray (r : N) (b : page) : Prop :=
  exists t0,
    rotors b = [t0] /\ remaining t0 = r /\ period t0 = Some 4000%N.

(** The panel [c] milliseconds into its cycle, advanced by such an
    interval. *)
Definition drifting (c : N) (b : page) : Prop :=
  (c < 16000)%N /\
  currentPhase (dom b) = N.to_nat (c / 4000) /\
  stray (4000 - c mod 4000) b.

End LifecycleExtra.

(** ** Waitlist form: requests and messages over a whole session *)

Module WaitlistExtra.
Import Timers Dom Waitlist.

Definition is_click (ev : event) : bool :=
  match ev with Click => true | _ => false end.

(** The callback [a] removes the message element [n]. *)
Definition removes (n : nat) (a : action) : Prop :=
  match a with
  | RemoveSuccessMessage i => i = n
  | ResetButtonAfterSuccess _ => False
  | ResetAfterError i _ => i = n
  end.

#[global] Instance removes_dec n a : Decision (removes n a).
Proof. destruct a; cbn; apply _. Defined.

(** The children of the form are those it had before the handler was
    attached, [orig], followed by messages of the handler; each message
    has a pending timeout that removes it within [k] ms.  [n0] separates
    the nodes of [orig] from the nodes created later. *)
Definition tracked (k : N) (n0 : nat) (orig : list Element) (b : page)
  : Prop :=
  (n0 <= next_node (dom b))%nat /\
  Forall (fun e => (node e < n0)%nat) orig /\
  Forall (fun t => period t = None /\ (1 <= remaining t <= k)%N /\
                   forall n, removes n (act t) -> (n0 <= n)%nat) (timers b) /\
  exists msgs,
    children (dom b) = orig ++ msgs /\
    Forall (fun m => Exists (fun t => removes (node m) (act t)) (timers b))
      msgs.

End WaitlistExtra.

(** ** Smooth scrolling for anchor links *)

Module SmoothScroll.
Import Timers Dom.

Inductive behavior : Type := Auto | Smooth.

(** An [a[href^="#"]] element.  [getUpdates]: its trimmed, lower-cased
    text contains [get updates].  [target]: the element that
    [document.querySelector(href)] finds, if any.  [navLink]: it is one
    of the [.nav-link] elements that [initSectionHighlighting] found. *)
Record anchor : Type := {
  href : string;
  getUpdates : bool;
  target : option nat;
  navLink : bool;
  classList : list string
}.

(** The two style properties the click listener writes on a target. *)
Record style : Type := {
  transition : string;
  boxShadow : string
}.

(** [highlighting]: the page has sections and navigation links, so
    that [initSectionHighlighting], which runs after
    [initSmoothScrolling] in the handler of [DOMContentLoaded],
    attaches [highlightNavigation] to the scroll event. *)
Record state : Type := {
  anchors : list anchor;
  rect_top : nat -> Q;            (* [getBoundingClientRect().top] *)
  styles : nat -> style;
  pageYOffset : Q;
  prefersReducedMotion : bool;
  highlighting : bool;
  scrollTo : list (Q * behavior)  (* the calls of [window.scrollTo] *)
}.

(** The callbacks passed to [setTimeout]. *)
Inductive action : Type :=
| RemoveClicked (anchor : nat)
| RemoveActive (anchor : nat)
| ShadowNone (targetElement : nat)
| ClearTransition (targetElement : nat).

Definition page : Type := browser state action.

Definition with_classes (f : list string -> list string) (a : anchor)
  : anchor :=
  {| href := href a; getUpdates := getUpdates a; target := target a;
     navLink := navLink a; classList := f (classList a) |}.

Definition update_classes (i : nat) (f : list string -> list string)
    (d : state) : state :=
  {| anchors := alter (with_classes f) i (anchors d);
     rect_top := rect_top d; styles := styles d;
     pageYOffset := pageYOffset d;
     prefersReducedMotion := prefersReducedMotion d;
     highlighting := highlighting d;
     scrollTo := scrollTo d |}.

Definition update_style (t : nat) (f : style -> style) (d : state) : state :=
  {| anchors := anchors d; rect_top := rect_top d;
     styles := fun t' => if decide (t' = t) then f (styles d t')
                         else styles d t';
     pageYOffset := pageYOffset d;
     prefersReducedMotion := prefersReducedMotion d;
     highlighting := highlighting d;
     scrollTo := scrollTo d |}.

Definition window_scrollTo (top : Q) (bh : behavior) (d : state) : state :=
  {| anchors := anchors d; rect_top := rect_top d; styles := styles d;
     pageYOffset := pageYOffset d;
     prefersReducedMotion := prefersReducedMotion d;
     highlighting := highlighting d;
     scrollTo := scrollTo d ++ [(top, bh)] |}.

(** The click listener of the Get Updates button. *)
Definition on_click_updates (i : nat) (b : page) : page :=
  let b := map_dom (update_classes i (class_add "clicked")) b in
  fst (setTimeout (RemoveClicked i) 300 b).

(** The click listener of every anchor. *)
Definition on_click (i : nat) (a : anchor) (b : page) : page :=
  let targetId := href a in
  if bool_decide (targetId = "#") then b
  else
    match target a with
    | None => b
    | Some targetElement =>
        let b := map_dom (update_classes i (class_add "active")) b in
        let b := fst (setTimeout (RemoveActive i) 1000 b) in
        let headerOffset := 80%Q in
        let elementPosition := rect_top (dom b) targetElement in
        let offsetPosition :=
          (elementPosition + pageYOffset (dom b) - headerOffset)%Q in
        if prefersReducedMotion (dom b) then
          map_dom (window_scrollTo offsetPosition Auto) b
        else
          let b := map_dom (window_scrollTo offsetPosition Smooth) b in
          let b :=
            map_dom
              (update_style targetElement (fun _ =>
                 {| transition := "box-shadow 0.5s ease";
                    boxShadow := "0 0 0 2px var(--color-primary-light)" |}))
              b in
          fst (setTimeout (ShadowNone targetElement) 1000 b)
    end.

(** A click on the anchor at position [i]: its listeners run in the
    order they were added. *)
Definition click (i : nat) (b : page) : page :=
  match anchors (dom b) !! i with
  | None => b
  | Some a =>
      let b := if getUpdates a then on_click_updates i b else b in
      on_click i a b
  end.

Definition run (a : action) (b : page) : page :=
  match a with
  | RemoveClicked i => map_dom (update_classes i (class_remove "clicked")) b
  | RemoveActive i => map_dom (update_classes i (class_remove "active")) b
  | ShadowNone t =>
      let b :=
        map_dom
          (update_style t (fun s =>
             {| transition := transition s; boxShadow := "none" |})) b in
      fst (setTimeout (ClearTransition t) 500 b)
  | ClearTransition t =>
      map_dom
        (update_style t (fun s =>
           {| transition := ""; boxShadow := boxShadow s |})) b
  end.

(** [initSmoothScrolling]: the Get Updates anchors get their class; the
    listeners are attached. *)
Definition initSmoothScrolling (d : state) : page :=
  {| dom :=
       {| anchors :=
            (fun a => if getUpdates a
                      then with_classes (class_add "nav-updates-btn") a
                      else a) <$> anchors d;
          rect_top := rect_top d; styles := styles d;
          pageYOffset := pageYOffset d;
          prefersReducedMotion := prefersReducedMotion d;
          highlighting := highlighting d;
          scrollTo := scrollTo d |};
     timers := []; next_tid := 1 |}.

(** What [highlightNavigation] does to an anchor that is one of its
    navigation links, [current] being the id of the section reached. *)
Definition highlight_anchor (current : string) (a : anchor) : anchor :=
  if navLink a then
    with_classes
      (fun classes =>
         let classes := class_remove "active" classes in
         if bool_decide (href a = "#" +:+ current)
         then class_add "active" classes else classes) a
  else a.

(** The scroll listener of [initSectionHighlighting], on the anchors. *)
Definition highlightNavigation (scrollY : Q)
    (sections : list Highlight.section) (d : state) : state :=
  {| anchors :=
       highlight_anchor (Highlight.current scrollY sections) <$> anchors d;
     rect_top := rect_top d; styles := styles d;
     pageYOffset := pageYOffset d;
     prefersReducedMotion := prefersReducedMotion d;
     highlighting := highlighting d;
     scrollTo := scrollTo d |}.

(** [Scrolled y tops sections]: the window has scrolled to [y]; the
    targets are at [tops] in the viewport and the sections of the page
    are laid out as [sections].  [highlightNavigation] runs when it is
    attached; its first call, by [initSectionHighlighting] itself, is
    such an event at the position the page is loaded at. *)
Inductive event : Type :=
| Click (i : nat)
| Scrolled (y : Q) (tops : nat -> Q) (sections : list Highlight.section)
| Elapse (ms : N).

Definition step (b : page) (ev : event) : page :=
  match ev with
  | Click i => click i b
  | Scrolled y tops sections =>
      map_dom (fun d =>
        let d :=
          {| anchors := anchors d; rect_top := tops; styles := styles d;
             pageYOffset := y;
             prefersReducedMotion := prefersReducedMotion d;
             highlighting := highlighting d;
             scrollTo := scrollTo d |} in
        if highlighting d then highlightNavigation y sections d else d) b
  | Elapse ms => elapse run ms b
  end.

Definition exec (b : page) (evs : list event) : page := fold_left step evs b.

(** A timeout that fires within [k] ms; the one that removes the shadow
    leaves 500 ms for the timeout it sets. *)
Definition within (k : N) (t : timer action) : Prop :=
  period t = None /\ (1 <= remaining t)%N /\
  match act t with
  | ShadowNone _ => (remaining t + 500 <= k)%N
  | _ => (remaining t <= k)%N
  end.

(** The document [d] differs from the document [d0] the listeners were
    attached to only by feedback that a callback of [P] will undo, and
    by the class [active] that [highlightNavigation] writes on its
    navigation links. *)
Definition settling (d0 : state) (P : action -> Prop) (d : state) : Prop :=
  length (anchors d) = length (anchors d0) /\
  highlighting d = highlighting d0 /\
  (forall i a, anchors d !! i = Some a ->
     exists a0, anchors d0 !! i = Some a0 /\
       href a = href a0 /\ getUpdates a = getUpdates a0 /\
       target a = target a0 /\ navLink a = navLink a0 /\
       (forall c, c ∈ classList a ->
          c ∈ classList a0 \/
          (c = "nav-updates-btn" /\ getUpdates a0 = true) \/
          (c = "clicked" /\ P (RemoveClicked i)) \/
          (c = "active" /\ P (RemoveActive i)) \/
          (c = "active" /\ highlighting d0 = true /\ navLink a0 = true)) /\
       (forall c,
          c ∈ classList a0 \/
          (c = "nav-updates-btn" /\ getUpdates a0 = true) ->
          c ≠ "clicked" -> c ≠ "active" -> c ∈ classList a)) /\
  (forall t,
     (transition (styles d t) = transition (styles d0 t) \/
      transition (styles d t) = "" \/
      P (ShadowNone t) \/ P (ClearTransition t)) /\
     (boxShadow (styles d t) = boxShadow (styles d0 t) \/
      boxShadow (styles d t) = "none" \/ P (ShadowNone t))).

(** The callbacks still to run. *)
Definition pending_in (ts : list (timer action)) (a : action) : Prop :=
  Exists (fun t => act t = a) ts.

Definition settled_within (k : N) (d0 : state) (b : page) : Prop :=
  Forall (within k) (timers b) /\
  settling d0 (pending_in (timers b)) (dom b).

Definition is_click (ev : event) : bool :=
  match ev with Click _ => true | _ => false end.

(** A callback that only removes a class of an anchor. *)
Definition removes_class (a : action) : Prop :=
  match a with
  | RemoveClicked _ | RemoveActive _ => True
  | ShadowNone _ | ClearTransition _ => False
  end.

(** Under reduced motion: the styles are those of [d0], only class
    removals are pending, and [window.scrollTo] has been called with
    [calls] since. *)
Definition plain (d0 : state) (calls : list (Q * behavior)) (b : page)
  : Prop :=
  prefersReducedMotion (dom b) = true /\
  (forall t, styles (dom b) t = styles d0 t) /\
  Forall (fun tm => removes_class (act tm)) (timers b) /\
  scrollTo (dom b) = scrollTo d0 ++ calls.

(** A page with one Get Updates anchor whose target exists; the
    anchor is a navigation link. *)
Definition demo_page (reduced : bool) : state :=
  {| anchors :=
       [{| href := "#waitlist"; getUpdates := true; target := Some 0%nat;
           navLink := true; classList := ["nav-cta"] |}];
     rect_top := fun _ => 900%Q;
     styles := fun _ => {| transition := "all 0.3s"; boxShadow := "" |};
     pageYOffset := 120%Q;
     prefersReducedMotion := reduced;
     highlighting := true;
     scrollTo := [] |}.

End SmoothScroll.

(** ** Staggered card reveals of [initHighlightEffects] *)

Module HighlightFx.
Import Timers Dom.

(** A card; [index] is its position among the cards of its parent
    element. *)
Record card : Type := {
  index : nat;
  opacity : string;
  transform : string;
  transition : string;
  willChange : string
}.

Record state : Type := {
  cards : list card;
  observed : list nat;     (* the cards the observers still watch *)
  isMobile : bool
}.

(** The callbacks passed to [setTimeout]. *)
Inductive action : Type :=
| ShowCard (card : nat)
| WillChangeAuto (card : nat).

Definition page : Type := browser state action.

Definition update_card (i : nat) (f : card -> card) (d : state) : state :=
  {| cards := alter f i (cards d); observed := observed d;
     isMobile := isMobile d |}.

Definition unobserve (i : nat) (d : state) : state :=
  {| cards := cards d; observed := filter (fun j => j ≠ i) (observed d);
     isMobile := isMobile d |}.

Definition hide (c : card) : card :=
  {| index := index c; opacity := "0"; transform := "translateY(30px)";
     transition := "none"; willChange := "opacity, transform" |}.

Definition show (c : card) : card :=
  {| index := index c; opacity := "1"; transform := "translateY(0)";
     transition :=
       "opacity 0.7s cubic-bezier(0.22, 1, 0.36, 1), transform 0.7s cubic-bezier(0.22, 1, 0.36, 1)";
     willChange := willChange c |}.

Definition will_change_auto (c : card) : card :=
  {| index := index c; opacity := opacity c; transform := transform c;
     transition := transition c; willChange := "auto" |}.

Definition run (a : action) (b : page) : page :=
  match a with
  | ShowCard i =>
      fst (setTimeout (WillChangeAuto i) 700 (map_dom (update_card i show) b))
  | WillChangeAuto i => map_dom (update_card i will_change_auto) b
  end.

Record entry : Type := {
  target : nat;
  isIntersecting : bool
}.

Section Stagger.

(** The timeout in milliseconds that [setTimeout] derives from
    [index * 0.05 * 1000] on a small viewport and from
    [index * 0.1 * 1000] otherwise. *)
Variable stagger_ms : bool -> nat -> N.

(** The callback of the card observers for one entry. *)
Definition on_entry (b : page) (e : entry) : page :=
  if isIntersecting e then
    match cards (dom b) !! target e with
    | Some card =>
        let b :=
          fst (setTimeout (ShowCard (target e))
                 (stagger_ms (isMobile (dom b)) (index card)) b) in
        map_dom (unobserve (target e)) b
    | None => b
    end
  else b.

Definition callback (entries : list entry) (b : page) : page :=
  fold_left on_entry entries b.

Inductive event : Type :=
| Intersect (entries : list entry)
| Elapse (ms : N).

Definition step (b : page) (ev : event) : page :=
  match ev with
  | Intersect entries => callback entries b
  | Elapse ms => elapse run ms b
  end.

Definition exec (b : page) (evs : list event) : page := fold_left step evs b.

End Stagger.

(** [initHighlightEffects] on the cards of the sections: every card is
    hidden and observed. *)
Definition initHighlightEffects (innerWidth : Z) (cards : list card) : page :=
  {| dom := {| cards := hide <$> cards;
               observed := seq 0 (length cards);
               isMobile := (innerWidth <=? 768)%Z |};
     timers := []; next_tid := 1 |}.

Definition hidden (c : card) : Prop :=
  opacity c = "0" /\ transform c = "translateY(30px)".

Definition shown (c : card) : Prop :=
  opacity c = "1" /\ transform c = "translateY(0)".

Definition hits (i : nat) (e : entry) : bool :=
  isIntersecting e && (target e =? i)%nat.

(** Some entry delivered in [evs] reports card [i] as intersecting. *)
Definition intersected (i : nat) (evs : list event) : bool :=
  existsb (fun ev => match ev with
                     | Intersect entries => existsb (hits i) entries
                     | Elapse _ => false
                     end) evs.

(** Card [i] is hidden and still observed, and nothing will show it. *)
Definition waiting (i : nat) (b : page) : Prop :=
  (exists c, cards (dom b) !! i = Some c /\ hidden c) /\
  i ∈ observed (dom b) /\
  Forall (fun t => act t ≠ ShowCard i) (timers b).

Definition card_shown (i : nat) (b : page) : Prop :=
  exists c, cards (dom b) !! i = Some c /\ shown c.

(** The callback that shows card [i] is due in [r] ms. *)
Definition show_pending (i : nat) (r : N) (b : page) : Prop :=
  (i < length (cards (dom b)))%nat /\
  exists t, t ∈ timers b /\ act t = ShowCard i /\ remaining t = r.

(** Two cards of one parent, as the markup has them. *)
Definition demo_cards : list card :=
  [{| index := 0; opacity := ""; transform := ""; transition := "";
      willChange := "" |};
   {| index := 1; opacity := ""; transform := ""; transition := "";
      willChange := "" |}].

End HighlightFx.
(** * Properties *)

(** ** Scroll-linked effects: the written opacities *)

Section NumFacts.
Import JSNum ScrollFx.
Local Open Scope Q_scope.

Lemma Qltb_true a b : Qltb a b = true <-> a < b.
Proof.
  unfold Qltb. rewrite negb_true_iff. split.
  - intros H. apply Qnot_le_lt. intros Hle. apply Qle_bool_iff in Hle. congruence.
  - intros H. destruct (Qle_bool b a) eqn:E; [|reflexivity].
    apply Qle_bool_iff in E. lra.
Qed.

Lemma Qle_bool_false a b : Qle_bool a b = false <-> b < a.
Proof.
  split.
  - intros H. apply Qnot_le_lt. intros Hle. apply Qle_bool_iff in Hle. congruence.
  - intros H. destruct (Qle_bool a b) eqn:E; [|reflexivity].
    apply Qle_bool_iff in E. lra.
Qed.

Lemma max_fin a b :
  exists c,
    max (Fin a) (Fin b) = Fin c /\ a <= c /\ b <= c /\ (c = a \/ c = b).
Proof.
  unfold max. destruct (Qle_bool a b) eqn:E.
  - apply Qle_bool_iff in E. exists b. repeat split; auto; lra.
  - apply Qle_bool_false in E. exists a. repeat split; auto; lra.
Qed.

Lemma min_fin a b :
  exists c,
    min (Fin a) (Fin b) = Fin c /\ c <= a /\ c <= b /\ (c = a \/ c = b).
Proof.
  unfold min. destruct (Qle_bool a b) eqn:E.
  - apply Qle_bool_iff in E. exists a. repeat split; auto; lra.
  - apply Qle_bool_false in E. exists b. repeat split; auto; lra.
Qed.

Lemma clamp_unit x : x <> NaN -> in_unit (max (Fin 0) (min (Fin 1) x)).
Proof.
  destruct x as [q| | |]; intros H; try congruence.
  - destruct (min_fin 1 q) as (c & -> & Hc1 & Hc2 & _).
    destruct (max_fin 0 c) as (e & -> & He1 & He2 & [-> | ->]); unfold in_unit; lra.
  - change (in_unit (Fin 1)). unfold in_unit. lra.
  - change (in_unit (Fin 0)). unfold in_unit. lra.
Qed.

(** The divisor of the fade progress is never zero: 0.8 * h = 50 has
    no integer solution. *)
Lemma fade_divisor_nonzero (h : Z) : ~ (inject_Z h * 0.8 + - 50 == 0).
Proof.
  intros H.
  assert (E : inject_Z h * 8 == 500) by lra.
  change 8 with (inject_Z 8) in E. change 500 with (inject_Z 500) in E.
  rewrite <- inject_Z_mult in E. apply (proj1 (inject_Z_injective _ _)) in E. lia.
Qed.

Lemma fadeProgress_unit (scrollY : Q) (h : Z) :
  in_unit (max (Fin 0) (min (Fin 1)
     (div (sub (Fin scrollY) (Fin 50)) (sub (mul (of_Z h) (Fin 0.8)) (Fin 50))))).
Proof.
  apply clamp_unit. unfold of_Z, mul, sub, neg, add, div.
  destruct (Qeq_bool _ _) eqn:E; [|discriminate].
  apply Qeq_bool_iff in E. exfalso. apply (fade_divisor_nonzero h). lra.
Qed.

Lemma hero_opacity_unit (scrollY : Q) (h : Z) :
  in_unit (hero_opacity (updateHeroFade (Fin scrollY) (of_Z h))).
Proof.
  unfold updateHeroFade. cbv zeta.
  pose proof (fadeProgress_unit scrollY h) as Hp.
  destruct (max _ _) as [p| | |]; cbn in Hp; try contradiction.
  unfold pow3, sub, neg, add, mul, hero_opacity, in_unit in *.
  assert (Hu : 0 <= 1 + - p <= 1) by lra.
  set (u := 1 + - p) in *.
  assert (Hu2 : 0 <= u * u <= 1) by nra.
  assert (Hu3 : 0 <= u * (u * u) <= 1) by nra.
  lra.
Qed.

Lemma max0_unit x : (forall q, x = Fin q -> q <= 1) -> x <> NaN -> x <> PInf ->
  in_unit (max (Fin 0) x).
Proof.
  intros Hq Hn Hp. destruct x as [q| | |]; try congruence.
  - destruct (max_fin 0 q) as (e & -> & He1 & He2 & [-> | ->]); unfold in_unit.
    + lra.
    + specialize (Hq q eq_refl). lra.
  - change (in_unit (Fin 0)). unfold in_unit. lra.
Qed.

Lemma sgn_pos q : 0 < q -> sgn q = Lt.
Proof. intros H. unfold sgn. now apply Qlt_alt. Qed.

Lemma sgn_neg q : q < 0 -> sgn q = Gt.
Proof. intros H. unfold sgn. now apply Qgt_alt. Qed.

Lemma fade_out_unit (y d : Q) :
  0 <= d -> y < d -> in_unit (max (Fin 0) (div (Fin y) (Fin d))).
Proof.
  intros Hd Hy. unfold div.
  destruct (Qeq_bool d 0) eqn:E.
  - apply Qeq_bool_iff in E. rewrite sgn_neg by lra.
    change (in_unit (Fin 0)). unfold in_unit. lra.
  - apply Qeq_bool_neq in E.
    apply max0_unit; try discriminate.
    intros q [= <-]. apply Qle_shift_div_r; lra.
Qed.

Lemma fade_in_unit (n d : Q) :
  0 <= d -> 0 < n ->
  in_unit (max (Fin 0) (sub (Fin 1) (div (Fin n) (Fin d)))).
Proof.
  intros Hd Hn. unfold div.
  destruct (Qeq_bool d 0) eqn:E.
  - apply Qeq_bool_iff in E. rewrite sgn_pos by lra.
    change (in_unit (Fin 0)). unfold in_unit. lra.
  - apply Qeq_bool_neq in E.
    apply max0_unit; try discriminate.
    unfold sub, neg, add. intros q [= <-].
    assert (0 <= n / d) by (apply Qle_shift_div_l; lra). lra.
Qed.

Lemma scaled_unit x (isMobile : bool) :
  in_unit x -> in_unit (mul x (if isMobile then Fin 0.75 else Fin 0.85)).
Proof.
  destruct x as [q| | |]; try contradiction.
  unfold in_unit. destruct isMobile; unfold mul; nra.
Qed.

Lemma factor_unit (isMobile : bool) :
  in_unit (if isMobile then Fin 0.75 else Fin 0.85).
Proof. destruct isMobile; unfold in_unit; lra. Qed.

Variable sin_fin : Q -> Q.
Variable PI : Q.

Lemma orb_opacity_unit (top : Q) (h : Z) (isMobile : bool) (index : nat) :
  (0 <= h)%Z ->
  in_unit (orb_opacity (orbStyle sin_fin PI (Fin top) (of_Z h) isMobile index)).
Proof.
  intros Hh.
  assert (HH : 0 <= inject_Z h).
  { change 0 with (inject_Z 0). rewrite <- Zle_Qle. exact Hh. }
  unfold orbStyle. cbv zeta. unfold orb_opacity.
  set (orbY := sub _ _).
  assert (Hy : exists y, orbY = Fin y)
    by (subst orbY; destruct isMobile; eexists; reflexivity).
  destruct Hy as [y ->].
  change (mul (of_Z h) (Fin 0.8)) with (Fin (inject_Z h * 0.8)).
  change (mul (of_Z h) (Fin 0.3)) with (Fin (inject_Z h * 0.3)).
  change (mul (of_Z h) (Fin 0.1)) with (Fin (inject_Z h * 0.1)).
  unfold gt, lt.
  destruct (Qltb y (inject_Z h * 0.1)) eqn:E2.
  - apply Qltb_true in E2. apply scaled_unit, fade_out_unit; lra.
  - destruct (Qltb (inject_Z h * 0.8) y) eqn:E1.
    + apply Qltb_true in E1. apply scaled_unit.
      change (sub (Fin y) (Fin (inject_Z h * 0.8))) with (Fin (y + - (inject_Z h * 0.8))).
      apply fade_in_unit; lra.
    + apply factor_unit.
Qed.

Lemma orbs_opacity_unit (top : Q) (h w : Z) (norbs : nat) :
  (0 <= h)%Z ->
  Forall (fun o => in_unit (orb_opacity o))
    (updateOrbPositions sin_fin PI (Fin top) h w norbs).
Proof.
  intros Hh. unfold updateOrbPositions. apply Forall_forall. intros o Ho.
  apply list_elem_of_In, in_map_iff in Ho as (index & <- & _).
  apply orb_opacity_unit, Hh.
Qed.

(** C1. For every scroll position and viewport geometry (heights are the
    integers [offsetHeight] gives, the section height not negative), the
    opacity [updateHeroFade] writes on the hero and the opacity
    [updateOrbPositions] writes on each orb lie in [0, 1]. *)
Theorem opacity_in_unit_interval (scrollY rect_top : Q)
    (headerHeight sectionHeight innerWidth : Z) (norbs : nat) :
  (0 <= sectionHeight)%Z ->
  in_unit (hero_opacity (updateHeroFade (Fin scrollY) (of_Z headerHeight))) /\
  Forall (fun o => in_unit (orb_opacity o))
    (updateOrbPositions sin_fin PI (Fin rect_top) sectionHeight innerWidth
       norbs).
Proof.
  intros Hh. split.
  - apply hero_opacity_unit.
  - apply orbs_opacity_unit, Hh.
Qed.

(** The fade progress is clamped, so every value written on the hero is
    a finite number, whatever the header height. *)
Lemma hero_style_finite (scrollY : Q) (h : Z) :
  let st := updateHeroFade (Fin scrollY) (of_Z h) in
  is_finite (hero_opacity st) = true /\
  is_finite (hero_translateY st) = true /\
  is_finite (hero_scale st) = true.
Proof.
  unfold updateHeroFade. cbv zeta.
  pose proof (fadeProgress_unit scrollY h) as Hp.
  destruct (max _ _) as [p| | |]; unfold in_unit in Hp; try contradiction.
  repeat split.
Qed.

(** The special values stay special through the arithmetic of the
    wobble. *)
Lemma special_inf_of c : special (inf_of c).
Proof. destruct c; reflexivity. Qed.

Lemma special_mul_fin x q : special x -> special (mul x (Fin q)).
Proof.
  destruct x; intros H; try discriminate; unfold mul;
    try apply special_inf_of; reflexivity.
Qed.

Lemma special_add_fin x q : special x -> special (add x (Fin q)).
Proof. destruct x; intros H; try discriminate; reflexivity. Qed.

Lemma sin_special x : special x -> sin sin_fin x = NaN.
Proof. destruct x; intros H; try discriminate; reflexivity. Qed.

Lemma scrollProgress_zero_height (top : Q) :
  special (scrollProgress (Fin top) (of_Z 0)).
Proof. unfold scrollProgress, neg, of_Z, div. cbn. apply special_inf_of. Qed.

Lemma orb_x_zero_height (top : Q) (isMobile : bool) (index : nat) :
  orb_x (orbStyle sin_fin PI (Fin top) (of_Z 0) isMobile index) = NaN.
Proof.
  unfold orbStyle. cbv zeta. unfold orb_x.
  rewrite sin_special.
  - destruct isMobile; reflexivity.
  - apply special_add_fin, special_mul_fin, special_mul_fin.
    apply scrollProgress_zero_height.
Qed.

(** C2. The division of [scrollProgress] in [updateOrbPositions] is not
    guarded: with a section of height zero the progress is an infinity
    or NaN, and the horizontal translation written on every orb is NaN
    (evaluated at rect.top = -100, a window 1280 wide and the eight
    orbs, and for every input with that height). *)
Theorem orb_translate_nan_at_zero_height :
  scrollProgress (Fin (-100)) (of_Z 0) = PInf /\
  orb_x <$> updateOrbPositions sin_fin PI (Fin (-100)) 0 1280 8 =
    replicate 8 NaN /\
  forall (rect_top : Q) (innerWidth : Z) (norbs : nat),
    Forall (fun o => orb_x o = NaN)
      (updateOrbPositions sin_fin PI (Fin rect_top) 0 innerWidth norbs).
Proof.
  assert (Hall : forall (rect_top : Q) (innerWidth : Z) (norbs : nat),
    Forall (fun o => orb_x o = NaN)
      (updateOrbPositions sin_fin PI (Fin rect_top) 0 innerWidth norbs)).
  { intros top w n. unfold updateOrbPositions. apply Forall_forall.
    intros o Ho. apply list_elem_of_In, in_map_iff in Ho as (index & <- & _).
    apply orb_x_zero_height. }
  split; [reflexivity|]. split; [|exact Hall].
  specialize (Hall (-100) 1280%Z 8%nat).
  unfold updateOrbPositions in *. cbn [seq map fmap list_fmap replicate] in *.
  repeat match goal with
         | H : Forall _ (_ :: _) |- _ =>
             let E := fresh "E" in
             apply Forall_cons in H as [E H]; rewrite E
         end.
  reflexivity.
Qed.

End NumFacts.

(** C1 at a concrete page: scrolled to 120 with a header 80 high, the
    section 600 high with its top 100 above the viewport, eight orbs. *)
Lemma opacity_in_unit_interval_witness :
  (0 <= 600)%Z /\
  (JSNum.in_unit
     (ScrollFx.hero_opacity
        (ScrollFx.updateHeroFade (JSNum.Fin 120) (JSNum.of_Z 80))) /\
   Forall (fun o => JSNum.in_unit (ScrollFx.orb_opacity o))
     (ScrollFx.updateOrbPositions (fun _ => 0%Q) 3.14159%Q
        (JSNum.Fin (-100)) 600 1280 8)).
Proof.
  split; [lia|].
  apply (opacity_in_unit_interval (fun _ => 0%Q) 3.14159%Q 120 (-100) 80 600 1280 8).
  lia.
Defined.

(** ** Scroll-linked effects: the throttle *)

Section ThrottleFacts.
Import ScrollFx.
Context {Env View : Type}.
Variable recompute : Env -> View.

Abbreviation ctl := (@ctl Env View).

Lemma step_scroll_coalesced (s : ctl) e :
  coalesced s -> coalesced (step recompute s (Scroll e)).
Proof.
  unfold coalesced, step, requestTick. cbn.
  destruct (ticking s); cbn; intros ->; reflexivity.
Qed.

Lemma step_frame (s : ctl) :
  coalesced s ->
  let s' := step recompute s Frame in
  ticking s' = false /\ frame_queue s' = [] /\
  runs s' = (if ticking s then S (runs s) else runs s) /\
  view s' = (if ticking s then Some (recompute (env s)) else view s) /\
  env s' = env s.
Proof.
  unfold coalesced, step. destruct s as [e t q v n]; cbn.
  destruct t; intros ->; cbn; auto.
Qed.

Lemma step_coalesced (s : ctl) ev : coalesced s -> coalesced (step recompute s ev).
Proof.
  destruct ev as [e|].
  - apply step_scroll_coalesced.
  - intros H. destruct (step_frame s H) as (Ht & Hq & _).
    unfold coalesced. rewrite Ht, Hq. reflexivity.
Qed.

Lemma exec_coalesced evs : forall s : ctl, coalesced s -> coalesced (exec recompute s evs).
Proof.
  induction evs as [|ev evs IH]; intros s H; cbn; [exact H|].
  apply IH, step_coalesced, H.
Qed.

Lemma step_runs (s : ctl) ev :
  coalesced s ->
  (runs (step recompute s ev) <= runs s + (if is_frame ev then 1 else 0))%nat.
Proof.
  intros H. destruct ev as [e|].
  - unfold step, requestTick; cbn. destruct (ticking s); cbn; lia.
  - destruct (step_frame s H) as (_ & _ & Hr & _). rewrite Hr.
    cbn. destruct (ticking s); lia.
Qed.

Lemma frames_cons (ev : @event Env) evs :
  frames (ev :: evs) = ((if is_frame ev then 1 else 0) + frames evs)%nat.
Proof. unfold frames. cbn. destruct (is_frame ev); reflexivity. Qed.

Lemma exec_runs evs : forall s : ctl,
  coalesced s -> (runs (exec recompute s evs) <= runs s + frames evs)%nat.
Proof.
  induction evs as [|ev evs IH]; intros s H.
  - cbn. lia.
  - specialize (IH _ (step_coalesced s ev H)).
    pose proof (step_runs s ev H) as Hs.
    change (exec recompute s (ev :: evs))
      with (exec recompute (step recompute s ev) evs).
    rewrite frames_cons. lia.
Qed.

(** Scroll events leave at most the one pending callback, run nothing,
    and leave the latest position for the callback to read. *)
Lemma scrolls_collapse es : forall (s : ctl) e,
  coalesced s ->
  let s' := exec recompute s (Scroll <$> (es ++ [e])) in
  ticking s' = true /\ frame_queue s' = [Update] /\ env s' = e /\
  runs s' = runs s /\ view s' = view s.
Proof.
  induction es as [|e' es IH]; intros s e H.
  - cbn. unfold requestTick; cbn. unfold coalesced in H.
    destruct (ticking s); cbn; rewrite ?H; auto.
  - change (exec recompute s (Scroll <$> ((e' :: es) ++ [e])))
      with (exec recompute (step recompute s (Scroll e')) (Scroll <$> (es ++ [e]))).
    specialize (IH (step recompute s (Scroll e')) e (step_scroll_coalesced s e' H)).
    cbn zeta in IH.
    destruct IH as (H1 & H2 & H3 & H4 & H5). repeat split; auto.
    + rewrite H4. unfold step, requestTick; cbn. destruct (ticking s); reflexivity.
    + rewrite H5. unfold step, requestTick; cbn. destruct (ticking s); reflexivity.
Qed.

(** C8. Whatever the scroll events, at most one frame callback of the
    controller is pending: while [ticking] is set a scroll event
    schedules nothing, a frame runs the recompute at most once, the
    recompute has run at most once per frame since the listener was
    attached, and the scroll events between two frames collapse into one
    recompute, of the latest position.  [direct] tells whether the
    initializer calls the recompute once itself, as [initOrbParallax]
    does. *)
Theorem scroll_updates_coalesced (direct : bool) (e0 : Env)
    (v0 : option View) (evs : list (@event Env)) :
  let s0 :=
    if direct then update recompute (attached e0 v0) else attached e0 v0 in
  let s := exec recompute s0 evs in
  (length (frame_queue s) <= 1)%nat /\
  (ticking s = true ->
   forall e, frame_queue (step recompute s (Scroll e)) = frame_queue s) /\
  (runs s <= runs s0 + frames evs)%nat /\
  (runs (step recompute s Frame) <= S (runs s))%nat /\
  forall es e,
    let s1 := exec recompute s (Scroll <$> (es ++ [e])) in
    frame_queue s1 = [Update] /\ runs s1 = runs s /\
    runs (step recompute s1 Frame) = S (runs s) /\
    view (step recompute s1 Frame) = Some (recompute e).
Proof.
  intros s0 s.
  assert (Hs0 : coalesced s0) by (unfold s0; destruct direct; reflexivity).
  assert (Hs : coalesced s) by apply exec_coalesced, Hs0.
  split; [|split; [|split; [|split]]].
  - rewrite Hs. destruct (ticking s); cbn; lia.
  - intros Ht e. unfold step, requestTick; cbn. rewrite Ht. reflexivity.
  - apply exec_runs, Hs0.
  - pose proof (step_runs s Frame Hs) as H. cbn [is_frame] in H. lia.
  - intros es e s1.
    destruct (scrolls_collapse es s e Hs) as (H1 & H2 & H3 & H4 & H5).
    fold s1 in H1, H2, H3, H4, H5.
    assert (Hs1 : coalesced s1) by (apply exec_coalesced, Hs).
    destruct (step_frame s1 Hs1) as (_ & _ & Hr & Hv & _).
    rewrite H1 in Hr, Hv. rewrite Hr, Hv, H4, H3. auto.
Qed.

End ThrottleFacts.

(** ** Mobile menu *)

Section MenuFacts.
Import Timers Dom Menu.

Lemma class_remove_absent c (l : list string) : c ∉ l -> class_remove c l = l.
Proof.
  intros H. unfold class_remove. induction l as [|x l IH]; [reflexivity|].
  apply not_elem_of_cons in H as [Hx Hl].
  rewrite filter_cons_True by congruence. f_equal. apply IH, Hl.
Qed.

Lemma class_remove_add c (l : list string) : c ∉ l -> class_remove c (class_add c l) = l.
Proof.
  intros H. unfold class_add. rewrite bool_decide_eq_false_2 by exact H.
  unfold class_remove.
  rewrite filter_app, filter_cons_False, filter_nil, app_nil_r
    by (intros ?; congruence).
  apply class_remove_absent, H.
Qed.

Lemma toggleMenu_dom (b : page) : dom (toggleMenu b) = toggle_dom (dom b).
Proof. unfold toggleMenu. cbn. destruct (negb _); reflexivity. Qed.

(** C6. From the closed-menu state, [toggleMenu] called twice opens the
    menu and closes it again: [aria-expanded] and the class lists of the
    toggle, the overlay, the link list and the document element are
    what they were before the first call. *)
Theorem toggle_twice_restores (b : page) :
  closed (dom b) ->
  let opened := toggleMenu b in
  let back := toggleMenu opened in
  isMenuOpen (dom opened) = true /\
  aria_expanded (dom opened) = Some "true" /\
  mirror_of (dom back) = mirror_of (dom b) /\
  closed (dom back).
Proof.
  intros (Hopen & Haria & Ht & Ho & Hn & Hh). cbn zeta.
  rewrite !toggleMenu_dom.
  destruct (dom b) as [o w a tc oc nc hc sw f ni iw cw]; cbn in *. subst o a.
  unfold closed, mirror_of, toggle_dom, class_toggle.
  cbn -[class_add class_remove]. rewrite !class_remove_add by assumption.
  repeat split; assumption.
Qed.

End MenuFacts.

(** C6 on a page with the menu closed. *)
Lemma toggle_twice_restores_witness :
  Menu.closed (Timers.dom Menu.demo_closed) /\
  (Menu.isMenuOpen (Timers.dom (Menu.toggleMenu Menu.demo_closed)) = true /\
   Menu.aria_expanded (Timers.dom (Menu.toggleMenu Menu.demo_closed)) =
     Some "true" /\
   Menu.mirror_of
     (Timers.dom (Menu.toggleMenu (Menu.toggleMenu Menu.demo_closed))) =
     Menu.mirror_of (Timers.dom Menu.demo_closed) /\
   Menu.closed
     (Timers.dom (Menu.toggleMenu (Menu.toggleMenu Menu.demo_closed)))).
Proof.
  assert (H : Menu.closed (Timers.dom Menu.demo_closed)).
  { unfold Menu.closed. cbn.
    repeat split; try reflexivity; intros Hin;
      repeat (apply elem_of_cons in Hin as [Hin|Hin]; [discriminate|]);
      inversion Hin. }
  split; [exact H|]. exact (toggle_twice_restores Menu.demo_closed H).
Defined.

(** ** Timers *)

Section TimerFacts.
Import Timers.
Local Open Scope N_scope.
Context {D A : Type}.
Variable run : A -> browser D A -> browser D A.

Lemma elapse_succ ms (b : browser D A) :
  elapse run (N.succ ms) b = tick_ms run (elapse run ms b).
Proof. apply N.iter_succ. Qed.

Lemma elem_of_due (ts : list (timer A)) t' :
  t' ∈ filter is_due (countdown <$> ts) <->
  exists t, t ∈ ts /\ t' = countdown t /\ remaining t <= 1.
Proof.
  rewrite list_elem_of_filter, list_elem_of_fmap. unfold is_due. split.
  - intros (Hd & t & -> & Ht). exists t. cbn in Hd. repeat split; auto; lia.
  - intros (t & Ht & -> & Hr). split; [cbn; lia|]. exists t; auto.
Qed.

Lemma elem_of_kept (ts : list (timer A)) t' :
  t' ∈ omap rearm (countdown <$> ts) <->
  exists t, t ∈ ts /\
    ((2 <= remaining t /\ t' = countdown t) \/
     (remaining t <= 1 /\ exists p, period t = Some p /\
        t' = {| tid := tid t; remaining := N.max 1 p; period := period t; act := act t |})).
Proof.
  rewrite list_elem_of_omap. split.
  - intros (c & Hc & Hre). apply list_elem_of_fmap in Hc as (t & -> & Ht).
    exists t. split; [exact Ht|]. unfold rearm, is_due in Hre. cbn in Hre.
    destruct (decide _) as [E|E].
    + right. split; [lia|]. destruct (period t) as [p|]; [|discriminate].
      exists p. split; [reflexivity|]. congruence.
    + left. split; [lia|]. congruence.
  - intros (t & Ht & [[Hr ->] | [Hr (p & Hp & ->)]]).
    + exists (countdown t). split; [apply list_elem_of_fmap; eauto|].
      unfold rearm, is_due. cbn. destruct (decide _); [lia|reflexivity].
    + exists (countdown t). split; [apply list_elem_of_fmap; eauto|].
      unfold rearm, is_due. cbn. destruct (decide _); [|lia]. rewrite Hp. reflexivity.
Qed.

Lemma run_all_cons t l (b : browser D A) :
  run_all run (t :: l) b = run_all run l (run (act t) b).
Proof. reflexivity. Qed.

(** A property of the page that every due callback keeps. *)
Lemma run_all_keeps (P : browser D A -> Prop) due b :
  Forall (fun t => forall b, P b -> P (run (act t) b)) due ->
  P b -> P (run_all run due b).
Proof.
  revert b. induction due as [|t due IH]; intros b Hall Hb; [exact Hb|].
  inversion Hall; subst. rewrite run_all_cons. apply IH; auto.
Qed.

(** A property that one due callback establishes and the others keep. *)
Lemma run_all_establishes (Q : browser D A -> Prop) due b :
  Exists (fun t => forall b, Q (run (act t) b)) due ->
  Forall (fun t => forall b, Q b -> Q (run (act t) b)) due ->
  Q (run_all run due b).
Proof.
  revert b. induction due as [|t due IH]; intros b Hex Hall.
  - inversion Hex.
  - inversion Hall as [|? ? Hk Hall']; subst. rewrite run_all_cons.
    inversion Hex as [? ? He|? ? Hex']; subst.
    + apply run_all_keeps; auto.
    + apply IH; auto.
Qed.
Lemma filter_all {B} (P : B -> Prop) `{forall x, Decision (P x)} (l : list B) :
  Forall P l -> filter P l = l.
Proof.
  induction 1 as [|x l Hx _ IH]; [reflexivity|].
  rewrite filter_cons_True by exact Hx. f_equal. exact IH.
Qed.


Lemma Forall_due_gen (P Q : timer A -> Prop) (ts : list (timer A)) :
  Forall P ts ->
  (forall t, P t -> remaining t <= 1 -> Q (countdown t)) ->
  Forall Q (filter is_due (countdown <$> ts)).
Proof.
  intros HP H. apply Forall_forall. intros t' Ht'.
  apply elem_of_due in Ht' as (t & Ht & -> & Hr).
  rewrite Forall_forall in HP. auto.
Qed.

Lemma Exists_due_gen (Q : timer A -> Prop) (ts : list (timer A)) t :
  t ∈ ts -> remaining t <= 1 -> Q (countdown t) ->
  Exists Q (filter is_due (countdown <$> ts)).
Proof.
  intros Ht Hr HQ. apply Exists_exists. exists (countdown t). split; [|exact HQ].
  apply elem_of_due. eauto.
Qed.

Lemma Forall_kept_gen (P Q : timer A -> Prop) (ts : list (timer A)) :
  Forall P ts ->
  (forall t, P t -> 2 <= remaining t -> Q (countdown t)) ->
  (forall t p, P t -> remaining t <= 1 -> period t = Some p ->
     Q {| tid := tid t; remaining := N.max 1 p; period := period t;
          act := act t |}) ->
  Forall Q (omap rearm (countdown <$> ts)).
Proof.
  intros HP H2 H1. apply Forall_forall. intros t' Ht'.
  rewrite Forall_forall in HP.
  apply elem_of_kept in Ht' as (t & Ht & [[Hr ->] | [Hr (p & Hp & ->)]]); eauto.
Qed.

Lemma Exists_kept_gen (Q : timer A -> Prop) (ts : list (timer A)) t :
  t ∈ ts -> 2 <= remaining t -> Q (countdown t) ->
  Exists Q (omap rearm (countdown <$> ts)).
Proof.
  intros Ht Hr HQ. apply Exists_exists. exists (countdown t). split; [|exact HQ].
  apply elem_of_kept. exists t. split; [exact Ht|]. left. auto.
Qed.
End TimerFacts.

(** ** Waitlist form *)

Section WaitlistFacts.
Import Timers Dom Waitlist.
Local Open Scope N_scope.


Lemma run_all_page due (b : page) :
  run_all run due b =
  {| dom := fold_left (fun d t => run_dom (act t) d) due (dom b);
     timers := timers b; next_tid := next_tid b |}.
Proof.
  revert b. induction due as [|t due IH]; intros b.
  - destruct b; reflexivity.
  - rewrite run_all_cons, IH. reflexivity.
Qed.

Lemma tick_timers (b : page) :
  timers (tick_ms run b) = omap rearm (countdown <$> timers b).
Proof. unfold tick_ms. rewrite run_all_page. reflexivity. Qed.

Lemma tick_dom (b : page) :
  dom (tick_ms run b) =
  fold_left (fun d t => run_dom (act t) d)
    (filter is_due (countdown <$> timers b)) (dom b).
Proof. unfold tick_ms. rewrite run_all_page. reflexivity. Qed.

Lemma fold_keeps (P : state -> Prop) (due : list (timer action)) d :
  Forall (fun t => forall d, P d -> P (run_dom (act t) d)) due ->
  P d -> P (fold_left (fun d t => run_dom (act t) d) due d).
Proof.
  revert d. induction due as [|t due IH]; intros d Hall Hd; [exact Hd|].
  inversion Hall; subst. cbn. apply IH; auto.
Qed.

Lemma fold_establishes (Q : state -> Prop) (due : list (timer action)) d :
  Exists (fun t => forall d, Q (run_dom (act t) d)) due ->
  Forall (fun t => forall d, Q d -> Q (run_dom (act t) d)) due ->
  Q (fold_left (fun d t => run_dom (act t) d) due d).
Proof.
  revert d. induction due as [|t due IH]; intros d Hex Hall.
  - inversion Hex.
  - inversion Hall as [|? ? Hk Hall']; subst. cbn.
    inversion Hex as [? ? He|? ? Hex']; subst.
    + apply fold_keeps; auto.
    + apply IH; auto.
Qed.

(** Timer callbacks never write to the fields. *)
Lemma run_dom_fields a d : fields (run_dom a d) = fields d.
Proof. destruct a; reflexivity. Qed.

Lemma tick_fields (b : page) : fields (dom (tick_ms run b)) = fields (dom b).
Proof.
  rewrite tick_dom. apply (fold_keeps (fun d => fields d = fields (dom b))); [|reflexivity].
  apply Forall_forall. intros t _ d Hd. rewrite run_dom_fields. exact Hd.
Qed.

Lemma elapse_fields ms (b : page) : fields (dom (elapse run ms b)) = fields (dom b).
Proof.
  induction ms as [|ms IH] using N.peano_ind; [reflexivity|].
  rewrite elapse_succ, tick_fields. exact IH.
Qed.

Lemma removeMessage_other n m d :
  m ∈ children d -> node m ≠ n -> m ∈ children (removeMessage n d).
Proof. intros H Hn. cbn. apply list_elem_of_filter. auto. Qed.

Lemma removeMessage_gone n d :
  Forall (fun e => node e ≠ n) (children (removeMessage n d)).
Proof. cbn. apply Forall_forall. intros e He. apply list_elem_of_filter in He. tauto. Qed.

Lemma removeMessage_keeps_gone n k d :
  Forall (fun e => node e ≠ n) (children d) ->
  Forall (fun e => node e ≠ n) (children (removeMessage k d)).
Proof.
  intros H. cbn. apply Forall_forall. intros e He.
  apply list_elem_of_filter in He as [_ He].
  rewrite Forall_forall in H. auto.
Qed.

Lemma fold_reaches (P Q : state -> Prop) (due : list (timer action)) d :
  Exists (fun t => forall d, P d -> Q (run_dom (act t) d)) due ->
  Forall (fun t => forall d, P d -> P (run_dom (act t) d)) due ->
  Forall (fun t => forall d, Q d -> Q (run_dom (act t) d)) due ->
  P d -> Q (fold_left (fun d t => run_dom (act t) d) due d).
Proof.
  revert d. induction due as [|t due IH]; intros d Hex HP HQ Hd.
  - inversion Hex.
  - inversion HP; subst. inversion HQ; subst. cbn.
    inversion Hex as [? ? He|? ? Hex']; subst.
    + apply fold_keeps; auto.
    + apply IH; auto.
Qed.

(** The timeouts still pending after the tick. *)
Lemma Forall_kept (P : timer action -> Prop) (Q : timer action -> Prop) ts :
  Forall P ts ->
  (forall t, P t -> period t = None) ->
  (forall t, P t -> 2 <= remaining t -> Q (countdown t)) ->
  Forall Q (omap rearm (countdown <$> ts)).
Proof.
  intros HP Hper H. apply Forall_forall. intros t' Ht'.
  rewrite Forall_forall in HP.
  apply elem_of_kept in Ht' as (t & Ht & [[Hr ->] | [Hr (p & Hp & ->)]]).
  - auto.
  - rewrite (Hper t (HP t Ht)) in Hp. discriminate.
Qed.

Lemma class_remove_idem c (l : list string) :
  class_remove c (class_remove c l) = class_remove c l.
Proof.
  unfold class_remove. induction l as [|x l IH]; [reflexivity|].
  destruct (decide (x = c)) as [->|Hne].
  - rewrite filter_cons_False by (intros ?; congruence). exact IH.
  - rewrite filter_cons_True by exact Hne.
    rewrite filter_cons_True by exact Hne. f_equal. exact IH.
Qed.

Lemma reset_restored kind orig cl d :
  submitButton d = Some (restored_button kind orig cl) ->
  (fun btn => {| disabled := false; innerHTML := orig;
                 classList := class_remove kind (classList btn) |})
    <$> submitButton d = Some (restored_button kind orig cl).
Proof.
  intros ->. unfold restored_button.
  change (Some {| disabled := false; innerHTML := orig;
                  classList := class_remove kind
                    (class_remove kind (class_add kind cl)) |} =
          Some {| disabled := false; innerHTML := orig;
                  classList := class_remove kind (class_add kind cl) |}).
  rewrite class_remove_idem. reflexivity.
Qed.

Lemma success_timer_kept n orig j t :
  success_timer n orig (N.succ j) t -> 2 <= remaining t ->
  success_timer n orig j (countdown t).
Proof.
  intros (Hp & Hr & Ha) H2. unfold success_timer. cbn.
  split; [exact Hp|]. split; [lia|].
  destruct (act t) as [i|o|i o].
  - destruct Ha as [Hi Hn]. split; [exact Hi|]. intros E. specialize (Hn E). lia.
  - destruct Ha as [-> Hn]. split; [reflexivity|]. lia.
  - contradiction.
Qed.

Lemma after_success_tick m orig cl j (b : page) :
  after_success m orig cl (N.succ j) b -> after_success m orig cl j (tick_ms run b).
Proof.
  intros [Ht Hth Hre Hsh Hrm].
  pose proof Ht as Hall. rewrite Forall_forall in Hall.
  split; rewrite ?tick_timers, ?tick_dom.
  - (* timers *)
    apply (Forall_kept _ _ _ Ht); [intros t Hs; apply Hs|].
    intros t. apply success_timer_kept.
  - (* the button before its reset *)
    intros Hj. destruct Hth as [Hb Hex]; [lia|]. split.
    + apply (fold_keeps (fun d => submitButton d = Some (thanks_button cl))); [|exact Hb].
      apply (Forall_due_gen _ _ _ Ht). intros t (_ & _ & Ha) Hr d Hd. cbn.
      destruct (act t) as [i|o|i o]; [exact Hd| |contradiction].
      destruct Ha as [_ Ha]. lia.
    + apply Exists_exists in Hex as (t & Hin & Hact).
      apply (Exists_kept_gen _ _ t Hin); [|exact Hact].
      destruct (Hall t Hin) as (_ & _ & Ha). rewrite Hact in Ha. lia.
  - (* the button from its reset on *)
    intros Hj. destruct (decide (j = 2000)) as [->|Hne].
    + destruct Hth as [Hb Hex]; [lia|].
      apply Exists_exists in Hex as (t0 & Hin & Hact).
      apply (fold_reaches
               (fun d => submitButton d = Some (thanks_button cl) \/
                         submitButton d = Some (restored_button "success" orig cl))
               (fun d => submitButton d = Some (restored_button "success" orig cl)));
        [| | |left; exact Hb].
      * apply (Exists_due_gen _ _ t0 Hin).
        -- destruct (Hall t0 Hin) as (_ & _ & Ha). rewrite Hact in Ha. lia.
        -- cbn. rewrite Hact. intros d [Hd|Hd]; cbn;
             [rewrite Hd; reflexivity|apply reset_restored, Hd].
      * apply (Forall_due_gen _ _ _ Ht). intros t (_ & _ & Ha) Hr d Hd. cbn.
        destruct (act t) as [i|o|i o]; [exact Hd| |contradiction].
        destruct Ha as [-> _]. right. destruct Hd as [Hd|Hd]; cbn;
          [rewrite Hd; reflexivity|apply reset_restored, Hd].
      * apply (Forall_due_gen _ _ _ Ht). intros t (_ & _ & Ha) Hr d Hd. cbn.
        destruct (act t) as [i|o|i o]; [exact Hd| |contradiction].
        destruct Ha as [-> _]. cbn. apply reset_restored, Hd.
    + specialize (Hre ltac:(lia)).
      apply (fold_keeps (fun d => submitButton d = Some (restored_button "success" orig cl))); [|exact Hre].
      apply (Forall_due_gen _ _ _ Ht). intros t (_ & Hr1 & Ha) Hr d Hd. cbn.
      destruct (act t) as [i|o|i o]; [exact Hd| |contradiction].
      destruct Ha as [_ Ha]. lia.
  - (* the message while shown *)
    intros Hj. destruct Hsh as [Hm Hex]; [lia|]. split.
    + apply (fold_keeps (fun d => m ∈ children d)); [|exact Hm].
      apply (Forall_due_gen _ _ _ Ht). intros t (_ & Hr1 & Ha) Hr d Hd. cbn.
      destruct (act t) as [i|o|i o]; [|exact Hd|contradiction].
      apply removeMessage_other; [exact Hd|]. intros E.
      destruct Ha as [_ Ha]. specialize (Ha (eq_sym E)). lia.
    + apply Exists_exists in Hex as (t & Hin & Hact).
      apply (Exists_kept_gen _ _ t Hin); [|exact Hact].
      destruct (Hall t Hin) as (_ & _ & Ha). rewrite Hact in Ha.
      destruct Ha as [_ Ha]. specialize (Ha eq_refl). lia.
  - (* the message removed *)
    intros ->. destruct Hsh as [Hm Hex]; [lia|].
    apply Exists_exists in Hex as (t0 & Hin & Hact).
    apply fold_establishes.
    + apply (Exists_due_gen _ _ t0 Hin).
      * destruct (Hall t0 Hin) as (_ & _ & Ha). rewrite Hact in Ha.
        destruct Ha as [_ Ha]. specialize (Ha eq_refl). lia.
      * cbn. rewrite Hact. intros d. apply removeMessage_gone.
    + apply (Forall_due_gen _ _ _ Ht). intros t (_ & _ & Ha) Hr d Hd. cbn.
      destruct (act t) as [i|o|i o]; [|exact Hd|contradiction].
      apply removeMessage_keeps_gone, Hd.
Qed.

Lemma after_success_rest m orig cl (b : page) :
  after_success m orig cl 0 b -> after_success m orig cl 0 (tick_ms run b).
Proof.
  intros [Ht Hth Hre Hsh Hrm].
  assert (Hrem : Forall (fun t => exists i, act t = RemoveSuccessMessage i /\ i ≠ node m)
                   (timers b)).
  { eapply Forall_impl; [exact Ht|]. intros t (_ & Hr & Ha).
    destruct (act t) as [i|o|i o]; [|lia|contradiction].
    exists i. split; [reflexivity|]. intros E. destruct Ha as [_ Ha]. specialize (Ha E). lia. }
  split; rewrite ?tick_timers, ?tick_dom; try (intros; lia).
  - apply (Forall_kept _ _ _ Ht); [intros t Hs; apply Hs|].
    intros t (Hp & Hr & Ha) H2. unfold success_timer. cbn.
    split; [exact Hp|]. split; [lia|].
    destruct (act t) as [i|o|i o]; [|lia|contradiction].
    destruct Ha as [Hi Ha]. split; [exact Hi|]. intros E. specialize (Ha E). lia.
  - intros _. apply fold_keeps; [|apply Hre; lia].
    apply (Forall_due_gen _ _ _ Hrem). intros t (i & Ha & _) _ d Hd. cbn. rewrite Ha. exact Hd.
  - intros _. apply fold_keeps; [|apply Hrm; reflexivity].
    apply (Forall_due_gen _ _ _ Hrem). intros t (i & Ha & _) _ d Hd. cbn. rewrite Ha.
    apply removeMessage_keeps_gone, Hd.
Qed.

Lemma after_success_elapse m orig cl j ms (b : page) :
  after_success m orig cl j b ->
  after_success m orig cl (j - ms) (elapse run ms b).
Proof.
  intros H. induction ms as [|ms IH] using N.peano_ind.
  - rewrite N.sub_0_r. exact H.
  - rewrite elapse_succ. destruct (decide (j - ms = 0)) as [E|E].
    + replace (j - N.succ ms) with 0 by lia. apply after_success_rest.
      rewrite <- E. exact IH.
    + replace (j - ms) with (N.succ (j - N.succ ms)) in IH by lia.
      apply after_success_tick, IH.
Qed.

Lemma failure_timer_kept n orig j t :
  failure_timer n orig (N.succ j) t -> 2 <= remaining t ->
  failure_timer n orig j (countdown t).
Proof.
  intros (Hp & Hr & Ha) H2. unfold failure_timer. cbn.
  split; [exact Hp|]. split; [lia|].
  destruct (act t) as [i|o|i o]; [exact Ha|contradiction|].
  destruct Ha as (-> & -> & Hn). repeat split. lia.
Qed.

Lemma after_failure_tick m orig cl j (b : page) :
  after_failure m orig cl (N.succ j) b -> after_failure m orig cl j (tick_ms run b).
Proof.
  intros [Ht Hsh Hdone].
  pose proof Ht as Hall. rewrite Forall_forall in Hall.
  destruct Hsh as (Hb & Hm & Hex); [lia|].
  apply Exists_exists in Hex as (t0 & Hin & Hact).
  assert (Hr0 : remaining t0 = N.succ j).
  { destruct (Hall t0 Hin) as (_ & _ & Ha). rewrite Hact in Ha. tauto. }
  split; rewrite ?tick_timers, ?tick_dom.
  - apply (Forall_kept _ _ _ Ht); [intros t Hs; apply Hs|].
    intros t. apply failure_timer_kept.
  - intros Hj. split; [|split].
    + apply (fold_keeps (fun d => submitButton d = Some (sorry_button cl))); [|exact Hb].
      apply (Forall_due_gen _ _ _ Ht). intros t (_ & _ & Ha) Hr d Hd. cbn.
      destruct (act t) as [i|o|i o]; [exact Hd|contradiction|]. lia.
    + apply (fold_keeps (fun d => m ∈ children d)); [|exact Hm].
      apply (Forall_due_gen _ _ _ Ht). intros t (_ & _ & Ha) Hr d Hd. cbn.
      destruct (act t) as [i|o|i o]; [|contradiction|lia].
      apply removeMessage_other; [exact Hd|]. lia.
    + apply (Exists_kept_gen _ _ t0 Hin); [lia|exact Hact].
  - intros ->.
    apply (fold_reaches
             (fun d => submitButton d = Some (sorry_button cl) \/
                       (submitButton d = Some (restored_button "error" orig cl) /\
                        Forall (fun e => node e ≠ node m) (children d)))
             (fun d => submitButton d = Some (restored_button "error" orig cl) /\
                       Forall (fun e => node e ≠ node m) (children d)));
      [| | |left; exact Hb].
    + apply (Exists_due_gen _ _ t0 Hin); [lia|].
      cbn. rewrite Hact. intros d Hd. split; [|apply removeMessage_gone].
      cbn. destruct Hd as [Hd|[Hd _]]; [rewrite Hd; reflexivity|].
      apply (reset_restored "error" orig cl d Hd).
    + apply (Forall_due_gen _ _ _ Ht). intros t (_ & _ & Ha) Hr d Hd. cbn.
      destruct (act t) as [i|o|i o]; [|contradiction|].
      * destruct Hd as [Hd|[Hd Hg]]; [left; exact Hd|right].
        split; [exact Hd|]. apply removeMessage_keeps_gone, Hg.
      * destruct Ha as (-> & -> & _). right. split; [|apply removeMessage_gone].
        cbn. destruct Hd as [Hd|[Hd _]]; [rewrite Hd; reflexivity|].
        apply (reset_restored "error" orig cl d Hd).
    + apply (Forall_due_gen _ _ _ Ht). intros t (_ & _ & Ha) Hr d [Hd Hg]. cbn.
      destruct (act t) as [i|o|i o]; [|contradiction|].
      * split; [exact Hd|]. apply removeMessage_keeps_gone, Hg.
      * destruct Ha as (-> & -> & _). split; [|apply removeMessage_gone].
        apply (reset_restored "error" orig cl d Hd).
Qed.

Lemma after_failure_rest m orig cl (b : page) :
  after_failure m orig cl 0 b -> after_failure m orig cl 0 (tick_ms run b).
Proof.
  intros [Ht Hsh Hdone]. destruct Hdone as [Hb Hg]; [reflexivity|].
  assert (Hrem : Forall (fun t => exists i, act t = RemoveSuccessMessage i) (timers b)).
  { eapply Forall_impl; [exact Ht|]. intros t (_ & Hr & Ha).
    destruct (act t) as [i|o|i o]; [eauto|contradiction|lia]. }
  split; rewrite ?tick_timers, ?tick_dom; try (intros; lia).
  - apply (Forall_kept _ _ _ Ht); [intros t Hs; apply Hs|].
    intros t (Hp & Hr & Ha) H2. unfold failure_timer. cbn.
    split; [exact Hp|]. split; [lia|].
    destruct (act t) as [i|o|i o]; [exact Ha|contradiction|lia].
  - intros _. split.
    + apply fold_keeps; [|exact Hb].
      apply (Forall_due_gen _ _ _ Hrem). intros t (i & Ha) _ d Hd. cbn. rewrite Ha. exact Hd.
    + apply fold_keeps; [|exact Hg].
      apply (Forall_due_gen _ _ _ Hrem). intros t (i & Ha) _ d Hd. cbn. rewrite Ha.
      apply removeMessage_keeps_gone, Hd.
Qed.

Lemma after_failure_elapse m orig cl j ms (b : page) :
  after_failure m orig cl j b ->
  after_failure m orig cl (j - ms) (elapse run ms b).
Proof.
  intros H. induction ms as [|ms IH] using N.peano_ind.
  - rewrite N.sub_0_r. exact H.
  - rewrite elapse_succ. destruct (decide (j - ms = 0)) as [E|E].
    + replace (j - N.succ ms) with 0 by lia. apply after_failure_rest.
      rewrite <- E. exact IH.
    + replace (j - ms) with (N.succ (j - N.succ ms)) in IH by lia.
      apply after_failure_tick, IH.
Qed.

Lemma quiet_tick (b : page) : quiet b -> quiet (tick_ms run b).
Proof.
  unfold quiet. intros H.
  assert (Hn : next_node (dom (tick_ms run b)) = next_node (dom b)).
  { rewrite tick_dom. apply (fold_keeps (fun d => next_node d = next_node (dom b))); [|reflexivity].
    apply Forall_forall. intros t _ d Hd. destruct (act t); cbn; exact Hd. }
  rewrite Hn, tick_timers.
  apply (Forall_kept _ _ _ H); [intros t Ht; apply Ht|].
  intros t (Hp & Hr & i & Ha & Hi) H2. unfold removal_only. cbn.
  split; [exact Hp|]. split; [lia|]. eauto.
Qed.

Lemma quiet_tick_button (b : page) :
  quiet b -> submitButton (dom (tick_ms run b)) = submitButton (dom b).
Proof.
  intros H. rewrite tick_dom.
  apply (fold_keeps (fun d => submitButton d = submitButton (dom b))); [|reflexivity].
  apply (Forall_due_gen _ _ _ H). intros t (_ & _ & i & Ha & _) _ d Hd. cbn. rewrite Ha. exact Hd.
Qed.

Lemma quiet_elapse ms (b : page) :
  quiet b ->
  quiet (elapse run ms b) /\
  submitButton (dom (elapse run ms b)) = submitButton (dom b).
Proof.
  intros H. induction ms as [|ms [IH1 IH2]] using N.peano_ind; [auto|].
  rewrite elapse_succ. split; [apply quiet_tick, IH1|].
  rewrite quiet_tick_button by exact IH1. exact IH2.
Qed.

(** The handler up to the request: the button is disabled and shows the
    spinner; nothing else changes but the request log. *)
Lemma submit_begin_spec (b : page) btn :
  submitButton (dom b) = Some btn ->
  exists b1,
    submit_begin b = Returned (b1, {| originalButtonText := innerHTML btn |}) /\
    submitButton (dom b1) = Some (waiting_button (classList btn)) /\
    timers b1 = timers b /\ next_node (dom b1) = next_node (dom b) /\
    fields (dom b1) = fields (dom b) /\ children (dom b1) = children (dom b).
Proof.
  intros H. unfold submit_begin. rewrite H. eexists. split; [reflexivity|].
  cbn. rewrite H. auto.
Qed.

Lemma on_success_spec cl p (b : page) :
  quiet b ->
  submitButton (dom b) = Some (waiting_button cl) ->
  after_success (success_message b) (originalButtonText p) cl 5000 (on_success p b).
Proof.
  intros Hq Hb. unfold on_success. cbn.
  split; cbn; rewrite ?Hb; try (intros; lia).
  - rewrite <- app_assoc. apply Forall_app. split.
    + eapply Forall_impl; [exact Hq|]. intros t (Hp & Hr & i & Ha & Hi).
      unfold success_timer. rewrite Ha. repeat split; auto; lia.
    + repeat constructor; cbn; lia.
  - intros _. split; [reflexivity|].
    apply Exists_app. right. apply Exists_cons. left. reflexivity.
  - intros _. split.
    + apply elem_of_app. right. apply list_elem_of_singleton. reflexivity.
    + rewrite <- app_assoc. apply Exists_app. right. apply Exists_cons. left. reflexivity.
Qed.

Lemma on_error_spec cl error p (b : page) :
  quiet b ->
  submitButton (dom b) = Some (waiting_button cl) ->
  after_failure (error_message b) (originalButtonText p) cl 5000 (on_error error p b).
Proof.
  intros Hq Hb. unfold on_error. cbn.
  split; cbn; rewrite ?Hb; try (intros; lia).
  - apply Forall_app. split.
    + eapply Forall_impl; [exact Hq|]. intros t (Hp & Hr & i & Ha & Hi).
      unfold failure_timer. rewrite Ha. repeat split; auto; lia.
    + repeat constructor; cbn; lia.
  - intros _. split; [reflexivity|]. split.
    + apply elem_of_app. right. apply list_elem_of_singleton. reflexivity.
    + apply Exists_app. right. apply Exists_cons. left. reflexivity.
Qed.

Lemma submit_resume_failure r p (b : page) :
  succeeded r = false ->
  exists error, submit_resume r p b = on_error error p b.
Proof.
  destruct r as [response|reason]; cbn; intros H; [rewrite H|]; eauto.
Qed.

Lemma submit_resume_success r p (b : page) :
  succeeded r = true -> submit_resume r p b = on_success p b.
Proof.
  destruct r as [response|reason]; cbn; intros H; [rewrite H; reflexivity|discriminate].
Qed.

(** Once the button is reset after a success the page is quiet again. *)
Lemma after_success_quiet m orig cl j (b : page) :
  j <= 2000 -> (node m < next_node (dom b))%nat ->
  after_success m orig cl j b -> quiet b.
Proof.
  intros Hj Hn [Ht _ _ _ _]. unfold quiet.
  eapply Forall_impl; [exact Ht|]. intros t (Hp & Hr & Ha).
  unfold removal_only. split; [exact Hp|]. split; [exact Hr|].
  destruct (act t) as [i|o|i o]; [|lia|contradiction].
  exists i. split; [reflexivity|]. lia.
Qed.

Lemma after_failure_quiet m orig cl (b : page) :
  (node m < next_node (dom b))%nat ->
  after_failure m orig cl 0 b -> quiet b.
Proof.
  intros Hn [Ht _ _]. unfold quiet.
  eapply Forall_impl; [exact Ht|]. intros t (Hp & Hr & Ha).
  unfold removal_only. split; [exact Hp|]. split; [exact Hr|].
  destruct (act t) as [i|o|i o]; [|contradiction|lia].
  exists i. split; [reflexivity|]. lia.
Qed.

Lemma elapse_next_node ms (b : page) :
  next_node (dom (elapse run ms b)) = next_node (dom b).
Proof.
  induction ms as [|ms IH] using N.peano_ind; [reflexivity|].
  rewrite elapse_succ, tick_dom, <- IH.
  apply (fold_keeps (fun d => next_node d = next_node (dom (elapse run ms b)))); [|reflexivity].
  apply Forall_forall. intros t _ d Hd. destruct (act t); cbn; exact Hd.
Qed.

Lemma init_inv form : session_inv (initWaitlistForm form).
Proof. apply inv_idle; [reflexivity|]. unfold quiet. cbn. constructor. Qed.

Lemma on_success_next_node p (b : page) :
  next_node (dom (on_success p b)) = S (next_node (dom b)).
Proof. reflexivity. Qed.

Lemma on_error_next_node e p (b : page) :
  next_node (dom (on_error e p b)) = S (next_node (dom b)).
Proof. reflexivity. Qed.

Lemma step_inv s ev : session_inv s -> session_inv (step s ev).
Proof.
  intros Hinv. destruct ev as [|i r|ms].
  - (* Click *)
    cbn. destruct (submitButton (dom (pg s))) as [btn|] eqn:Hb; [|exact Hinv].
    destruct (disabled btn) eqn:Hd; [exact Hinv|].
    destruct Hinv as [Hi Hq|p cl Hi Hq Hw|m orig cl j Hi Hj Hn Ha|m orig cl j Hi Hj Hn Ha].
    + destruct (submit_begin_spec _ _ Hb) as (b1 & Hbeg & Hb1 & Ht & Hnn & _).
      unfold dispatch_submit. rewrite Hbeg.
      apply (inv_waiting _ {| originalButtonText := innerHTML btn |} (classList btn)); cbn.
      * rewrite Hi. reflexivity.
      * unfold quiet. rewrite Ht, Hnn. exact Hq.
      * exact Hb1.
    + rewrite Hw in Hb. injection Hb as <-. discriminate.
    + destruct (as_thanks _ _ _ _ _ Ha Hj) as [Hb' _].
      rewrite Hb' in Hb. injection Hb as <-. discriminate.
    + destruct (af_shown _ _ _ _ _ Ha Hj) as [Hb' _].
      rewrite Hb' in Hb. injection Hb as <-. discriminate.
  - (* Settle *)
    cbn. destruct (inflight s !! i) as [p|] eqn:Hl; [|exact Hinv].
    destruct Hinv as [Hi Hq|p' cl Hi Hq Hw|m orig cl j Hi Hj Hn Ha|m orig cl j Hi Hj Hn Ha];
      try (rewrite Hi in Hl; discriminate).
    rewrite Hi in Hl. destruct i as [|i]; [|discriminate]. injection Hl as ->.
    rewrite Hi. cbn [delete list_delete].
    destruct (succeeded r) eqn:Hr.
    + rewrite (submit_resume_success _ _ _ Hr).
      apply (inv_thanks _ (success_message (pg s)) (originalButtonText p) cl 5000); cbn [pg inflight].
      * reflexivity.
      * lia.
      * rewrite on_success_next_node. cbn. lia.
      * apply on_success_spec; assumption.
    + destruct (submit_resume_failure r p (pg s) Hr) as [e ->].
      apply (inv_sorry _ (error_message (pg s)) (originalButtonText p) cl 5000); cbn [pg inflight].
      * reflexivity.
      * lia.
      * rewrite on_error_next_node. cbn. lia.
      * apply on_error_spec; assumption.
  - (* Elapse *)
    cbn.
    destruct Hinv as [Hi Hq|p cl Hi Hq Hw|m orig cl j Hi Hj Hn Ha|m orig cl j Hi Hj Hn Ha].
    + apply inv_idle; [exact Hi|]. apply quiet_elapse, Hq.
    + destruct (quiet_elapse ms _ Hq) as [Hq' Hb'].
      apply (inv_waiting _ p cl); cbn; [exact Hi|exact Hq'|]. rewrite Hb'. exact Hw.
    + pose proof (after_success_elapse _ _ _ _ ms _ Ha) as Ha'.
      destruct (decide (2000 < j - ms)) as [Hlt|Hge].
      * apply (inv_thanks _ m orig cl (j - ms)); cbn; auto.
        rewrite elapse_next_node. exact Hn.
      * apply inv_idle; [exact Hi|]. cbn.
        apply (after_success_quiet m orig cl (j - ms)); [lia| |exact Ha'].
        rewrite elapse_next_node. exact Hn.
    + pose proof (after_failure_elapse _ _ _ _ ms _ Ha) as Ha'.
      destruct (decide (0 < j - ms)) as [Hlt|Hge].
      * apply (inv_sorry _ m orig cl (j - ms)); cbn; auto.
        rewrite elapse_next_node. exact Hn.
      * apply inv_idle; [exact Hi|]. cbn.
        replace (j - ms) with 0 in Ha' by lia.
        apply (after_failure_quiet m orig cl); [|exact Ha'].
        rewrite elapse_next_node. exact Hn.
Qed.

Lemma exec_inv evs : forall s, session_inv s -> session_inv (exec s evs).
Proof.
  induction evs as [|ev evs IH]; intros s H; [exact H|].
  apply IH, step_inv, H.
Qed.

Lemma quiet_not_busy (b : page) :
  quiet b -> ~ Exists (fun t => resets_button (act t) = true) (timers b).
Proof.
  intros Hq Hex. apply Exists_exists in Hex as (t & Hin & Hr).
  unfold quiet in Hq. rewrite Forall_forall in Hq.
  destruct (Hq t Hin) as (_ & _ & i & Ha & _). rewrite Ha in Hr. discriminate.
Qed.

Lemma inv_busy_disabled s :
  session_inv s -> busy s ->
  button_disabled (dom (pg s)) = true /\ step s Click = s.
Proof.
  intros Hinv Hbusy.
  assert (Hd : button_disabled (dom (pg s)) = true).
  { destruct Hinv as [Hi Hq|p cl Hi Hq Hw|m orig cl j Hi Hj Hn Ha|m orig cl j Hi Hj Hn Ha].
    - destruct Hbusy as [Hb|Hb]; [congruence|]. destruct (quiet_not_busy _ Hq Hb).
    - unfold button_disabled. rewrite Hw. reflexivity.
    - destruct (as_thanks _ _ _ _ _ Ha Hj) as [Hb' _].
      unfold button_disabled. rewrite Hb'. reflexivity.
    - destruct (af_shown _ _ _ _ _ Ha Hj) as [Hb' _].
      unfold button_disabled. rewrite Hb'. reflexivity. }
  split; [exact Hd|].
  unfold button_disabled in Hd. cbn.
  destruct (submitButton (dom (pg s))) as [btn|]; [|reflexivity].
  rewrite Hd. reflexivity.
Qed.

Lemma restored_button_id kind (btn : Button) :
  disabled btn = false -> kind ∉ classList btn ->
  restored_button kind (innerHTML btn) (classList btn) = btn.
Proof.
  intros Hd Hc. unfold restored_button. rewrite class_remove_add by exact Hc.
  destruct btn; cbn in *. subst. reflexivity.
Qed.

(** [form.reset()] clears what was entered: every control keeps its
    name and its default value, and its value is that default. *)
Lemma reset_clears (d : state) :
  Forall2 (fun f0 f => name f = name f0 /\ defaultValue f = defaultValue f0 /\
                       value f = defaultValue f0)
    (fields d) (fields (reset d)).
Proof.
  unfold reset. cbn [fields]. induction (fields d) as [|f fs IH]; cbn [map].
  - constructor.
  - constructor; [repeat split; reflexivity|exact IH].
Qed.

Lemma cleared_empty (fs l : list Field) :
  Forall2 (fun f0 f => name f = name f0 /\ defaultValue f = defaultValue f0 /\
                       value f = defaultValue f0) fs l ->
  Forall (fun f0 => defaultValue f0 = "") fs ->
  Forall (fun f => value f = "") l.
Proof.
  induction 1 as [|f0 f fs l (_ & _ & Hv) _ IH]; intros Hdef.
  - constructor.
  - apply Forall_cons in Hdef as [Hd Hdef]. constructor.
    + rewrite Hv. exact Hd.
    + apply IH, Hdef.
Qed.

(** C3. A submission whose response has [response.ok] true, on a page
    where no earlier callback that writes to the button is pending and
    after any wait for the network: the form is reset, which clears the
    entered values (every field of the form as it was submitted is
    there with its name and its default value, and its value is that
    default, whatever was entered; where the markup gives the fields no
    default every value is the empty string), and stays so; the
    confirmation message is appended, it is in the form for 5000 ms and
    gone from then on; the button shows the confirmation, disabled, for
    3000 ms and from then on is enabled with its original text. *)
Theorem success_resets_form_and_confirms (b : page) (btn : Button)
    (response : Response) (wait : N) :
  quiet b ->
  submitButton (dom b) = Some btn ->
  ok response = true ->
  exists b1 p,
    submit_begin b = Returned (b1, p) /\
    let b2 := submit_resume (Resolved response) p (elapse run wait b1) in
    let m := success_message b in
    let cleared := fun fs : list Field =>
      Forall2 (fun f0 f => name f = name f0 /\
                           defaultValue f = defaultValue f0 /\
                           value f = defaultValue f0) (fields (dom b)) fs in
    cleared (fields (dom b2)) /\
    children (dom b2) = children (dom (elapse run wait b1)) ++ [m] /\
    forall ms,
      let b3 := elapse run ms b2 in
      cleared (fields (dom b3)) /\
      (Forall (fun f0 => defaultValue f0 = "") (fields (dom b)) ->
         Forall (fun f => value f = "") (fields (dom b3))) /\
      (ms < 5000 -> m ∈ children (dom b3)) /\
      (5000 <= ms -> Forall (fun e => node e ≠ node m) (children (dom b3))) /\
      (ms < 3000 ->
         submitButton (dom b3) = Some (thanks_button (classList btn))) /\
      (3000 <= ms ->
         submitButton (dom b3) =
           Some (restored_button "success" (innerHTML btn) (classList btn))).
Proof.
  intros Hq Hb Hok.
  destruct (submit_begin_spec b btn Hb) as (b1 & Hbeg & Hb1 & Ht & Hn & Hf & Hc).
  exists b1, {| originalButtonText := innerHTML btn |}. split; [exact Hbeg|].
  assert (Hq1 : quiet b1) by (unfold quiet; rewrite Ht, Hn; exact Hq).
  destruct (quiet_elapse wait b1 Hq1) as [Hqw Hbw]. rewrite Hb1 in Hbw.
  set (bw := elapse run wait b1) in *.
  assert (Hnw : next_node (dom bw) = next_node (dom b))
    by (unfold bw; rewrite elapse_next_node; exact Hn).
  assert (Hfw : fields (dom bw) = fields (dom b))
    by (unfold bw; rewrite elapse_fields; exact Hf).
  cbn zeta. rewrite submit_resume_success by exact Hok.
  assert (Hm : success_message bw = success_message b)
    by (unfold success_message; rewrite Hnw; reflexivity).
  pose proof (on_success_spec (classList btn) {| originalButtonText := innerHTML btn |}
                bw Hqw Hbw) as Ha.
  rewrite Hm in Ha. cbn [originalButtonText] in Ha.
  assert (Hfields : fields (dom (on_success {| originalButtonText := innerHTML btn |} bw))
                    = fields (reset (dom b))).
  { cbn. rewrite Hfw. reflexivity. }
  split; [rewrite Hfields; apply reset_clears|]. split.
  { cbn. rewrite Hnw. reflexivity. }
  intros ms. cbn zeta.
  pose proof (after_success_elapse _ _ _ _ ms _ Ha) as [_ Hth Hre Hsh Hrm].
  split; [rewrite elapse_fields, Hfields; apply reset_clears|].
  split.
  { intros Hdef. rewrite elapse_fields, Hfields.
    eapply cleared_empty; [apply reset_clears|exact Hdef]. }
  split; [intros H; apply Hsh; lia|].
  split; [intros H; apply Hrm; lia|].
  split; [intros H; apply Hth; lia|].
  intros H; apply Hre; lia.
Qed.

(** C4. A submission that fails ([response.ok] false or [fetch]
    rejected), on a page where no earlier callback that writes to the
    button is pending and after any wait for the network: the fields
    keep their values at all times, the error message is appended, it is
    in the form for 5000 ms and gone from then on; the button shows the
    error, disabled, for 5000 ms and from then on is enabled with its
    original text (it is the original button when that one was enabled
    and had no class [error]). *)
Theorem failure_keeps_values_and_reports (b : page) (btn : Button)
    (r : fetch_result) (wait : N) :
  quiet b ->
  submitButton (dom b) = Some btn ->
  succeeded r = false ->
  exists b1 p,
    submit_begin b = Returned (b1, p) /\
    let b2 := submit_resume r p (elapse run wait b1) in
    let m := error_message b in
    children (dom b2) = children (dom (elapse run wait b1)) ++ [m] /\
    forall ms,
      let b3 := elapse run ms b2 in
      fields (dom b3) = fields (dom b) /\
      (ms < 5000 ->
         m ∈ children (dom b3) /\
         submitButton (dom b3) = Some (sorry_button (classList btn))) /\
      (5000 <= ms ->
         Forall (fun e => node e ≠ node m) (children (dom b3)) /\
         submitButton (dom b3) =
           Some (restored_button "error" (innerHTML btn) (classList btn)) /\
         (disabled btn = false -> "error" ∉ classList btn ->
            submitButton (dom b3) = Some btn)).
Proof.
  intros Hq Hb Hr.
  destruct (submit_begin_spec b btn Hb) as (b1 & Hbeg & Hb1 & Ht & Hn & Hf & Hc).
  exists b1, {| originalButtonText := innerHTML btn |}. split; [exact Hbeg|].
  assert (Hq1 : quiet b1) by (unfold quiet; rewrite Ht, Hn; exact Hq).
  destruct (quiet_elapse wait b1 Hq1) as [Hqw Hbw]. rewrite Hb1 in Hbw.
  set (bw := elapse run wait b1) in *.
  assert (Hnw : next_node (dom bw) = next_node (dom b))
    by (unfold bw; rewrite elapse_next_node; exact Hn).
  assert (Hfw : fields (dom bw) = fields (dom b))
    by (unfold bw; rewrite elapse_fields; exact Hf).
  cbn zeta.
  destruct (submit_resume_failure r {| originalButtonText := innerHTML btn |} bw Hr)
    as [e ->].
  assert (Hm : error_message bw = error_message b)
    by (unfold error_message; rewrite Hnw; reflexivity).
  pose proof (on_error_spec (classList btn) e {| originalButtonText := innerHTML btn |}
                bw Hqw Hbw) as Ha.
  rewrite Hm in Ha. cbn [originalButtonText] in Ha.
  split.
  { cbn. rewrite Hnw. reflexivity. }
  intros ms. cbn zeta.
  pose proof (after_failure_elapse _ _ _ _ ms _ Ha) as [_ Hsh Hdone].
  split; [rewrite elapse_fields; cbn; exact Hfw|].
  split.
  - intros H. destruct Hsh as (H1 & H2 & _); [lia|]. auto.
  - intros H. destruct Hdone as (H1 & H2); [lia|].
    split; [exact H2|]. split; [exact H1|].
    intros Hd Hcl. rewrite H1. f_equal. apply restored_button_id; assumption.
Qed.

(** C9. Two responses with the same [response.ok] give the same page
    when the handler resumes, and the same page at every later time,
    whatever their status and body. *)
Theorem outcome_depends_only_on_ok (r1 r2 : Response) (p : pending)
    (b : page) :
  ok r1 = ok r2 ->
  submit_resume (Resolved r1) p b = submit_resume (Resolved r2) p b /\
  forall ms,
    elapse run ms (submit_resume (Resolved r1) p b) =
    elapse run ms (submit_resume (Resolved r2) p b).
Proof.
  intros H.
  assert (E : submit_resume (Resolved r1) p b = submit_resume (Resolved r2) p b).
  { cbn. rewrite H. destruct (ok r2); reflexivity. }
  split; [exact E|]. intros ms. rewrite E. reflexivity.
Qed.


(** C7. The submit handler reads [submitButton.innerHTML] without a
    check: on a form with no [button[type="submit"]] it ends in a
    TypeError, before any request is sent or any message shown. *)
Theorem submit_handler_throws_without_button :
  submit_begin (pg (initWaitlistForm form_without_button)) = TypeError /\
  let s := dispatch_submit (initWaitlistForm form_without_button) in
  uncaught s = 1%nat /\ inflight s = [] /\
  requests (dom (pg s)) = [] /\ children (dom (pg s)) = [].
Proof. repeat split. Qed.

(** Every submission a click starts begins on a quiet page, with the
    button enabled: what the two flows above assume. *)
Lemma click_submits_on_quiet_page (form : state) (evs : list event) :
  let s := exec (initWaitlistForm form) evs in
  inflight (step s Click) ≠ inflight s ->
  quiet (pg s) /\
  exists btn, submitButton (dom (pg s)) = Some btn /\ disabled btn = false.
Proof.
  intros s Hne.
  assert (Hinv : session_inv s) by apply exec_inv, init_inv.
  assert (Hq : quiet (pg s)).
  { destruct Hinv as [Hi Hq|p cl Hi Hq Hw|m orig cl j Hi Hj Hn Ha
                     |m orig cl j Hi Hj Hn Ha]; [exact Hq|exact Hq| |];
      exfalso; apply Hne; f_equal;
      apply (inv_busy_disabled s); eauto using session_inv; right.
    - destruct (as_thanks _ _ _ _ _ Ha Hj) as [_ Hex].
      eapply Exists_impl; [exact Hex|]. intros t ->. reflexivity.
    - destruct (af_shown _ _ _ _ _ Ha Hj) as (_ & _ & Hex).
      eapply Exists_impl; [exact Hex|]. intros t ->. reflexivity. }
  split; [exact Hq|].
  cbn in Hne. destruct (submitButton (dom (pg s))) as [btn|]; [|congruence].
  exists btn. split; [reflexivity|].
  destruct (disabled btn); [congruence|reflexivity].
Qed.

(** The button is enabled 3000 ms after a success while the message
    stays 2000 ms longer: a click at that time starts the next
    submission with the earlier confirmation still in the form. *)
Example resubmit_while_message_shown :
  let response := {| ok := true; status := 200; body := "{}" |} in
  let s :=
    exec (initWaitlistForm demo_form)
      [Click; Elapse 120; Settle 0 (Resolved response); Elapse 3000] in
  button_disabled (dom (pg s)) = false /\
  className <$> children (dom (pg s)) = ["form-success"] /\
  length (inflight (step s Click)) = 1%nat.
Proof. vm_compute. repeat split. Qed.

End WaitlistFacts.

Lemma demo_page_quiet : Waitlist.quiet Waitlist.demo_page.
Proof. unfold Waitlist.quiet. cbn. constructor. Defined.

(** C3 on a page with one field, where [ada@example.org] was entered,
    for a response with status 200 that arrives after 120 ms. *)
Lemma success_resets_form_and_confirms_witness :
  let b := Waitlist.demo_page in
  let btn := Waitlist.demo_button in
  let response :=
    {| Waitlist.ok := true; Waitlist.status := 200; Waitlist.body := "{}" |} in
  Waitlist.quiet b /\
  Waitlist.submitButton (Timers.dom b) = Some btn /\
  Waitlist.ok response = true /\
  exists b1 p,
    Waitlist.submit_begin b = Waitlist.Returned (b1, p) /\
    let b2 :=
      Waitlist.submit_resume (Waitlist.Resolved response) p
        (Timers.elapse Waitlist.run 120 b1) in
    let m := Waitlist.success_message b in
    let cleared := fun fs : list Waitlist.Field =>
      Forall2 (fun f0 f => Waitlist.name f = Waitlist.name f0 /\
                           Waitlist.defaultValue f = Waitlist.defaultValue f0 /\
                           Waitlist.value f = Waitlist.defaultValue f0)
        [{| Waitlist.name := "email"; Waitlist.defaultValue := "";
            Waitlist.value := "ada@example.org" |}] fs in
    cleared (Waitlist.fields (Timers.dom b2)) /\
    Waitlist.children (Timers.dom b2) =
      Waitlist.children (Timers.dom (Timers.elapse Waitlist.run 120 b1))
        ++ [m] /\
    forall ms : N,
      let b3 := Timers.elapse Waitlist.run ms b2 in
      cleared (Waitlist.fields (Timers.dom b3)) /\
      (Forall (fun f0 => Waitlist.defaultValue f0 = "")
         [{| Waitlist.name := "email"; Waitlist.defaultValue := "";
             Waitlist.value := "ada@example.org" |}] ->
       Forall (fun f => Waitlist.value f = "")
         (Waitlist.fields (Timers.dom b3))) /\
      ((ms < 5000)%N -> m ∈ Waitlist.children (Timers.dom b3)) /\
      ((5000 <= ms)%N ->
         Forall (fun e => Waitlist.node e ≠ Waitlist.node m)
           (Waitlist.children (Timers.dom b3))) /\
      ((ms < 3000)%N ->
         Waitlist.submitButton (Timers.dom b3) =
           Some (Waitlist.thanks_button (Waitlist.classList btn))) /\
      ((3000 <= ms)%N ->
         Waitlist.submitButton (Timers.dom b3) =
           Some (Waitlist.restored_button "success" (Waitlist.innerHTML btn)
                   (Waitlist.classList btn))).
Proof.
  cbv zeta. split; [exact demo_page_quiet|]. split; [reflexivity|].
  split; [reflexivity|].
  exact (success_resets_form_and_confirms Waitlist.demo_page
           Waitlist.demo_button
           {| Waitlist.ok := true; Waitlist.status := 200;
              Waitlist.body := "{}" |}
           120%N demo_page_quiet eq_refl eq_refl).
Defined.

(** C4 on the same page, for a response with status 500 that arrives
    after 120 ms. *)
Lemma failure_keeps_values_and_reports_witness :
  let b := Waitlist.demo_page in
  let btn := Waitlist.demo_button in
  let r :=
    Waitlist.Resolved
      {| Waitlist.ok := false; Waitlist.status := 500;
         Waitlist.body := "" |} in
  Waitlist.quiet b /\
  Waitlist.submitButton (Timers.dom b) = Some btn /\
  Waitlist.succeeded r = false /\
  exists b1 p,
    Waitlist.submit_begin b = Waitlist.Returned (b1, p) /\
    let b2 :=
      Waitlist.submit_resume r p (Timers.elapse Waitlist.run 120 b1) in
    let m := Waitlist.error_message b in
    Waitlist.children (Timers.dom b2) =
      Waitlist.children (Timers.dom (Timers.elapse Waitlist.run 120 b1))
        ++ [m] /\
    forall ms : N,
      let b3 := Timers.elapse Waitlist.run ms b2 in
      Waitlist.fields (Timers.dom b3) = Waitlist.fields (Timers.dom b) /\
      ((ms < 5000)%N ->
         m ∈ Waitlist.children (Timers.dom b3) /\
         Waitlist.submitButton (Timers.dom b3) =
           Some (Waitlist.sorry_button (Waitlist.classList btn))) /\
      ((5000 <= ms)%N ->
         Forall (fun e => Waitlist.node e ≠ Waitlist.node m)
           (Waitlist.children (Timers.dom b3)) /\
         Waitlist.submitButton (Timers.dom b3) =
           Some (Waitlist.restored_button "error" (Waitlist.innerHTML btn)
                   (Waitlist.classList btn)) /\
         (Waitlist.disabled btn = false ->
          "error" ∉ Waitlist.classList btn ->
          Waitlist.submitButton (Timers.dom b3) = Some btn)).
Proof.
  cbv zeta. split; [exact demo_page_quiet|]. split; [reflexivity|].
  split; [reflexivity|].
  exact (failure_keeps_values_and_reports Waitlist.demo_page
           Waitlist.demo_button
           (Waitlist.Resolved
              {| Waitlist.ok := false; Waitlist.status := 500;
                 Waitlist.body := "" |})
           120%N demo_page_quiet eq_refl eq_refl).
Defined.

(** C9 for two successful responses with different status and body. *)
Lemma outcome_depends_only_on_ok_witness :
  let r1 :=
    {| Waitlist.ok := true; Waitlist.status := 200;
       Waitlist.body := "{}" |} in
  let r2 :=
    {| Waitlist.ok := true; Waitlist.status := 204; Waitlist.body := "" |} in
  let p := {| Waitlist.originalButtonText := "Join the waitlist" |} in
  let b := Waitlist.demo_page in
  Waitlist.ok r1 = Waitlist.ok r2 /\
  (Waitlist.submit_resume (Waitlist.Resolved r1) p b =
   Waitlist.submit_resume (Waitlist.Resolved r2) p b /\
   forall ms : N,
     Timers.elapse Waitlist.run ms
       (Waitlist.submit_resume (Waitlist.Resolved r1) p b) =
     Timers.elapse Waitlist.run ms
       (Waitlist.submit_resume (Waitlist.Resolved r2) p b)).
Proof.
  cbv zeta. split; [reflexivity|].
  exact (outcome_depends_only_on_ok
           {| Waitlist.ok := true; Waitlist.status := 200;
              Waitlist.body := "{}" |}
           {| Waitlist.ok := true; Waitlist.status := 204;
              Waitlist.body := "" |}
           {| Waitlist.originalButtonText := "Join the waitlist" |}
           Waitlist.demo_page eq_refl).
Defined.

(** ** Lifecycle panel *)

Section LifecycleFacts.
Import Timers Dom Lifecycle.
Local Open Scope N_scope.


Lemma rotors_due (ts : list (timer action)) :
  filter is_rotor (filter is_due (countdown <$> ts)) =
  filter is_due (countdown <$> filter is_rotor ts).
Proof.
  induction ts as [|t ts IH]; [reflexivity|].
  rewrite fmap_cons.
  destruct (decide (is_rotor t)) as [Hr|Hr], (decide (is_due (countdown t))) as [Hd|Hd].
  - rewrite (filter_cons_True is_due) by exact Hd.
    rewrite (filter_cons_True is_rotor) by exact Hr.
    rewrite (filter_cons_True is_rotor) by exact Hr.
    rewrite fmap_cons, (filter_cons_True is_due) by exact Hd. f_equal. exact IH.
  - rewrite (filter_cons_False is_due) by exact Hd.
    rewrite (filter_cons_True is_rotor) by exact Hr.
    rewrite fmap_cons, (filter_cons_False is_due) by exact Hd. exact IH.
  - rewrite (filter_cons_True is_due) by exact Hd.
    rewrite (filter_cons_False is_rotor (countdown t)) by exact Hr.
    rewrite (filter_cons_False is_rotor t) by exact Hr. exact IH.
  - rewrite (filter_cons_False is_due) by exact Hd.
    rewrite (filter_cons_False is_rotor t) by exact Hr. exact IH.
Qed.

Lemma rotors_kept (ts : list (timer action)) :
  filter is_rotor (omap rearm (countdown <$> ts)) =
  omap rearm (countdown <$> filter is_rotor ts).
Proof.
  induction ts as [|t ts IH]; [reflexivity|].
  rewrite fmap_cons. cbn [omap list_omap].
  destruct (decide (is_rotor t)) as [Hr|Hr].
  - rewrite (filter_cons_True is_rotor t) by exact Hr.
    rewrite fmap_cons. cbn [omap list_omap].
    destruct (rearm (countdown t)) as [t'|] eqn:E; [|exact IH].
    assert (is_rotor t').
    { unfold rearm in E. destruct (decide _); [destruct (period _)|];
        inversion E; subst; exact Hr. }
    rewrite filter_cons_True by assumption. f_equal. exact IH.
  - rewrite (filter_cons_False is_rotor t) by exact Hr.
    destruct (rearm (countdown t)) as [t'|] eqn:E; [|exact IH].
    assert (~ is_rotor t').
    { unfold rearm in E. destruct (decide _); [destruct (period _)|];
        inversion E; subst; exact Hr. }
    rewrite filter_cons_False by assumption. exact IH.
Qed.

Lemma rotors_setTimeout a delay (b : page) :
  a ≠ NextPhase -> rotors (fst (setTimeout a delay b)) = rotors b.
Proof.
  intros H. unfold rotors. cbn.
  rewrite filter_app, filter_cons_False, filter_nil, app_nil_r by exact H.
  reflexivity.
Qed.

Lemma dom_setTimeout (a : action) delay (b : page) :
  dom (fst (setTimeout a delay b)) = dom b.
Proof. reflexivity. Qed.

Lemma rotors_map_dom f (b : page) : rotors (map_dom f b) = rotors b.
Proof. reflexivity. Qed.

(** What a callback does to the phase, the rotors and the interval id. *)
Lemma run_spec a (b : page) :
  (currentPhase (dom b) < 4)%nat ->
  let b' := run a b in
  currentPhase (dom b') =
    (if decide (a = NextPhase) then (currentPhase (dom b) + 1) mod 4
     else currentPhase (dom b))%nat /\
  rotors b' = rotors b /\
  autoRotateInterval (dom b') = autoRotateInterval (dom b).
Proof.
  intros Hlt. destruct a as [|i animate|]; cbn zeta.
  - rewrite decide_True by reflexivity. unfold run, nextPhase, updateDisplay.
    rewrite rotors_setTimeout, dom_setTimeout by discriminate.
    rewrite !rotors_map_dom. auto.
  - rewrite decide_False by discriminate. unfold run.
    destruct (phases !! i) as [ph|]; [|auto].
    destruct animate; [|rewrite rotors_map_dom; auto].
    rewrite rotors_setTimeout, dom_setTimeout by discriminate.
    rewrite rotors_map_dom. auto.
  - rewrite decide_False by discriminate. unfold run.
    rewrite rotors_map_dom. auto.
Qed.

Lemma run_all_spec due : forall b : page,
  (currentPhase (dom b) < 4)%nat ->
  let b' := run_all run due b in
  currentPhase (dom b') =
    ((currentPhase (dom b) + length (filter is_rotor due)) mod 4)%nat /\
  rotors b' = rotors b /\
  autoRotateInterval (dom b') = autoRotateInterval (dom b).
Proof.
  induction due as [|t due IH]; intros b Hlt; cbn zeta.
  - change (run_all run [] b) with b. rewrite filter_nil. cbn [length].
    rewrite Nat.add_0_r, Nat.mod_small by exact Hlt. auto.
  - rewrite run_all_cons.
    destruct (run_spec (act t) b Hlt) as (Hc & Hr & Ha).
    assert (Hlt' : (currentPhase (dom (run (act t) b)) < 4)%nat).
    { rewrite Hc. destruct (decide _); [apply Nat.mod_upper_bound; lia|exact Hlt]. }
    destruct (IH _ Hlt') as (Hc' & Hr' & Ha').
    rewrite Hc', Hr', Ha', Hc, Hr, Ha. split; [|auto].
    destruct (decide (act t = NextPhase)) as [E|E].
    + rewrite (filter_cons_True is_rotor) by exact E. cbn [length].
      rewrite Nat.Div0.add_mod_idemp_l. f_equal. lia.
    + rewrite (filter_cons_False is_rotor) by exact E. reflexivity.
Qed.
Ltac Zify.zify_post_hook ::= Z.to_euclidean_division_equations.

Lemma tick_spec (b : page) :
  (currentPhase (dom b) < 4)%nat ->
  let b' := tick_ms run b in
  currentPhase (dom b') =
    ((currentPhase (dom b) +
      length (filter is_due (countdown <$> rotors b))) mod 4)%nat /\
  rotors b' = omap rearm (countdown <$> rotors b) /\
  autoRotateInterval (dom b') = autoRotateInterval (dom b).
Proof.
  intros Hlt. cbn zeta. unfold tick_ms.
  set (b0 := {| dom := dom b; timers := _; next_tid := _ |}).
  destruct (run_all_spec (filter is_due (countdown <$> timers b)) b0 Hlt)
    as (Hc & Hr & Ha).
  rewrite Hc, Hr, Ha, rotors_due. unfold b0, rotors at 2. cbn [timers dom].
  rewrite rotors_kept. auto.
Qed.

Lemma tick_paused (b : page) :
  (currentPhase (dom b) < 4)%nat -> paused b ->
  paused (tick_ms run b) /\
  currentPhase (dom (tick_ms run b)) = currentPhase (dom b).
Proof.
  intros Hlt Hp. destruct (tick_spec b Hlt) as (Hc & Hr & _).
  unfold paused in *. rewrite Hp in Hc, Hr. split; [exact Hr|].
  rewrite Hc, fmap_nil, filter_nil. cbn [length].
  rewrite Nat.add_0_r. apply Nat.mod_small, Hlt.
Qed.

Lemma elapse_paused ms (b : page) :
  (currentPhase (dom b) < 4)%nat -> paused b ->
  paused (elapse run ms b) /\
  currentPhase (dom (elapse run ms b)) = currentPhase (dom b).
Proof.
  intros Hlt Hp. induction ms as [|ms [IH1 IH2]] using N.peano_ind; [auto|].
  rewrite elapse_succ.
  destruct (tick_paused (elapse run ms b)) as [H1 H2]; [rewrite IH2; exact Hlt|exact IH1|].
  split; [exact H1|]. rewrite H2. exact IH2.
Qed.

Lemma tick_rotating r (b : page) :
  (currentPhase (dom b) < 4)%nat -> rotating r b -> 1 <= r ->
  let b' := tick_ms run b in
  (2 <= r -> rotating (r - 1) b' /\
             currentPhase (dom b') = currentPhase (dom b)) /\
  (r = 1 -> rotating 4000 b' /\
            currentPhase (dom b') = ((currentPhase (dom b) + 1) mod 4)%nat).
Proof.
  intros Hlt (t0 & Hrot & Hrem & Hper & Hauto) Hr. cbn zeta.
  destruct (tick_spec b Hlt) as (Hc & Hrs & Ha). rewrite Hrot in Hc, Hrs.
  cbn [fmap list_fmap omap list_omap] in Hc, Hrs.
  unfold rearm in Hrs. split.
  - intros H2.
    rewrite decide_False in Hrs by (unfold is_due; cbn; lia).
    rewrite (filter_cons_False is_due) in Hc by (unfold is_due; cbn; lia).
    split.
    + exists (countdown t0). cbn. rewrite Ha. repeat split; auto. lia.
    + rewrite Hc, filter_nil. cbn [length].
      rewrite Nat.add_0_r. apply Nat.mod_small, Hlt.
  - intros ->.
    rewrite decide_True in Hrs by (unfold is_due; cbn; lia).
    rewrite (filter_cons_True is_due) in Hc by (unfold is_due; cbn; lia).
    cbn [period countdown] in Hrs. rewrite Hper in Hrs.
    split.
    + eexists. split; [exact Hrs|]. cbn. rewrite Ha. auto.
    + rewrite Hc, filter_nil. reflexivity.
Qed.

Lemma spinning_phase c (b : page) :
  spinning c b -> (currentPhase (dom b) < 4)%nat.
Proof. intros (Hc & Hp & _). rewrite Hp. lia. Qed.

Lemma tick_spinning c (b : page) :
  spinning c b -> spinning ((c + 1) mod 16000) (tick_ms run b).
Proof.
  intros Hs. pose proof (spinning_phase c b Hs) as Hlt.
  destruct Hs as (Hc & Hp & Hrot).
  destruct (tick_rotating _ b Hlt Hrot) as [H2 H1]; [lia|].
  destruct (decide (2 <= 4000 - c mod 4000)) as [Hge|Hlt2].
  - destruct (H2 Hge) as [Hrot' Hp']. split; [lia|]. split.
    + rewrite Hp', Hp. f_equal. lia.
    + replace (4000 - (c + 1) mod 16000 mod 4000) with (4000 - c mod 4000 - 1) by lia.
      exact Hrot'.
  - destruct H1 as [Hrot' Hp']; [lia|].
    assert (Hcs : c = 3999 \/ c = 7999 \/ c = 11999 \/ c = 15999) by lia.
    split; [lia|]. split.
    + rewrite Hp', Hp. destruct Hcs as [-> | [-> | [-> | ->]]]; reflexivity.
    + replace (4000 - (c + 1) mod 16000 mod 4000) with 4000; [exact Hrot'|].
      destruct Hcs as [-> | [-> | [-> | ->]]]; reflexivity.
Qed.

Lemma elapse_spinning ms c (b : page) :
  spinning c b -> spinning ((c + ms) mod 16000) (elapse run ms b).
Proof.
  intros Hs. induction ms as [|ms IH] using N.peano_ind.
  - rewrite N.add_0_r, N.mod_small by apply Hs. exact Hs.
  - rewrite elapse_succ.
    replace ((c + N.succ ms) mod 16000) with (((c + ms) mod 16000 + 1) mod 16000) by lia.
    apply tick_spinning, IH.
Qed.

Lemma rotors_clearTimer id (b : page) :
  rotors (clearTimer id b) = filter (fun t => tid t ≠ id) (rotors b).
Proof.
  unfold rotors, clearTimer. cbn [timers].
  induction (timers b) as [|t ts IH]; [reflexivity|].
  destruct (decide (tid t ≠ id)) as [Hi|Hi], (decide (is_rotor t)) as [Hr|Hr].
  - rewrite (filter_cons_True _ t ts) by exact Hi.
    rewrite !(filter_cons_True is_rotor) by exact Hr.
    rewrite (filter_cons_True _ t) by exact Hi. f_equal. exact IH.
  - rewrite (filter_cons_True _ t ts) by exact Hi.
    rewrite !(filter_cons_False is_rotor) by exact Hr. exact IH.
  - rewrite (filter_cons_False _ t ts) by exact Hi.
    rewrite (filter_cons_True is_rotor) by exact Hr.
    rewrite (filter_cons_False _ t) by exact Hi. exact IH.
  - rewrite (filter_cons_False _ t ts) by exact Hi.
    rewrite (filter_cons_False is_rotor) by exact Hr. exact IH.
Qed.

(** Hovering: [stopAutoRotate] clears the interval, [startAutoRotate]
    installs a fresh one. *)
Lemma stop_spinning c (b : page) :
  spinning c b ->
  paused (stopAutoRotate b) /\ dom (stopAutoRotate b) = dom b.
Proof.
  intros (_ & _ & t0 & Hrot & _ & _ & Hauto).
  unfold stopAutoRotate. rewrite Hauto. split; [|reflexivity].
  unfold paused. rewrite rotors_clearTimer, Hrot.
  rewrite filter_cons_False by (intros H; apply H; reflexivity).
  reflexivity.
Qed.

Lemma start_paused (b : page) :
  (currentPhase (dom b) < 4)%nat -> paused b ->
  spinning (4000 * N.of_nat (currentPhase (dom b))) (startAutoRotate b).
Proof.
  intros Hlt Hp. unfold startAutoRotate. cbn.
  split; [lia|]. split.
  - cbn. lia.
  - replace (4000 - _) with 4000 by lia.
    eexists. split.
    + unfold rotors. cbn.
      rewrite filter_app, filter_cons_True, filter_nil by reflexivity.
      unfold paused, rotors in Hp. rewrite Hp. reflexivity.
    + cbn. auto.
Qed.

Lemma init_spinning (display icon title description : bool) (d : state)
    (b0 : page) :
  initLifecyclePanel display icon title description d = Some b0 ->
  spinning 0 b0.
Proof.
  unfold initLifecyclePanel. destruct (_ || _); [discriminate|].
  intros [= <-]. split; [lia|]. split; [reflexivity|].
  eexists. split; [reflexivity|]. cbn. auto.
Qed.

Lemma title_of_phase i ph : phases !! i = Some ph -> title ph = title_of i.
Proof. intros H. unfold title_of. rewrite H. reflexivity. Qed.

Lemma run_update_spec i a (b : page) ph :
  phases !! i = Some ph ->
  let b' := run (UpdateContent i a) b in
  title_text (dom b') = title_of i /\
  timers b' =
    timers b ++
    (if a then [{| tid := next_tid b; remaining := 50; period := None;
                   act := FadeIn |}] else []).
Proof.
  intros H. cbn zeta. unfold run. rewrite H.
  destruct a; cbn; rewrite ?app_nil_r; split; try reflexivity;
    apply title_of_phase, H.
Qed.

Lemma run_nextphase_spec (b : page) :
  let b' := run NextPhase b in
  title_text (dom b') = title_text (dom b) /\
  timers b' =
    timers b ++
    [{| tid := next_tid b; remaining := 400; period := None;
        act := UpdateContent ((currentPhase (dom b) + 1) mod 4) true |}].
Proof. split; reflexivity. Qed.

(** A callback only adds timers. *)
Lemma run_appends a (b : page) : exists l, timers (run a b) = timers b ++ l.
Proof.
  destruct a as [|i animate|].
  - eexists. apply run_nextphase_spec.
  - unfold run. destruct (phases !! i); [|exists []; symmetry; apply app_nil_r].
    destruct animate; [eexists; reflexivity|exists []; symmetry; apply app_nil_r].
  - exists []. symmetry. apply app_nil_r.
Qed.

Lemma run_all_appends due : forall b : page,
  exists l, timers (run_all run due b) = timers b ++ l.
Proof.
  induction due as [|t due IH]; intros b.
  - exists []. symmetry. apply app_nil_r.
  - rewrite run_all_cons. destruct (IH (run (act t) b)) as [l Hl].
    destruct (run_appends (act t) b) as [l' Hl'].
    exists (l' ++ l). rewrite Hl, Hl', app_assoc. reflexivity.
Qed.

Lemma phase_lookup i : (i < 4)%nat -> exists ph, phases !! i = Some ph.
Proof.
  intros H. destruct (phases !! i) as [ph|] eqn:E; [eauto|].
  apply lookup_ge_None in E. cbn in E. lia.
Qed.

(** The rotor is the only timer that carries [NextPhase]. *)
Lemma rotating_unique r (b : page) tm :
  rotating r b -> tm ∈ timers b -> act tm = NextPhase -> remaining tm = r.
Proof.
  intros (t0 & Hrot & Hrem & _) Hin Hact.
  assert (Hm : tm ∈ rotors b) by (apply list_elem_of_filter; split; assumption).
  rewrite Hrot in Hm. apply list_elem_of_singleton in Hm as ->. exact Hrem.
Qed.

Lemma shown_phase_step t :
  1 <= t -> ~ (4000 <= t /\ t mod 4000 = 399) ->
  shown_phase (t + 1) = shown_phase t.
Proof.
  intros H1 Hn. unfold shown_phase. f_equal. lia.
Qed.

Lemma shown_phase_update t :
  4000 <= t -> t mod 4000 = 399 ->
  shown_phase (t + 1) = N.to_nat ((t / 4000) mod 4).
Proof.
  intros H1 Hn. unfold shown_phase. f_equal. lia.
Qed.

Lemma next_phase_index t :
  t mod 4000 = 3999 ->
  ((N.to_nat ((t mod 16000) / 4000) + 1) mod 4)%nat =
  N.to_nat (((t + 1) / 4000) mod 4).
Proof.
  intros H.
  assert (Hc : t mod 16000 = 3999 \/ t mod 16000 = 7999 \/
               t mod 16000 = 11999 \/ t mod 16000 = 15999) by lia.
  destruct Hc as [E | [E | [E | E]]]; rewrite E;
    [replace (((t + 1) / 4000) mod 4) with 1 by lia
    |replace (((t + 1) / 4000) mod 4) with 2 by lia
    |replace (((t + 1) / 4000) mod 4) with 3 by lia
    |replace (((t + 1) / 4000) mod 4) with 0 by lia]; reflexivity.
Qed.

Lemma tick_displaying t (b : page) :
  displaying t b -> spinning (t mod 16000) b ->
  displaying (t + 1) (tick_ms run b).
Proof.
  intros [Ht Htitle Hpend] Hspin.
  pose proof (spinning_phase _ _ Hspin) as Hlt.
  destruct Hspin as (_ & Hcp & Hrot).
  replace (4000 - (t mod 16000) mod 4000) with (4000 - t mod 4000) in Hrot by lia.
  assert (Ht' : Forall (fun tm => display_timer t tm /\
                  (act tm = NextPhase -> remaining tm = 4000 - t mod 4000))
                  (timers b)).
  { apply Forall_forall. intros tm Hin. rewrite Forall_forall in Ht.
    split; [auto|]. intros Ha. eapply rotating_unique; eauto. }
  unfold tick_ms.
  set (ts := countdown <$> timers b).
  set (b0 := {| dom := dom b; timers := omap rearm ts; next_tid := next_tid b |}).
  destruct (decide (t mod 4000 = 3999)) as [Ho|Ho].
  - (* the interval fires *)
    destruct Hrot as (t0 & Hrs & Hrem & Hper & Hauto).
    assert (Hdue : filter is_due ts = [countdown t0]).
    { rewrite <- (filter_all is_rotor (filter is_due ts)).
      - unfold ts. rewrite rotors_due. fold (rotors b). rewrite Hrs.
        cbn [fmap list_fmap].
        rewrite filter_cons_True by (unfold is_due; cbn; lia). reflexivity.
      - apply (Forall_due_gen _ _ _ Ht). intros tm (Hr1 & Hact) Hr.
        unfold is_rotor. cbn.
        destruct (act tm) as [|i a|]; [reflexivity| |].
        + destruct Hact as [_ [(?&?&?&?)|(?&?&?&?)]]; lia.
        + destruct Hact as (_ & ? & ?); lia. }
    rewrite Hdue, run_all_cons. change (run_all run [] ?x) with x.
    assert (Hact0 : act (countdown t0) = NextPhase).
    { assert (Hin : t0 ∈ rotors b)
        by (rewrite Hrs; apply list_elem_of_singleton; reflexivity).
      apply list_elem_of_filter in Hin as [Hin _]. exact Hin. }
    rewrite Hact0. destruct (run_nextphase_spec b0) as [Htt Htm].
    split.
    + rewrite Htm. apply Forall_app. split.
      * apply (Forall_kept_gen _ _ _ Ht).
        -- intros tm (Hr1 & Hact) H2. split; [cbn; lia|]. cbn.
           destruct (act tm) as [|i a|]; [exact I| |].
           ++ destruct Hact as [_ [(?&?&?&?)|(?&?&?&?)]]; lia.
           ++ destruct Hact as (_ & ? & ?); lia.
        -- intros tm p (Hr1 & Hact) Hle Hp. split; [cbn; lia|]. cbn.
           destruct (act tm) as [|i a|]; [exact I| |];
             destruct Hact as [Hn _]; congruence.
      * constructor; [|constructor]. split; [cbn; lia|]. cbn.
        split; [reflexivity|]. right. split; [lia|]. split.
        -- rewrite Hcp. apply next_phase_index, Ho.
        -- split; [reflexivity|]. lia.
    + intros _. rewrite Htt. cbn [dom b0]. rewrite Htitle by lia.
      f_equal. symmetry. apply shown_phase_step; lia.
    + intros _. rewrite Htm. apply Exists_app. right. constructor.
      eexists _, _. reflexivity.
  - (* the interval does not fire *)
    set (Q := fun tm : timer action =>
      match act tm with
      | NextPhase => False
      | UpdateContent i a =>
          (t = 0 /\ i = 0%nat /\ a = false) \/
          (4000 <= t /\ t mod 4000 = 399 /\
           i = N.to_nat ((t / 4000) mod 4) /\ a = true)
      | FadeIn => True
      end).
    assert (Hdue : Forall Q (filter is_due ts)).
    { apply (Forall_due_gen _ _ _ Ht'). intros tm ((Hr1 & Hact) & Hrt) Hr.
      unfold Q. cbn. destruct (act tm) as [|i a|]; [|  |exact I].
      - specialize (Hrt eq_refl). lia.
      - destruct Hact as [_ [(?&?&?&?)|(?&?&?&?)]]; [left; auto|right].
        repeat split; auto; lia. }
    assert (Hkept : Forall (display_timer (t + 1)) (timers b0)).
    { apply (Forall_kept_gen _ _ _ Ht').
      - intros tm ((Hr1 & Hact) & Hrt) H2. split; [cbn; lia|]. cbn.
        destruct (act tm) as [|i a|]; [exact I| |].
        + destruct Hact as [Hp [(?&?&?&?)|(?&?&?&?)]]; [lia|].
          split; [exact Hp|]. right. repeat split; auto; lia.
        + destruct Hact as (Hp & ? & ?). split; [exact Hp|]. lia.
      - intros tm p ((Hr1 & Hact) & Hrt) Hle Hp. exfalso.
        destruct (act tm) as [|i a|].
        + specialize (Hrt eq_refl). lia.
        + destruct Hact as [Hn _]; congruence.
        + destruct Hact as [Hn _]; congruence. }
    split.
    + (* timers *)
      apply (run_all_keeps run
               (fun b' => Forall (display_timer (t + 1)) (timers b')));
        [|exact Hkept].
      eapply Forall_impl; [exact Hdue|]. intros tm HQ b' Hb'. unfold Q in HQ.
      destruct (act tm) as [|i a|]; [contradiction| |exact Hb'].
      assert (Hi : (i < 4)%nat) by (destruct HQ as [(?&?&?)|(?&?&?&?)]; lia).
      destruct (phase_lookup i Hi) as [ph Hph].
      destruct (run_update_spec i a b' ph Hph) as [_ ->].
      apply Forall_app. split; [exact Hb'|].
      destruct a; [|constructor].
      constructor; [|constructor]. split; [cbn; lia|]. cbn.
      destruct HQ as [(?&?&?)|(?&?&?&?)]; [discriminate|].
      split; [reflexivity|]. lia.
    + (* title *)
      intros _.
      destruct (decide (t = 0 \/ (4000 <= t /\ t mod 4000 = 399))) as [Hu|Hu].
      * apply (run_all_establishes run
                 (fun b' => title_text (dom b') = title_of (shown_phase (t + 1)))).
        -- assert (Hex : Exists is_update (timers b)) by (apply Hpend; lia).
           apply Exists_exists in Hex as (tm & Hin & i & a & Hact).
           rewrite Forall_forall in Ht. destruct (Ht tm Hin) as (Hr1 & Hdt).
           rewrite Hact in Hdt.
           apply (Exists_due_gen _ _ tm Hin).
           ++ destruct Hdt as [_ [(?&?&?&?)|(?&?&?&?)]]; lia.
           ++ cbn. rewrite Hact. intros b'.
              assert (Hi : (i < 4)%nat)
                by (destruct Hdt as [_ [(?&?&?&?)|(?&?&?&?)]]; lia).
              destruct (phase_lookup i Hi) as [ph Hph].
              destruct (run_update_spec i a b' ph Hph) as [-> _]. f_equal.
              destruct Hdt as [_ [(?&?&?&?)|(?&?&?&?)]].
              ** subst. reflexivity.
              ** subst i. symmetry. apply shown_phase_update; lia.
        -- eapply Forall_impl; [exact Hdue|]. intros tm HQ b' Hb'. unfold Q in HQ.
           destruct (act tm) as [|i a|]; [contradiction| |exact Hb'].
           assert (Hi : (i < 4)%nat) by (destruct HQ as [(?&?&?)|(?&?&?&?)]; lia).
           destruct (phase_lookup i Hi) as [ph Hph].
           destruct (run_update_spec i a b' ph Hph) as [-> _]. f_equal.
           destruct HQ as [(?&?&?)|(?&?&?&?)].
           ++ subst. reflexivity.
           ++ subst i. symmetry. apply shown_phase_update; lia.
      * apply (run_all_keeps run
                 (fun b' => title_text (dom b') = title_of (shown_phase (t + 1)))).
        -- eapply Forall_impl; [exact Hdue|]. intros tm HQ b' Hb'. unfold Q in HQ.
           destruct (act tm) as [|i a|]; [contradiction| |exact Hb'].
           exfalso. apply Hu. destruct HQ as [(?&?&?)|(?&?&?&?)]; auto.
        -- cbn [dom b0]. rewrite Htitle by lia. f_equal. symmetry.
           apply shown_phase_step; [lia|]. intros [? ?]. apply Hu. auto.
    + (* the pending update *)
      intros [?|[H1 H2]]; [lia|].
      assert (Hex : Exists is_update (timers b)) by (apply Hpend; right; lia).
      apply Exists_exists in Hex as (tm & Hin & i & a & Hact).
      rewrite Forall_forall in Ht. destruct (Ht tm Hin) as (Hr1 & Hdt).
      rewrite Hact in Hdt.
      destruct (run_all_appends (filter is_due ts) b0) as [l ->].
      apply Exists_app. left.
      apply (Exists_kept_gen _ _ tm Hin).
      * destruct Hdt as [_ [(?&?&?&?)|(?&?&?&?)]]; lia.
      * exists i, a. exact Hact.
Qed.

Lemma init_displaying (display icon title description : bool) (d : state)
    (b0 : page) :
  initLifecyclePanel display icon title description d = Some b0 ->
  displaying 0 b0.
Proof.
  unfold initLifecyclePanel. destruct (_ || _); [discriminate|].
  intros [= <-]. split.
  - repeat constructor; cbn; auto; lia.
  - lia.
  - intros _. constructor. eexists _, _. reflexivity.
Qed.

Lemma elapse_displaying t (b0 : page) :
  displaying 0 b0 -> spinning 0 b0 -> displaying t (elapse run t b0).
Proof.
  intros Hd Hs. induction t as [|t IH] using N.peano_ind; [exact Hd|].
  rewrite elapse_succ, <- N.add_1_r. apply tick_displaying; [exact IH|].
  apply (elapse_spinning t 0 b0 Hs).
Qed.

(** Hovering in general: over any sequence of time passing and of the
    pointer entering and leaving in turn, the interval runs exactly
    while the pointer is outside. *)
Lemma hover_alternation evs : forall inside (b : page),
  hover_ok inside evs = true ->
  hover_state inside b ->
  hover_state (ends_inside inside evs) (exec b evs).
Proof.
  induction evs as [|ev evs IH]; intros inside b Hok [Hlt Hst]; [split; assumption|].
  destruct ev as [ms| | |i]; cbn [hover_ok ends_inside] in *;
    change (exec b (?e :: evs)) with (exec (step b e) evs).
  - apply (IH inside); [exact Hok|]. cbn [step]. destruct inside.
    + destruct (elapse_paused ms b Hlt Hst) as [H1 H2].
      split; [rewrite H2; exact Hlt|exact H1].
    + destruct Hst as [c Hc]. pose proof (elapse_spinning ms c b Hc) as Hs.
      split; [eapply spinning_phase, Hs|eauto].
  - apply andb_true_iff in Hok as [Hin Hok]. destruct inside; [discriminate|].
    apply (IH true); [exact Hok|]. cbn [step]. destruct Hst as [c Hc].
    destruct (stop_spinning c b Hc) as [Hp Hd].
    split; [rewrite Hd; exact Hlt|exact Hp].
  - apply andb_true_iff in Hok as [Hin Hok]. destruct inside; [|discriminate].
    apply (IH false); [exact Hok|]. cbn [step].
    pose proof (start_paused b Hlt Hst) as Hs.
    split; [eapply spinning_phase, Hs|eauto].
  - discriminate.
Qed.

(** X23. A panel whose indicators are not clicked.  Once
    [initLifecyclePanel] has installed the panel: the phase list is
    Seed, Operational, Vetted, Prestige; left alone, the panel is at
    phase [(t / 4000) mod 4] after [t] milliseconds, so it steps once
    every 4000 ms through the four phases and back to Seed, and the
    title it shows follows by the 400 ms of the fade; when the pointer
    then enters the display no callback that advances the panel is
    pending and the phase stays what it was however long the pointer
    stays; when it leaves, the panel steps again once every 4000 ms. *)
Theorem lifecycle_cycles_and_pauses (display icon title description : bool)
    (d : state) (b0 : page) :
  initLifecyclePanel display icon title description d = Some b0 ->
  Lifecycle.title <$> phases = ["Seed"; "Operational"; "Vetted"; "Prestige"] /\
  (forall t,
     currentPhase (dom (exec b0 [Elapse t])) = N.to_nat ((t / 4000) mod 4)) /\
  (forall t, 1 <= t ->
     title_text (dom (exec b0 [Elapse t])) =
       title_of (N.to_nat (((t - 400) / 4000) mod 4))) /\
  (forall t hover,
     let b1 := exec b0 [Elapse t; MouseEnter] in
     rotors b1 = [] /\
     rotors (exec b1 [Elapse hover]) = [] /\
     currentPhase (dom (exec b1 [Elapse hover])) =
       currentPhase (dom (exec b0 [Elapse t]))) /\
  (forall t hover k,
     let b2 := exec b0 [Elapse t; MouseEnter; Elapse hover; MouseLeave] in
     currentPhase (dom (exec b2 [Elapse k])) =
       ((currentPhase (dom (exec b0 [Elapse t])) + N.to_nat (k / 4000))
          mod 4)%nat).
Proof.
  intros Hinit. pose proof (init_spinning _ _ _ _ _ _ Hinit) as H0.
  assert (Hrun : forall t, spinning (t mod 16000) (elapse run t b0)).
  { intros t. apply (elapse_spinning t 0 b0 H0). }
  assert (Hhover : forall t hover,
    paused (elapse run hover (stopAutoRotate (elapse run t b0))) /\
    currentPhase (dom (elapse run hover (stopAutoRotate (elapse run t b0)))) =
      currentPhase (dom (elapse run t b0))).
  { intros t hover. specialize (Hrun t).
    destruct (stop_spinning _ _ Hrun) as [Hp Hd].
    destruct (elapse_paused hover (stopAutoRotate (elapse run t b0))) as [H1 H2];
      [rewrite Hd; eapply spinning_phase, Hrun|exact Hp|].
    split; [exact H1|]. rewrite H2, Hd. reflexivity. }
  split; [reflexivity|]. split; [|split; [|split]].
  - intros t. cbn [exec fold_left step].
    destruct (Hrun t) as (_ & -> & _). f_equal. lia.
  - intros t Ht. cbn [exec fold_left step].
    pose proof (init_displaying _ _ _ _ _ _ Hinit) as Hd0.
    apply (dp_title _ _ (elapse_displaying t b0 Hd0 H0)), Ht.
  - intros t hover. cbn [exec fold_left step].
    destruct (stop_spinning _ _ (Hrun t)) as [Hp _].
    destruct (Hhover t hover) as [H1 H2]. auto.
  - intros t hover k. cbn [exec fold_left step].
    destruct (Hhover t hover) as [H1 H2].
    set (bh := elapse run hover (stopAutoRotate (elapse run t b0))) in *.
    assert (Hlt : (currentPhase (dom bh) < 4)%nat).
    { rewrite H2. eapply spinning_phase, Hrun. }
    pose proof (start_paused bh Hlt H1) as Hs.
    pose proof (elapse_spinning k _ _ Hs) as (_ & -> & _).
    rewrite <- H2.
    assert (Hq : N.of_nat (currentPhase (dom bh)) < 4) by lia.
    set (q := N.of_nat (currentPhase (dom bh))) in *.
    replace (currentPhase (dom bh)) with (N.to_nat q) by (unfold q; lia).
    rewrite <- N2Nat.inj_add.
    change 4%nat with (N.to_nat 4). rewrite <- N2Nat.inj_mod.
    f_equal. lia.
Qed.

End LifecycleFacts.

(** The panel of the page, started. *)
Lemma demo_panel_started :
  Lifecycle.initLifecyclePanel true true true true Lifecycle.demo_panel =
  Some (Lifecycle.startAutoRotate
          (Lifecycle.updateDisplay 0 false
             {| Timers.dom := Lifecycle.demo_panel; Timers.timers := [];
                Timers.next_tid := 1 |})).
Proof. reflexivity. Defined.

(** X23 on a panel with four indicators. *)
Lemma lifecycle_cycles_and_pauses_witness :
  let b0 :=
    Lifecycle.startAutoRotate
      (Lifecycle.updateDisplay 0 false
         {| Timers.dom := Lifecycle.demo_panel; Timers.timers := [];
            Timers.next_tid := 1 |}) in
  Lifecycle.initLifecyclePanel true true true true Lifecycle.demo_panel =
    Some b0 /\
  (Lifecycle.title <$> Lifecycle.phases =
     ["Seed"; "Operational"; "Vetted"; "Prestige"] /\
   (forall t : N,
      Lifecycle.currentPhase
        (Timers.dom (Lifecycle.exec b0 [Lifecycle.Elapse t])) =
      N.to_nat ((t / 4000) mod 4)) /\
   (forall t : N, (1 <= t)%N ->
      Lifecycle.title_text
        (Timers.dom (Lifecycle.exec b0 [Lifecycle.Elapse t])) =
      Lifecycle.title_of (N.to_nat (((t - 400) / 4000) mod 4))) /\
   (forall t hover : N,
      let b1 :=
        Lifecycle.exec b0 [Lifecycle.Elapse t; Lifecycle.MouseEnter] in
      Lifecycle.rotors b1 = [] /\
      Lifecycle.rotors (Lifecycle.exec b1 [Lifecycle.Elapse hover]) = [] /\
      Lifecycle.currentPhase
        (Timers.dom (Lifecycle.exec b1 [Lifecycle.Elapse hover])) =
      Lifecycle.currentPhase
        (Timers.dom (Lifecycle.exec b0 [Lifecycle.Elapse t]))) /\
   (forall t hover k : N,
      let b2 :=
        Lifecycle.exec b0
          [Lifecycle.Elapse t; Lifecycle.MouseEnter;
           Lifecycle.Elapse hover; Lifecycle.MouseLeave] in
      Lifecycle.currentPhase
        (Timers.dom (Lifecycle.exec b2 [Lifecycle.Elapse k])) =
      (Lifecycle.currentPhase
         (Timers.dom (Lifecycle.exec b0 [Lifecycle.Elapse t])) +
       N.to_nat (k / 4000)) mod 4)).
Proof.
  cbv zeta. split; [exact demo_panel_started|].
  exact (lifecycle_cycles_and_pauses true true true true Lifecycle.demo_panel
           _ demo_panel_started).
Defined.

(** ** Initializers *)

(** The initializers return before they install anything when an
    element they need is missing. *)
Lemma missing_element_no_install :
  (forall header prm w y h, ScrollFx.initHeroFade false header prm w y h = None) /\
  (forall hero prm w y h, ScrollFx.initHeroFade hero false prm w y h = None) /\
  (forall sin_fin PI prm n e,
     ScrollFx.initOrbParallax sin_fin PI prm false n e = None) /\
  (forall sin_fin PI prm sec e,
     ScrollFx.initOrbParallax sin_fin PI prm sec 0 e = None) /\
  (forall overlay links d, Menu.initMobileMenu false overlay links d = None) /\
  (forall toggle links d, Menu.initMobileMenu toggle false links d = None) /\
  (forall toggle overlay d, Menu.initMobileMenu toggle overlay false d = None) /\
  (forall display icon title description d,
     display && icon && title && description = false ->
     Lifecycle.initLifecyclePanel display icon title description d = None).
Proof.
  repeat split.
  - intros hero prm w y h. unfold ScrollFx.initHeroFade.
    destruct hero; reflexivity.
  - intros sin_fin PI prm n e. unfold ScrollFx.initOrbParallax.
    destruct (_ || _); reflexivity.
  - intros sin_fin PI prm sec e. unfold ScrollFx.initOrbParallax.
    destruct (_ || _); [reflexivity|]. destruct sec; reflexivity.
  - intros toggle links d. destruct toggle; reflexivity.
  - intros toggle overlay d. destruct toggle, overlay; reflexivity.
  - intros display icon title description d H.
    unfold Lifecycle.initLifecyclePanel.
    destruct display, icon, title, description; try discriminate; reflexivity.
Qed.

(** * Further properties *)

(** ** Class lists *)

Section ClassFacts.
Import Dom.

Lemma elem_of_class_add c c' (l : list string) :
  c' ∈ class_add c l <-> c' = c \/ c' ∈ l.
Proof.
  unfold class_add. destruct (bool_decide_reflect (c ∈ l)) as [H|H].
  - split; [intros ?; right; assumption|intros [-> | ?]; assumption].
  - rewrite elem_of_app. split.
    + intros [? | E]; [auto|]. left.
      exact (proj1 (list_elem_of_singleton c' c) E).
    + intros [-> | ?]; [right|auto].
      exact (proj2 (list_elem_of_singleton c c) eq_refl).
Qed.

Lemma elem_of_class_remove c c' (l : list string) :
  c' ∈ class_remove c l <-> c' ≠ c /\ c' ∈ l.
Proof.
  unfold class_remove.
  exact (list_elem_of_filter (fun x => x ≠ c) l c').
Qed.

Lemma elem_of_class_toggle c c' (force : bool) (l : list string) :
  c' ∈ class_toggle c force l <->
  if force then c' = c \/ c' ∈ l else c' ≠ c /\ c' ∈ l.
Proof.
  destruct force; [apply elem_of_class_add|apply elem_of_class_remove].
Qed.

Lemma class_add_idem c (l : list string) :
  class_add c (class_add c l) = class_add c l.
Proof.
  unfold class_add at 1. rewrite bool_decide_eq_true_2; [reflexivity|].
  apply elem_of_class_add. auto.
Qed.

Lemma class_add_present c (l : list string) : c ∈ l -> class_add c l = l.
Proof. intros H. unfold class_add. rewrite bool_decide_eq_true_2; auto. Qed.

End ClassFacts.



(** ** Hero fade and orbs: ranges and edges *)

Section HeroFacts.
Import JSNum JSNumRel ScrollFx.
Local Open Scope Q_scope.

(** The clamped progress as a rational, for a divisor that is not zero. *)
Lemma clamp_fin (x : Q) :
  exists p, max (Fin 0) (min (Fin 1) (Fin x)) = Fin p /\
            0 <= p <= 1 /\
            (x <= 0 -> p == 0) /\ (1 <= x -> p == 1) /\
            (0 <= x <= 1 -> p == x).
Proof.
  destruct (min_fin 1 x) as (c & -> & Hc1 & Hc2 & Hc).
  destruct (max_fin 0 c) as (e & -> & He1 & He2 & He).
  exists e. split; [reflexivity|].
  destruct Hc as [-> | ->], He as [-> | ->]; repeat split; intros; lra.
Qed.

Lemma clamp_mono (x y : Q) :
  x <= y ->
  fin_le (max (Fin 0) (min (Fin 1) (Fin x))) (max (Fin 0) (min (Fin 1) (Fin y))).
Proof.
  intros Hxy.
  destruct (min_fin 1 x) as (c & -> & Hc1 & Hc2 & Hc).
  destruct (max_fin 0 c) as (e & -> & He1 & He2 & He).
  destruct (min_fin 1 y) as (c' & -> & Hc1' & Hc2' & Hc').
  destruct (max_fin 0 c') as (e' & -> & He1' & He2' & He').
  unfold fin_le.
  destruct Hc as [-> | ->], He as [-> | ->], Hc' as [-> | ->], He' as [-> | ->]; lra.
Qed.

(** The fade progress of [updateHeroFade], as the rational it is. *)
Lemma fadeProgress_fin (scrollY : Q) (h : Z) :
  div (sub (Fin scrollY) (Fin 50)) (sub (mul (of_Z h) (Fin 0.8)) (Fin 50)) =
  Fin ((scrollY + - 50) / (inject_Z h * 0.8 + - 50)).
Proof.
  unfold of_Z, mul, sub, neg, add, div.
  destruct (Qeq_bool _ _) eqn:E; [|reflexivity].
  apply Qeq_bool_iff in E. exfalso. apply (fade_divisor_nonzero h). lra.
Qed.

(** The styles written for a progress [p]. *)
Lemma hero_style_of_progress (scrollY : Q) (h : Z) :
  exists p,
    0 <= p <= 1 /\
    max (Fin 0) (min (Fin 1)
      (Fin ((scrollY + - 50) / (inject_Z h * 0.8 + - 50)))) = Fin p /\
    let st := updateHeroFade (Fin scrollY) (of_Z h) in
    hero_opacity st = Fin (1 + - (1 + - ((1 + - p) * ((1 + - p) * (1 + - p))))) /\
    hero_translateY st =
      Fin (- (1 + - ((1 + - p) * ((1 + - p) * (1 + - p)))) * 40) /\
    hero_scale st =
      Fin (1 + - ((1 + - ((1 + - p) * ((1 + - p) * (1 + - p)))) * 0.02)).
Proof.
  destruct (clamp_fin ((scrollY + - 50) / (inject_Z h * 0.8 + - 50)))
    as (p & Hp & Hr & _).
  exists p. split; [exact Hr|]. split; [exact Hp|].
  unfold updateHeroFade. cbv zeta. rewrite fadeProgress_fin, Hp.
  repeat split.
Qed.

Lemma cube_unit (u : Q) : 0 <= u <= 1 -> 0 <= u * (u * u) <= 1.
Proof.
  intros Hu. assert (Hu2 : 0 <= u * u <= 1) by nra. nra.
Qed.

Lemma cube_mono (u v : Q) : 0 <= u -> u <= v -> u * (u * u) <= v * (v * v).
Proof.
  intros Hu Huv.
  assert (H1 : u * u <= v * v) by nra.
  assert (H2 : 0 <= u * u) by nra.
  nra.
Qed.

(** X1. Whatever the scroll position and the header height, the upward
    translation [updateHeroFade] writes is between -40 and 0 px and the
    scale between 0.98 and 1. *)
Theorem hero_transform_bounds (scrollY : Q) (headerHeight : Z) :
  let st := updateHeroFade (Fin scrollY) (of_Z headerHeight) in
  fin_between (-40) 0 (hero_translateY st) /\
  fin_between 0.98 1 (hero_scale st).
Proof.
  destruct (hero_style_of_progress scrollY headerHeight)
    as (p & Hp & _ & _ & Ht & Hs).
  cbv zeta in *. rewrite Ht, Hs. unfold fin_between.
  pose proof (cube_unit (1 + - p) ltac:(lra)) as Hc.
  set (c := (1 + - p) * ((1 + - p) * (1 + - p))) in *.
  split; lra.
Qed.

(** X2. With a header of at least 63 px the hero is fully opaque up to
    a scroll of 50 px, fully transparent from 0.8 times the header
    height on, and its opacity never increases as the page scrolls
    down. *)
Theorem hero_fades_out_monotonically (headerHeight : Z) (s1 s2 : Q) :
  (63 <= headerHeight)%Z ->
  s1 <= s2 ->
  let opacity s :=
    hero_opacity (updateHeroFade (Fin s) (of_Z headerHeight)) in
  fin_le (opacity s2) (opacity s1) /\
  (s1 <= 50 -> fin_eq (opacity s1) 1) /\
  (inject_Z headerHeight * 0.8 <= s2 -> fin_eq (opacity s2) 0).
Proof.
  intros Hh Hs. cbv zeta.
  assert (HD : 0 < inject_Z headerHeight * 0.8 + - 50).
  { assert (inject_Z 63 <= inject_Z headerHeight) by (rewrite <- Zle_Qle; exact Hh).
    change (inject_Z 63) with 63 in *. lra. }
  set (D := inject_Z headerHeight * 0.8 + - 50) in *.
  destruct (hero_style_of_progress s1 headerHeight) as (p1 & Hp1 & Hc1 & Ho1 & _).
  destruct (hero_style_of_progress s2 headerHeight) as (p2 & Hp2 & Hc2 & Ho2 & _).
  cbv zeta in *. fold D in Hc1, Hc2. rewrite Ho1, Ho2.
  assert (Hx : (s1 + - 50) / D <= (s2 + - 50) / D).
  { apply Qmult_le_compat_r; [lra|]. apply Qlt_le_weak, Qinv_lt_0_compat, HD. }
  pose proof (clamp_mono _ _ Hx) as Hm. rewrite Hc1, Hc2 in Hm. unfold fin_le in Hm.
  destruct (clamp_fin ((s1 + - 50) / D)) as (q1 & Eq1 & _ & Hlo1 & _).
  destruct (clamp_fin ((s2 + - 50) / D)) as (q2 & Eq2 & _ & _ & Hhi2 & _).
  rewrite Hc1 in Eq1. injection Eq1 as <-.
  rewrite Hc2 in Eq2. injection Eq2 as <-.
  unfold fin_le, fin_eq. split; [|split].
  - pose proof (cube_mono (1 + - p2) (1 + - p1) ltac:(lra) ltac:(lra)). lra.
  - intros H50.
    assert (Hz : p1 == 0).
    { apply Hlo1. apply Qle_shift_div_r; [exact HD|]. lra. }
    rewrite Hz. reflexivity.
  - intros Hend.
    assert (Hz : p2 == 1).
    { apply Hhi2. apply Qle_shift_div_l; [exact HD|]. unfold D. lra. }
    rewrite Hz. reflexivity.
Qed.

(** X3. With a header of at most 62 px the divisor of the progress is
    negative and the fade is inverted: the hero is fully transparent
    while the page is scrolled by at most 0.8 times the header height
    (at the top of the page in particular) and fully opaque once it is
    scrolled by 50 px or more. *)
Theorem hero_fade_inverted_for_short_header (headerHeight : Z) (scrollY : Q) :
  (0 <= headerHeight <= 62)%Z ->
  let opacity :=
    hero_opacity (updateHeroFade (Fin scrollY) (of_Z headerHeight)) in
  (scrollY <= inject_Z headerHeight * 0.8 -> fin_eq opacity 0) /\
  (50 <= scrollY -> fin_eq opacity 1).
Proof.
  intros [Hh0 Hh]. cbv zeta.
  assert (HD : inject_Z headerHeight * 0.8 + - 50 < 0).
  { assert (inject_Z headerHeight <= inject_Z 62) by (rewrite <- Zle_Qle; exact Hh).
    change (inject_Z 62) with 62 in *. lra. }
  set (D := inject_Z headerHeight * 0.8 + - 50) in *.
  destruct (hero_style_of_progress scrollY headerHeight) as (p & Hp & Hc & Ho & _).
  cbv zeta in *. fold D in Hc. rewrite Ho.
  destruct (clamp_fin ((scrollY + - 50) / D)) as (q & Eq & _ & Hlo & Hhi & _).
  rewrite Hc in Eq. injection Eq as <-.
  assert (Hneg : forall a, (a / D) == (- a) / (- D)).
  { intros a. field. lra. }
  unfold fin_eq. split.
  - intros Hs. assert (Hz : p == 1).
    { apply Hhi. rewrite Hneg. apply Qle_shift_div_l; [lra|]. unfold D. lra. }
    rewrite Hz. reflexivity.
  - intros Hs. assert (Hz : p == 0).
    { apply Hlo. rewrite Hneg. apply Qle_shift_div_r; [lra|]. lra. }
    rewrite Hz. reflexivity.
Qed.

End HeroFacts.

Section OrbRangeFacts.
Import JSNum JSNumRel ScrollFx.
Local Open Scope Q_scope.

Variable sin_fin : Q -> Q.
Variable PI : Q.

Lemma max0_fin_or_zero x :
  in_unit (max (Fin 0) x) -> exists q, max (Fin 0) x = Fin q /\ 0 <= q <= 1.
Proof.
  destruct (max (Fin 0) x) as [q| | |]; try contradiction. eauto.
Qed.

Lemma scaled_le_factor x (isMobile : bool) :
  in_unit x ->
  fin_between 0 (if isMobile then 0.75 else 0.85)
    (mul x (if isMobile then Fin 0.75 else Fin 0.85)).
Proof.
  destruct x as [q| | |]; try contradiction.
  unfold in_unit, fin_between. destruct isMobile; unfold mul; nra.
Qed.

(** X4. The opacity written on an orb is a number between 0 and 0.85
    (0.75 when the window is at most 768 px wide): the fade of C1 is
    scaled by the maximum opacity of the device class. *)
Theorem orb_opacity_capped (rect_top : Q)
    (sectionHeight innerWidth : Z) (norbs : nat) :
  (0 <= sectionHeight)%Z ->
  Forall (fun o =>
            fin_between 0 (if (innerWidth <=? 768)%Z then 0.75 else 0.85)
              (orb_opacity o))
    (updateOrbPositions sin_fin PI (Fin rect_top) sectionHeight innerWidth
       norbs).
Proof.
  intros Hh. unfold updateOrbPositions. apply Forall_forall. intros o Ho.
  apply list_elem_of_In, in_map_iff in Ho as (index & <- & _).
  set (isMobile := (innerWidth <=? 768)%Z).
  assert (HH : 0 <= inject_Z sectionHeight).
  { change 0 with (inject_Z 0). rewrite <- Zle_Qle. exact Hh. }
  unfold orbStyle. cbv zeta. unfold orb_opacity.
  set (orbY := sub _ _).
  assert (Hy : exists y, orbY = Fin y)
    by (subst orbY; destruct isMobile; eexists; reflexivity).
  destruct Hy as [y ->].
  change (mul (of_Z sectionHeight) (Fin 0.8))
    with (Fin (inject_Z sectionHeight * 0.8)).
  change (mul (of_Z sectionHeight) (Fin 0.3))
    with (Fin (inject_Z sectionHeight * 0.3)).
  change (mul (of_Z sectionHeight) (Fin 0.1))
    with (Fin (inject_Z sectionHeight * 0.1)).
  unfold gt, lt.
  destruct (Qltb y (inject_Z sectionHeight * 0.1)) eqn:E2.
  - apply Qltb_true in E2. apply scaled_le_factor, fade_out_unit; lra.
  - destruct (Qltb (inject_Z sectionHeight * 0.8) y) eqn:E1.
    + apply Qltb_true in E1. apply scaled_le_factor.
      change (sub (Fin y) (Fin (inject_Z sectionHeight * 0.8)))
        with (Fin (y + - (inject_Z sectionHeight * 0.8))).
      apply fade_in_unit; lra.
    + unfold fin_between. destruct isMobile; lra.
Qed.

End OrbRangeFacts.

(** ** Dark mode transitions *)

Section ThemeFacts.
Import JSNum JSNumRel Dom Themes.
Local Open Scope Q_scope.

(** A value that is NaN or lies in [0, 1]. *)
Lemma clamp_unit_or_nan x :
  max (Fin 0) (min (Fin 1) x) = NaN \/ in_unit (max (Fin 0) (min (Fin 1) x)).
Proof.
  destruct x as [q| | |].
  - right. apply clamp_unit. discriminate.
  - right. apply clamp_unit. discriminate.
  - right. apply clamp_unit. discriminate.
  - left. reflexivity.
Qed.

Lemma one_minus_unit_or_nan x :
  x = NaN \/ in_unit x -> sub (Fin 1) x = NaN \/ in_unit (sub (Fin 1) x).
Proof.
  intros [-> | H]; [left; reflexivity|right].
  destruct x as [q| | |]; try contradiction.
  unfold in_unit, sub, neg, add in *. lra.
Qed.

Lemma min_unit_or_nan x y :
  x = NaN \/ in_unit x -> y = NaN \/ in_unit y ->
  min x y = NaN \/ in_unit (min x y).
Proof.
  intros [-> | Hx] Hy; [left; reflexivity|].
  destruct x as [a| | |]; try contradiction.
  destruct Hy as [-> | Hy]; [left; reflexivity|right].
  destruct y as [b| | |]; try contradiction.
  destruct (min_fin a b) as (c & -> & _ & _ & [-> | ->]); assumption.
Qed.

(** The easing polynomial maps [0, 1] into [0, 1]. *)
Lemma smootherstep_unit (r : Q) :
  0 <= r <= 1 -> 0 <= r * r * r * (r * (r * 6 + - 15) + 10) <= 1.
Proof.
  intros Hr.
  assert (H3 : 0 <= r * r * r <= 1).
  { assert (0 <= r * r <= 1) by nra. nra. }
  assert (Hq : 0 <= r * (r * 6 + - 15) + 10).
  { assert (0 <= (r * 4 + - 5) * (r * 4 + - 5)) by nra. nra. }
  split; [nra|].
  assert (Hc : 0 <= (1 + - r) * (1 + - r) * (1 + - r)).
  { assert (0 <= (1 + - r) * (1 + - r)) by nra. nra. }
  assert (Hp : 0 <= r * r * 6 + r * 3 + 1) by nra.
  assert (Hid : 1 + - (r * r * r * (r * (r * 6 + - 15) + 10)) ==
                (1 + - r) * (1 + - r) * (1 + - r) * (r * r * 6 + r * 3 + 1))
    by ring.
  assert (0 <= (1 + - r) * (1 + - r) * (1 + - r) * (r * r * 6 + r * 3 + 1)) by nra.
  lra.
Qed.

Lemma eased_unit_or_nan r :
  r = NaN \/ in_unit r ->
  let e := mul (mul (mul r r) r)
               (add (mul r (sub (mul r (Fin 6)) (Fin 15))) (Fin 10)) in
  e = NaN \/ in_unit e.
Proof.
  intros [-> | H]; [left; reflexivity|right].
  destruct r as [q| | |]; try contradiction.
  unfold in_unit in *. unfold mul, sub, neg, add.
  apply smootherstep_unit, H.
Qed.

Lemma section_theme_above_threshold
    (windowHeight sectionTop sectionHeight : num) :
  match sectionTheme windowHeight sectionTop sectionHeight with
  | SetDark p => exists q, p = Fin q /\ 0.02 < q
  | ClearDark => True
  end.
Proof.
  unfold sectionTheme. cbv zeta.
  set (enter := sub (Fin 1) _).
  set (exit := if lt sectionTop (Fin 0) then _ else _).
  assert (He : enter = NaN \/ in_unit enter)
    by apply one_minus_unit_or_nan, clamp_unit_or_nan.
  assert (Hx : exit = NaN \/ in_unit exit).
  { unfold exit. destruct (lt sectionTop (Fin 0)); [apply clamp_unit_or_nan|].
    right. unfold in_unit. lra. }
  pose proof (eased_unit_or_nan _ (min_unit_or_nan _ _ He Hx)) as Hr.
  cbv zeta in Hr. set (raw := min enter exit) in *.
  set (eased := mul (mul (mul raw raw) raw) _) in *.
  destruct (gt eased (Fin 0.02)) eqn:Hgt; [|exact I].
  destruct Hr as [Hn | Hu]; [rewrite Hn in Hgt; discriminate|].
  destruct eased as [q| | |]; try contradiction.
  unfold gt, lt in Hgt. apply Qltb_true in Hgt.
  exists q. split; [reflexivity|exact Hgt].
Qed.

Lemma section_theme_zero_height (windowHeight sectionTop : Q) :
  sectionTop < 0 ->
  sectionTheme (Fin windowHeight) (Fin sectionTop) (Fin 0) = ClearDark.
Proof.
  intros Ht. unfold sectionTheme. cbv zeta.
  assert (Hlt : lt (Fin sectionTop) (Fin 0) = true) by (apply Qltb_true, Ht).
  rewrite Hlt.
  assert (Hexit : max (Fin 0) (min (Fin 1)
    (div (sub (Fin sectionTop) (mul (neg (Fin 0)) (Fin 0.9)))
         (sub (mul (neg (Fin 0)) (Fin 0.65)) (mul (neg (Fin 0)) (Fin 0.9)))))
    = Fin 0).
  { cbn [neg mul sub add div].
    change (Qeq_bool (- 0 * 0.65 + - (- 0 * 0.9)) 0) with true. cbv iota.
    rewrite sgn_neg; [reflexivity|].
    assert (- 0 * 0.9 == 0) by ring. lra. }
  rewrite Hexit.
  set (enter := sub (Fin 1) _).
  assert (He : enter = NaN \/ in_unit enter)
    by apply one_minus_unit_or_nan, clamp_unit_or_nan.
  destruct He as [-> | He]; [reflexivity|].
  destruct enter as [a| | |]; try contradiction. unfold in_unit in He.
  destruct (min_fin a 0) as (c & -> & Hc1 & Hc2 & Hc).
  assert (Hc0 : c == 0) by (destruct Hc as [-> | ->]; lra).
  unfold mul, sub, neg, add, gt, lt.
  destruct (Qltb _ _) eqn:E; [|reflexivity].
  apply Qltb_true in E. exfalso.
  assert (c * c * c * (c * (c * 6 + - 15) + 10) == 0) by (rewrite Hc0; ring).
  lra.
Qed.

(** X5. Whatever the window height and the rectangles of the sections
    (zero heights and NaN included), [updateSectionThemes] leaves every
    section that is not a dark-mode section as it is, and a dark-mode
    section keeps its other classes and ends either with the class
    [dark-mode] and [--dark-opacity] set to a finite value above 0.02,
    or without the class and without the property. *)
Theorem update_themes_dark_above_threshold (windowHeight : num)
    (sections : list section) :
  Forall2
    (fun s s' =>
       id s' = id s /\
       (id s ∉ darkModeSections -> s' = s) /\
       (id s ∈ darkModeSections ->
        (forall c, c ≠ "dark-mode" ->
           (c ∈ classList s' <-> c ∈ classList s)) /\
        (("dark-mode" ∈ classList s' /\
          exists q, dark_opacity s' = Some (Fin q) /\ 0.02 < q) \/
         (("dark-mode" ∉ classList s') /\ dark_opacity s' = None))))
    sections (updateSectionThemes windowHeight sections).
Proof.
  unfold updateSectionThemes. apply Forall2_fmap_r, Forall_Forall2_diag.
  apply Forall_forall. intros s _.
  unfold compose. cbv beta.
  destruct (decide (id s ∈ darkModeSections)) as [Hd|Hd];
    [rewrite (bool_decide_eq_true_2 _ Hd)|rewrite (bool_decide_eq_false_2 _ Hd)].
  - pose proof (section_theme_above_threshold windowHeight (rect_top s)
                  (rect_height s)) as Hr.
    destruct (sectionTheme _ _ _) as [p|]; cbn [apply_theme id classList dark_opacity].
    + split; [reflexivity|]. split; [intros Hn; contradiction|]. intros _.
      split.
      * intros c Hc. rewrite elem_of_class_add. split; [|auto].
        intros [E | H]; [congruence|exact H].
      * left. split; [apply elem_of_class_add; auto|].
        destruct Hr as (q & -> & Hq). exists q. split; [reflexivity|exact Hq].
    + split; [reflexivity|]. split; [intros Hn; contradiction|]. intros _.
      split.
      * intros c Hc. rewrite elem_of_class_remove. tauto.
      * right. split; [|reflexivity]. rewrite elem_of_class_remove. tauto.
  - split; [reflexivity|]. split; [reflexivity|]. intros H. contradiction.
Qed.

End ThemeFacts.

Section ThemePlateauFacts.
Import JSNum JSNumRel Dom Themes.
Local Open Scope Q_scope.

Lemma div_fin (a b : Q) : ~ b == 0 -> div (Fin a) (Fin b) = Fin (a / b).
Proof.
  intros Hb. unfold div. destruct (Qeq_bool b 0) eqn:E; [|reflexivity].
  apply Qeq_bool_iff in E. contradiction.
Qed.

(** The easing polynomial at the ends of its range. *)
Lemma eased_ends (c : Q) :
  (c == 0 -> c * c * c * (c * (c * 6 + - (15)) + 10) == 0) /\
  (c == 1 -> c * c * c * (c * (c * 6 + - (15)) + 10) == 1).
Proof. split; intros ->; ring. Qed.

(** X6. For a window and a section of positive height, the dark
    background is at full strength while the top of the section is
    between 0.65 section heights above the viewport top and 0.45 window
    heights below it, and it is off while the top is 0.8 window heights
    or more below the viewport top or 0.9 section heights or more above
    it. *)
Theorem section_theme_plateau (windowHeight sectionTop sectionHeight : Q) :
  0 < windowHeight -> 0 < sectionHeight ->
  let w :=
    sectionTheme (Fin windowHeight) (Fin sectionTop) (Fin sectionHeight) in
  (- sectionHeight * 0.65 <= sectionTop <= windowHeight * 0.45 ->
   exists p, w = SetDark p /\ fin_eq p 1) /\
  (windowHeight * 0.8 <= sectionTop \/ sectionTop <= - sectionHeight * 0.9 ->
   w = ClearDark).
Proof.
  intros Hw Hh. cbv zeta. unfold sectionTheme. cbv zeta.
  cbn [mul neg sub add].
  rewrite !div_fin by lra.
  set (x1 := (sectionTop + - (windowHeight * 0.45)) /
             (windowHeight * 0.8 + - (windowHeight * 0.45))).
  set (x2 := (sectionTop + - (- sectionHeight * 0.9)) /
             (- sectionHeight * 0.65 + - (- sectionHeight * 0.9))).
  assert (Hd1 : 0 < windowHeight * 0.8 + - (windowHeight * 0.45)) by lra.
  assert (Hd2 : 0 < - sectionHeight * 0.65 + - (- sectionHeight * 0.9)) by lra.
  destruct (clamp_fin x1) as (p1 & -> & Hp1 & Hlo1 & Hhi1 & _).
  assert (Hexit : exists p2,
            (if lt (Fin sectionTop) (Fin 0)
             then max (Fin 0) (min (Fin 1) (Fin x2)) else Fin 1) = Fin p2 /\
            0 <= p2 <= 1 /\
            (- sectionHeight * 0.65 <= sectionTop -> p2 == 1) /\
            (sectionTop <= - sectionHeight * 0.9 -> p2 == 0) /\
            (0 <= sectionTop -> p2 == 1)).
  { unfold lt. destruct (Qltb sectionTop 0) eqn:E.
    - apply Qltb_true in E.
      destruct (clamp_fin x2) as (p2 & -> & Hp2 & Hlo2 & Hhi2 & _).
      exists p2. split; [reflexivity|]. split; [exact Hp2|]. split; [|split].
      + intros H. apply Hhi2. apply Qle_shift_div_l; [exact Hd2|]. lra.
      + intros H. apply Hlo2. apply Qle_shift_div_r; [exact Hd2|]. lra.
      + intros H. lra.
    - exists 1. split; [reflexivity|]. split; [lra|].
      assert (Hge : 0 <= sectionTop).
      { destruct (Qlt_le_dec sectionTop 0) as [Hlt|Hge]; [|exact Hge].
        apply Qltb_true in Hlt. congruence. }
      repeat split; intros; try reflexivity. lra. }
  destruct Hexit as (p2 & -> & Hp2 & Hin2 & Hout2 & Hpos2).
  cbn [sub neg add].
  destruct (min_fin (1 + - p1) p2) as (c & -> & Hc1 & Hc2 & Hc).
  cbn [mul sub neg add]. unfold gt, lt.
  set (e := c * c * c * (c * (c * 6 + - (15)) + 10)).
  destruct (eased_ends c) as [He0 He1]. fold e in He0, He1.
  split.
  - intros [Hlo Hhi].
    assert (Hz1 : p1 == 0).
    { apply Hlo1. apply Qle_shift_div_r; [exact Hd1|]. lra. }
    assert (Hc' : c == 1) by (destruct Hc as [-> | ->]; [lra|apply Hin2, Hlo]).
    specialize (He1 Hc').
    assert (Hgt : Qltb 0.02 e = true) by (apply Qltb_true; lra).
    rewrite Hgt. eexists. split; [reflexivity|]. exact He1.
  - intros Hout.
    assert (Hc' : c == 0).
    { destruct Hout as [Hfar | Hpast].
      - assert (Hz1 : p1 == 1).
        { apply Hhi1. apply Qle_shift_div_l; [exact Hd1|]. lra. }
        destruct Hc as [-> | ->]; [lra|]. lra.
      - specialize (Hout2 Hpast). destruct Hc as [-> | ->]; lra. }
    specialize (He0 Hc').
    destruct (Qltb 0.02 e) eqn:E; [|reflexivity].
    apply Qltb_true in E. lra.
Qed.

End ThemePlateauFacts.

(** ** Navbar scroll effect *)

Section NavbarFacts.
Import JSNum Dom Navbar.
Local Open Scope Q_scope.

Lemma on_scroll_pending (s : state) :
  one_pending s ->
  frame_callbacks (on_scroll s) = [next_handle s] /\
  scrollTimeout (on_scroll s) = Some (next_handle s).
Proof.
  intros [Hq | (h & Hq & Ht)]; unfold on_scroll.
  - destruct (scrollTimeout s) as [h|]; cbn; rewrite Hq; auto.
  - rewrite Ht. cbn. rewrite Hq.
    rewrite filter_cons_False by (intros H; apply H; reflexivity). auto.
Qed.

Lemma step_one_pending (s : state) ev : one_pending s -> one_pending (step s ev).
Proof.
  intros H. destruct ev as [y|w|].
  - right. eexists. apply on_scroll_pending. exact H.
  - exact H.
  - left. cbn. destruct H as [Hq | (h & Hq & _)]; rewrite Hq; reflexivity.
Qed.

Lemma exec_one_pending evs : forall s : state,
  one_pending s -> one_pending (exec s evs).
Proof.
  induction evs as [|ev evs IH]; intros s H; [exact H|].
  apply IH, step_one_pending, H.
Qed.

Lemma step_updates (s : state) ev :
  one_pending s ->
  (updates (step s ev) <= updates s + (if is_frame ev then 1 else 0))%nat.
Proof.
  intros H. destruct ev as [y|w|]; cbn [is_frame].
  - unfold step, on_scroll. destruct (scrollTimeout _); cbn; lia.
  - cbn. lia.
  - cbn. destruct H as [Hq | (h & Hq & _)]; rewrite Hq; cbn; lia.
Qed.

Lemma exec_updates evs : forall s : state,
  one_pending s ->
  (updates (exec s evs) <= updates s + length (filter is_frame evs))%nat.
Proof.
  induction evs as [|ev evs IH]; intros s H.
  - cbn. lia.
  - change (exec s (ev :: evs)) with (exec (step s ev) evs).
    specialize (IH _ (step_one_pending s ev H)).
    pose proof (step_updates s ev H).
    rewrite filter_cons.
    destruct (decide (is_frame ev)) as [Hf | Hf];
      destruct (is_frame ev); cbn [length] in *; try lia.
    all: cbn in Hf; tauto.
Qed.

(** X7. The navbar listener cancels the pending frame callback before it
    requests a new one: whatever the scroll, resize and frame events,
    at most one [updateNavbar] callback is pending and [updateNavbar]
    has run at most once per frame; after a scroll to [y] and a frame
    it has run exactly once more, the navbar has the class [scrolled]
    exactly when [y] is above the threshold of the window width (20 px
    up to 768 px wide, 8 px above), and its other classes are kept. *)
Theorem navbar_updates_coalesced (y0 : Q) (w0 : Z) (classes : list string)
    (evs : list event) (y : Q) :
  let s := exec (attached y0 w0 classes) evs in
  (length (frame_callbacks s) <= 1)%nat /\
  (updates s <= length (filter is_frame evs))%nat /\
  let s' := exec s [Scroll y; Frame] in
  updates s' = S (updates s) /\
  frame_callbacks s' = [] /\
  lastScrollY s' = y /\
  ("scrolled" ∈ classList s' <->
     (if (innerWidth s <=? 768)%Z then 20 else 8) < y) /\
  forall c, c ≠ "scrolled" -> (c ∈ classList s' <-> c ∈ classList s).
Proof.
  intros s.
  assert (H0 : one_pending (attached y0 w0 classes)) by (left; reflexivity).
  assert (Hs : one_pending s) by apply exec_one_pending, H0.
  split; [destruct Hs as [Hq | (h & Hq & _)]; rewrite Hq; cbn; lia|].
  split; [apply (exec_updates evs _ H0)|].
  cbn zeta. cbn [exec fold_left].
  set (s1 := step s (Scroll y)).
  assert (Hq1 : frame_callbacks s1 = [next_handle s]).
  { unfold s1, step.
    apply (on_scroll_pending
             {| pageYOffset := y; innerWidth := innerWidth s;
                scrollTimeout := scrollTimeout s;
                lastScrollY := lastScrollY s;
                frame_callbacks := frame_callbacks s;
                next_handle := next_handle s;
                classList := classList s; transition := transition s;
                updates := updates s |}).
    exact Hs. }
  assert (Hf : pageYOffset s1 = y /\ innerWidth s1 = innerWidth s /\
               classList s1 = classList s /\ updates s1 = updates s).
  { unfold s1, step, on_scroll. destruct (scrollTimeout _); cbn; auto. }
  destruct Hf as (Hy & Hw & Hc & Hu).
  clearbody s1. unfold step. rewrite Hq1. cbn [fold_left].
  unfold updateNavbar. cbn. rewrite Hy, Hc, Hu.
  split; [reflexivity|]. split; [reflexivity|]. split; [reflexivity|].
  unfold scrollThreshold, isMobile. cbn. rewrite Hw.
  split.
  - rewrite elem_of_class_toggle.
    destruct (Qltb _ y) eqn:E.
    + apply Qltb_true in E. split; [intros _; exact E|auto].
    + split; [intros [Hn _]; congruence|].
      intros Hlt. apply Qltb_true in Hlt. congruence.
  - intros c Hc'. rewrite elem_of_class_toggle.
    destruct (Qltb _ y); [|tauto].
    split; [intros [? | ?]; [congruence|auto]|auto].
Qed.

End NavbarFacts.

(** ** Mobile menu listeners *)

Section MenuEventFacts.
Import Timers Dom Menu MenuEvents.

Lemma toggle_dom_mirrors (d : Menu.state) : mirrors (toggle_dom d).
Proof.
  unfold mirrors, toggle_dom. cbn -[class_toggle class_add class_remove].
  rewrite !elem_of_class_toggle.
  destruct (negb (isMenuOpen d)).
  - rewrite elem_of_class_add. intuition.
  - rewrite elem_of_class_remove. intuition congruence.
Qed.

Lemma menu_toggleMenu_dom (b : page) :
  menu (dom (toggleMenu b)) = toggle_dom (menu (dom b)) /\
  resizeTimer (dom (toggleMenu b)) = resizeTimer (dom b).
Proof. unfold toggleMenu, isOpen. cbn. destruct (negb _); auto. Qed.

Lemma menu_toggleMenu_timers (b : page) :
  exists a,
    timers (toggleMenu b) =
      timers b ++ [{| tid := next_tid b; remaining := 50; period := None;
                      act := Focus a |}] /\
    (isOpen b = true -> a = FocusMenuToggle).
Proof.
  unfold toggleMenu, isOpen. cbn. destruct (isMenuOpen _); cbn.
  - exists FocusMenuToggle. auto.
  - exists FocusFirstNavItem. split; [reflexivity|discriminate].
Qed.

Lemma menu_toggleMenu_open (b : page) :
  isOpen (toggleMenu b) = negb (isOpen b).
Proof.
  unfold isOpen at 1. rewrite (proj1 (menu_toggleMenu_dom b)). reflexivity.
Qed.

Lemma menu_closeMenu_open (b : page) : isOpen (closeMenu b) = false.
Proof.
  unfold closeMenu. destruct (isOpen b) eqn:E; [|exact E].
  rewrite menu_toggleMenu_open, E. reflexivity.
Qed.

Lemma menu_closeMenu_closed (b : page) : isOpen b = false -> closeMenu b = b.
Proof. intros H. unfold closeMenu. rewrite H. reflexivity. Qed.

Lemma stable_toggleMenu P (b : page) :
  menu_stable P -> P (menu (dom b)) -> P (menu (dom (toggleMenu b))).
Proof.
  intros (Ht & _) H. rewrite (proj1 (menu_toggleMenu_dom b)). apply Ht, H.
Qed.

Lemma stable_closeMenu P (b : page) :
  menu_stable P -> P (menu (dom b)) -> P (menu (dom (closeMenu b))).
Proof.
  intros HP H. unfold closeMenu. destruct (isOpen b); [|exact H].
  apply stable_toggleMenu; assumption.
Qed.

Lemma stable_run P a (b : page) :
  menu_stable P -> P (menu (dom b)) -> P (menu (dom (run a b))).
Proof.
  intros HP H. pose proof HP as (Ht & Hf & Hs & Hw).
  destruct a as [[|]|]; cbn [run].
  - destruct (0 <? _)%nat; [apply Hf, H|exact H].
  - apply Hf, H.
  - unfold resizeCheck.
    remember (if (768 <? innerWidth (menu (dom b)))%Z && isOpen b
              then closeMenu b else b) as b1 eqn:Eb1.
    assert (H1 : P (menu (dom b1))).
    { subst b1. destruct (_ && _); [apply stable_closeMenu; assumption|exact H]. }
    clear Eb1. destruct (isOpen b1); [|exact H1].
    destruct (negb _); [apply Hs, H1|exact H1].
Qed.

Lemma menu_tick_keeps (P : page -> Prop) (b : page) :
  (forall a b, P b -> P (run a b)) ->
  (forall b ts, P b -> P {| dom := dom b; timers := ts; next_tid := next_tid b |}) ->
  P b -> P (tick_ms run b).
Proof.
  intros Hrun Hts Hb. unfold tick_ms. apply run_all_keeps.
  - apply Forall_forall. intros t _ b'. apply Hrun.
  - apply (Hts b), Hb.
Qed.

Lemma menu_elapse_keeps (P : page -> Prop) ms (b : page) :
  (forall a b, P b -> P (run a b)) ->
  (forall b ts, P b -> P {| dom := dom b; timers := ts; next_tid := next_tid b |}) ->
  P b -> P (elapse run ms b).
Proof.
  intros Hrun Hts Hb. induction ms as [|ms IH] using N.peano_ind; [exact Hb|].
  rewrite elapse_succ. apply menu_tick_keeps; assumption.
Qed.

Lemma stable_bubble P o n t path : forall b : page,
  menu_stable P -> P (menu (dom b)) -> P (menu (dom (bubble o n t path b))).
Proof.
  induction path as [|e path IH]; intros b HP H.
  - cbn. destruct (_ && _); [apply stable_closeMenu; assumption|exact H].
  - destruct e; cbn [bubble]; try (apply IH; assumption).
    + apply stable_toggleMenu; assumption.
    + apply IH; [assumption|].
      destruct o; [apply stable_closeMenu; assumption|exact H].
    + apply IH; [assumption|]. apply stable_closeMenu; assumption.
Qed.

Lemma stable_step P (b : page) ev :
  menu_stable P -> P (menu (dom b)) -> P (menu (dom (step b ev))).
Proof.
  intros HP H. pose proof HP as (Ht & Hf & Hs & Hw).
  destruct ev as [path|k focusable|w cw|hash|ms]; cbn [step].
  - unfold click. apply stable_bubble; assumption.
  - unfold on_keydown. destruct (negb _); [exact H|].
    destruct k as [|[|]|]; try exact H.
    + apply stable_closeMenu; assumption.
    + destruct (is_active _ _); [|exact H].
      unfold focus. destruct (last focusable); [apply Hf, H|exact H].
    + destruct (is_active _ _); [|exact H].
      unfold focus. destruct (head focusable); [apply Hf, H|exact H].
  - unfold on_resize. cbn. destruct (resizeTimer (dom b)); cbn; apply Hw, H.
  - unfold on_load. destruct (bool_decide _); [exact H|].
    apply stable_closeMenu; assumption.
  - apply (menu_elapse_keeps (fun b => P (menu (dom b)))).
    + intros a b'. apply stable_run, HP.
    + intros b' ts Hb'. exact Hb'.
    + exact H.
Qed.

Lemma stable_exec P evs : forall b : page,
  menu_stable P -> P (menu (dom b)) -> P (menu (dom (exec b evs))).
Proof.
  induction evs as [|ev evs IH]; intros b HP H; [exact H|].
  apply IH; [exact HP|]. apply stable_step; assumption.
Qed.

Lemma mirrors_stable : menu_stable mirrors.
Proof.
  split; [intros d _; apply toggle_dom_mirrors|].
  split; [intros d f H; exact H|].
  split; [intros d w H; exact H|intros d w cw H; exact H].
Qed.

(** X8. The document mirrors the menu flag: [toggleMenu] leaves
    [aria-expanded] equal to the flag, and the class [active] on the
    toggle, the overlay and the link list and [menu-open] on the root
    element present exactly when the menu is open, whatever the document
    was; and once that holds it holds after every sequence of clicks,
    key presses, resizes, loads and timer callbacks. *)
Theorem menu_dom_mirrors_flag (b : page) (evs : list event) :
  mirrors (menu (dom (toggleMenu b))) /\
  (mirrors (menu (dom b)) -> mirrors (menu (dom (exec b evs)))).
Proof.
  split.
  - rewrite (proj1 (menu_toggleMenu_dom b)). apply toggle_dom_mirrors.
  - apply stable_exec, mirrors_stable.
Qed.

End MenuEventFacts.

Section MenuCloseFacts.
Import Timers Dom Menu MenuEvents.

Lemma run_closed a (b : page) :
  isOpen b = false ->
  isOpen (run a b) = false /\ timers (run a b) = timers b /\
  next_tid (run a b) = next_tid b.
Proof.
  intros H. destruct a as [[|]|]; cbn [run].
  - destruct (0 <? _)%nat; auto.
  - auto.
  - unfold resizeCheck. rewrite H, andb_false_r, H. auto.
Qed.

Lemma bubble_closed o n t path (b : page) :
  isOpen b = false -> existsb is_toggle path = false ->
  bubble o n t path b = b.
Proof.
  intros H. induction path as [|e path IH]; intros Hp.
  - cbn. rewrite H. reflexivity.
  - destruct e; cbn [bubble existsb is_toggle orb] in *;
      rewrite ?(menu_closeMenu_closed b H); try (apply IH, Hp).
    + discriminate.
    + destruct o; apply IH, Hp.
Qed.

Lemma step_closed (b : page) ev :
  isOpen b = false -> reaches_toggle ev = false -> isOpen (step b ev) = false.
Proof.
  intros H Hev. destruct ev as [path|k focusable|w cw|hash|ms]; cbn [step].
  - unfold click. rewrite bubble_closed; assumption.
  - unfold on_keydown. rewrite H. exact H.
  - unfold on_resize. cbn. destruct (resizeTimer (dom b)); exact H.
  - unfold on_load. destruct (bool_decide _); [exact H|].
    rewrite menu_closeMenu_closed; assumption.
  - apply (menu_elapse_keeps (fun b => isOpen b = false)).
    + intros a b' Hb'. apply run_closed, Hb'.
    + intros b' ts Hb'. exact Hb'.
    + exact H.
Qed.

(** X9. Only a click that reaches the menu toggle opens the menu: a
    closed menu is still closed after any sequence of other clicks, key
    presses, resizes, loads and timer callbacks. *)
Theorem only_toggle_click_opens (b : page) (evs : list event) :
  isOpen b = false ->
  forallb (fun ev => negb (reaches_toggle ev)) evs = true ->
  isOpen (exec b evs) = false.
Proof.
  revert b. induction evs as [|ev evs IH]; intros b H Hevs; [exact H|].
  cbn [forallb] in Hevs. apply andb_true_iff in Hevs as [Hev Hevs].
  apply negb_true_iff in Hev.
  apply IH; [|exact Hevs]. apply step_closed; assumption.
Qed.

Lemma bubble_closes o n path : forall b : page,
  isOpen b = true -> existsb is_toggle path = false ->
  (o && existsb is_overlay path) || existsb is_navitem path || negb n = true ->
  bubble o n false path b = toggleMenu b.
Proof.
  assert (Hclose : forall b : page, isOpen b = true -> closeMenu b = toggleMenu b).
  { intros b H. unfold closeMenu. rewrite H. reflexivity. }
  assert (Hdone : forall (b : page) path, isOpen b = true ->
            existsb is_toggle path = false ->
            bubble o n false path (closeMenu b) = toggleMenu b).
  { intros b p H Hp. rewrite bubble_closed; [apply Hclose, H| |exact Hp].
    apply menu_closeMenu_open. }
  induction path as [|e path IH]; intros b H Hp Hc.
  - cbn in *. rewrite H. rewrite andb_false_r in Hc. cbn in Hc. rewrite Hc.
    cbn. apply Hclose, H.
  - destruct e; cbn [bubble existsb is_toggle is_overlay is_navitem orb] in *.
    + discriminate.
    + destruct o; [apply Hdone; assumption|].
      apply IH; assumption.
    + apply IH; assumption.
    + apply Hdone; assumption.
    + apply IH; assumption.
Qed.

Lemma step_closes (b : page) ev :
  isOpen b = true -> closes ev = true -> step b ev = toggleMenu b.
Proof.
  intros H Hev. destruct ev as [path|k focusable|w cw|hash|ms]; cbn [step].
  - unfold click.
    assert (Hgen : existsb is_toggle path = false ->
              from_option is_overlay false (head path) ||
              existsb is_navitem path || negb (existsb is_navlinks path) = true ->
              bubble (from_option is_overlay false (head path))
                (existsb is_navlinks path) (existsb is_toggle path) path b
              = toggleMenu b).
    { intros Hp Hc. rewrite Hp. apply bubble_closes; [exact H|exact Hp|].
      destruct path as [|e path]; [exact Hc|].
      destruct e; cbn in *; exact Hc. }
    destruct path as [|e path].
    + cbn in Hev. apply Hgen; [reflexivity|exact Hev].
    + destruct e; try reflexivity;
        cbn [closes] in Hev; apply andb_true_iff in Hev as [Hp Hc];
        apply negb_true_iff in Hp; apply Hgen; assumption.
  - unfold on_keydown. rewrite H. destruct k; try discriminate.
    cbn. unfold closeMenu. rewrite H. reflexivity.
  - discriminate.
  - unfold on_load. cbn in Hev. apply negb_true_iff in Hev. rewrite Hev.
    unfold closeMenu. rewrite H. reflexivity.
  - discriminate.
Qed.

Lemma toggleMenu_focus_return (b : page) :
  isOpen b = true -> focus_return 50 (toggleMenu b).
Proof.
  intros H. split; [rewrite menu_toggleMenu_open, H; reflexivity|].
  destruct (menu_toggleMenu_timers b) as (a & Ht & Ha).
  rewrite (Ha H) in Ht. eauto.
Qed.

Lemma run_all_closed due : forall b : page,
  isOpen b = false ->
  isOpen (run_all run due b) = false /\ timers (run_all run due b) = timers b.
Proof.
  induction due as [|t due IH]; intros b H; [auto|].
  rewrite run_all_cons. destruct (run_closed (act t) b H) as (H1 & H2 & _).
  rewrite <- H2. apply IH, H1.
Qed.

Lemma focus_return_tick r (b : page) :
  (1 <= r)%N -> focus_return (N.succ r) b -> focus_return r (tick_ms run b).
Proof.
  intros Hr (H & ts & id & Hts). unfold tick_ms. rewrite Hts.
  rewrite fmap_app, filter_app, omap_app. cbn [fmap list_fmap omap list_omap].
  unfold countdown at 2 4. cbn [tid remaining period act].
  rewrite N.pred_succ.
  rewrite filter_cons_False, filter_nil, app_nil_r
    by (unfold is_due; cbn; lia).
  unfold rearm at 2. rewrite decide_False by (unfold is_due; cbn; lia).
  cbn [mbind option_bind].
  match goal with |- focus_return r (run_all run ?due ?b0) =>
    destruct (run_all_closed due b0 H) as [H1 H2] end.
  split; [exact H1|]. rewrite H2. cbn. eauto.
Qed.

Lemma focus_return_elapse k : forall r (b : page),
  (1 <= r)%N -> focus_return (r + k) b -> focus_return r (elapse run k b).
Proof.
  induction k as [|k IH] using N.peano_ind; intros r b Hr H.
  - rewrite N.add_0_r in H. exact H.
  - rewrite elapse_succ. apply focus_return_tick; [exact Hr|].
    apply IH; [lia|]. replace (N.succ r + k)%N with (r + N.succ k)%N by lia.
    exact H.
Qed.

Lemma focus_return_last (b : page) :
  focus_return 1 b ->
  isOpen (tick_ms run b) = false /\
  activeElement (menu (dom (tick_ms run b))) = Some MenuToggle.
Proof.
  intros (H & ts & id & Hts).
  remember (tick_ms run b) as b' eqn:E. unfold tick_ms in E. rewrite Hts in E.
  rewrite fmap_app, filter_app in E. cbn [fmap list_fmap] in E.
  unfold countdown at 2 in E. cbn [tid remaining period act] in E.
  rewrite filter_cons_True, filter_nil in E by reflexivity.
  unfold run_all in E. rewrite fold_left_app in E.
  cbn [fold_left act run] in E.
  match type of E with context [fold_left ?f ?due ?b0] =>
    destruct (run_all_closed due b0 H) as [H1 _];
    unfold run_all in H1; revert E H1; generalize (fold_left f due b0) end.
  intros b1 E H1. subst b'. split; [exact H1|reflexivity].
Qed.

(** X10. Every way of closing an open menu returns the focus: after a
    click on the toggle, on the overlay itself, on a navigation item or
    outside the link list, after Escape and after the load of a page
    with a hash, the menu is closed at once, and 50 ms later, with no
    event in between, the menu toggle has the focus and the menu is
    still closed. *)
Theorem closing_returns_focus (b : page) (ev : event) :
  isOpen b = true -> closes ev = true ->
  isOpen (step b ev) = false /\
  isOpen (exec b [ev; Elapse 50]) = false /\
  activeElement (menu (dom (exec b [ev; Elapse 50]))) = Some MenuToggle.
Proof.
  intros H Hev. cbn [exec fold_left step].
  rewrite (step_closes b ev H Hev).
  pose proof (toggleMenu_focus_return b H) as Hfr.
  split; [apply Hfr|].
  change 50%N with (N.succ 49). rewrite elapse_succ.
  apply focus_return_last. apply focus_return_elapse; [lia|exact Hfr].
Qed.

End MenuCloseFacts.

Section MenuResizeFacts.
Import Timers Dom Menu MenuEvents.

Lemma scrollbar_ok_stable : menu_stable scrollbar_ok.
Proof.
  unfold menu_stable, scrollbar_ok. split; [|split; [|split]].
  - intros d H. unfold toggle_dom. cbn. destruct (isMenuOpen d); cbn; [discriminate|auto].
  - intros d f H. exact H.
  - intros d w H _. reflexivity.
  - intros d w cw H. exact H.
Qed.

(** The callbacks only add focus timers. *)
Lemma run_timers a (b : page) :
  exists l,
    timers (run a b) = timers b ++ l /\
    Forall (fun t => is_resize_check t = false) l /\
    resizeTimer (dom (run a b)) = resizeTimer (dom b) /\
    window_is (innerWidth (menu (dom b))) (clientWidth (menu (dom b)))
      (run a b).
Proof.
  assert (Htoggle : forall b : page, exists l,
    timers (toggleMenu b) = timers b ++ l /\
    Forall (fun t => is_resize_check t = false) l /\
    resizeTimer (dom (toggleMenu b)) = resizeTimer (dom b) /\
    window_is (innerWidth (menu (dom b))) (clientWidth (menu (dom b)))
      (toggleMenu b)).
  { intros b0. destruct (menu_toggleMenu_timers b0) as (f & Ht & _).
    eexists. split; [exact Ht|]. split; [repeat constructor|].
    split; [apply menu_toggleMenu_dom|].
    unfold window_is. rewrite (proj1 (menu_toggleMenu_dom b0)). auto. }
  assert (Hid : forall b : page, exists l,
    timers b = timers b ++ l /\
    Forall (fun t => is_resize_check t = false) l /\
    resizeTimer (dom b) = resizeTimer (dom b) /\
    window_is (innerWidth (menu (dom b))) (clientWidth (menu (dom b))) b).
  { intros b0. exists []. rewrite app_nil_r. repeat split; constructor. }
  destruct a as [[|]|]; cbn [run].
  - destruct (0 <? _)%nat; [|apply Hid].
    exists []. rewrite app_nil_r. repeat split; constructor.
  - exists []. rewrite app_nil_r. repeat split; constructor.
  - unfold resizeCheck.
    remember (if (768 <? innerWidth (menu (dom b)))%Z && isOpen b
              then closeMenu b else b) as b1 eqn:Eb1.
    assert (H1 : exists l,
      timers b1 = timers b ++ l /\
      Forall (fun t => is_resize_check t = false) l /\
      resizeTimer (dom b1) = resizeTimer (dom b) /\
      window_is (innerWidth (menu (dom b))) (clientWidth (menu (dom b))) b1).
    { subst b1. destruct (_ && _); [|apply Hid].
      unfold closeMenu. destruct (isOpen b); [apply Htoggle|apply Hid]. }
    clear Eb1. destruct (isOpen b1); [|exact H1].
    destruct (negb _); [|exact H1].
    destruct H1 as (l & H1 & H2 & H3 & H4). exists l. auto.
Qed.

Lemma run_all_timers due : forall b : page,
  exists l,
    timers (run_all run due b) = timers b ++ l /\
    Forall (fun t => is_resize_check t = false) l /\
    resizeTimer (dom (run_all run due b)) = resizeTimer (dom b) /\
    window_is (innerWidth (menu (dom b))) (clientWidth (menu (dom b)))
      (run_all run due b).
Proof.
  induction due as [|t due IH]; intros b.
  - exists []. rewrite app_nil_r. repeat split; constructor.
  - rewrite run_all_cons.
    destruct (run_timers (act t) b) as (l1 & H1 & H2 & H3 & H4 & H5).
    destruct (IH (run (act t) b)) as (l2 & G1 & G2 & G3 & G4).
    exists (l1 ++ l2). rewrite G1, H1, app_assoc, G3, H3.
    split; [reflexivity|]. split; [apply Forall_app; auto|].
    split; [reflexivity|]. rewrite H4, H5 in G4. exact G4.
Qed.

Lemma filter_none {B} (P : B -> bool) (l : list B) :
  Forall (fun x => P x = false) l -> filter P l = [].
Proof.
  induction 1 as [|x l Hx _ IH]; [reflexivity|].
  rewrite filter_cons_False by (rewrite Hx; exact id). exact IH.
Qed.

Lemma count_kept (ts : list (timer action)) :
  (length (filter is_resize_check (omap rearm (countdown <$> ts)))
   <= length (filter is_resize_check ts))%nat.
Proof.
  induction ts as [|t ts IH]; [reflexivity|].
  cbn [fmap list_fmap omap list_omap].
  assert (Hle : (length (filter is_resize_check ts)
                 <= length (filter is_resize_check (t :: ts)))%nat).
  { rewrite filter_cons. destruct (decide _); cbn; lia. }
  destruct (rearm (countdown t)) as [t'|] eqn:E; [|lia].
  assert (Ht : is_resize_check t' = is_resize_check t).
  { unfold rearm in E. destruct (decide _); [destruct (period _)|];
      inversion E; reflexivity. }
  rewrite !filter_cons, Ht. destruct (decide _); cbn [length]; lia.
Qed.

Lemma resize_inv_tick (b : page) : resize_inv b -> resize_inv (tick_ms run b).
Proof.
  intros [Hall Hlen]. unfold tick_ms.
  match goal with |- resize_inv (run_all run ?due ?b0) =>
    destruct (run_all_timers due b0) as (l & H1 & H2 & H3 & _) end.
  unfold resize_inv. rewrite H1, H3. cbn [timers dom]. split.
  - apply Forall_app. split.
    + apply (Forall_kept_gen _ _ _ Hall).
      * intros t H _. exact H.
      * intros t p H _ _. exact H.
    + eapply Forall_impl; [exact H2|]. cbn. intros t Ht. rewrite Ht. discriminate.
  - rewrite filter_app, (filter_none _ _ H2), app_nil_r.
    etransitivity; [apply count_kept|exact Hlen].
Qed.

Lemma resize_inv_toggleMenu (b : page) : resize_inv b -> resize_inv (toggleMenu b).
Proof.
  intros [Hall Hlen]. destruct (menu_toggleMenu_timers b) as (f & Ht & _).
  unfold resize_inv. rewrite Ht, (proj2 (menu_toggleMenu_dom b)). split.
  - apply Forall_app. split; [exact Hall|]. repeat constructor. discriminate.
  - rewrite filter_app. rewrite (filter_none _ [_]) by (repeat constructor).
    rewrite app_nil_r. exact Hlen.
Qed.

Lemma resize_inv_closeMenu (b : page) : resize_inv b -> resize_inv (closeMenu b).
Proof.
  unfold closeMenu. destruct (isOpen b); [apply resize_inv_toggleMenu|auto].
Qed.

Lemma resize_inv_bubble o n t path : forall b : page,
  resize_inv b -> resize_inv (bubble o n t path b).
Proof.
  induction path as [|e path IH]; intros b H.
  - cbn. destruct (_ && _); [apply resize_inv_closeMenu, H|exact H].
  - destruct e; cbn [bubble]; try (apply IH; assumption).
    + apply resize_inv_toggleMenu, H.
    + apply IH. destruct o; [apply resize_inv_closeMenu, H|exact H].
    + apply IH, resize_inv_closeMenu, H.
Qed.

Lemma resize_inv_on_resize (b : page) : resize_inv b -> resize_inv (on_resize b).
Proof.
  intros [Hall Hlen]. unfold on_resize, resize_inv.
  assert (Hnone : Forall (fun t : timer action => is_resize_check t = false)
            (timers match resizeTimer (dom b) with
                    | Some id => clearTimer id b
                    | None => b
                    end)).
  { destruct (resizeTimer (dom b)) as [id|] eqn:E.
    - cbn. apply Forall_forall. intros t Ht.
      apply list_elem_of_filter in Ht as [Hne Ht].
      destruct (is_resize_check t) eqn:Et; [|reflexivity].
      rewrite Forall_forall in Hall. specialize (Hall t Ht Et).
      congruence.
    - eapply Forall_impl; [exact Hall|]. cbn. intros t Ht.
      destruct (is_resize_check t); [discriminate (Ht eq_refl)|reflexivity]. }
  revert Hnone.
  generalize (match resizeTimer (dom b) with
              | Some id => clearTimer id b
              | None => b
              end).
  intros b1 Hnone. cbn. split.
  - apply Forall_app. split.
    + eapply Forall_impl; [exact Hnone|]. cbn. intros t Ht. rewrite Ht. discriminate.
    + repeat constructor.
  - rewrite filter_app, (filter_none _ _ Hnone), filter_cons, filter_nil.
    destruct (decide _); cbn; lia.
Qed.

Lemma resize_inv_step (b : page) ev : resize_inv b -> resize_inv (step b ev).
Proof.
  intros H. destruct ev as [path|k focusable|w cw|hash|ms]; cbn [step].
  - apply resize_inv_bubble, H.
  - unfold on_keydown. destruct (negb _); [exact H|].
    destruct k as [|[|]|]; try exact H.
    + apply resize_inv_closeMenu, H.
    + destruct (is_active _ _); [|exact H].
      unfold focus. destruct (last focusable); exact H.
    + destruct (is_active _ _); [|exact H].
      unfold focus. destruct (head focusable); exact H.
  - apply resize_inv_on_resize. exact H.
  - unfold on_load. destruct (bool_decide _); [exact H|].
    apply resize_inv_closeMenu, H.
  - unfold elapse. induction ms as [|ms IH] using N.peano_ind; [exact H|].
    rewrite N.iter_succ. apply resize_inv_tick, IH.
Qed.

Lemma resize_inv_exec evs : forall b : page,
  resize_inv b -> resize_inv (exec b evs).
Proof.
  induction evs as [|ev evs IH]; intros b H; [exact H|].
  apply IH, resize_inv_step, H.
Qed.

Lemma closeMenu_window w cw (b : page) :
  window_is w cw b -> window_is w cw (closeMenu b).
Proof.
  unfold closeMenu, window_is. destruct (isOpen b); [|auto].
  rewrite (proj1 (menu_toggleMenu_dom b)). auto.
Qed.

Lemma resizeCheck_checked w cw (b : page) :
  window_is w cw b -> scrollbar_ok (menu (dom b)) ->
  checked w cw (resizeCheck b).
Proof.
  intros Hwin Hok. pose proof Hwin as [Hw Hcw]. unfold resizeCheck.
  rewrite Hw. destruct (768 <? w)%Z eqn:E; cbn [andb].
  - apply Z.ltb_lt in E.
    assert (Hc : isOpen (if isOpen b then closeMenu b else b) = false).
    { destruct (isOpen b) eqn:Eo; [apply menu_closeMenu_open|exact Eo]. }
    assert (Hwin1 : window_is w cw (if isOpen b then closeMenu b else b)).
    { destruct (isOpen b); [apply closeMenu_window|]; exact Hwin. }
    revert Hc Hwin1. generalize (if isOpen b then closeMenu b else b).
    intros b1 Hc Hwin1. rewrite Hc. split; [exact Hwin1|]. split; [auto|].
    congruence.
  - apply Z.ltb_ge in E. destruct (isOpen b) eqn:Eo.
    + unfold getScrollbarWidth. rewrite Hw, Hcw.
      destruct (w - cw =? scrollbarWidth (menu (dom b)))%Z eqn:En; cbn [negb].
      * apply Z.eqb_eq in En. split; [exact Hwin|]. split; [lia|]. intros _.
        split; [auto|]. rewrite En. apply Hok, Eo.
      * split; [exact Hwin|]. split; [lia|]. intros _. cbn. auto.
    + split; [exact Hwin|]. split; [auto|]. congruence.
Qed.

Lemma run_checked w cw a (b : page) : checked w cw b -> checked w cw (run a b).
Proof.
  intros (Hwin & Hwide & Hopen). pose proof Hwin as [Hw Hcw].
  destruct a as [[|]|]; cbn [run].
  - destruct (0 <? _)%nat; exact (conj Hwin (conj Hwide Hopen)).
  - exact (conj Hwin (conj Hwide Hopen)).
  - replace (resizeCheck b) with b; [exact (conj Hwin (conj Hwide Hopen))|].
    unfold resizeCheck. destruct (isOpen b) eqn:Eo.
    + destruct (768 <? innerWidth (menu (dom b)))%Z eqn:E.
      * apply Z.ltb_lt in E. rewrite Hw in E. specialize (Hwide E). congruence.
      * cbn [andb]. rewrite Eo. unfold getScrollbarWidth.
        rewrite Hw, Hcw, (proj1 (Hopen eq_refl)), Z.eqb_refl. reflexivity.
    + rewrite andb_false_r, Eo. reflexivity.
Qed.

Lemma run_all_window due w cw : forall b : page,
  window_is w cw b -> scrollbar_ok (menu (dom b)) ->
  window_is w cw (run_all run due b) /\
  scrollbar_ok (menu (dom (run_all run due b))).
Proof.
  intros b Hwin Hok.
  apply (run_all_keeps run
           (fun b => window_is w cw b /\ scrollbar_ok (menu (dom b)))).
  - apply Forall_forall. intros t _ b' [[Hw Hcw] Hok'].
    destruct (run_timers (act t) b') as (l & _ & _ & _ & Hwin').
    rewrite Hw, Hcw in Hwin'. split; [exact Hwin'|].
    apply stable_run; [apply scrollbar_ok_stable|exact Hok'].
  - auto.
Qed.

Lemma check_pending_tick w cw r (b : page) :
  (1 <= r)%N -> check_pending w cw (N.succ r) b ->
  check_pending w cw r (tick_ms run b).
Proof.
  intros Hr (Hwin & Hok & t & Ht & Hact & Hrem). unfold tick_ms.
  match goal with |- check_pending w cw r (run_all run ?due ?b0) =>
    destruct (run_all_timers due b0) as (l & H1 & _);
    destruct (run_all_window due w cw b0 Hwin Hok) as [H2 H3] end.
  split; [exact H2|]. split; [exact H3|].
  exists (countdown t). rewrite H1. cbn [timers].
  split; [|split; [exact Hact|cbn; lia]].
  apply elem_of_app. left. apply elem_of_kept. exists t.
  split; [exact Ht|]. left. split; [lia|reflexivity].
Qed.

Lemma check_pending_elapse w cw k : forall r (b : page),
  (1 <= r)%N -> check_pending w cw (r + k) b ->
  check_pending w cw r (elapse run k b).
Proof.
  induction k as [|k IH] using N.peano_ind; intros r b Hr H.
  - rewrite N.add_0_r in H. exact H.
  - rewrite elapse_succ. apply check_pending_tick; [exact Hr|].
    apply IH; [lia|]. replace (N.succ r + k)%N with (r + N.succ k)%N by lia.
    exact H.
Qed.

Lemma check_pending_last w cw (b : page) :
  check_pending w cw 1 b -> checked w cw (tick_ms run b).
Proof.
  intros (Hwin & Hok & t & Ht & Hact & Hrem). unfold tick_ms.
  assert (Hdue : countdown t ∈ filter is_due (countdown <$> timers b)).
  { apply elem_of_due. exists t. split; [exact Ht|]. split; [reflexivity|lia]. }
  apply list_elem_of_split in Hdue as (l1 & l2 & Hdue). rewrite Hdue.
  unfold run_all. rewrite fold_left_app. cbn [fold_left].
  change (act (countdown t)) with (act t). rewrite Hact. cbn [run].
  match goal with |- checked w cw (fold_left ?f l2 (resizeCheck ?b1)) =>
    change (checked w cw (run_all run l2 (resizeCheck b1)));
    assert (Hb1 : window_is w cw b1 /\ scrollbar_ok (menu (dom b1)))
      by (apply (run_all_window l1 w cw); assumption);
    generalize dependent b1 end.
  intros b1 [Hwin1 Hok1].
  apply run_all_keeps.
  - apply Forall_forall. intros t' _ b'. apply run_checked.
  - apply resizeCheck_checked; assumption.
Qed.

Lemma init_resize_inv t o n d (b0 : page) :
  initMobileMenu t o n d = Some b0 ->
  resize_inv b0 /\ scrollbar_ok (menu (dom b0)).
Proof.
  unfold initMobileMenu, Menu.initMobileMenu.
  destruct (_ || _); [discriminate|]. intros [= <-]. cbn.
  split; [split; [constructor|cbn; lia]|]. unfold scrollbar_ok. cbn. discriminate.
Qed.

(** X11. The resize listener is debounced: however the events arrive
    after [initMobileMenu], at most one resize check is pending.  100 ms
    after a resize, with no event in between, the check has run: if the
    window is then wider than 768 px the menu is closed, and if the menu
    is still open the property [--scrollbar-width] of the body holds the
    new scrollbar width, [innerWidth - clientWidth]. *)
Theorem resize_check_debounced (t o n : bool) (d : Menu.state) (b0 : page)
    (evs : list event) (w cw : Z) :
  initMobileMenu t o n d = Some b0 ->
  let b := exec b0 evs in
  (length (filter is_resize_check (timers b)) <= 1)%nat /\
  let b' := exec b [Resize w cw; Elapse 100] in
  ((768 < w)%Z -> isOpen b' = false) /\
  (isOpen b' = true ->
     body_scrollbar_width (menu (dom b')) = Some (w - cw)%Z).
Proof.
  intros Hinit. destruct (init_resize_inv t o n d b0 Hinit) as [Hinv Hok].
  cbn zeta. split; [apply (resize_inv_exec evs b0 Hinv)|].
  assert (Hok' : scrollbar_ok (menu (dom (exec b0 evs))))
    by (apply stable_exec; [apply scrollbar_ok_stable|exact Hok]).
  revert Hok'. generalize (exec b0 evs). intros b Hok'.
  cbn [exec fold_left step].
  assert (Hp : check_pending w cw 100 (on_resize (map_menu (set_window w cw) b))).
  { unfold on_resize. cbn [map_menu map_dom with_dom dom resizeTimer].
    split; [|split].
    - destruct (resizeTimer (dom b)); split; reflexivity.
    - destruct (resizeTimer (dom b)); exact Hok'.
    - destruct (resizeTimer (dom b)); cbn;
        (eexists; split;
         [apply elem_of_app; right; apply list_elem_of_singleton; reflexivity|];
         split; reflexivity). }
  revert Hp. generalize (on_resize (map_menu (set_window w cw) b)).
  intros b1 Hp.
  change 100%N with (N.succ 99). rewrite elapse_succ.
  assert (Hc : checked w cw (tick_ms run (elapse run 99 b1))).
  { apply check_pending_last, check_pending_elapse; [lia|exact Hp]. }
  destruct Hc as (_ & Hwide & Hopen). split; [exact Hwide|].
  intros Ho. apply Hopen, Ho.
Qed.

End MenuResizeFacts.

(** ** Section highlighting *)

Section HighlightFacts.
Import Dom Highlight.

Lemma current_fold scrollY sections : forall acc,
  fold_left (fun current s => if reached scrollY s then id s else current)
    sections acc
  = from_option id acc (last_reached scrollY sections).
Proof.
  unfold last_reached.
  induction sections as [|s sections IH]; intros acc; [reflexivity|].
  cbn [fold_left]. rewrite IH, filter_cons.
  destruct (reached scrollY s) eqn:E.
  - rewrite decide_True by reflexivity. rewrite last_cons.
    destruct (last _); reflexivity.
  - rewrite decide_False by discriminate. reflexivity.
Qed.

Lemma highlight_link_idem cur (l : link) :
  highlight_link cur (highlight_link cur l) = highlight_link cur l.
Proof.
  unfold highlight_link. cbn [href classList].
  destruct (bool_decide _); f_equal.
  - rewrite class_remove_add; [reflexivity|].
    intros H. apply elem_of_class_remove in H as [H _]. apply H. reflexivity.
  - apply class_remove_idem.
Qed.

(** X12. [highlightNavigation] marks the links of one section: the one
    reached last in document order ([scrollY >= offsetTop - 200]), or
    the empty id when none is reached.  Afterwards a link has the class
    [active] exactly when its [href] is [#] followed by that id, its
    other classes are as before, and a second call at the same scroll
    position changes nothing. *)
Theorem highlight_marks_current_section (scrollY : Q)
    (sections : list section) (links : list link) :
  let cur := from_option id "" (last_reached scrollY sections) in
  let links' := highlightNavigation scrollY sections links in
  Forall2 (fun l l' =>
             href l' = href l /\
             ("active" ∈ classList l' <-> href l = Some ("#" +:+ cur)) /\
             forall c, c ≠ "active" ->
               (c ∈ classList l' <-> c ∈ classList l))
          links links' /\
  highlightNavigation scrollY sections links' = links'.
Proof.
  cbn zeta. unfold highlightNavigation, current. rewrite current_fold.
  set (cur := from_option id "" _). split.
  - apply Forall2_fmap_r, Forall_Forall2_diag, Forall_forall.
    intros l _. unfold compose. cbv beta. unfold highlight_link.
    cbn [href classList].
    split; [reflexivity|].
    destruct (decide (href l = Some ("#" +:+ cur))) as [Hh|Hh].
    + rewrite (bool_decide_eq_true_2 _ Hh). split.
      * rewrite elem_of_class_add. tauto.
      * intros c Hc. rewrite elem_of_class_add, elem_of_class_remove. tauto.
    + rewrite (bool_decide_eq_false_2 _ Hh). split.
      * rewrite elem_of_class_remove. tauto.
      * intros c Hc. rewrite elem_of_class_remove. tauto.
  - rewrite <- list_fmap_compose. apply list_fmap_ext.
    intros i l _. apply highlight_link_idem.
Qed.

End HighlightFacts.

(** ** Reveal on scroll *)

Section RevealFacts.
Import Dom Reveal.

Lemma has_class_add c c' i j (st : state) :
  has_class c' j (classList_add i c st) <->
  has_class c' j st \/ (c' = c /\ j = i /\ (i < length (elements st))%nat).
Proof.
  unfold has_class, classList_add. cbn [elements].
  destruct (decide (i = j)) as [->|Hne].
  - rewrite list_lookup_alter_eq. split.
    + intros (cl & Hl & Hc).
      destruct (elements st !! j) as [cl0|] eqn:E; [|discriminate].
      injection Hl as <-. apply elem_of_class_add in Hc as [-> | Hc].
      * right. split; [reflexivity|]. split; [reflexivity|].
        apply lookup_lt_is_Some. rewrite E. eauto.
      * left. eauto.
    + intros [(cl & Hl & Hc) | (-> & _ & Hlt)].
      * rewrite Hl. eexists. split; [reflexivity|].
        apply elem_of_class_add. auto.
      * apply lookup_lt_is_Some in Hlt as [cl Hl]. rewrite Hl.
        eexists. split; [reflexivity|]. apply elem_of_class_add. auto.
  - rewrite list_lookup_alter_ne by exact Hne. split; [auto|].
    intros [H | (_ & Hj & _)]; [exact H|congruence].
Qed.

Lemma elem_of_observe i j (st : state) :
  j ∈ observed (observe i st) <-> j ∈ observed st \/ j = i.
Proof.
  unfold observe. cbn [observed].
  destruct (decide (i ∈ observed st)) as [Hi|Hi].
  - rewrite (bool_decide_eq_true_2 _ Hi). split; [auto|].
    intros [H | ->]; assumption.
  - rewrite (bool_decide_eq_false_2 _ Hi), elem_of_app.
    split; (intros [H | H]; [left; exact H|right]).
    + exact (proj1 (list_elem_of_singleton _ _) H).
    + exact (proj2 (list_elem_of_singleton _ _) H).
Qed.

Lemma init_element_spec reduced (st : state) i :
  let st' := init_element reduced st i in
  length (elements st') = length (elements st) /\
  (forall j, j ∈ observed st' <->
             j ∈ observed st \/ (reduced = false /\ j = i)) /\
  (forall c j, has_class c j st' <->
     has_class c j st \/
     (j = i /\ (i < length (elements st))%nat /\
      (c = "reveal" \/ (reduced = true /\ c = "animate-in")))).
Proof.
  cbn zeta. unfold init_element. destruct reduced.
  - split; [cbn; rewrite !length_alter; reflexivity|]. split.
    + intros j. cbn. split; [auto|]. intros [H | [H _]]; [exact H|discriminate].
    + intros c j. rewrite !has_class_add. cbn [classList_add elements].
      rewrite length_alter. intuition.
  - split; [cbn; rewrite !length_alter; reflexivity|]. split.
    + intros j. rewrite elem_of_observe. cbn. intuition.
    + intros c j.
      change (has_class c j (observe i (classList_add i "reveal" st)))
        with (has_class c j (classList_add i "reveal" st)).
      rewrite has_class_add. intuition. discriminate.
Qed.

Lemma init_fold_spec reduced animated : forall st : state,
  let st' := fold_left (init_element reduced) animated st in
  length (elements st') = length (elements st) /\
  (forall j, j ∈ observed st' <->
             j ∈ observed st \/ (reduced = false /\ j ∈ animated)) /\
  (forall c j, has_class c j st' <->
     has_class c j st \/
     (j ∈ animated /\ (j < length (elements st))%nat /\
      (c = "reveal" \/ (reduced = true /\ c = "animate-in")))).
Proof.
  induction animated as [|i animated IH]; intros st; cbn zeta.
  - cbn [fold_left]. split; [reflexivity|].
    split; intros; rewrite ?elem_of_nil; intuition.
  - cbn [fold_left].
    destruct (IH (init_element reduced st i)) as (Hl & Ho & Hc).
    destruct (init_element_spec reduced st i) as (Hl1 & Ho1 & Hc1).
    split; [congruence|]. split.
    + intros j. rewrite Ho, Ho1, elem_of_cons. intuition.
    + intros c j. rewrite Hc, Hc1, Hl1, elem_of_cons. split.
      * intros [[H | (-> & H1 & H2)] | (H0 & H1 & H2)];
          [left; exact H
          |right; split; [left; reflexivity|split; assumption]
          |right; split; [right; exact H0|split; assumption]].
      * intros [H | ([-> | H0] & H1 & H2)];
          [left; left; exact H
          |left; right; split; [reflexivity|split; assumption]
          |right; split; [exact H0|split; assumption]].
Qed.

(** X13. What [initScrollAnimations] does to the animated elements:
    each of them gets the class [reveal]; under reduced motion each also
    gets [animate-in] at once and nothing is observed; otherwise exactly
    the animated elements are observed and none gets [animate-in].  No
    class is removed and no other element is touched. *)
Theorem reveal_init_marks (reduced : bool) (animated : list nat)
    (els : list (list string)) :
  let st := {| elements := els; observed := [] |} in
  let st' := initScrollAnimations reduced animated els in
  length (elements st') = length els /\
  (forall j, j ∈ observed st' <-> reduced = false /\ j ∈ animated) /\
  (forall c j, has_class c j st' <->
     has_class c j st \/
     (j ∈ animated /\ (j < length els)%nat /\
      (c = "reveal" \/ (reduced = true /\ c = "animate-in")))).
Proof.
  cbn zeta. unfold initScrollAnimations.
  destruct (init_fold_spec reduced animated
              {| elements := els; observed := [] |}) as (Hl & Ho & Hc).
  split; [exact Hl|]. split; [|exact Hc].
  intros j. rewrite Ho. cbn. rewrite elem_of_nil. tauto.
Qed.

Lemma on_entry_spec (st : state) e :
  let st' := on_entry st e in
  length (elements st') = length (elements st) /\
  (forall j, j ∈ observed st' <-> j ∈ observed st /\ hits j e = false) /\
  (forall c j, has_class c j st' <->
     has_class c j st \/
     (c = "animate-in" /\ (j < length (elements st))%nat /\ hits j e = true)).
Proof.
  cbn zeta. unfold on_entry, hits. destruct (isIntersecting e); cbn [andb].
  - split; [cbn; apply length_alter|]. split.
    + intros j. cbn [unobserve observed classList_add].
      rewrite (list_elem_of_filter (fun j => j ≠ target e) (observed st) j).
      rewrite Nat.eqb_neq. intuition.
    + intros c j.
      change (has_class c j (unobserve (target e)
                (classList_add (target e) "animate-in" st)))
        with (has_class c j (classList_add (target e) "animate-in" st)).
      rewrite has_class_add, Nat.eqb_eq. intuition; subst; auto.
  - split; [reflexivity|]. split; intros; intuition. discriminate.
Qed.

Lemma callback_spec entries : forall st : state,
  let st' := callback entries st in
  length (elements st') = length (elements st) /\
  (forall j, j ∈ observed st' <->
             j ∈ observed st /\ existsb (hits j) entries = false) /\
  (forall c j, has_class c j st' <->
     has_class c j st \/
     (c = "animate-in" /\ (j < length (elements st))%nat /\
      existsb (hits j) entries = true)).
Proof.
  induction entries as [|e entries IH]; intros st; cbn zeta.
  - split; [reflexivity|]. split; intros; cbn; intuition. discriminate.
  - unfold callback. cbn [fold_left existsb].
    destruct (IH (on_entry st e)) as (Hl & Ho & Hc).
    destruct (on_entry_spec st e) as (Hl1 & Ho1 & Hc1).
    unfold callback in *.
    split; [congruence|]. split.
    + intros j. rewrite Ho, Ho1, orb_false_iff. tauto.
    + intros c j. rewrite Hc, Hc1, Hl1, orb_true_iff. tauto.
Qed.

Lemma deliver_spec batches : forall st : state,
  let st' := deliver batches st in
  length (elements st') = length (elements st) /\
  (forall j, j ∈ observed st' <->
             j ∈ observed st /\ intersected j batches = false) /\
  (forall c j, has_class c j st' <->
     has_class c j st \/
     (c = "animate-in" /\ (j < length (elements st))%nat /\
      intersected j batches = true)).
Proof.
  induction batches as [|es batches IH]; intros st; cbn zeta.
  - split; [reflexivity|]. split; intros; cbn; intuition. discriminate.
  - unfold deliver, intersected. cbn [fold_left existsb].
    destruct (IH (callback es st)) as (Hl & Ho & Hc).
    destruct (callback_spec es st) as (Hl1 & Ho1 & Hc1).
    unfold deliver, intersected in *.
    split; [congruence|]. split.
    + intros j. rewrite Ho, Ho1, orb_false_iff. tauto.
    + intros c j. rewrite Hc, Hc1, Hl1, orb_true_iff. tauto.
Qed.

(** X14. An animated element is revealed by the first entry that
    reports it as intersecting, once and for all: after any batches of
    entries an element is still observed exactly when it is animated and
    no entry has reported it as intersecting, and the only class the
    callback ever adds is [animate-in], on the elements so reported; it
    removes none. *)
Theorem revealed_once_intersecting (animated : list nat)
    (els : list (list string)) (batches : list (list entry)) :
  let st0 := initScrollAnimations false animated els in
  let st' := deliver batches st0 in
  (forall j, j ∈ observed st' <->
             j ∈ animated /\ intersected j batches = false) /\
  (forall c j, has_class c j st' <->
     has_class c j st0 \/
     (c = "animate-in" /\ (j < length els)%nat /\
      intersected j batches = true)).
Proof.
  cbn zeta.
  destruct (deliver_spec batches (initScrollAnimations false animated els))
    as (_ & Ho & Hc).
  destruct (init_fold_spec false animated {| elements := els; observed := [] |})
    as (Hl & Ho0 & _).
  fold (initScrollAnimations false animated els) in Hl, Ho0.
  split.
  - intros j. rewrite Ho, Ho0. cbn. rewrite elem_of_nil. tauto.
  - intros c j. rewrite Hc, Hl. reflexivity.
Qed.

End RevealFacts.

(** ** Lifecycle panel: clicks *)

Section TimerInvariants.
Import Timers.
Context {D A : Type}.
Variable run : A -> browser D A -> browser D A.

(** An invariant of the page that the callbacks keep and that survives
    the countdown of the timers. *)
Lemma tick_keeps_inv (P : browser D A -> Prop) (b : browser D A) :
  (forall a b, P b -> P (run a b)) ->
  (forall b, P b ->
     P {| dom := dom b; timers := omap rearm (countdown <$> timers b);
          next_tid := next_tid b |}) ->
  P b -> P (tick_ms run b).
Proof.
  intros Hrun Hts Hb. unfold tick_ms. apply run_all_keeps.
  - apply Forall_forall. intros t _ b'. apply Hrun.
  - apply Hts, Hb.
Qed.

Lemma elapse_keeps_inv (P : browser D A -> Prop) ms (b : browser D A) :
  (forall a b, P b -> P (run a b)) ->
  (forall b, P b ->
     P {| dom := dom b; timers := omap rearm (countdown <$> timers b);
          next_tid := next_tid b |}) ->
  P b -> P (elapse run ms b).
Proof.
  intros Hrun Hts Hb. induction ms as [|ms IH] using N.peano_ind; [exact Hb|].
  rewrite elapse_succ. apply tick_keeps_inv; assumption.
Qed.

(** The same for an invariant that only the callbacks of [G] keep, when
    it lets only such callbacks be pending. *)
Lemma tick_keeps_guarded (G : A -> Prop) (P : browser D A -> Prop)
    (b : browser D A) :
  (forall a b, G a -> P b -> P (run a b)) ->
  (forall b, P b -> Forall (fun t => G (act t)) (timers b)) ->
  (forall b, P b ->
     P {| dom := dom b; timers := omap rearm (countdown <$> timers b);
          next_tid := next_tid b |}) ->
  P b -> P (tick_ms run b).
Proof.
  intros Hrun HG Hts Hb. unfold tick_ms. apply run_all_keeps.
  - apply (Forall_due_gen _ _ _ (HG b Hb)). intros t Ht _ b'.
    apply Hrun. exact Ht.
  - apply Hts, Hb.
Qed.

Lemma elapse_keeps_guarded (G : A -> Prop) (P : browser D A -> Prop) ms
    (b : browser D A) :
  (forall a b, G a -> P b -> P (run a b)) ->
  (forall b, P b -> Forall (fun t => G (act t)) (timers b)) ->
  (forall b, P b ->
     P {| dom := dom b; timers := omap rearm (countdown <$> timers b);
          next_tid := next_tid b |}) ->
  P b -> P (elapse run ms b).
Proof.
  intros Hrun HG Hts Hb. induction ms as [|ms IH] using N.peano_ind; [exact Hb|].
  rewrite elapse_succ. apply tick_keeps_guarded with (G := G); assumption.
Qed.

End TimerInvariants.

Section LifecycleClickFacts.
Import Timers Dom Lifecycle LifecycleExtra.

Lemma in_bounds_run n a (b : page) : in_bounds n b -> in_bounds n (run a b).
Proof.
  intros (Hc & Hn & Ht). destruct a as [|i animate|]; cbn [run].
  - destruct (run_nextphase_spec b) as [_ Htm].
    destruct (run_spec NextPhase b Hc) as (Hcur & _).
    cbn zeta in Htm, Hcur. cbn [run] in Htm, Hcur.
    split; [|split].
    + rewrite Hcur, decide_True by reflexivity.
      apply Nat.mod_upper_bound. discriminate.
    + exact Hn.
    + rewrite Htm. apply Forall_app. split; [exact Ht|].
      constructor; [|constructor].
      intros j an Heq. cbn [act] in Heq.
      replace j with ((currentPhase (dom b) + 1) mod 4)%nat by congruence.
      apply Nat.mod_upper_bound. discriminate.
  - destruct (phases !! i) as [ph|]; [|repeat split; assumption].
    assert (Hlen : length (indicators (set_content i ph (dom b))) = n).
    { cbn. rewrite length_imap. exact Hn. }
    destruct animate.
    + split; [exact Hc|]. split; [exact Hlen|].
      cbn. apply Forall_app. split; [exact Ht|].
      constructor; [|constructor]. intros ? ? [=].
    + split; [exact Hc|]. split; [exact Hlen|exact Ht].
  - repeat split; assumption.
Qed.

Lemma in_bounds_countdown n (b : page) :
  in_bounds n b ->
  in_bounds n {| dom := dom b; timers := omap rearm (countdown <$> timers b);
                 next_tid := next_tid b |}.
Proof.
  intros (Hc & Hn & Ht). split; [exact Hc|]. split; [exact Hn|].
  cbn [timers]. apply (Forall_kept_gen _ _ _ Ht).
  - intros t H _. exact H.
  - intros t p H _ _. exact H.
Qed.

Lemma in_bounds_step n (b : page) ev :
  (n <= 4)%nat -> in_bounds n b -> in_bounds n (step b ev).
Proof.
  intros Hn4 H. pose proof H as (Hc & Hn & Ht).
  destruct ev as [ms| | |index]; cbn [step].
  - apply elapse_keeps_inv;
      [intros a b'; apply in_bounds_run|apply in_bounds_countdown|exact H].
  - unfold stopAutoRotate. destruct (autoRotateInterval (dom b)); [|exact H].
    split; [exact Hc|]. split; [exact Hn|]. cbn.
    apply Forall_forall. intros t Hin.
    apply list_elem_of_filter in Hin as [_ Hin].
    rewrite Forall_forall in Ht. apply Ht, Hin.
  - split; [exact Hc|]. split; [exact Hn|]. cbn.
    apply Forall_app. split; [exact Ht|].
    constructor; [|constructor]. intros ? ? [=].
  - destruct (index <? _)%nat eqn:E; [|exact H]. apply Nat.ltb_lt in E.
    unfold goToPhase. destruct (bool_decide _); [|exact H].
    unfold resetAutoRotate, stopAutoRotate.
    cbn [updateDisplay map_dom with_dom dom setTimeout register fst
         set_currentPhase set_display_style autoRotateInterval currentPhase].
    assert (Hf : forall ts : list (timer action),
              Forall (fun t => forall i a, act t = UpdateContent i a -> (i < 4)%nat) ts ->
              forall id, Forall (fun t => forall i a, act t = UpdateContent i a -> (i < 4)%nat)
                           (filter (fun t => tid t ≠ id) ts)).
    { intros ts Hts id. apply Forall_forall. intros t Hin.
      apply list_elem_of_filter in Hin as [_ Hin].
      rewrite Forall_forall in Hts. apply Hts, Hin. }
    assert (Hnew : Forall (fun t => forall i a, act t = UpdateContent i a -> (i < 4)%nat)
              (timers b ++ [{| tid := next_tid b; remaining := N.max 1 400;
                               period := None;
                               act := UpdateContent index true |}])).
    { apply Forall_app. split; [exact Ht|].
      constructor; [|constructor]. intros j an [= <- _]. lia. }
    destruct (autoRotateInterval (dom b)) as [id|]; unfold in_bounds; cbn;
      (split; [lia|]; split; [exact Hn|]);
      (apply Forall_app; split; [|constructor; [|constructor]; intros ? ? [=]]).
    + apply Hf, Hnew.
    + exact Hnew.
Qed.

(** X15. The phase index stays within bounds: on a panel with at most
    four indicators, after any sequence of timer ticks, hovers and
    indicator clicks the current phase is one of the four phases, every
    pending content update names one of them, and the number of
    indicators is unchanged. *)
Theorem phase_index_in_bounds (display icon title description : bool)
    (d : state) (b0 : page) (evs : list event) :
  initLifecyclePanel display icon title description d = Some b0 ->
  (length (indicators d) <= 4)%nat ->
  let b := exec b0 evs in
  (currentPhase (dom b) < length phases)%nat /\
  length (indicators (dom b)) = length (indicators d) /\
  Forall (fun t => forall i a, act t = UpdateContent i a ->
                   is_Some (phases !! i)) (timers b).
Proof.
  intros Hinit Hn.
  assert (H0 : in_bounds (length (indicators d)) b0).
  { unfold initLifecyclePanel in Hinit. destruct (_ || _); [discriminate|].
    injection Hinit as <-. split; [cbn; lia|]. split; [reflexivity|].
    cbn. constructor; [|constructor; [|constructor]]; intros i a [=]. lia. }
  cbn zeta.
  assert (H : in_bounds (length (indicators d)) (exec b0 evs)).
  { clear Hinit. revert b0 H0. induction evs as [|ev evs IH]; intros b0 H0; [exact H0|].
    apply IH, in_bounds_step; assumption. }
  destruct H as (Hc & Hl & Ht). split; [exact Hc|]. split; [exact Hl|].
  eapply Forall_impl; [exact Ht|]. cbn. intros t Hi i a Ha.
  apply lookup_lt_is_Some. exact (Hi i a Ha).
Qed.

End LifecycleClickFacts.

Section LifecycleJumpFacts.
Import Timers Dom Lifecycle LifecycleExtra.

Ltac Zify.zify_post_hook ::= Z.to_euclidean_division_equations.

Lemma run_fresh a (b : page) :
  fresh b ->
  fresh (run a b) /\
  length (indicators (dom (run a b))) = length (indicators (dom b)).
Proof.
  intros [Ht Hi].
  assert (Hold : forall b' : page,
            timers b' = timers b -> next_tid b' = next_tid b ->
            autoRotateInterval (dom b') = autoRotateInterval (dom b) ->
            fresh b').
  { intros b' E1 E2 E3. split; [rewrite E1, E2; exact Ht|rewrite E2, E3; exact Hi]. }
  assert (Hadd : forall (b' : page) t,
            timers b' = timers b ++ [t] -> tid t = next_tid b ->
            next_tid b' = S (next_tid b) ->
            autoRotateInterval (dom b') = autoRotateInterval (dom b) ->
            fresh b').
  { intros b' t E1 Et E2 E3. split.
    - rewrite E1, E2. apply Forall_app. split.
      + eapply Forall_impl; [exact Ht|]. cbn. intros; lia.
      + constructor; [lia|constructor].
    - rewrite E2, E3. intros id Hid. specialize (Hi id Hid). lia. }
  destruct a as [|i animate|]; cbn [run].
  - split; [|reflexivity]. eapply Hadd; reflexivity.
  - destruct (phases !! i) as [ph|]; [|split; [apply Hold|]; reflexivity].
    destruct animate.
    + split; [eapply Hadd; reflexivity|]. cbn. apply length_imap.
    + split; [apply Hold; reflexivity|]. cbn. apply length_imap.
  - split; [apply Hold|]; reflexivity.
Qed.

Lemma tidy_step n (b : page) ev :
  fresh b /\ length (indicators (dom b)) = n ->
  fresh (step b ev) /\ length (indicators (dom (step b ev))) = n.
Proof.
  intros [Hf Hn]. destruct ev as [ms| | |index]; cbn [step].
  - apply (elapse_keeps_inv run
             (fun b => fresh b /\ length (indicators (dom b)) = n)).
    + intros a b' [Hf' Hn']. destruct (run_fresh a b' Hf') as [H1 H2].
      split; [exact H1|congruence].
    + intros b' [[Ht Hi] Hn']. split; [split|exact Hn'].
      * cbn [timers next_tid]. apply (Forall_kept_gen _ _ _ Ht).
        -- intros t H _. exact H.
        -- intros t p H _ _. exact H.
      * exact Hi.
    + auto.
  - split; [|unfold stopAutoRotate; destruct (autoRotateInterval _); exact Hn].
    destruct Hf as [Ht Hi]. unfold stopAutoRotate.
    destruct (autoRotateInterval (dom b)) as [id|] eqn:E; [|split; [exact Ht|rewrite E; exact Hi]].
    split; [|cbn; rewrite E; exact Hi]. cbn.
    apply Forall_forall. intros t Hin.
    apply list_elem_of_filter in Hin as [_ Hin].
    rewrite Forall_forall in Ht. apply Ht, Hin.
  - split; [|exact Hn]. destruct Hf as [Ht Hi]. split; cbn.
    + apply Forall_app. split.
      * eapply Forall_impl; [exact Ht|]. cbn. intros; lia.
      * constructor; [cbn; lia|constructor].
    + intros id [= <-]. lia.
  - destruct (index <? _)%nat; [|auto].
    unfold goToPhase. destruct (bool_decide _); [|auto].
    split; [|unfold resetAutoRotate, stopAutoRotate; cbn;
             destruct (autoRotateInterval (dom b)); exact Hn].
    destruct Hf as [Ht Hi]. unfold resetAutoRotate, stopAutoRotate.
    cbn [updateDisplay map_dom with_dom dom setTimeout register fst
         set_currentPhase set_display_style autoRotateInterval currentPhase].
    assert (Hnew : Forall (fun t : timer action => (tid t < S (next_tid b))%nat)
              (timers b ++ [{| tid := next_tid b; remaining := N.max 1 400;
                               period := None;
                               act := UpdateContent index true |}])).
    { apply Forall_app. split.
      - eapply Forall_impl; [exact Ht|]. cbn. intros; lia.
      - constructor; [cbn; lia|constructor]. }
    destruct (autoRotateInterval (dom b)) as [id|]; split; cbn.
    + apply Forall_app. split.
      * apply Forall_forall. intros t Hin.
        apply list_elem_of_filter in Hin as [_ Hin].
        rewrite Forall_forall in Hnew. specialize (Hnew t Hin). lia.
      * constructor; [cbn; lia|constructor].
    + intros ? [= <-]. lia.
    + apply Forall_app. split.
      * eapply Forall_impl; [exact Hnew|]. cbn. intros; lia.
      * constructor; [cbn; lia|constructor].
    + intros ? [= <-]. lia.
Qed.

Lemma tidy_exec n evs : forall b : page,
  fresh b /\ length (indicators (dom b)) = n ->
  fresh (exec b evs) /\ length (indicators (dom (exec b evs))) = n.
Proof.
  induction evs as [|ev evs IH]; intros b H; [exact H|].
  apply IH, tidy_step, H.
Qed.

Lemma init_tidy (display icon title description : bool) (d : state) (b0 : page) :
  initLifecyclePanel display icon title description d = Some b0 ->
  fresh b0 /\ length (indicators (dom b0)) = length (indicators d).
Proof.
  unfold initLifecyclePanel. destruct (_ || _); [discriminate|].
  intros [= <-]. split; [split|reflexivity]; cbn.
  - constructor; [cbn; lia|constructor; [cbn; lia|constructor]].
  - intros ? [= <-]. lia.
Qed.

Lemma no_rotor (ts : list (timer action)) :
  filter is_rotor ts = [] <-> Forall (fun t => act t ≠ NextPhase) ts.
Proof.
  induction ts as [|t ts IH]; [split; [constructor|reflexivity]|].
  rewrite filter_cons. destruct (decide (is_rotor t)) as [Hr|Hr].
  - split; [discriminate|]. intros H. inversion H; subst. contradiction.
  - rewrite IH. split; [intros H; constructor; assumption|].
    intros H. inversion H; assumption.
Qed.

(** A click on another indicator, with the interval running or not. *)
Lemma click_jumps c i (b : page) :
  fresh b -> paused b \/ spinning c b ->
  (i < 4)%nat -> i ≠ currentPhase (dom b) ->
  spinning (4000 * N.of_nat i) (goToPhase i b) /\
  update_pending (length (indicators (dom b))) i 400 (goToPhase i b).
Proof.
  intros [Ht Hi] Hst Hi4 Hne. unfold goToPhase.
  rewrite bool_decide_eq_true_2 by exact Hne.
  set (upd := {| tid := next_tid b; remaining := N.max 1 400; period := None;
                 act := UpdateContent i true |}).
  set (b1 := updateDisplay _ true _).
  assert (Hb1 : timers b1 = timers b ++ [upd] /\
                autoRotateInterval (dom b1) = autoRotateInterval (dom b) /\
                currentPhase (dom b1) = i /\
                indicators (dom b1) = indicators (dom b)) by (repeat split).
  destruct Hb1 as (Htm & Hauto & Hcur & Hind). clearbody b1.
  assert (Hstop : exists ts1,
            timers (stopAutoRotate b1) = ts1 ++ [upd] /\
            Forall (fun t => act t ≠ NextPhase) ts1 /\
            dom (stopAutoRotate b1) = dom b1).
  { unfold stopAutoRotate. rewrite Hauto.
    destruct (autoRotateInterval (dom b)) as [id|] eqn:E.
    - exists (filter (fun t => tid t ≠ id) (timers b)).
      split; [|split; [|reflexivity]].
      + cbn. rewrite Htm, filter_app. f_equal.
        rewrite filter_cons_True, filter_nil; [reflexivity|].
        cbn. specialize (Hi id eq_refl). lia.
      + destruct Hst as [Hp | (_ & _ & t0 & Hrot & _ & _ & Ha)].
        * apply no_rotor in Hp. apply Forall_forall. intros t Hin.
          apply list_elem_of_filter in Hin as [_ Hin].
          rewrite Forall_forall in Hp. apply Hp, Hin.
        * apply no_rotor.
          change (rotors (clearTimer id b) = []).
          rewrite rotors_clearTimer, Hrot.
          rewrite filter_cons_False; [reflexivity|].
          intros H. apply H. congruence.
    - exists (timers b). split; [exact Htm|]. split; [|reflexivity].
      destruct Hst as [Hp | (_ & _ & t0 & _ & _ & _ & Ha)]; [|congruence].
      apply no_rotor, Hp. }
  destruct Hstop as (ts1 & Hts & Hno & Hdom).
  unfold resetAutoRotate.
  assert (Hpaused : paused (stopAutoRotate b1)).
  { unfold paused, rotors. rewrite Hts. apply no_rotor, Forall_app.
    split; [exact Hno|]. constructor; [discriminate|constructor]. }
  assert (Hlt : (currentPhase (dom (stopAutoRotate b1)) < 4)%nat)
    by (rewrite Hdom, Hcur; exact Hi4).
  pose proof (start_paused _ Hlt Hpaused) as Hspin.
  rewrite Hdom, Hcur in Hspin. split; [exact Hspin|].
  split.
  - unfold startAutoRotate. cbn. rewrite Hdom, Hind. reflexivity.
  - exists ts1, upd. eexists. split.
    + unfold startAutoRotate. cbn. rewrite Hts, <- app_assoc. reflexivity.
    + split; [reflexivity|]. split; [reflexivity|]. split; [exact Hno|].
      constructor; [|constructor]. right. split; [reflexivity|]. cbn. lia.
Qed.

Lemma run_quiet a (b : page) :
  a ≠ NextPhase ->
  exists l,
    timers (run a b) = timers b ++ l /\
    Forall (fun t => act t = FadeIn) l /\
    length (indicators (dom (run a b))) = length (indicators (dom b)).
Proof.
  intros Ha. destruct a as [|i animate|]; [contradiction| |].
  - cbn [run]. destruct (phases !! i) as [ph|].
    + destruct animate.
      * eexists. split; [reflexivity|].
        split; [constructor; [reflexivity|constructor]|].
        cbn. apply length_imap.
      * exists []. rewrite app_nil_r. split; [reflexivity|].
        split; [constructor|]. cbn. apply length_imap.
    + exists []. rewrite app_nil_r. split; [reflexivity|]. split; [constructor|reflexivity].
  - exists []. rewrite app_nil_r. split; [reflexivity|]. split; [constructor|reflexivity].
Qed.

Lemma run_all_quiet due : forall b : page,
  Forall (fun t => act t ≠ NextPhase) due ->
  exists l,
    timers (run_all run due b) = timers b ++ l /\
    Forall (fun t => act t = FadeIn) l /\
    length (indicators (dom (run_all run due b))) =
      length (indicators (dom b)).
Proof.
  induction due as [|t due IH]; intros b Hd.
  - exists []. rewrite app_nil_r. split; [reflexivity|]. split; [constructor|reflexivity].
  - inversion Hd as [|? ? Ht Hd']; subst. rewrite run_all_cons.
    destruct (run_quiet (act t) b Ht) as (l1 & H1 & H2 & H3).
    destruct (IH (run (act t) b) Hd') as (l2 & G1 & G2 & G3).
    exists (l1 ++ l2). rewrite G1, H1, app_assoc, G3, H3.
    split; [reflexivity|]. split; [apply Forall_app; auto|reflexivity].
Qed.

Lemma run_all_fadein due : forall b : page,
  Forall (fun t => act t = FadeIn) due ->
  title_text (dom (run_all run due b)) = title_text (dom b) /\
  indicators (dom (run_all run due b)) = indicators (dom b).
Proof.
  induction due as [|t due IH]; intros b Hd; [auto|].
  inversion Hd as [|? ? Ht Hd']; subst. rewrite run_all_cons, Ht.
  destruct (IH (run FadeIn b) Hd') as [H1 H2]. rewrite H1, H2. auto.
Qed.

Lemma update_pending_tick n i r (b : page) :
  (1 <= r)%N -> update_pending n i (N.succ r) b ->
  update_pending n i r (tick_ms run b).
Proof.
  intros Hr (Hn & ts1 & t & ts2 & Hts & Hact & Hrem & H1 & H2).
  unfold tick_ms. rewrite Hts.
  rewrite fmap_app, fmap_cons, filter_app, omap_app.
  rewrite filter_cons_False by (unfold is_due; cbn; lia).
  cbn [omap list_omap]. unfold rearm at 2.
  rewrite decide_False by (unfold is_due; cbn; lia). cbn [mbind option_bind].
  set (b0 := {| dom := dom b; timers := _; next_tid := _ |}).
  assert (Hdue : Forall (fun t => act t ≠ NextPhase)
            (filter is_due (countdown <$> ts1) ++
             filter is_due (countdown <$> ts2))).
  { apply Forall_app. split.
    - apply (Forall_due_gen _ _ _ H1). intros t' H _. exact H.
    - apply (Forall_due_gen _ _ _ H2).
      intros t' [H | [_ H]] Hle; [cbn; rewrite H; discriminate|lia]. }
  destruct (run_all_quiet _ b0 Hdue) as (l & G1 & G2 & G3).
  split; [rewrite G3; exact Hn|].
  exists (omap rearm (countdown <$> ts1)), (countdown t).
  exists (omap rearm (countdown <$> ts2) ++ l).
  split; [rewrite G1; unfold b0; cbn [timers]; rewrite <- app_assoc; reflexivity|].
  split; [exact Hact|]. split; [cbn; lia|]. split.
  - apply (Forall_kept_gen _ _ _ H1).
    + intros t' H _. exact H.
    + intros t' p H _ _. exact H.
  - apply Forall_app. split.
    + apply (Forall_kept_gen _ _ _ H2).
      * intros t' [H | [H Hlt]] Hge; [left; exact H|right].
        split; [exact H|cbn; lia].
      * intros t' p [H | [_ Hlt]] Hle _; [left; exact H|lia].
    + eapply Forall_impl; [exact G2|]. cbn. auto.
Qed.

Lemma update_pending_elapse n i k : forall r (b : page),
  (1 <= r)%N -> update_pending n i (r + k) b ->
  update_pending n i r (elapse run k b).
Proof.
  induction k as [|k IH] using N.peano_ind; intros r b Hr H.
  - rewrite N.add_0_r in H. exact H.
  - rewrite elapse_succ. apply update_pending_tick; [exact Hr|].
    apply IH; [lia|]. replace (N.succ r + k)%N with (r + N.succ k)%N by lia.
    exact H.
Qed.

Lemma update_pending_last n i (b : page) :
  (i < 4)%nat -> update_pending n i 1 b ->
  title_text (dom (tick_ms run b)) = title_of i /\
  forall k, (k < n)%nat ->
    indicators (dom (tick_ms run b)) !! k = Some (k =? i)%nat.
Proof.
  intros Hi (Hn & ts1 & t & ts2 & Hts & Hact & Hrem & H1 & H2).
  destruct (phase_lookup i Hi) as [ph Hph].
  remember (tick_ms run b) as b' eqn:E. unfold tick_ms in E. rewrite Hts in E.
  rewrite fmap_app, fmap_cons, filter_app in E.
  rewrite filter_cons_True in E by (unfold is_due; cbn; lia).
  set (b0 := {| dom := dom b; timers := _; next_tid := _ |}) in E.
  unfold run_all in E. rewrite fold_left_app in E. cbn [fold_left] in E.
  change (act (countdown t)) with (act t) in E. rewrite Hact in E.
  fold (run_all run (filter is_due (countdown <$> ts1)) b0) in E.
  assert (Hd1 : Forall (fun t => act t ≠ NextPhase)
                  (filter is_due (countdown <$> ts1))).
  { apply (Forall_due_gen _ _ _ H1). intros t' H _. exact H. }
  destruct (run_all_quiet _ b0 Hd1) as (_ & _ & _ & G3).
  change (length (indicators (dom b0))) with (length (indicators (dom b))) in G3.
  revert E G3. generalize (run_all run (filter is_due (countdown <$> ts1)) b0).
  intros b1 E G3.
  assert (Hd2 : Forall (fun t => act t = FadeIn)
                  (filter is_due (countdown <$> ts2))).
  { apply (Forall_due_gen _ _ _ H2).
    intros t' [H | [_ H]] Hle; [exact H|lia]. }
  destruct (run_update_spec i true b1 ph Hph) as [Htitle _]. cbn zeta in Htitle.
  assert (Hind : indicators (dom (run (UpdateContent i true) b1)) =
                 imap (fun index _ => (index =? i)%nat) (indicators (dom b1))).
  { cbn [run]. rewrite Hph. reflexivity. }
  revert E Htitle Hind. generalize (run (UpdateContent i true) b1).
  intros b2 E Htitle Hind.
  change (b' = run_all run (filter is_due (countdown <$> ts2)) b2) in E.
  destruct (run_all_fadein _ b2 Hd2) as [F1 F2].
  subst b'. rewrite F1, F2, Htitle, Hind. split; [reflexivity|].
  intros k Hk. rewrite list_lookup_imap.
  destruct (lookup_lt_is_Some_2 (indicators (dom b1)) k) as [x Hx]; [lia|].
  rewrite Hx. reflexivity.
Qed.

(** X16. A click on the indicator of another phase jumps to it and
    restarts the interval, whether the pointer is over the display or
    not: after any hovering and waiting, the click makes that phase the
    current one with a fresh interval of 4000 ms as the only one; 400 ms
    later the title is the one of that phase, only its indicator is
    active, and the next automatic step is 3600 ms away. *)
Theorem indicator_click_jumps (display icon title description : bool)
    (d : state) (b0 : page) (evs : list event) (i : nat) :
  initLifecyclePanel display icon title description d = Some b0 ->
  hover_ok false evs = true ->
  let b := exec b0 evs in
  (i < length phases)%nat -> (i < length (indicators d))%nat ->
  i ≠ currentPhase (dom b) ->
  let b1 := exec b [ClickIndicator i] in
  let b2 := exec b [ClickIndicator i; Elapse 400] in
  currentPhase (dom b1) = i /\ rotating 4000 b1 /\
  currentPhase (dom b2) = i /\ rotating 3600 b2 /\
  title_text (dom b2) = title_of i /\
  forall k, (k < length (indicators d))%nat ->
    indicators (dom b2) !! k = Some (k =? i)%nat.
Proof.
  intros Hinit Hok. cbn zeta. intros Hi4 Hin Hne.
  change (length phases) with 4%nat in Hi4.
  destruct (tidy_exec _ evs b0 (init_tidy _ _ _ _ d b0 Hinit)) as [Hfresh Hlen].
  assert (Hhs : hover_state (ends_inside false evs) (exec b0 evs)).
  { apply hover_alternation; [exact Hok|]. split.
    - eapply spinning_phase, init_spinning, Hinit.
    - exists 0%N. eapply init_spinning, Hinit. }
  assert (Hst : exists c, paused (exec b0 evs) \/ spinning c (exec b0 evs)).
  { destruct Hhs as [_ Hs]. destruct (ends_inside false evs).
    - exists 0%N. left. exact Hs.
    - destruct Hs as [c Hc]. exists c. right. exact Hc. }
  destruct Hst as [c Hst].
  revert Hfresh Hlen Hst Hne. generalize (exec b0 evs). clear Hhs.
  intros b Hfresh Hlen Hst Hne.
  cbn [exec fold_left step]. rewrite <- Hlen in Hin.
  apply Nat.ltb_lt in Hin. rewrite Hin.
  destruct (click_jumps c i b Hfresh Hst Hi4 Hne) as [Hspin Hpend].
  rewrite Hlen in Hpend.
  revert Hspin Hpend. generalize (goToPhase i b). intros b1 Hspin Hpend.
  pose proof (elapse_spinning 400 _ b1 Hspin) as Hspin2.
  assert (Hphase : forall c' (b' : page), spinning c' b' ->
            forall r, (c' = 4000 * N.of_nat i + r)%N -> (r < 4000)%N ->
            currentPhase (dom b') = i /\ rotating (4000 - r) b').
  { intros c' b' (Hc & Hp & Hr) r -> Hr4. split.
    - rewrite Hp. lia.
    - replace (4000 - r)%N
        with (4000 - (4000 * N.of_nat i + r) mod 4000)%N by lia.
      exact Hr. }
  destruct (Hphase _ _ Hspin 0%N) as [P1 P2]; [lia|lia|].
  destruct (Hphase _ _ Hspin2 400%N) as [Q1 Q2]; [lia|lia|].
  split; [exact P1|]. split; [exact P2|]. split; [exact Q1|].
  split; [exact Q2|].
  change 400%N with (N.succ 399). rewrite elapse_succ.
  apply update_pending_last; [exact Hi4|].
  apply update_pending_elapse; [lia|exact Hpend].
Qed.

(** X17. [stopAutoRotate] clears only the interval started last.  When
    an indicator of another phase is clicked while the pointer is over
    the display, the click starts an interval and the pointer leaving
    starts a second one: two intervals then advance the panel, and when
    the pointer enters again one of them keeps running, so the panel is
    no longer paused by hovering. *)
Theorem hover_click_leaves_interval_running
    (display icon title description : bool) (d : state) (b0 : page)
    (evs : list event) (i : nat) (t : N) :
  initLifecyclePanel display icon title description d = Some b0 ->
  hover_ok false evs = true -> ends_inside false evs = true ->
  let b := exec b0 evs in
  (i < length phases)%nat -> (i < length (indicators d))%nat ->
  i ≠ currentPhase (dom b) ->
  let b3 := exec b [ClickIndicator i; Elapse t; MouseLeave] in
  let b4 := exec b3 [MouseEnter] in
  paused b /\ length (rotors b3) = 2%nat /\
  length (rotors b4) = 1%nat /\ ~ paused b4.
Proof.
  intros Hinit Hok Hend. cbn zeta. intros Hi4 Hin Hne.
  change (length phases) with 4%nat in Hi4.
  pose proof (tidy_exec _ (evs ++ [ClickIndicator i; Elapse t]) b0
                (init_tidy _ _ _ _ d b0 Hinit)) as [Hfresh2 _].
  unfold exec in Hfresh2. rewrite fold_left_app in Hfresh2.
  fold (exec b0 evs) in Hfresh2.
  destruct (tidy_exec _ evs b0 (init_tidy _ _ _ _ d b0 Hinit)) as [Hfresh Hlen].
  assert (Hhs : hover_state (ends_inside false evs) (exec b0 evs)).
  { apply hover_alternation; [exact Hok|]. split.
    - eapply spinning_phase, init_spinning, Hinit.
    - exists 0%N. eapply init_spinning, Hinit. }
  rewrite Hend in Hhs. destruct Hhs as [_ Hp].
  revert Hfresh Hfresh2 Hlen Hp Hne. generalize (exec b0 evs).
  intros b Hfresh Hfresh2 Hlen Hp Hne.
  split; [exact Hp|].
  cbn [exec fold_left step] in *. rewrite <- Hlen in Hin.
  apply Nat.ltb_lt in Hin. rewrite Hin in *.
  destruct (click_jumps 0 i b Hfresh (or_introl Hp) Hi4 Hne) as [Hspin _].
  pose proof (elapse_spinning t _ _ Hspin) as Hspin2.
  revert Hfresh2 Hspin2. generalize (elapse run t (goToPhase i b)).
  intros b2 [Ht _] (_ & _ & t0 & Hrot & _ & _ & Ha).
  assert (Hr3 : rotors (startAutoRotate b2) =
                [t0; {| tid := next_tid b2; remaining := N.max 1 4000;
                        period := Some 4000%N; act := NextPhase |}]).
  { unfold startAutoRotate, rotors. cbn.
    rewrite filter_app, filter_cons_True, filter_nil by reflexivity.
    unfold rotors in Hrot. rewrite Hrot. reflexivity. }
  assert (Hr4 : rotors (stopAutoRotate (startAutoRotate b2)) = [t0]).
  { unfold stopAutoRotate.
    change (autoRotateInterval (dom (startAutoRotate b2)))
      with (Some (next_tid b2)).
    cbv iota beta. rewrite rotors_clearTimer, Hr3.
    rewrite filter_cons_True, filter_cons_False, filter_nil;
      [reflexivity|cbn; intros H; apply H; reflexivity|].
    assert (Hin0 : t0 ∈ timers b2).
    { assert (H0 : t0 ∈ rotors b2)
        by (rewrite Hrot; apply list_elem_of_singleton; reflexivity).
      apply list_elem_of_filter in H0. apply H0. }
    rewrite Forall_forall in Ht. specialize (Ht t0 Hin0). lia. }
  rewrite Hr3, Hr4. split; [reflexivity|]. split; [reflexivity|].
  unfold paused. rewrite Hr4. discriminate.
Qed.

Lemma tick_stray r (b : page) :
  (currentPhase (dom b) < 4)%nat -> stray r b -> (1 <= r)%N ->
  let b' := tick_ms run b in
  ((2 <= r)%N -> stray (r - 1) b' /\
                 currentPhase (dom b') = currentPhase (dom b)) /\
  (r = 1%N -> stray 4000 b' /\
              currentPhase (dom b') = ((currentPhase (dom b) + 1) mod 4)%nat).
Proof.
  intros Hlt (t0 & Hrot & Hrem & Hper) Hr. cbn zeta.
  destruct (tick_spec b Hlt) as (Hc & Hrs & _). rewrite Hrot in Hc, Hrs.
  cbn [fmap list_fmap omap list_omap] in Hc, Hrs.
  unfold rearm in Hrs. split.
  - intros H2.
    rewrite decide_False in Hrs by (unfold is_due; cbn; lia).
    rewrite (filter_cons_False is_due) in Hc by (unfold is_due; cbn; lia).
    split.
    + exists (countdown t0). cbn. repeat split; auto. lia.
    + rewrite Hc, filter_nil. cbn [length].
      rewrite Nat.add_0_r. apply Nat.mod_small, Hlt.
  - intros ->.
    rewrite decide_True in Hrs by (unfold is_due; cbn; lia).
    rewrite (filter_cons_True is_due) in Hc by (unfold is_due; cbn; lia).
    cbn [period countdown] in Hrs. rewrite Hper in Hrs.
    split.
    + eexists. split; [exact Hrs|]. cbn. auto.
    + rewrite Hc, filter_nil. reflexivity.
Qed.

Lemma tick_drifting c (b : page) :
  drifting c b -> drifting ((c + 1) mod 16000) (tick_ms run b).
Proof.
  intros (Hc & Hp & Hrot).
  assert (Hlt : (currentPhase (dom b) < 4)%nat) by (rewrite Hp; lia).
  destruct (tick_stray _ b Hlt Hrot) as [H2 H1]; [lia|].
  destruct (decide (2 <= 4000 - c mod 4000)%N) as [Hge|Hlt2].
  - destruct (H2 Hge) as [Hrot' Hp']. split; [lia|]. split.
    + rewrite Hp', Hp. f_equal. lia.
    + replace (4000 - (c + 1) mod 16000 mod 4000)%N
        with (4000 - c mod 4000 - 1)%N by lia.
      exact Hrot'.
  - destruct H1 as [Hrot' Hp']; [lia|].
    assert (Hcs : c = 3999%N \/ c = 7999%N \/ c = 11999%N \/ c = 15999%N)
      by lia.
    split; [lia|]. split.
    + rewrite Hp', Hp. destruct Hcs as [-> | [-> | [-> | ->]]]; reflexivity.
    + replace (4000 - (c + 1) mod 16000 mod 4000)%N with 4000%N;
        [exact Hrot'|].
      destruct Hcs as [-> | [-> | [-> | ->]]]; reflexivity.
Qed.

Lemma elapse_drifting ms c (b : page) :
  drifting c b -> drifting ((c + ms) mod 16000) (elapse run ms b).
Proof.
  intros Hs. induction ms as [|ms IH] using N.peano_ind.
  - rewrite N.add_0_r, N.mod_small by apply Hs. exact Hs.
  - rewrite elapse_succ.
    replace ((c + N.succ ms) mod 16000)%N
      with (((c + ms) mod 16000 + 1) mod 16000)%N by lia.
    apply tick_drifting, IH.
Qed.

(** The pointer leaves and enters again over a running interval: the
    interval started on leaving is the one cleared on entering, and the
    earlier one keeps running. *)
Lemma leave_enter_drifting c (b : page) :
  fresh b -> spinning c b ->
  drifting c (stopAutoRotate (startAutoRotate b)).
Proof.
  intros [Ht _] (Hc & Hp & t0 & Hrot & Hrem & Hper & _).
  split; [exact Hc|]. split; [exact Hp|].
  exists t0. split; [|auto].
  assert (Hr3 : rotors (startAutoRotate b) =
                [t0; {| tid := next_tid b; remaining := N.max 1 4000;
                        period := Some 4000%N; act := NextPhase |}]).
  { unfold startAutoRotate, rotors. cbn.
    rewrite filter_app, filter_cons_True, filter_nil by reflexivity.
    unfold rotors in Hrot. rewrite Hrot. reflexivity. }
  unfold stopAutoRotate.
  change (autoRotateInterval (dom (startAutoRotate b)))
    with (Some (next_tid b)).
  cbv iota beta. rewrite rotors_clearTimer, Hr3.
  rewrite filter_cons_True, filter_cons_False, filter_nil;
    [reflexivity|cbn; intros H; apply H; reflexivity|].
  assert (Hin0 : t0 ∈ timers b).
  { assert (H0 : t0 ∈ rotors b)
      by (rewrite Hrot; apply list_elem_of_singleton; reflexivity).
    apply list_elem_of_filter in H0. apply H0. }
  rewrite Forall_forall in Ht. specialize (Ht t0 Hin0). lia.
Qed.

(** C5. Hovering does not pause the panel once an indicator has been
    clicked under the pointer.  With the pointer over the display (the
    panel paused, after any hovering and waiting without clicks), a
    click on the indicator of another phase [i] restarts the interval
    although the pointer has not left: [t] ms after the click the panel
    is at phase [(i + t / 4000) mod 4], one step every 4000 ms while
    the pointer hovers.  And when the pointer then leaves and enters
    again, the interval started by the click keeps running (the one
    cleared on entering is the one started on leaving): the panel goes
    on advancing at the same pace under the pointer. *)
Theorem hover_after_click_keeps_advancing
    (display icon title description : bool) (d : state) (b0 : page)
    (evs : list event) (i : nat) :
  initLifecyclePanel display icon title description d = Some b0 ->
  hover_ok false evs = true -> ends_inside false evs = true ->
  let b := exec b0 evs in
  (i < length phases)%nat -> (i < length (indicators d))%nat ->
  i ≠ currentPhase (dom b) ->
  paused b /\
  (forall t,
     currentPhase (dom (exec b [ClickIndicator i; Elapse t])) =
       ((i + N.to_nat (t / 4000)) mod 4)%nat) /\
  (forall t k,
     currentPhase
       (dom (exec b [ClickIndicator i; Elapse t; MouseLeave; MouseEnter;
                     Elapse k])) =
       ((i + N.to_nat ((t + k) / 4000)) mod 4)%nat).
Proof.
  intros Hinit Hok Hend. cbn zeta. intros Hi4 Hin Hne.
  change (length phases) with 4%nat in Hi4.
  assert (Hfresh2 : forall t,
            fresh (exec b0 (evs ++ [ClickIndicator i; Elapse t]))).
  { intros t. apply (tidy_exec _ _ b0 (init_tidy _ _ _ _ d b0 Hinit)). }
  unfold exec in Hfresh2. setoid_rewrite fold_left_app in Hfresh2.
  fold (exec b0 evs) in Hfresh2.
  destruct (tidy_exec _ evs b0 (init_tidy _ _ _ _ d b0 Hinit)) as [Hfresh Hlen].
  assert (Hhs : hover_state (ends_inside false evs) (exec b0 evs)).
  { apply hover_alternation; [exact Hok|]. split.
    - eapply spinning_phase, init_spinning, Hinit.
    - exists 0%N. eapply init_spinning, Hinit. }
  rewrite Hend in Hhs. destruct Hhs as [_ Hp].
  revert Hfresh Hfresh2 Hlen Hp Hne. generalize (exec b0 evs).
  intros b Hfresh Hfresh2 Hlen Hp Hne.
  split; [exact Hp|].
  cbn [exec fold_left step] in *. rewrite <- Hlen in Hin.
  apply Nat.ltb_lt in Hin. rewrite Hin in *.
  destruct (click_jumps 0 i b Hfresh (or_introl Hp) Hi4 Hne) as [Hspin _].
  assert (Hmod : forall u : N,
            N.to_nat ((4000 * N.of_nat i + u) mod 16000 / 4000) =
            ((i + N.to_nat (u / 4000)) mod 4)%nat).
  { intros u.
    assert (Hq : forall q : N, (q < 4)%N ->
              N.to_nat ((4000 * q + u) mod 16000 / 4000) =
              ((N.to_nat q + N.to_nat (u / 4000)) mod 4)%nat).
    { intros q Hq. rewrite <- N2Nat.inj_add.
      change 4%nat with (N.to_nat 4). rewrite <- N2Nat.inj_mod.
      f_equal. lia. }
    rewrite (Hq (N.of_nat i)) by lia. rewrite Nat2N.id. reflexivity. }
  split.
  - intros t.
    pose proof (elapse_spinning t _ _ Hspin) as (_ & -> & _). apply Hmod.
  - intros t k.
    pose proof (elapse_spinning t _ _ Hspin) as Hspin2.
    pose proof (leave_enter_drifting _ _ (Hfresh2 t) Hspin2) as Hd.
    pose proof (elapse_drifting k _ _ Hd) as (_ & -> & _).
    rewrite <- Hmod. f_equal. lia.
Qed.

End LifecycleJumpFacts.

(** ** Waitlist form: requests and messages *)

Section WaitlistSessionFacts.
Import Timers Dom Waitlist WaitlistExtra.

Lemma run_dom_requests a d : requests (run_dom a d) = requests d.
Proof. destruct a; reflexivity. Qed.

Lemma elapse_requests ms (b : page) :
  requests (dom (elapse run ms b)) = requests (dom b) /\
  fields (dom (elapse run ms b)) = fields (dom b).
Proof.
  split; [|apply elapse_fields].
  apply (elapse_keeps_inv run
           (fun b' => requests (dom b') = requests (dom b))).
  - intros a b' H. cbn. rewrite run_dom_requests. exact H.
  - intros b' H. exact H.
  - reflexivity.
Qed.

Lemma resume_requests r p (b : page) :
  requests (dom (submit_resume r p b)) = requests (dom b).
Proof.
  destruct r as [response|reason]; cbn [submit_resume]; [|reflexivity].
  destruct (ok response); reflexivity.
Qed.

Lemma step_requests (s : session) ev :
  exists sent,
    requests (dom (pg (step s ev))) = requests (dom (pg s)) ++ sent /\
    (length sent <= if is_click ev then 1 else 0)%nat.
Proof.
  assert (Hsame : forall b' : page,
            requests (dom b') = requests (dom (pg s)) ->
            exists sent,
              requests (dom b') = requests (dom (pg s)) ++ sent /\
              (length sent <= if is_click ev then 1 else 0)%nat).
  { intros b' H1. exists []. rewrite app_nil_r.
    split; [exact H1|]. cbn; lia. }
  destruct ev as [|i r|ms]; cbn [step].
  - destruct (submitButton (dom (pg s))) as [btn|] eqn:E;
      [|apply Hsame; reflexivity].
    destruct (disabled btn); [apply Hsame; reflexivity|].
    unfold dispatch_submit, submit_begin. rewrite E. cbn.
    eexists. split; [reflexivity|]. cbn; lia.
  - destruct (inflight s !! i) as [p|]; [|apply Hsame; reflexivity].
    cbn [pg]. apply Hsame; apply resume_requests.
  - cbn [pg]. destruct (elapse_requests ms (pg s)) as [H1 H2].
    apply Hsame; exact H1.
Qed.

(** X18. A submission is sent once and never retried: over any
    sequence of clicks, responses and timer ticks, in any session, the
    handler passes at most one body to [fetch] per click and none
    otherwise, so without a click no request is sent, whatever the
    responses. *)
Theorem one_request_per_click (s : session) (evs : list event) :
  exists sent,
    requests (dom (pg (exec s evs))) = requests (dom (pg s)) ++ sent /\
    (length sent <= length (filter is_click evs))%nat.
Proof.
  revert s. induction evs as [|ev evs IH]; intros s.
  - exists []. rewrite app_nil_r. split; [reflexivity|]. cbn; lia.
  - change (exec s (ev :: evs)) with (exec (step s ev) evs).
    destruct (step_requests s ev) as (sent1 & H1 & H2).
    destruct (IH (step s ev)) as (sent2 & G1 & G2).
    exists (sent1 ++ sent2). rewrite G1, H1, app_assoc.
    split; [reflexivity|].
    rewrite length_app, filter_cons.
    destruct (decide (is_click ev)) as [Hc|Hc];
      destruct (is_click ev); cbn [length] in *; cbn in Hc; try lia; tauto.
Qed.

Lemma tracked_weaken k k' n0 orig (b : page) :
  (k <= k')%N -> tracked k n0 orig b -> tracked k' n0 orig b.
Proof.
  intros Hk (H1 & H2 & H3 & H4). split; [exact H1|]. split; [exact H2|].
  split; [|exact H4]. eapply Forall_impl; [exact H3|]. cbn.
  intros t (Hp & Hr & Hn). split; [exact Hp|]. split; [lia|exact Hn].
Qed.

Lemma run_dom_children a d :
  next_node (run_dom a d) = next_node d /\
  children (run_dom a d) =
    filter (fun e => ~ removes (node e) a) (children d).
Proof.
  split; [destruct a; reflexivity|].
  destruct a as [n|o|n o]; cbn [run_dom with_button children removeMessage].
  - apply list_filter_iff. intros e. cbn. split; auto.
  - symmetry. apply filter_all. apply Forall_forall. intros e _ H. exact H.
  - apply list_filter_iff. intros e. cbn. split; auto.
Qed.

(** The due callbacks remove the messages whose timeout is due and
    nothing else. *)
Lemma fold_tracked n0 orig (kept due : list (timer action)) : forall d msgs,
  Forall (fun e => (node e < n0)%nat) orig ->
  Forall (fun t => forall n, removes n (act t) -> (n0 <= n)%nat) due ->
  children d = orig ++ msgs ->
  Forall (fun m => Exists (fun t => removes (node m) (act t)) (due ++ kept))
    msgs ->
  let d' := fold_left (fun d t => run_dom (act t) d) due d in
  next_node d' = next_node d /\
  exists msgs',
    children d' = orig ++ msgs' /\
    Forall (fun m => Exists (fun t => removes (node m) (act t)) kept) msgs'.
Proof.
  induction due as [|t due IH]; intros d msgs Ho Hd Hc Hm; cbn zeta.
  - cbn [fold_left]. split; [reflexivity|]. exists msgs. auto.
  - cbn [fold_left]. inversion Hd as [|? ? Ht Hd']; subst.
    destruct (run_dom_children (act t) d) as [Hn Hch].
    destruct (IH (run_dom (act t) d)
                (filter (fun e => ~ removes (node e) (act t)) msgs) Ho Hd')
      as (Hn' & msgs' & Hc' & Hm').
    + rewrite Hch, Hc, filter_app. f_equal.
      apply filter_all. eapply Forall_impl; [exact Ho|]. cbn.
      intros e He Hr. specialize (Ht (node e) Hr). lia.
    + apply Forall_forall. intros m Hin.
      apply list_elem_of_filter in Hin as [Hnr Hin].
      rewrite Forall_forall in Hm. specialize (Hm m Hin).
      cbn [app] in Hm. apply Exists_cons in Hm as [Hm | Hm];
        [contradiction|exact Hm].
    + split; [congruence|]. exists msgs'. auto.
Qed.

Lemma tracked_tick k n0 orig (b : page) :
  tracked (N.succ k) n0 orig b -> tracked k n0 orig (tick_ms run b).
Proof.
  intros (H1 & H2 & H3 & msgs & Hc & Hm).
  assert (Hdue : Forall (fun t : timer action =>
                    forall n, removes n (act t) -> (n0 <= n)%nat)
                  (filter is_due (countdown <$> timers b))).
  { apply (Forall_due_gen _ _ _ H3). intros t (_ & _ & Hn) _. exact Hn. }
  assert (Hsplit : Forall (fun m => Exists (fun t => removes (node m) (act t))
                     (filter is_due (countdown <$> timers b) ++
                      omap rearm (countdown <$> timers b))) msgs).
  { eapply Forall_impl; [exact Hm|]. cbn. intros m Hex.
    apply Exists_exists in Hex as (t & Hin & Hr).
    apply Exists_exists. exists (countdown t). split; [|exact Hr].
    apply elem_of_app.
    destruct (decide (remaining t <= 1)%N) as [Hle|Hgt].
    - left. apply elem_of_due. exists t. auto.
    - right. apply elem_of_kept. exists t. split; [exact Hin|].
      left. split; [lia|reflexivity]. }
  destruct (fold_tracked n0 orig _ _ (dom b) msgs H2 Hdue Hc Hsplit)
    as (Hn & msgs' & Hc' & Hm').
  unfold tracked. rewrite tick_dom, tick_timers.
  split; [rewrite Hn; exact H1|]. split; [exact H2|]. split.
  - apply (Forall_kept_gen _ _ _ H3).
    + intros t (Hp & Hr & Hn') Hge. split; [exact Hp|].
      split; [cbn; lia|exact Hn'].
    + intros t p (Hp & _) _ Hper. congruence.
  - exists msgs'. auto.
Qed.

Lemma tracked_elapse ms : forall k n0 orig (b : page),
  tracked (k + ms) n0 orig b -> tracked k n0 orig (elapse run ms b).
Proof.
  induction ms as [|ms IH] using N.peano_ind; intros k n0 orig b H.
  - rewrite N.add_0_r in H. exact H.
  - rewrite elapse_succ. apply tracked_tick, IH.
    replace (N.succ k + ms)%N with (k + N.succ ms)%N by lia. exact H.
Qed.

Lemma tracked_done n0 orig (b : page) :
  tracked 0 n0 orig b -> timers b = [] /\ children (dom b) = orig.
Proof.
  intros (_ & _ & H3 & msgs & Hc & Hm).
  assert (Ht : timers b = []).
  { destruct (timers b) as [|t ts]; [reflexivity|].
    inversion H3 as [|? ? (_ & Hr & _) _]; subst. lia. }
  split; [exact Ht|]. rewrite Ht in Hm.
  destruct msgs as [|m msgs]; [rewrite Hc; apply app_nil_r|].
  inversion Hm as [|? ? Hex _]; subst. inversion Hex.
Qed.

Lemma tracked_append cls text a1 tid1 rest n0 orig (b b' : page) d :
  let n := next_node d in
  children d = children (dom b) -> next_node d = next_node (dom b) ->
  removes n a1 -> (forall m, removes m a1 -> m = n) ->
  Forall (fun t : timer action =>
            period t = None /\ (1 <= remaining t <= 5000)%N /\
            forall m, ~ removes m (act t)) rest ->
  dom b' = fst (appendMessage cls text d) ->
  timers b' =
    timers b ++
    {| tid := tid1; remaining := 5000; period := None; act := a1 |} :: rest ->
  tracked 5000 n0 orig b -> tracked 5000 n0 orig b'.
Proof.
  cbn zeta.
  intros Hch Hnn Hrem Honly Hrest Hdom Htm (H1 & H2 & H3 & msgs & Hc & Hm).
  unfold tracked. rewrite Hdom, Htm.
  cbn [fst appendMessage next_node children].
  split; [lia|]. split; [exact H2|]. split.
  - apply Forall_app. split; [exact H3|]. constructor.
    + split; [reflexivity|]. split; [cbn; lia|].
      intros m Hr. cbn [act] in Hr. rewrite (Honly m Hr). lia.
    + eapply Forall_impl; [exact Hrest|]. cbn.
      intros t (Hp & Hr & Hn). split; [exact Hp|]. split; [exact Hr|].
      intros m Hr'. destruct (Hn m Hr').
  - exists (msgs ++ [{| node := next_node d; className := cls; html := text |}]).
    split; [rewrite Hch, Hc, app_assoc; reflexivity|].
    apply Forall_app. split.
    + eapply Forall_impl; [exact Hm|]. cbn. intros m Hex.
      apply Exists_app. left. exact Hex.
    + constructor; [|constructor]. apply Exists_app. right.
      apply Exists_cons_hd. exact Hrem.
Qed.

Lemma tracked_resume r p n0 orig (b : page) :
  tracked 5000 n0 orig b -> tracked 5000 n0 orig (submit_resume r p b).
Proof.
  intros H.
  assert (He : forall e, tracked 5000 n0 orig (on_error e p b)).
  { intros e. unfold on_error.
    set (d := with_button _ (console_error _ (dom b))).
    apply (tracked_append "form-error" error_text
             (ResetAfterError (next_node d) (originalButtonText p))
             (next_tid b) [] n0 orig b _ d);
      try reflexivity; try exact H.
    - intros m Hr. symmetry. exact Hr.
    - constructor. }
  destruct r as [response|reason]; cbn [submit_resume]; [|apply He].
  destruct (ok response); [|apply He].
  unfold on_success.
  set (d := reset (with_button _ (dom b))).
  apply (tracked_append "form-success" success_text
           (RemoveSuccessMessage (next_node d)) (next_tid b)
           [{| tid := S (next_tid b); remaining := 3000; period := None;
               act := ResetButtonAfterSuccess (originalButtonText p) |}]
           n0 orig b _ d); try reflexivity; try exact H.
  - intros m Hr. symmetry. exact Hr.
  - constructor; [|constructor]. split; [reflexivity|].
    split; [cbn; lia|]. intros m Hr. exact Hr.
  - cbn. rewrite <- app_assoc. reflexivity.
Qed.

Lemma tracked_step n0 orig (s : session) ev :
  tracked 5000 n0 orig (pg s) -> tracked 5000 n0 orig (pg (step s ev)).
Proof.
  intros H. destruct ev as [|i r|ms]; cbn [step].
  - destruct (submitButton (dom (pg s))) as [btn|] eqn:E; [|exact H].
    destruct (disabled btn); [exact H|].
    unfold dispatch_submit, submit_begin. rewrite E. exact H.
  - destruct (inflight s !! i) as [p|]; [|exact H].
    apply tracked_resume, H.
  - cbn [pg]. apply (tracked_weaken (5000 - ms)); [lia|].
    destruct (decide (ms <= 5000)%N) as [Hle|Hgt].
    + apply tracked_elapse.
      replace (5000 - ms + ms)%N with 5000%N by lia. exact H.
    + replace (5000 - ms)%N with 0%N by lia. apply tracked_elapse.
      apply (tracked_weaken 5000); [lia|exact H].
Qed.

(** X19. No message of the handler outlives its five seconds: on a
    form whose children are older than the nodes created later, after
    any sequence of clicks, responses and timer ticks followed by 5000
    ms without a response, the children of the form are exactly those it
    had when the handler was attached, and no timeout is pending. *)
Theorem messages_removed_within_5s (form : state) (evs : list event) :
  Forall (fun e => (node e < next_node form)%nat) (children form) ->
  let s := exec (initWaitlistForm form) (evs ++ [Elapse 5000]) in
  children (dom (pg s)) = children form /\ timers (pg s) = [].
Proof.
  intros Hform. cbn zeta. unfold exec. rewrite fold_left_app.
  cbn [fold_left step pg].
  assert (H0 : tracked 5000 (next_node form) (children form)
                 (pg (initWaitlistForm form))).
  { split; [cbn; lia|]. split; [exact Hform|]. split; [constructor|].
    exists []. split; [symmetry; apply app_nil_r|constructor]. }
  assert (H : tracked 5000 (next_node form) (children form)
                (pg (fold_left step evs (initWaitlistForm form)))).
  { revert H0. generalize (initWaitlistForm form).
    induction evs as [|ev evs IH]; intros s H0; [exact H0|].
    apply IH, tracked_step, H0. }
  revert H. generalize (pg (fold_left step evs (initWaitlistForm form))).
  intros b H.
  destruct (tracked_done _ _ _ (tracked_elapse 5000 0 _ _ b H)) as [Ht Hc].
  auto.
Qed.

End WaitlistSessionFacts.

(** ** Smooth scrolling: the click feedback *)

Section SmoothScrollFacts.
Import Timers Dom SmoothScroll.

Lemma settling_mono d0 (P P' : action -> Prop) d :
  (forall a, P a -> P' a) -> settling d0 P d -> settling d0 P' d.
Proof.
  intros HP (Hl & Hhl & Ha & Hs). split; [exact Hl|]. split; [exact Hhl|].
  split.
  - intros i a Hi.
    destruct (Ha i a Hi) as (a0 & H0 & Hh & Hg & Ht & Hn & Hc & Hk).
    exists a0. repeat (split; [assumption|]). split; [|exact Hk].
    intros c Hin.
    destruct (Hc c Hin) as [H | [H | [[H1 H2] | [[H1 H2] | H]]]]; eauto 8.
  - intros t. destruct (Hs t) as [H1 H2]. split.
    + destruct H1 as [H | [H | [H | H]]]; eauto 8.
    + destruct H2 as [H | [H | H]]; auto.
Qed.

(** The classes of anchor [i] are rewritten by [f]. *)
Lemma settling_classes d0 (P P' : action -> Prop) i f d :
  settling d0 P d ->
  (forall l c, c ∈ f l ->
     c ∈ l \/ (c = "clicked" /\ P' (RemoveClicked i)) \/
     (c = "active" /\ P' (RemoveActive i))) ->
  (forall l c, c ∈ l -> c ≠ "clicked" -> c ≠ "active" -> c ∈ f l) ->
  (forall a, P a ->
     P' a \/ (a = RemoveClicked i /\ forall l, "clicked" ∉ f l) \/
     (a = RemoveActive i /\ forall l, "active" ∉ f l)) ->
  settling d0 P' (update_classes i f d).
Proof.
  intros (Hl & Hhl & Ha & Hs) Hf Hkeep HP. split; [|split; [exact Hhl|split]].
  - cbn. rewrite length_alter. exact Hl.
  - intros j a Hj. cbn [update_classes anchors] in Hj.
    destruct (decide (i = j)) as [<-|Hne].
    + rewrite list_lookup_alter_eq in Hj.
      destruct (anchors d !! i) as [a1|] eqn:E; [|discriminate].
      injection Hj as <-.
      destruct (Ha i a1 E) as (a0 & H0 & Hh & Hg & Ht & Hn & Hc & Hk).
      exists a0. repeat (split; [assumption|]). split.
      * intros c Hin. cbn in Hin.
        destruct (Hf _ _ Hin) as [Hin' | [H | H]]; [|auto|auto 6].
        destruct (Hc c Hin') as [H | [H | [[H1 H2] | [[H1 H2] | H]]]];
          eauto 8.
        -- subst c. destruct (HP _ H2) as [E' | [[_ E'] | [E' _]]];
             [eauto 8|destruct (E' _ Hin)|discriminate].
        -- subst c. destruct (HP _ H2) as [E' | [[E' _] | [_ E']]];
             [eauto 8|discriminate|destruct (E' _ Hin)].
      * intros c Hin Hn1 Hn2. cbn. apply Hkeep; auto.
    + rewrite list_lookup_alter_ne in Hj by exact Hne.
      destruct (Ha j a Hj) as (a0 & H0 & Hh & Hg & Ht & Hn & Hc & Hk).
      exists a0. repeat (split; [assumption|]). split; [|exact Hk].
      intros c Hin.
      destruct (Hc c Hin) as [H | [H | [[H1 H2] | [[H1 H2] | H]]]]; eauto 8.
      * right. right. left. split; [exact H1|].
        destruct (HP _ H2) as [E | [[E _] | [E _]]];
          [exact E|congruence|discriminate].
      * right. right. right. left. split; [exact H1|].
        destruct (HP _ H2) as [E | [[E _] | [E _]]];
          [exact E|discriminate|congruence].
  - intros t. destruct (Hs t) as [H1 H2]. cbn [update_classes styles]. split.
    + destruct H1 as [H | [H | [H | H]]]; auto;
        destruct (HP _ H) as [E | [[E _] | [E _]]]; try discriminate; auto.
    + destruct H2 as [H | [H | H]]; auto.
      destruct (HP _ H) as [E | [[E _] | [E _]]]; try discriminate; auto.
Qed.

(** The style of target [t] is rewritten by [f]. *)
Lemma settling_style d0 (P P' : action -> Prop) t f d :
  settling d0 P d ->
  (forall a, P a -> P' a \/ a = ShadowNone t \/ a = ClearTransition t) ->
  (forall s,
     (transition (f s) = "" \/ P' (ShadowNone t) \/ P' (ClearTransition t)) /\
     (boxShadow (f s) = "none" \/ P' (ShadowNone t) \/
      (boxShadow (f s) = boxShadow s /\
       (P (ShadowNone t) -> P' (ShadowNone t))))) ->
  settling d0 P' (update_style t f d).
Proof.
  intros (Hl & Hhl & Ha & Hs) HP Hf. split; [exact Hl|].
  split; [exact Hhl|]. split.
  - intros i a Hi.
    destruct (Ha i a Hi) as (a0 & H0 & Hh & Hg & Ht & Hn & Hc & Hk).
    exists a0. repeat (split; [assumption|]). split; [|exact Hk].
    intros c Hin.
    destruct (Hc c Hin) as [H | [H | [[H1 H2] | [[H1 H2] | H]]]].
    + left. exact H.
    + right. left. exact H.
    + right. right. left. split; [exact H1|].
      destruct (HP _ H2) as [E | [E | E]]; [exact E|discriminate|discriminate].
    + right. right. right. left. split; [exact H1|].
      destruct (HP _ H2) as [E | [E | E]]; [exact E|discriminate|discriminate].
    + right. right. right. right. exact H.
  - intros t'. destruct (Hs t') as [H1 H2]. cbn [update_style styles].
    destruct (decide (t' = t)) as [->|Hne].
    + destruct (Hf (styles d t)) as [F1 F2]. split.
      * destruct F1 as [F | [F | F]]; auto.
      * destruct F2 as [F | [F | [F Fsh]]]; auto.
        rewrite F. destruct H2 as [H | [H | H]]; auto.
    + split.
      * destruct H1 as [H | [H | [H | H]]]; auto.
        -- destruct (HP _ H) as [E | [E | E]]; [auto|congruence|discriminate].
        -- destruct (HP _ H) as [E | [E | E]]; [auto 6|discriminate|congruence].
      * destruct H2 as [H | [H | H]]; auto.
        destruct (HP _ H) as [E | [E | E]]; [auto|congruence|discriminate].
Qed.

(** The callbacks keep the document settling. *)
Lemma run_settling d0 (P P' : action -> Prop) a (b : page) :
  settling d0 P (dom b) ->
  (forall a', P a' -> a' = a \/ P' a') ->
  (forall t, a = ShadowNone t -> P' (ClearTransition t)) ->
  settling d0 P' (dom (run a b)).
Proof.
  intros H HP Hnew. destruct a as [i|i|t|t]; cbn [run].
  - apply (settling_classes d0 P P' i _ _ H).
    + intros l c Hin. apply elem_of_class_remove in Hin as [_ Hin]. auto.
    + intros l c Hin Hn _. apply elem_of_class_remove. auto.
    + intros a' Ha'. destruct (HP _ Ha') as [-> | Ha'']; [|auto].
      right. left. split; [reflexivity|]. intros l Hin.
      apply elem_of_class_remove in Hin as [Hn _]. apply Hn. reflexivity.
  - apply (settling_classes d0 P P' i _ _ H).
    + intros l c Hin. apply elem_of_class_remove in Hin as [_ Hin]. auto.
    + intros l c Hin _ Hn. apply elem_of_class_remove. auto.
    + intros a' Ha'. destruct (HP _ Ha') as [-> | Ha'']; [|auto].
      right. right. split; [reflexivity|]. intros l Hin.
      apply elem_of_class_remove in Hin as [Hn _]. apply Hn. reflexivity.
  - apply (settling_style d0 P P' t _ _ H).
    + intros a' Ha'. destruct (HP _ Ha') as [-> | Ha'']; auto.
    + intros s. cbn. split; [|auto]. right. right. apply Hnew. reflexivity.
  - apply (settling_style d0 P P' t _ _ H).
    + intros a' Ha'. destruct (HP _ Ha') as [-> | Ha'']; auto.
    + intros s. cbn. split; [auto|]. right. right. split; [reflexivity|].
      intros Hp. destruct (HP _ Hp) as [E | E]; [discriminate|exact E].
Qed.

Lemma run_timers_grow a (b : page) :
  exists new,
    timers (run a b) = timers b ++ new /\
    (forall t, a = ShadowNone t ->
       Exists (fun tm => act tm = ClearTransition t) new) /\
    Forall (fun tm => period tm = None /\ remaining tm = 500%N /\
                      exists t, a = ShadowNone t /\
                                act tm = ClearTransition t) new.
Proof.
  destruct a as [i|i|t|t]; cbn [run].
  - exists []. rewrite app_nil_r. split; [reflexivity|].
    split; [discriminate|constructor].
  - exists []. rewrite app_nil_r. split; [reflexivity|].
    split; [discriminate|constructor].
  - eexists. split; [reflexivity|]. split.
    + intros t' [= <-]. apply Exists_cons_hd. reflexivity.
    + constructor; [|constructor]. cbn. eauto.
  - exists []. rewrite app_nil_r. split; [reflexivity|].
    split; [discriminate|constructor].
Qed.

Lemma run_all_settling d0 k due : forall b : page,
  Forall (fun tm => forall t, act tm = ShadowNone t -> (500 <= k)%N) due ->
  Forall (within k) (timers b) ->
  settling d0 (pending_in (due ++ timers b)) (dom b) ->
  settled_within k d0 (run_all run due b).
Proof.
  induction due as [|tm due IH]; intros b Hd Hw Hs.
  - split; assumption.
  - rewrite run_all_cons. inversion Hd as [|? ? Htm Hd']; subst.
    destruct (run_timers_grow (act tm) b) as (new & Hnew & Hex & Hall).
    apply IH; [exact Hd'| |].
    + rewrite Hnew. apply Forall_app. split; [exact Hw|].
      eapply Forall_impl; [exact Hall|]. cbn.
      intros t' (Hp & Hr & t & Ha & Hact). unfold within.
      rewrite Hp, Hr, Hact. split; [reflexivity|]. split; [lia|].
      apply (Htm t Ha).
    + apply (run_settling d0 (pending_in ((tm :: due) ++ timers b))).
      * exact Hs.
      * intros a' Ha'. unfold pending_in in *. cbn [app] in Ha'.
        apply Exists_cons in Ha' as [Ha' | Ha']; [left; symmetry; exact Ha'|].
        right. rewrite Hnew, app_assoc. apply Exists_app. left. exact Ha'.
      * intros t Ha. unfold pending_in. rewrite Hnew.
        apply Exists_app. right. apply Exists_app. right. apply Hex, Ha.
Qed.

Lemma settled_tick k d0 (b : page) :
  settled_within (N.succ k) d0 b -> settled_within k d0 (tick_ms run b).
Proof.
  intros [Hw Hs]. unfold tick_ms. apply run_all_settling.
  - apply (Forall_due_gen _ _ _ Hw).
    intros tm (_ & Hr1 & Hb) Hle t Ha. cbn [act countdown] in Ha.
    rewrite Ha in Hb. lia.
  - cbn [timers]. apply (Forall_kept_gen _ _ _ Hw).
    + intros tm (Hp & Hr & Hb) Hge. split; [exact Hp|]. split; [cbn; lia|].
      cbn [act countdown remaining]. destruct (act tm); lia.
    + intros tm p (Hp & _) _ Hper. congruence.
  - cbn [timers dom]. eapply settling_mono; [|exact Hs].
    intros a Ha. unfold pending_in in *.
    apply Exists_exists in Ha as (tm & Hin & Hact).
    apply Exists_exists. exists (countdown tm). split; [|exact Hact].
    apply elem_of_app.
    destruct (decide (remaining tm <= 1)%N) as [Hle|Hgt].
    + left. apply elem_of_due. exists tm. auto.
    + right. apply elem_of_kept. exists tm. split; [exact Hin|].
      left. split; [lia|reflexivity].
Qed.

Lemma settled_weaken k k' d0 (b : page) :
  (k <= k')%N -> settled_within k d0 b -> settled_within k' d0 b.
Proof.
  intros Hk [Hw Hs]. split; [|exact Hs].
  eapply Forall_impl; [exact Hw|]. cbn. intros tm (Hp & Hr & Hb).
  split; [exact Hp|]. split; [exact Hr|]. destruct (act tm); lia.
Qed.

Lemma settled_elapse ms : forall k d0 (b : page),
  settled_within (k + ms) d0 b -> settled_within k d0 (elapse run ms b).
Proof.
  induction ms as [|ms IH] using N.peano_ind; intros k d0 b H.
  - rewrite N.add_0_r in H. exact H.
  - rewrite elapse_succ. apply settled_tick, IH.
    replace (N.succ k + ms)%N with (k + N.succ ms)%N by lia. exact H.
Qed.

(** A listener adds class [c] to anchor [i] and sets the timeout [rm]
    that removes it. *)
Lemma settled_add_class d0 i c rm delay (b : page) :
  (c = "clicked" /\ rm = RemoveClicked i) \/
  (c = "active" /\ rm = RemoveActive i) ->
  (1 <= delay <= 1500)%N ->
  settled_within 1500 d0 b ->
  settled_within 1500 d0
    (fst (setTimeout rm delay (map_dom (update_classes i (class_add c)) b))).
Proof.
  intros Hc Hdelay [Hw Hs]. split.
  - cbn. apply Forall_app. split; [exact Hw|]. constructor; [|constructor].
    split; [reflexivity|]. split; [cbn; lia|].
    cbn. destruct Hc as [[_ ->] | [_ ->]]; lia.
  - cbn [fst setTimeout register dom timers map_dom with_dom].
    assert (Hnew : pending_in
              (timers b ++ [{| tid := next_tid b; remaining := N.max 1 delay;
                               period := None; act := rm |}]) rm).
    { apply Exists_app. right. apply Exists_cons_hd. reflexivity. }
    apply (settling_classes d0 (pending_in (timers b)) _ i _ _ Hs).
    + intros l c' Hin. apply elem_of_class_add in Hin as [-> | Hin]; [|auto].
      right. destruct Hc as [[-> ->] | [-> ->]]; auto.
    + intros l c' Hin _ _. apply elem_of_class_add. auto.
    + intros a Ha. left. apply Exists_app. left. exact Ha.
Qed.

Lemma settled_click d0 i (b : page) :
  settled_within 1500 d0 b -> settled_within 1500 d0 (click i b).
Proof.
  intros H. unfold click.
  destruct (anchors (dom b) !! i) as [a|]; [|exact H].
  assert (H1 : settled_within 1500 d0
                 (if getUpdates a then on_click_updates i b else b)).
  { destruct (getUpdates a); [|exact H].
    apply (settled_add_class d0 i "clicked" (RemoveClicked i) 300); auto. lia. }
  revert H1. generalize (if getUpdates a then on_click_updates i b else b).
  clear H b. intros b H. unfold on_click.
  destruct (bool_decide _); [exact H|].
  destruct (target a) as [t|]; [|exact H].
  pose proof (settled_add_class d0 i "active" (RemoveActive i) 1000 b
                (or_intror (conj eq_refl eq_refl)) ltac:(lia) H) as H2.
  revert H2.
  generalize (fst (setTimeout (RemoveActive i) 1000
                     (map_dom (update_classes i (class_add "active")) b))).
  clear H b. intros b [Hw Hs].
  destruct (prefersReducedMotion (dom b)); [split; assumption|].
  split.
  - cbn. apply Forall_app. split; [exact Hw|]. constructor; [|constructor].
    split; [reflexivity|]. split; cbn; lia.
  - cbn [fst setTimeout register dom timers map_dom with_dom].
    assert (Hnew : pending_in
              (timers b ++ [{| tid := next_tid b; remaining := N.max 1 1000;
                               period := None; act := ShadowNone t |}])
              (ShadowNone t)).
    { apply Exists_app. right. apply Exists_cons_hd. reflexivity. }
    apply (settling_style d0 (pending_in (timers b))).
    + exact Hs.
    + intros a' Ha'. left. apply Exists_app. left. exact Ha'.
    + intros s. split; auto.
Qed.

(** [highlightNavigation] writes only the class [active], and only on
    its navigation links. *)
Lemma settling_highlight d0 (P : action -> Prop) y tops sections d :
  highlighting d = true ->
  settling d0 P d ->
  settling d0 P
    (highlightNavigation y sections
       {| anchors := anchors d; rect_top := tops; styles := styles d;
          pageYOffset := y;
          prefersReducedMotion := prefersReducedMotion d;
          highlighting := highlighting d;
          scrollTo := scrollTo d |}).
Proof.
  intros Ehl (Hl & Hhl & Ha & Hs). split; [|split; [exact Hhl|split]].
  - cbn. rewrite length_fmap. exact Hl.
  - intros i a Hi. cbn [highlightNavigation anchors] in Hi.
    rewrite list_lookup_fmap in Hi.
    destruct (anchors d !! i) as [a1|] eqn:E; [|discriminate].
    injection Hi as <-.
    destruct (Ha i a1 E) as (a0 & H0 & Hh & Hg & Ht & Hn & Hc & Hk).
    exists a0. split; [exact H0|]. unfold highlight_anchor.
    destruct (navLink a1) eqn:En;
      [|rewrite En; repeat (split; [assumption|]); auto].
    cbn [with_classes href getUpdates target navLink classList].
    rewrite En. repeat (split; [assumption|]). split.
    + intros c Hin.
      assert (Hcases : c = "active" \/
                       c ∈ class_remove "active" (classList a1)).
      { destruct (bool_decide _); [|auto].
        apply elem_of_class_add in Hin. tauto. }
      destruct Hcases as [-> | Hin1].
      * right. right. right. right. split; [reflexivity|].
        split; congruence.
      * apply elem_of_class_remove in Hin1 as [_ Hin1]. apply Hc, Hin1.
    + intros c Hin Hn1 Hn2.
      assert (Hin1 : c ∈ class_remove "active" (classList a1))
        by (apply elem_of_class_remove; split; [exact Hn2|apply Hk; auto]).
      destruct (bool_decide _); [|exact Hin1].
      apply elem_of_class_add. auto.
  - intros t. apply (Hs t).
Qed.

Lemma settled_step d0 (b : page) ev :
  settled_within 1500 d0 b -> settled_within 1500 d0 (step b ev).
Proof.
  intros H. destruct ev as [i|y tops sections|ms]; cbn [step].
  - apply settled_click, H.
  - destruct H as [Hw Hs]. split; [exact Hw|].
    cbn [map_dom with_dom dom timers]. cbv zeta. cbn [highlighting].
    destruct (highlighting (dom b)) eqn:Ehl.
    + rewrite <- Ehl. apply settling_highlight; [exact Ehl|exact Hs].
    + destruct Hs as (Hl & Hhl & Ha & Hs).
      split; [exact Hl|]. split; [rewrite <- Ehl; exact Hhl|].
      split; [exact Ha|exact Hs].
  - apply (settled_weaken (1500 - ms)); [lia|].
    destruct (decide (ms <= 1500)%N) as [Hle|Hgt].
    + apply settled_elapse.
      replace (1500 - ms + ms)%N with 1500%N by lia. exact H.
    + replace (1500 - ms)%N with 0%N by lia. apply settled_elapse.
      apply (settled_weaken 1500); [lia|exact H].
Qed.

Lemma init_settled (d : state) : settled_within 1500 d (initSmoothScrolling d).
Proof.
  split; [constructor|]. split; [|split; [reflexivity|split]].
  - cbn. apply length_fmap.
  - intros i a Hi. cbn in Hi. rewrite list_lookup_fmap in Hi.
    destruct (anchors d !! i) as [a0|]; [|discriminate].
    injection Hi as <-. exists a0. split; [reflexivity|].
    destruct (getUpdates a0) eqn:E; cbn; rewrite ?E.
    + repeat (split; [reflexivity|]). split.
      * intros c Hin. apply elem_of_class_add in Hin as [-> | Hin]; auto.
      * intros c Hin _ _. apply elem_of_class_add.
        destruct Hin as [Hin | [-> _]]; auto.
    + repeat (split; [auto|]).
      intros c [Hin | [_ Hf]] _ _; [exact Hin|discriminate].
  - intros t. cbn. auto.
Qed.

(** X20. The feedback of a click on an anchor is transient, scrolling
    and the highlighting of the navigation included: after any sequence
    of clicks, scroll events (each one runs [highlightNavigation] when
    it is attached) and timer ticks followed by 1500 ms without an
    event, no timeout of the click listeners is pending; an anchor has
    the class [clicked] only if it had it before
    [initSmoothScrolling]; it has the class [active] only if it had it
    before or is a navigation link of [highlightNavigation]; it has
    [nav-updates-btn] exactly when it had it or is a Get Updates
    button; and on every element the transition is the original one or
    empty and the box shadow the original one or [none]. *)
Theorem scroll_feedback_is_transient (d : state) (evs : list event) :
  let b := exec (initSmoothScrolling d) (evs ++ [Elapse 1500]) in
  timers b = [] /\
  length (anchors (dom b)) = length (anchors d) /\
  (forall i a, anchors (dom b) !! i = Some a ->
     exists a0, anchors d !! i = Some a0 /\
       href a = href a0 /\ target a = target a0 /\
       ("clicked" ∈ classList a -> "clicked" ∈ classList a0) /\
       ("active" ∈ classList a ->
          "active" ∈ classList a0 \/
          (highlighting d = true /\ navLink a0 = true)) /\
       ("nav-updates-btn" ∈ classList a <->
          "nav-updates-btn" ∈ classList a0 \/ getUpdates a0 = true)) /\
  (forall t,
     (transition (styles (dom b) t) = transition (styles d t) \/
      transition (styles (dom b) t) = "") /\
     (boxShadow (styles (dom b) t) = boxShadow (styles d t) \/
      boxShadow (styles (dom b) t) = "none")).
Proof.
  cbn zeta. unfold exec. rewrite fold_left_app. cbn [fold_left step].
  assert (H : settled_within 1500 d (fold_left step evs (initSmoothScrolling d))).
  { assert (Hgen : forall b : page, settled_within 1500 d b ->
              settled_within 1500 d (fold_left step evs b)).
    { induction evs as [|ev evs IH]; intros b H; [exact H|].
      apply IH, settled_step, H. }
    apply Hgen, init_settled. }
  revert H. generalize (fold_left step evs (initSmoothScrolling d)).
  intros b H. apply (settled_elapse 1500 0) in H.
  destruct H as [Hw (Hl & Hhl & Ha & Hs)].
  assert (Ht : timers (elapse run 1500 b) = []).
  { destruct (timers (elapse run 1500 b)) as [|tm ts]; [reflexivity|].
    inversion Hw as [|? ? (_ & Hr & Hb) _]; subst.
    destruct (act tm); lia. }
  rewrite Ht in Ha, Hs.
  assert (Hno : forall a, ~ pending_in [] a) by (intros a Hp; inversion Hp).
  split; [exact Ht|]. split; [exact Hl|]. split.
  - intros i a Hi.
    destruct (Ha i a Hi) as (a0 & H0 & Hh & Hg & Htg & Hn & Hc & Hk).
    exists a0. repeat (split; [assumption|]). split; [|split; [|split]].
    + intros Hin.
      destruct (Hc _ Hin) as [H | [[H _] | [[_ H] | [[H _] | [H _]]]]];
        [exact H|discriminate|destruct (Hno _ H)|discriminate|discriminate].
    + intros Hin.
      destruct (Hc _ Hin) as [H | [[H _] | [[H _] | [[_ H] | [_ H]]]]];
        [auto|discriminate|discriminate|destruct (Hno _ H)|auto].
    + intros Hin.
      destruct (Hc _ Hin) as [H | [[_ H] | [[H _] | [[H _] | [H _]]]]];
        [auto|auto|discriminate|discriminate|discriminate].
    + intros Hin. apply Hk; [|discriminate|discriminate].
      destruct Hin as [Hin | Hg1]; auto.
  - intros t. destruct (Hs t) as [H1 H2]. split.
    + destruct H1 as [H | [H | [H | H]]];
        [auto|auto|destruct (Hno _ H)|destruct (Hno _ H)].
    + destruct H2 as [H | [H | H]]; [auto|auto|destruct (Hno _ H)].
Qed.

Lemma plain_run d0 calls a (b : page) :
  removes_class a -> plain d0 calls b -> plain d0 calls (run a b).
Proof.
  intros Ha H. destruct a as [i|i|t|t]; try contradiction; exact H.
Qed.

Lemma plain_tick d0 calls (b : page) :
  plain d0 calls b -> plain d0 calls (tick_ms run b).
Proof.
  intros (Hr & Hs & Ht & Hc). unfold tick_ms. apply run_all_keeps.
  - apply (Forall_due_gen _ _ _ Ht). intros tm Htm _ b'.
    apply plain_run. exact Htm.
  - split; [exact Hr|]. split; [exact Hs|]. split; [|exact Hc].
    cbn [timers]. apply (Forall_kept_gen _ _ _ Ht).
    + intros tm H _. exact H.
    + intros tm p H _ _. exact H.
Qed.

Lemma plain_elapse d0 calls ms (b : page) :
  plain d0 calls b -> plain d0 calls (elapse run ms b).
Proof.
  intros H. induction ms as [|ms IH] using N.peano_ind; [exact H|].
  rewrite elapse_succ. apply plain_tick, IH.
Qed.

Lemma plain_step d0 calls (b : page) ev :
  plain d0 calls b ->
  exists new,
    plain d0 (calls ++ new) (step b ev) /\
    (length new <= if is_click ev then 1 else 0)%nat /\
    Forall (fun c => snd c = Auto) new.
Proof.
  intros H.
  assert (Hsame : forall b' : page, plain d0 calls b' ->
            exists new,
              plain d0 (calls ++ new) b' /\
              (length new <= if is_click ev then 1 else 0)%nat /\
              Forall (fun c => snd c = Auto) new).
  { intros b' Hb'. exists []. rewrite app_nil_r.
    split; [exact Hb'|]. split; [cbn; lia|constructor]. }
  destruct ev as [i|y tops sections|ms]; cbn [step].
  - unfold click. destruct (anchors (dom b) !! i) as [a|]; [|apply Hsame, H].
    assert (H1 : plain d0 calls
                   (if getUpdates a then on_click_updates i b else b)).
    { destruct (getUpdates a); [|exact H].
      destruct H as (Hr & Hs & Ht & Hc).
      split; [exact Hr|]. split; [exact Hs|]. split; [|exact Hc].
      cbn. apply Forall_app. split; [exact Ht|].
      constructor; [exact I|constructor]. }
    revert H1. generalize (if getUpdates a then on_click_updates i b else b).
    clear H b. intros b H. unfold on_click.
    destruct (bool_decide _); [apply Hsame, H|].
    destruct (target a) as [t|]; [|apply Hsame, H].
    destruct H as (Hr & Hs & Ht & Hc).
    cbn [fst setTimeout register dom map_dom with_dom update_classes
         prefersReducedMotion rect_top pageYOffset].
    rewrite Hr.
    exists [((rect_top (dom b) t + pageYOffset (dom b) - 80)%Q, Auto)].
    split; [|split; [cbn; lia|]].
    + split; [exact Hr|]. split; [exact Hs|]. split.
      * cbn. apply Forall_app. split; [exact Ht|].
        constructor; [exact I|constructor].
      * cbn. rewrite Hc, <- app_assoc. reflexivity.
    + constructor; [reflexivity|constructor].
  - apply Hsame. destruct H as (Hr & Hs & Ht & Hc).
    unfold plain, map_dom. cbn [dom timers]. cbv zeta. cbn [highlighting].
    destruct (highlighting (dom b));
      (split; [exact Hr|split; [exact Hs|split; [exact Ht|exact Hc]]]).
  - apply Hsame, plain_elapse, H.
Qed.

(** X21. Under reduced motion the anchors scroll without the pulse:
    over any sequence of clicks, scrolls and timer ticks the click
    listener never writes a style of a target, every call of
    [window.scrollTo] it makes has the behaviour [auto], and it makes at
    most one call per click. *)
Theorem reduced_motion_scrolls_without_pulse (d : state)
    (evs : list event) :
  prefersReducedMotion d = true ->
  let b := exec (initSmoothScrolling d) evs in
  (forall t, styles (dom b) t = styles d t) /\
  exists calls,
    scrollTo (dom b) = scrollTo d ++ calls /\
    Forall (fun c => snd c = Auto) calls /\
    (length calls <= length (filter is_click evs))%nat.
Proof.
  intros Hr. cbn zeta.
  assert (H0 : plain d [] (initSmoothScrolling d)).
  { split; [exact Hr|]. split; [reflexivity|]. split; [constructor|].
    cbn. symmetry. apply app_nil_r. }
  assert (Hgen : forall (b : page) calls, plain d calls b ->
            exists new,
              plain d (calls ++ new) (exec b evs) /\
              Forall (fun c => snd c = Auto) new /\
              (length new <= length (filter is_click evs))%nat).
  { induction evs as [|ev evs IH]; intros b calls H.
    - exists []. rewrite app_nil_r. split; [exact H|].
      split; [constructor|cbn; lia].
    - change (exec b (ev :: evs)) with (exec (step b ev) evs).
      destruct (plain_step d calls b ev H) as (n1 & H1 & L1 & A1).
      destruct (IH _ _ H1) as (n2 & H2 & A2 & L2).
      exists (n1 ++ n2). rewrite app_assoc. split; [exact H2|].
      split; [apply Forall_app; auto|].
      rewrite length_app, filter_cons.
      destruct (decide (is_click ev)) as [Hc|Hc];
        destruct (is_click ev); cbn [length] in *; cbn in Hc; try lia; tauto. }
  destruct (Hgen _ _ H0) as (calls & (_ & Hs & _ & Hc) & Ha & Hl).
  split; [exact Hs|]. exists calls. auto.
Qed.

End SmoothScrollFacts.

(** ** Staggered card reveals *)

Section HighlightFxFacts.
Import Timers Dom HighlightFx.
Variable stagger_ms : bool -> nat -> N.

Lemma run_frame a (b : page) :
  length (cards (dom (run a b))) = length (cards (dom b)) /\
  isMobile (dom (run a b)) = isMobile (dom b) /\
  observed (dom (run a b)) = observed (dom b) /\
  exists new, timers (run a b) = timers b ++ new /\
              Forall (fun t => exists j, act t = WillChangeAuto j) new.
Proof.
  destruct a as [i|i]; cbn [run].
  - split; [cbn; apply length_alter|]. split; [reflexivity|].
    split; [reflexivity|].
    eexists. split; [reflexivity|]. constructor; [eauto|constructor].
  - split; [cbn; apply length_alter|]. split; [reflexivity|].
    split; [reflexivity|].
    exists []. rewrite app_nil_r. split; [reflexivity|constructor].
Qed.

(** What a callback keeps of card [i]. *)
Lemma run_card_at i a (b : page) c :
  cards (dom b) !! i = Some c ->
  exists c',
    cards (dom (run a b)) !! i = Some c' /\ index c' = index c /\
    (shown c -> shown c') /\
    (hidden c -> hidden c' \/ shown c') /\
    (a = ShowCard i -> shown c') /\
    (a ≠ ShowCard i -> hidden c -> hidden c').
Proof.
  intros Hc.
  assert (Hsame : cards (dom (run a b)) !! i = Some c -> a ≠ ShowCard i ->
            exists c',
              cards (dom (run a b)) !! i = Some c' /\ index c' = index c /\
              (shown c -> shown c') /\
              (hidden c -> hidden c' \/ shown c') /\
              (a = ShowCard i -> shown c') /\
              (a ≠ ShowCard i -> hidden c -> hidden c')).
  { intros E Hne. exists c. split; [exact E|]. split; [reflexivity|].
    split; [auto|]. split; [auto|]. split; [|auto].
    intros Ha. contradiction. }
  destruct a as [j|j]; cbn [run setTimeout register fst dom map_dom with_dom
                             update_card cards] in *.
  - destruct (decide (j = i)) as [->|Hne].
    + rewrite list_lookup_alter_eq, Hc. exists (show c).
      split; [reflexivity|]. split; [reflexivity|].
      assert (Hs : shown (show c)) by (split; reflexivity).
      split; [auto|]. split; [auto|]. split; [auto|].
      intros Hn. contradiction.
    + apply Hsame; [|congruence].
      rewrite list_lookup_alter_ne by exact Hne. exact Hc.
  - destruct (decide (j = i)) as [->|Hne].
    + rewrite list_lookup_alter_eq, Hc. exists (will_change_auto c).
      split; [reflexivity|]. split; [reflexivity|].
      split; [auto|]. split; [auto|]. split; [discriminate|auto].
    + apply Hsame; [|discriminate].
      rewrite list_lookup_alter_ne by exact Hne. exact Hc.
Qed.

Lemma card_entry_spec (b : page) e :
  cards (dom (on_entry stagger_ms b e)) = cards (dom b) /\
  isMobile (dom (on_entry stagger_ms b e)) = isMobile (dom b) /\
  (forall j, j ∈ observed (dom (on_entry stagger_ms b e)) <->
             j ∈ observed (dom b) /\
             (hits j e = false \/ cards (dom b) !! j = None)) /\
  exists new,
    timers (on_entry stagger_ms b e) = timers b ++ new /\
    Forall (fun t => act t = ShowCard (target e) /\ isIntersecting e = true)
      new /\
    forall c, isIntersecting e = true ->
      cards (dom b) !! target e = Some c ->
      Exists (fun t => act t = ShowCard (target e) /\
                       remaining t =
                         N.max 1 (stagger_ms (isMobile (dom b)) (index c)))
        new.
Proof.
  unfold on_entry, hits. destruct (isIntersecting e) eqn:E; cbn [andb].
  - destruct (cards (dom b) !! target e) as [c|] eqn:Ec.
    + split; [reflexivity|]. split; [reflexivity|]. split.
      * intros j. cbn.
        rewrite (list_elem_of_filter (fun j => j ≠ target e) (observed (dom b)) j).
        rewrite Nat.eqb_neq. split.
        -- intros [H1 H2]. split; [exact H2|]. left. congruence.
        -- intros [H1 [H2 | H2]]; split; auto; congruence.
      * eexists. split; [reflexivity|]. split.
        -- constructor; [auto|constructor].
        -- intros c' _ [= <-]. apply Exists_cons_hd. split; reflexivity.
    + split; [reflexivity|]. split; [reflexivity|]. split.
      * intros j. split; [|tauto]. intros H. split; [exact H|].
        destruct (Nat.eqb_spec (target e) j) as [<-|Hne]; auto.
      * exists []. rewrite app_nil_r. split; [reflexivity|].
        split; [constructor|]. intros c _ Hc. congruence.
  - split; [reflexivity|]. split; [reflexivity|]. split.
    + intros j. tauto.
    + exists []. rewrite app_nil_r. split; [reflexivity|].
      split; [constructor|]. discriminate.
Qed.

Lemma callback_waiting i entries : forall b : page,
  existsb (hits i) entries = false ->
  waiting i b -> waiting i (callback stagger_ms entries b).
Proof.
  induction entries as [|e entries IH]; intros b Hh Hw; [exact Hw|].
  cbn [existsb] in Hh. apply orb_false_iff in Hh as [He Hh].
  unfold callback. cbn [fold_left]. apply IH; [exact Hh|].
  destruct Hw as ((c & Hc & Hhid) & Hobs & Ht).
  destruct (card_entry_spec b e) as (Hcards & _ & Ho & new & Hnew & Hall & _).
  split; [rewrite Hcards; eauto|]. split.
  - apply Ho. auto.
  - rewrite Hnew. apply Forall_app. split; [exact Ht|].
    eapply Forall_impl; [exact Hall|]. cbn. intros t [Ha Hi] Heq.
    rewrite Ha in Heq. injection Heq as Heq.
    unfold hits in He. rewrite Hi, Heq, Nat.eqb_refl in He. discriminate.
Qed.

Lemma callback_cards entries : forall b : page,
  cards (dom (callback stagger_ms entries b)) = cards (dom b) /\
  isMobile (dom (callback stagger_ms entries b)) = isMobile (dom b) /\
  exists new, timers (callback stagger_ms entries b) = timers b ++ new.
Proof.
  induction entries as [|e entries IH]; intros b.
  - split; [reflexivity|]. split; [reflexivity|].
    exists []. symmetry. apply app_nil_r.
  - unfold callback. cbn [fold_left].
    destruct (IH (on_entry stagger_ms b e)) as (H1 & H2 & l & H3).
    destruct (card_entry_spec b e) as (G1 & G2 & _ & new & G3 & _).
    unfold callback in *. rewrite H1, H2, H3, G1, G2, G3.
    split; [reflexivity|]. split; [reflexivity|].
    exists (new ++ l). rewrite app_assoc. reflexivity.
Qed.

Lemma callback_pending i entries : forall (b : page) c,
  existsb (hits i) entries = true ->
  cards (dom b) !! i = Some c ->
  show_pending i (N.max 1 (stagger_ms (isMobile (dom b)) (index c)))
    (callback stagger_ms entries b).
Proof.
  induction entries as [|e entries IH]; intros b c Hh Hc; [discriminate|].
  cbn [existsb] in Hh. unfold callback. cbn [fold_left].
  destruct (card_entry_spec b e) as (Hcards & Hmob & _ & new & Hnew & _ & Hex).
  destruct (existsb (hits i) entries) eqn:Hrest.
  - rewrite <- Hmob. apply IH; [reflexivity|]. rewrite Hcards. exact Hc.
  - rewrite orb_false_r in Hh. unfold hits in Hh.
    apply andb_true_iff in Hh as [Hi Ht]. apply Nat.eqb_eq in Ht.
    rewrite Ht in Hex. specialize (Hex c Hi Hc).
    apply Exists_exists in Hex as (t & Hin & Hact & Hrem).
    destruct (callback_cards entries (on_entry stagger_ms b e))
      as (H1 & _ & l & H3).
    unfold callback in *. split.
    + rewrite H1, Hcards. apply lookup_lt_is_Some. eauto.
    + exists t. rewrite H3, Hnew. split; [|split; [exact Hact|exact Hrem]].
      apply elem_of_app. left. apply elem_of_app. right. exact Hin.
Qed.

(** Card [i] keeps its index, and is hidden or shown. *)
Lemma run_two_states i n a (b : page) :
  (forall c, cards (dom b) !! i = Some c ->
             index c = n /\ (hidden c \/ shown c)) ->
  forall c, cards (dom (run a b)) !! i = Some c ->
            index c = n /\ (hidden c \/ shown c).
Proof.
  intros H c' Hc'.
  destruct (cards (dom b) !! i) as [c|] eqn:Hc.
  - destruct (run_card_at i a b c Hc) as (c2 & E & Hi & Hs & Hh & _).
    rewrite E in Hc'. injection Hc' as <-.
    destruct (H c eq_refl) as [Hn Hst]. split; [congruence|].
    destruct Hst as [Hst | Hst]; [apply Hh, Hst|right; apply Hs, Hst].
  - exfalso.
    assert (Hlt : (i < length (cards (dom b)))%nat).
    { rewrite <- (proj1 (run_frame a b)). apply lookup_lt_is_Some. eauto. }
    apply lookup_lt_is_Some in Hlt as [x Hx]. congruence.
Qed.

Lemma run_shown i a (b : page) : card_shown i b -> card_shown i (run a b).
Proof.
  intros (c & Hc & Hs).
  destruct (run_card_at i a b c Hc) as (c' & E & _ & Hk & _).
  exists c'. auto.
Qed.

Lemma step_shown i (b : page) ev :
  card_shown i b -> card_shown i (step stagger_ms b ev).
Proof.
  intros H. destruct ev as [entries|ms]; cbn [step].
  - unfold card_shown.
    rewrite (proj1 (callback_cards entries b)). exact H.
  - apply (elapse_keeps_inv run (card_shown i)).
    + intros a b'. apply run_shown.
    + intros b' Hb'. exact Hb'.
    + exact H.
Qed.

Lemma run_length a (b : page) :
  length (cards (dom (run a b))) = length (cards (dom b)).
Proof. apply run_frame. Qed.

Lemma show_pending_tick i r (b : page) :
  (1 <= r)%N -> show_pending i (N.succ r) b ->
  show_pending i r (tick_ms run b).
Proof.
  intros Hr (Hlt & t & Hin & Hact & Hrem). unfold tick_ms.
  set (b0 := {| dom := dom b; timers := _; next_tid := _ |}).
  assert (Hkeep : forall due (b' : page),
            (i < length (cards (dom b')))%nat /\ countdown t ∈ timers b' ->
            (i < length (cards (dom (run_all run due b'))))%nat /\
            countdown t ∈ timers (run_all run due b')).
  { intros due b'.
    apply (run_all_keeps run
             (fun b' => (i < length (cards (dom b')))%nat /\
                        countdown t ∈ timers b')).
    apply Forall_forall. intros tm _ b2 [H1 H2]. split.
    - rewrite run_length. exact H1.
    - destruct (run_frame (act tm) b2) as (_ & _ & _ & new & Hnew & _).
      rewrite Hnew. apply elem_of_app. left. exact H2. }
  destruct (Hkeep (filter is_due (countdown <$> timers b)) b0) as [H1 H2].
  { split; [exact Hlt|]. unfold b0. cbn [timers].
    apply elem_of_kept. exists t. split; [exact Hin|].
    left. split; [lia|reflexivity]. }
  split; [exact H1|]. exists (countdown t).
  split; [exact H2|]. split; [exact Hact|cbn; lia].
Qed.

Lemma show_pending_elapse i k : forall r (b : page),
  (1 <= r)%N -> show_pending i (r + k) b ->
  show_pending i r (elapse run k b).
Proof.
  induction k as [|k IH] using N.peano_ind; intros r b Hr H.
  - rewrite N.add_0_r in H. exact H.
  - rewrite elapse_succ. apply show_pending_tick; [exact Hr|].
    apply IH; [lia|]. replace (N.succ r + k)%N with (r + N.succ k)%N by lia.
    exact H.
Qed.

Lemma show_pending_last i (b : page) :
  show_pending i 1 b -> card_shown i (tick_ms run b).
Proof.
  intros (Hlt & t & Hin & Hact & Hrem). unfold tick_ms.
  assert (Hdue : countdown t ∈ filter is_due (countdown <$> timers b)).
  { apply elem_of_due. exists t. split; [exact Hin|]. split; [reflexivity|lia]. }
  apply list_elem_of_split in Hdue as (l1 & l2 & Hdue). rewrite Hdue.
  set (b0 := {| dom := dom b; timers := _; next_tid := _ |}).
  unfold run_all. rewrite fold_left_app. cbn [fold_left].
  change (act (countdown t)) with (act t). rewrite Hact.
  fold (run_all run l1 b0).
  assert (H1 : (i < length (cards (dom (run_all run l1 b0))))%nat).
  { apply (run_all_keeps run (fun b' => (i < length (cards (dom b')))%nat)).
    - apply Forall_forall. intros tm _ b2 H. rewrite run_length. exact H.
    - exact Hlt. }
  revert H1. generalize (run_all run l1 b0). intros b1 H1.
  change (card_shown i (run_all run l2 (run (ShowCard i) b1))).
  apply run_all_keeps.
  - apply Forall_forall. intros tm _ b2. apply run_shown.
  - apply lookup_lt_is_Some in H1 as [c Hc].
    destruct (run_card_at i (ShowCard i) b1 c Hc) as (c' & E & _ & _ & _ & Hs & _).
    exists c'. auto.
Qed.

Lemma waiting_elapse i ms (b : page) :
  waiting i b -> waiting i (elapse run ms b).
Proof.
  apply (elapse_keeps_guarded run (fun a => a ≠ ShowCard i) (waiting i)).
  - intros a b' Ha ((c & Hc & Hh) & Ho & Ht).
    destruct (run_card_at i a b' c Hc) as (c' & E & _ & _ & _ & _ & Hk).
    destruct (run_frame a b') as (_ & _ & Hobs & new & Hnew & Hall).
    split; [eauto|]. split; [rewrite Hobs; exact Ho|].
    rewrite Hnew. apply Forall_app. split; [exact Ht|].
    eapply Forall_impl; [exact Hall|]. cbn. intros t [j Hj]. rewrite Hj.
    discriminate.
  - intros b' (_ & _ & Ht). exact Ht.
  - intros b' (Hc & Ho & Ht). split; [exact Hc|]. split; [exact Ho|].
    cbn [timers]. apply (Forall_kept_gen _ _ _ Ht).
    + intros t H _. exact H.
    + intros t p H _ _. exact H.
Qed.

Lemma exec_waiting i evs : forall b : page,
  intersected i evs = false -> waiting i b ->
  waiting i (exec stagger_ms b evs).
Proof.
  induction evs as [|ev evs IH]; intros b Hi Hw; [exact Hw|].
  cbn [intersected existsb] in Hi. apply orb_false_iff in Hi as [He Hi].
  change (exec stagger_ms b (ev :: evs))
    with (exec stagger_ms (step stagger_ms b ev) evs).
  apply IH; [exact Hi|]. destruct ev as [entries|ms]; cbn [step].
  - apply callback_waiting; assumption.
  - apply waiting_elapse, Hw.
Qed.

Lemma exec_two_states i n evs : forall b : page,
  (forall c, cards (dom b) !! i = Some c ->
             index c = n /\ (hidden c \/ shown c)) ->
  (forall c, cards (dom (exec stagger_ms b evs)) !! i = Some c ->
             index c = n /\ (hidden c \/ shown c)) /\
  isMobile (dom (exec stagger_ms b evs)) = isMobile (dom b) /\
  length (cards (dom (exec stagger_ms b evs))) = length (cards (dom b)).
Proof.
  induction evs as [|ev evs IH]; intros b H; [auto|].
  change (exec stagger_ms b (ev :: evs))
    with (exec stagger_ms (step stagger_ms b ev) evs).
  assert (Hstep :
    (forall c, cards (dom (step stagger_ms b ev)) !! i = Some c ->
               index c = n /\ (hidden c \/ shown c)) /\
    isMobile (dom (step stagger_ms b ev)) = isMobile (dom b) /\
    length (cards (dom (step stagger_ms b ev))) = length (cards (dom b))).
  { destruct ev as [entries|ms]; cbn [step].
    - destruct (callback_cards entries b) as (H1 & H2 & _).
      rewrite H1, H2. auto.
    - apply (elapse_keeps_inv run
               (fun b' =>
                  (forall c, cards (dom b') !! i = Some c ->
                             index c = n /\ (hidden c \/ shown c)) /\
                  isMobile (dom b') = isMobile (dom b) /\
                  length (cards (dom b')) = length (cards (dom b)))).
      + intros a b' (G1 & G2 & G3). split; [apply run_two_states, G1|].
        destruct (run_frame a b') as (Hl & Hm & _).
        rewrite Hm, Hl. auto.
      + intros b' Hb'. exact Hb'.
      + auto. }
  destruct Hstep as (S1 & S2 & S3).
  destruct (IH (step stagger_ms b ev) S1) as (I1 & I2 & I3).
  split; [exact I1|]. split; congruence.
Qed.

(** X22. A card hidden by [initHighlightEffects] is shown once, after
    its stagger delay: as long as no entry has reported the card as
    intersecting it is hidden and observed; it is always either hidden
    (opacity 0, moved down 30 px) or shown (opacity 1, not moved); and
    once an entry reports it as intersecting, it is shown when its
    stagger delay has passed and stays shown whatever happens later. *)
Theorem card_shown_after_stagger (innerWidth : Z) (cards0 : list card)
    (evs : list event) (i : nat) (c0 : card) :
  cards0 !! i = Some c0 ->
  let b := exec stagger_ms (initHighlightEffects innerWidth cards0) evs in
  (intersected i evs = false -> waiting i b) /\
  (forall c, cards (dom b) !! i = Some c -> hidden c \/ shown c) /\
  forall entries later,
    existsb (hits i) entries = true ->
    let wait := N.max 1 (stagger_ms (innerWidth <=? 768)%Z (index c0)) in
    card_shown i
      (exec stagger_ms b ([Intersect entries; Elapse wait] ++ later)).
Proof.
  intros Hc0. cbn zeta.
  set (b0 := initHighlightEffects innerWidth cards0).
  assert (Hb0 : cards (dom b0) !! i = Some (hide c0)).
  { unfold b0. cbn. rewrite list_lookup_fmap, Hc0. reflexivity. }
  assert (Hw0 : waiting i b0).
  { split; [exists (hide c0); split; [exact Hb0|split; reflexivity]|].
    split; [|constructor]. cbn. apply elem_of_seq.
    apply lookup_lt_Some in Hc0. lia. }
  assert (H2 : forall c, cards (dom b0) !! i = Some c ->
                 index c = index c0 /\ (hidden c \/ shown c)).
  { intros c Hc. rewrite Hb0 in Hc. injection Hc as <-.
    split; [reflexivity|]. left. split; reflexivity. }
  destruct (exec_two_states i (index c0) evs b0 H2)
    as (Hst & Hmob & Hlen).
  split; [intros Hi; apply exec_waiting; assumption|].
  split; [intros c Hc; apply (Hst c Hc)|].
  intros entries later Hh.
  assert (Hlt : (i < length (cards (dom (exec stagger_ms b0 evs))))%nat).
  { rewrite Hlen. apply lookup_lt_is_Some. eauto. }
  apply lookup_lt_is_Some in Hlt as [c Hc].
  destruct (Hst c Hc) as [Hidx _].
  pose proof (callback_pending i entries _ c Hh Hc) as Hp.
  rewrite Hmob, Hidx in Hp. change (isMobile (dom b0)) with (innerWidth <=? 768)%Z in Hp.
  revert Hp. generalize (exec stagger_ms b0 evs). intros b Hp.
  unfold exec. rewrite fold_left_app. cbn [fold_left step].
  set (wait := N.max 1 (stagger_ms (innerWidth <=? 768)%Z (index c0))) in *.
  assert (Hshown : card_shown i (elapse run wait (callback stagger_ms entries b))).
  { replace wait with (N.succ (N.pred wait)) by (unfold wait; lia).
    rewrite elapse_succ. apply show_pending_last.
    apply show_pending_elapse; [lia|].
    replace (1 + N.pred wait)%N with wait by (unfold wait; lia). exact Hp. }
  revert Hshown. generalize (elapse run wait (callback stagger_ms entries b)).
  clear. intros b H. revert b H.
  induction later as [|ev later IH]; intros b H; [exact H|].
  apply IH, step_shown, H.
Qed.

End HighlightFxFacts.

(** ** The further properties at concrete pages *)

(** X2 for a header 80 px high, scrolled from 100 to 200 px. *)
Lemma hero_fades_out_monotonically_witness :
  (63 <= 80)%Z /\ (100 <= 200)%Q /\
  let opacity s :=
    ScrollFx.hero_opacity
      (ScrollFx.updateHeroFade (JSNum.Fin s) (JSNum.of_Z 80)) in
  JSNumRel.fin_le (opacity 200%Q) (opacity 100%Q) /\
  ((100 <= 50)%Q -> JSNumRel.fin_eq (opacity 100%Q) 1) /\
  ((inject_Z 80 * 0.8 <= 200)%Q -> JSNumRel.fin_eq (opacity 200%Q) 0).
Proof.
  assert (H1 : (63 <= 80)%Z) by lia.
  assert (H2 : (100 <= 200)%Q) by (unfold Qle; cbn; lia).
  split; [exact H1|]. split; [exact H2|].
  exact (hero_fades_out_monotonically 80 100 200 H1 H2).
Defined.

(** X3 for a header 40 px high at a scroll of 10 px. *)
Lemma hero_fade_inverted_for_short_header_witness :
  (0 <= 40 <= 62)%Z /\
  let opacity :=
    ScrollFx.hero_opacity
      (ScrollFx.updateHeroFade (JSNum.Fin 10) (JSNum.of_Z 40)) in
  ((10 <= inject_Z 40 * 0.8)%Q -> JSNumRel.fin_eq opacity 0) /\
  ((50 <= 10)%Q -> JSNumRel.fin_eq opacity 1).
Proof.
  assert (H : (0 <= 40 <= 62)%Z) by lia.
  split; [exact H|]. exact (hero_fade_inverted_for_short_header 40 10 H).
Defined.

(** X4 for eight orbs in a section 600 px high whose top is 100 px above
    the viewport, in a window 1280 px wide. *)
Lemma orb_opacity_capped_witness :
  (0 <= 600)%Z /\
  Forall (fun o =>
            JSNumRel.fin_between 0 (if (1280 <=? 768)%Z then 0.75 else 0.85)%Q
              (ScrollFx.orb_opacity o))
    (ScrollFx.updateOrbPositions (fun _ => 0%Q) 3.14159%Q
       (JSNum.Fin (-100)) 600 1280 8).
Proof.
  assert (H : (0 <= 600)%Z) by lia.
  split; [exact H|].
  exact (orb_opacity_capped (fun _ => 0%Q) 3.14159%Q (-100) 600 1280 8 H).
Defined.

(** X6 for a window 800 px high and a section 1000 px high whose top
    is 100 px below the top of the viewport. *)
Lemma section_theme_plateau_witness :
  (0 < 800)%Q /\ (0 < 1000)%Q /\
  let w :=
    Themes.sectionTheme (JSNum.Fin 800) (JSNum.Fin 100) (JSNum.Fin 1000) in
  ((- 1000 * 0.65 <= 100 <= 800 * 0.45)%Q ->
   exists p, w = Themes.SetDark p /\ JSNumRel.fin_eq p 1) /\
  ((800 * 0.8 <= 100)%Q \/ (100 <= - 1000 * 0.9)%Q ->
   w = Themes.ClearDark).
Proof.
  assert (H1 : (0 < 800)%Q) by reflexivity.
  assert (H2 : (0 < 1000)%Q) by reflexivity.
  split; [exact H1|]. split; [exact H2|].
  exact (section_theme_plateau 800 100 1000 H1 H2).
Defined.

(** X9 on the closed menu: a click on the overlay, Escape, a resize and
    the resize check. *)
Lemma only_toggle_click_opens_witness :
  let evs :=
    [MenuEvents.Click [MenuEvents.OverlayEl];
     MenuEvents.KeyDown MenuEvents.Escape [];
     MenuEvents.Resize 1024 1009; MenuEvents.Elapse 100] in
  MenuEvents.isOpen MenuEvents.demo_page = false /\
  forallb (fun ev => negb (MenuEvents.reaches_toggle ev)) evs = true /\
  MenuEvents.isOpen (MenuEvents.exec MenuEvents.demo_page evs) = false.
Proof.
  cbv zeta.
  assert (H1 : MenuEvents.isOpen MenuEvents.demo_page = false) by reflexivity.
  split; [exact H1|]. split; [reflexivity|].
  exact (only_toggle_click_opens MenuEvents.demo_page
           [MenuEvents.Click [MenuEvents.OverlayEl];
            MenuEvents.KeyDown MenuEvents.Escape [];
            MenuEvents.Resize 1024 1009; MenuEvents.Elapse 100]
           H1 eq_refl).
Defined.

(** X10 on the opened menu, closed with Escape. *)
Lemma closing_returns_focus_witness :
  let b := MenuEvents.toggleMenu MenuEvents.demo_page in
  let ev := MenuEvents.KeyDown MenuEvents.Escape [] in
  MenuEvents.isOpen b = true /\ MenuEvents.closes ev = true /\
  MenuEvents.isOpen (MenuEvents.step b ev) = false /\
  MenuEvents.isOpen (MenuEvents.exec b [ev; MenuEvents.Elapse 50]) = false /\
  Menu.activeElement
    (MenuEvents.menu
       (Timers.dom (MenuEvents.exec b [ev; MenuEvents.Elapse 50]))) =
    Some Menu.MenuToggle.
Proof.
  cbv zeta. split; [reflexivity|]. split; [reflexivity|].
  exact (closing_returns_focus (MenuEvents.toggleMenu MenuEvents.demo_page)
           (MenuEvents.KeyDown MenuEvents.Escape []) eq_refl eq_refl).
Defined.

(** X11 on the closed menu, for a resize to a desktop width after an
    earlier resize. *)
Lemma resize_check_debounced_witness :
  let d := Timers.dom Menu.demo_closed in
  let evs := [MenuEvents.Resize 800 785; MenuEvents.Elapse 30] in
  MenuEvents.initMobileMenu true true true d = Some MenuEvents.demo_page /\
  let b := MenuEvents.exec MenuEvents.demo_page evs in
  (length (filter MenuEvents.is_resize_check (Timers.timers b)) <= 1)%nat /\
  let b' :=
    MenuEvents.exec b [MenuEvents.Resize 1024 1009; MenuEvents.Elapse 100] in
  ((768 < 1024)%Z -> MenuEvents.isOpen b' = false) /\
  (MenuEvents.isOpen b' = true ->
   Menu.body_scrollbar_width (MenuEvents.menu (Timers.dom b')) =
     Some (1024 - 1009)%Z).
Proof.
  cbv zeta. split; [reflexivity|].
  exact (resize_check_debounced true true true (Timers.dom Menu.demo_closed)
           MenuEvents.demo_page
           [MenuEvents.Resize 800 785; MenuEvents.Elapse 30] 1024 1009
           eq_refl).
Defined.

(** X15 on the panel with four indicators, after a click on the third
    indicator and half a second. *)
Lemma phase_index_in_bounds_witness :
  let b0 :=
    Lifecycle.startAutoRotate
      (Lifecycle.updateDisplay 0 false
         {| Timers.dom := Lifecycle.demo_panel; Timers.timers := [];
            Timers.next_tid := 1 |}) in
  let evs := [Lifecycle.ClickIndicator 2; Lifecycle.Elapse 500] in
  Lifecycle.initLifecyclePanel true true true true Lifecycle.demo_panel =
    Some b0 /\
  (length (Lifecycle.indicators Lifecycle.demo_panel) <= 4)%nat /\
  let b := Lifecycle.exec b0 evs in
  (Lifecycle.currentPhase (Timers.dom b) < length Lifecycle.phases)%nat /\
  length (Lifecycle.indicators (Timers.dom b)) =
    length (Lifecycle.indicators Lifecycle.demo_panel) /\
  Forall (fun t => forall i a,
            Timers.act t = Lifecycle.UpdateContent i a ->
            is_Some (Lifecycle.phases !! i)) (Timers.timers b).
Proof.
  cbv zeta.
  assert (H : (length (Lifecycle.indicators Lifecycle.demo_panel) <= 4)%nat)
    by (cbn; lia).
  split; [reflexivity|]. split; [exact H|].
  exact (phase_index_in_bounds true true true true Lifecycle.demo_panel _
           [Lifecycle.ClickIndicator 2; Lifecycle.Elapse 500] eq_refl H).
Defined.

(** X16 on the same panel: a click on the third indicator while the
    pointer is over the display. *)
Lemma indicator_click_jumps_witness :
  let b0 :=
    Lifecycle.startAutoRotate
      (Lifecycle.updateDisplay 0 false
         {| Timers.dom := Lifecycle.demo_panel; Timers.timers := [];
            Timers.next_tid := 1 |}) in
  let evs := [Lifecycle.MouseEnter] in
  Lifecycle.initLifecyclePanel true true true true Lifecycle.demo_panel =
    Some b0 /\
  Lifecycle.hover_ok false evs = true /\
  let b := Lifecycle.exec b0 evs in
  (2 < length Lifecycle.phases)%nat /\
  (2 < length (Lifecycle.indicators Lifecycle.demo_panel))%nat /\
  2%nat ≠ Lifecycle.currentPhase (Timers.dom b) /\
  let b1 := Lifecycle.exec b [Lifecycle.ClickIndicator 2] in
  let b2 :=
    Lifecycle.exec b [Lifecycle.ClickIndicator 2; Lifecycle.Elapse 400] in
  Lifecycle.currentPhase (Timers.dom b1) = 2%nat /\
  Lifecycle.rotating 4000 b1 /\
  Lifecycle.currentPhase (Timers.dom b2) = 2%nat /\
  Lifecycle.rotating 3600 b2 /\
  Lifecycle.title_text (Timers.dom b2) = Lifecycle.title_of 2 /\
  forall k, (k < length (Lifecycle.indicators Lifecycle.demo_panel))%nat ->
    Lifecycle.indicators (Timers.dom b2) !! k = Some (k =? 2)%nat.
Proof.
  cbv zeta.
  assert (H1 : (2 < length Lifecycle.phases)%nat) by (cbn; lia).
  assert (H2 : (2 < length (Lifecycle.indicators Lifecycle.demo_panel))%nat)
    by (cbn; lia).
  split; [reflexivity|]. split; [reflexivity|]. split; [exact H1|].
  split; [exact H2|]. split; [discriminate|].
  exact (indicator_click_jumps true true true true Lifecycle.demo_panel _
           [Lifecycle.MouseEnter] 2 eq_refl eq_refl H1 H2
           ltac:(discriminate)).
Defined.

(** X17 on the same panel: the pointer enters, the third indicator is
    clicked, and the pointer leaves 100 ms later. *)
Lemma hover_click_leaves_interval_running_witness :
  let b0 :=
    Lifecycle.startAutoRotate
      (Lifecycle.updateDisplay 0 false
         {| Timers.dom := Lifecycle.demo_panel; Timers.timers := [];
            Timers.next_tid := 1 |}) in
  let evs := [Lifecycle.MouseEnter] in
  Lifecycle.initLifecyclePanel true true true true Lifecycle.demo_panel =
    Some b0 /\
  Lifecycle.hover_ok false evs = true /\
  Lifecycle.ends_inside false evs = true /\
  let b := Lifecycle.exec b0 evs in
  (2 < length Lifecycle.phases)%nat /\
  (2 < length (Lifecycle.indicators Lifecycle.demo_panel))%nat /\
  2%nat ≠ Lifecycle.currentPhase (Timers.dom b) /\
  let b3 :=
    Lifecycle.exec b
      [Lifecycle.ClickIndicator 2; Lifecycle.Elapse 100;
       Lifecycle.MouseLeave] in
  let b4 := Lifecycle.exec b3 [Lifecycle.MouseEnter] in
  Lifecycle.paused b /\ length (Lifecycle.rotors b3) = 2%nat /\
  length (Lifecycle.rotors b4) = 1%nat /\ ~ Lifecycle.paused b4.
Proof.
  cbv zeta.
  assert (H1 : (2 < length Lifecycle.phases)%nat) by (cbn; lia).
  assert (H2 : (2 < length (Lifecycle.indicators Lifecycle.demo_panel))%nat)
    by (cbn; lia).
  split; [reflexivity|]. split; [reflexivity|]. split; [reflexivity|].
  split; [exact H1|]. split; [exact H2|]. split; [discriminate|].
  exact (hover_click_leaves_interval_running true true true true
           Lifecycle.demo_panel _ [Lifecycle.MouseEnter] 2 100
           eq_refl eq_refl eq_refl H1 H2 ltac:(discriminate)).
Defined.

(** C5 on the same panel: the pointer enters the display and the third
    indicator is clicked; the panel goes on advancing under the
    pointer. *)
Lemma hover_after_click_keeps_advancing_witness :
  let b0 :=
    Lifecycle.startAutoRotate
      (Lifecycle.updateDisplay 0 false
         {| Timers.dom := Lifecycle.demo_panel; Timers.timers := [];
            Timers.next_tid := 1 |}) in
  let evs := [Lifecycle.MouseEnter] in
  Lifecycle.initLifecyclePanel true true true true Lifecycle.demo_panel =
    Some b0 /\
  Lifecycle.hover_ok false evs = true /\
  Lifecycle.ends_inside false evs = true /\
  let b := Lifecycle.exec b0 evs in
  (2 < length Lifecycle.phases)%nat /\
  (2 < length (Lifecycle.indicators Lifecycle.demo_panel))%nat /\
  2%nat ≠ Lifecycle.currentPhase (Timers.dom b) /\
  Lifecycle.paused b /\
  (forall t : N,
     Lifecycle.currentPhase
       (Timers.dom
          (Lifecycle.exec b
             [Lifecycle.ClickIndicator 2; Lifecycle.Elapse t])) =
     ((2 + N.to_nat (t / 4000)) mod 4)%nat) /\
  (forall t k : N,
     Lifecycle.currentPhase
       (Timers.dom
          (Lifecycle.exec b
             [Lifecycle.ClickIndicator 2; Lifecycle.Elapse t;
              Lifecycle.MouseLeave; Lifecycle.MouseEnter;
              Lifecycle.Elapse k])) =
     ((2 + N.to_nat ((t + k) / 4000)) mod 4)%nat).
Proof.
  cbv zeta.
  assert (H1 : (2 < length Lifecycle.phases)%nat) by (cbn; lia).
  assert (H2 : (2 < length (Lifecycle.indicators Lifecycle.demo_panel))%nat)
    by (cbn; lia).
  split; [reflexivity|]. split; [reflexivity|]. split; [reflexivity|].
  split; [exact H1|]. split; [exact H2|]. split; [discriminate|].
  exact (hover_after_click_keeps_advancing true true true true
           Lifecycle.demo_panel _ [Lifecycle.MouseEnter] 2
           eq_refl eq_refl eq_refl H1 H2 ltac:(discriminate)).
Defined.

(** X19 on the form with one field, after a submission that
    succeeded. *)
Lemma messages_removed_within_5s_witness :
  let response :=
    {| Waitlist.ok := true; Waitlist.status := 200; Waitlist.body := "{}" |} in
  let evs :=
    [Waitlist.Click; Waitlist.Settle 0 (Waitlist.Resolved response)] in
  Forall (fun e => (Waitlist.node e < Waitlist.next_node Waitlist.demo_form)%nat)
    (Waitlist.children Waitlist.demo_form) /\
  let s :=
    Waitlist.exec (Waitlist.initWaitlistForm Waitlist.demo_form)
      (evs ++ [Waitlist.Elapse 5000]) in
  Waitlist.children (Timers.dom (Waitlist.pg s)) =
    Waitlist.children Waitlist.demo_form /\
  Timers.timers (Waitlist.pg s) = [].
Proof.
  cbv zeta.
  assert (H : Forall (fun e => (Waitlist.node e <
                                Waitlist.next_node Waitlist.demo_form)%nat)
                (Waitlist.children Waitlist.demo_form)) by constructor.
  split; [exact H|].
  exact (messages_removed_within_5s Waitlist.demo_form _ H).
Defined.

(** X21 on a page with one anchor whose target exists, clicked once. *)
Lemma reduced_motion_scrolls_without_pulse_witness :
  let d := SmoothScroll.demo_page true in
  let evs := [SmoothScroll.Click 0; SmoothScroll.Elapse 300] in
  SmoothScroll.prefersReducedMotion d = true /\
  let b := SmoothScroll.exec (SmoothScroll.initSmoothScrolling d) evs in
  (forall t, SmoothScroll.styles (Timers.dom b) t = SmoothScroll.styles d t) /\
  exists calls,
    SmoothScroll.scrollTo (Timers.dom b) = SmoothScroll.scrollTo d ++ calls /\
    Forall (fun c => snd c = SmoothScroll.Auto) calls /\
    (length calls <= length (filter SmoothScroll.is_click evs))%nat.
Proof.
  cbv zeta. split; [reflexivity|].
  exact (reduced_motion_scrolls_without_pulse (SmoothScroll.demo_page true)
           [SmoothScroll.Click 0; SmoothScroll.Elapse 300] eq_refl).
Defined.

(** X22 for the second of two cards in a window 1280 px wide, with
    timeouts of 100 ms per index. *)
Lemma card_shown_after_stagger_witness :
  let stagger_ms := fun (mobile : bool) (index : nat) =>
    (N.of_nat index * (if mobile then 50 else 100))%N in
  let c0 := {| HighlightFx.index := 1; HighlightFx.opacity := "";
               HighlightFx.transform := ""; HighlightFx.transition := "";
               HighlightFx.willChange := "" |} in
  let evs := [HighlightFx.Elapse 200] in
  HighlightFx.demo_cards !! 1%nat = Some c0 /\
  let b :=
    HighlightFx.exec stagger_ms
      (HighlightFx.initHighlightEffects 1280 HighlightFx.demo_cards) evs in
  (HighlightFx.intersected 1 evs = false -> HighlightFx.waiting 1 b) /\
  (forall c, HighlightFx.cards (Timers.dom b) !! 1%nat = Some c ->
     HighlightFx.hidden c \/ HighlightFx.shown c) /\
  forall entries later,
    existsb (HighlightFx.hits 1) entries = true ->
    let wait :=
      N.max 1 (stagger_ms (1280 <=? 768)%Z (HighlightFx.index c0)) in
    HighlightFx.card_shown 1
      (HighlightFx.exec stagger_ms b
         ([HighlightFx.Intersect entries; HighlightFx.Elapse wait] ++ later)).
Proof.
  cbv zeta. split; [reflexivity|].
  exact (card_shown_after_stagger
           (fun (mobile : bool) (index : nat) =>
              (N.of_nat index * (if mobile then 50 else 100))%N)
           1280 HighlightFx.demo_cards [HighlightFx.Elapse 200] 1
           {| HighlightFx.index := 1; HighlightFx.opacity := "";
              HighlightFx.transform := ""; HighlightFx.transition := "";
              HighlightFx.willChange := "" |}
           eq_refl).
Defined.
